(* ===== verification/_CoqProject ===== *)
-Q . S2P
Prelude.v
Items.v
Identity.v
Quarantine.v
Types.v
Chain.v
Transcript.v
Config.v
Runner.v
Toy.v
Notes.v
Stream.v
Attempt.v
Turn.v
Batch.v
Nested.v
Ask.v
Execute.v
Loop.v
Logic.v
Trace.v
Bounds.v
Ends.v
Pairs.v
Calls.v
Ids.v
Batches.v
Executor.v
Outputs.v
Answers.v
Invoke.v
Invoked.v
Invocations.v
Agent.v
Interleave.v
Questions.v
Asked.v
Replies.v
Waiting.v
Deliver.v
Mirror.v
Hosted.v
Routes.v
Team.v
Switched.v
Compact.v
Folds.v
Numbers.v
Canonical.v
Canonicity.v
Readback.v
Hash.v
Entries.v
Writer.v
Ledger.v
Grammar.v
Order.v
Frame.v
Recorded.v
Reported.v
Logged.v
Owed.v
RecordToy.v
ReportToy.v
Readers.v
Reread.v
RereadToy.v
