(* ===== verification/Prelude.v ===== *)
(** * agentturn: a verification development (root file)

    agentturn is a Go library that runs the turns of a language-model agent: it calls the
    model, runs the tools the model asks for, appends what comes of it to a transcript,
    tells subscribers of every step, and writes the conversation down as a session. This
    development models that core and proves what it promises. This file, the root, holds
    the notation, the tactics and the generic lemmas the other files share.

    ** The program and the files

    The loop ([src/run.go], [config.go], [chain.go], [items.go], [reasoning.go],
    [persons.go], [quarantine.go]). A run is one value of type [runner] and a program in the
    monad [M] of [Runner.v]: it changes its own state, steps the world it shares with the
    agent, its hooks, its tools and the model, and returns a value, an error, a panic or
    [OutOfFuel]. Every event sent is kept, in order, in the [log].
    - [Items.v], [Identity.v], [Quarantine.v]: an item's marks and provenance; which model
      produced a reasoning item and which messages a person wrote; the items left out of
      every request. Items are compared by address, as pointers in the code.
    - [Types.v], [Chain.v], [Config.v]: the records exchanged, hooks joined into one, the
      configuration, the request a turn starts from, the retry policy.
    - [Transcript.v]: the unanswered calls, the pending ones and the filters.
    - [Runner.v], [Notes.v]: the run's state, its events and queues; what is said about a
      call until its output is in the transcript.
    - [Stream.v], [Attempt.v], [Turn.v]: one attempt at a request event by event
      ([runner.stream]), call IDs, the response rewritten to the transcript's calls, the
      attempts, the retries and the fold of a turn ([modelTurn]).
    - [Batch.v], [Execute.v]: the calls of a turn decided, run by the executor of tools and
      settled, or cut short ([toolBatch], [execute], [collect]).
    - [Nested.v], [Ask.v], [Invoke.v]: the nested calls a record holds and how an invocation
      is matched with one; a call put to whoever answers for the user ([Ask] of [ask.go]);
      [runner.invoke], [replayNested] and [endNested].
    - [Loop.v]: [run], [loop] and [pending], from the prompts to the run_end.
    - [Answers.v]: the answers to pending calls, [Agent.Resume]'s checks, [runAgain].

    The agent ([src/agent.go], [control.go]).
    - [Agent.v], [Interleave.v]: the state under the agent's lock, each section of an
      operation that takes it, and executions of those sections in any interleaving.
    - [Deliver.v], [Mirror.v], [Hosted.v]: the delivery barrier as one run sees it, and a run
      of the loop driven by an agent ([Prompt], [Continue], [Resume], [Deliver]).
    - [Questions.v]: the barrier as its goroutines contend for it: [ask], [Reply],
      [Subscribe], [flushReplay] and [unlockEmit] cut into pieces at every lock, wait and
      call of a subscriber.

    Handoffs ([src/handoff/handoff.go], [src/front/responses/handoff.go]).
    - [Routes.v]: the transfers a transcript holds, and the conversation trimmed at each.
    - [Team.v]: a team's tools and routes, and [Team.follow], which switches the agent of
      [Deliver.v] from sender to receiver.

    Compaction ([src/compact/compact.go]): [Compact.v], the transform that replaces the head
    of a transcript with a summary; [Folds.v], its theorems.

    The session ([src/session/]).
    - [Numbers.v], [Canonical.v], [Canonicity.v], [Readback.v], [Hash.v]: [hash.go], the
      canonical form of a JSON document and the hash of a request.
    - [Entries.v], [Writer.v], [Ledger.v], [Frame.v]: the entries of a session, the writer's
      appends and inbox, what it records of each call, and [writer.handle], which every
      event of a run goes through ([session.go], [callee.go]). The writer's actions are a
      monad of their own: one that fails keeps what it wrote.
    - [Owed.v]: the notes held, read back ([OwedNotes]).
    - [Readers.v], [Reread.v]: what a path's entries say of the nested calls, the questions
      and the withdrawals ([nestedRecords], [openQuestions]), the tools of a config delta
      ([toolDelta]), and how that agrees with what was written and with what the loop keeps.

    [Toy.v], [RecordToy.v], [ReportToy.v] and the modules named [...Toy] are concrete
    instances the definitions are evaluated on. The other files are theorems.

    ** How the parts meet

    The loop is written against an environment, [Env]: the consumer of events, the queues
    of an agent, the context, the model's stream and the executor of tools. [Deliver.v]
    makes an environment of an agent, and [Mirror.v] proves that a run in it is an execution
    of the agent's sections: the abstract machine of [Interleave.v] is what the detailed run
    refines. A hook, a subscriber or a stream may use the agent meanwhile; [Civil] says it
    does so through the agent's operations. The writer of a session is a consumer of the
    same events: [Logged.v] quantifies over every list of them, and [Reported.v] over those
    that come in the order the loop sends them, an order of the events alone that
    [ReportToy.v] evaluates on a run of the loop's.

    ** The theorems

    - Every step of a run ([Logic.v] lists what a property must be checked of, once):
      [Trace.v], the events of a run tell its transcript; [Bounds.v], a run ends, within its
      turns and its calls of the model; [Ends.v], how it ends.
    - A turn: [Pairs.v], [Calls.v], [Ids.v], the calls acted on are the transcript's and an
      attempt that changed the transcript is not retried; [Batches.v], [Executor.v],
      [Outputs.v], every call of the run's own that is started is ended, and what outputs a
      batch leaves; [Notes.v], no note is lost.
    - A nested call: [Invoked.v], [Invocations.v], an invocation returns and reports one
      call, or nothing when its decision hook fails; a call its policy deferred runs only if
      the run's own elicitor accepted.
    - The agent: [Interleave.v], queues are first in, first out, the state is well formed, a
      delivery is told what is true of it and its waiter is woken; [Mirror.v], the agent
      mirrors its run, and a run driven by it refines the sections.
    - Questions: [Asked.v], each subscriber is told of a question once and of its close once
      and after it; [Replies.v], the one reply accepted is what the asker returns,
      what its watchers hold and what the close carries, and nobody is left stuck;
      [Waiting.v], the questions held as waiting have not returned.
    - Handoffs: [Routes.v], the transfers found are exactly those answered by the tool's
      own text, and a front shows a conversation as the agent that ran it holds it, when each
      run ends with its one handoff; [Switched.v], a team's transfer reaches the agent it
      names, and the handoffs one input causes are bounded: only deliveries that keep coming
      can keep it going.
    - Compaction ([Folds.v]): no call is cut from its output, what is left out was folded,
      a fold that failed is not asked for again until the transcript has grown.
    - The canonical form ([Readback.v], [Hash.v]): two documents have one canonical text
      exactly when they have one value; the hash computed member by member is that of the
      whole request.
    - The record ([Grammar.v], [Order.v], [Recorded.v], [Reported.v], [Logged.v], [Owed.v],
      [Entries.v]): the entries about a call are in the format's order, as long as runs
      report in the loop's, wherever an append fails, a
      hand-off is on the record before the tool runs, each item is recorded once, and what
      was written of notes, marks and triggers is read back.
    - The record read ([Reread.v]): a nested call's record is the one the loop keeps of its
      attempts where the writer was told the whole of them, each call is read once, and a
      delta of the tools rebuilds their list.
    - Where the code does otherwise than it says, the behaviour is a theorem too:
      [Hosted.run_end_lost], [Folds.quarantined_meanwhile],
      [Waiting.QuestionToy.close_lost] and [replay_lost], [Config.DefaultBackoff_overflows],
      [Readback.Documents.trailing_bracket_taken], [Switched.TeamToy.late_output_orphaned] and
      [passed_over_trimmed], and [withdrawal_of_another], [arguments_of_another] and
      [invoked_with_none] of [RereadToy].

    ** Fuel and bounds

    [attempts] is given [MaxAttempts + 2], and [Bounds.attempts_ends] shows that the calls
    left ([callsLeft]: the attempts and one fold) stay below it. [run] takes its fuel as an
    argument and [Bounds.run_bounded] needs [MaxTurns] of it. The releases of the barrier
    are bounded by the code itself ([maxQueuedPasses]) for reports; how often it is found
    free is the host's list in [Deliver.v] and a piece of its own in [Questions.v]. The
    decoder's fuel is twice the length of its text and one, and it refuses a nesting of more
    than 10000 as [encoding/json] does; the shortest decimal is searched for up to 17 digits,
    with the exact expansion after. [heldCall] climbs a call's parents with fuel one above
    their number, as [climb] does by the number of calls a path names. [follow] makes a
    pass for each handoff it follows and one for each run it continues for a delivery that
    waited: the code bounds the first and not the second, so [Switched.handoffs_bounded] has
    it return within any number of passes larger than the limit and the runs continued.
    Durations, attempts and counts that can overflow are kept at 64 bits where the code
    computes with them ([Config.v]); token estimates are unbounded integers.

    ** What is assumed of code that is not here

    [Externals], [Tools], [Accumulator] (the libraries openresponses and agenttool),
    [Libraries] and [Others] (what compaction estimates with), [Encoding] (SHA-256, the
    JSON of a request), [Format] (agentsession's reading of entries), [Recording], [Tooling],
    [Setting], [Owing], [Reading] (the store, child sessions, settings, the JSON of an entry's
    data) are classes; their laws
    ([FormatLaws], [RecordingLaws], [OwingLaws]) are assumed only where a theorem names them.
    [Executor.contract] says what the executor of tools owes for a batch, [oneJob] for the
    one job of a nested call; [Mirror.Civil] what the host owes the agent. [mute] says
    that an elicitor sends no event of the run's; [Reported.storeRefuses] that the store,
    which checks an entry against its session's path, takes no hand-off of a call whose
    answer the path holds. Each theorem that assumes one has a
    concrete instance.

    ** Not modelled

    - The fronts ([src/front/]) but for the handoffs of a transcript, and the agent and A2A
      tools ([src/tools/]): protocol servers, clients and tools over SDKs that are not here.
    - [Start], [Resume], [Rebase], [Continue], [Requeue] and [Redeliver], the pending calls
      and inputs a session lists, folds, the omit setting, media and the whole of a config
      delta: they read a session and its forks as the agentsession library replays them,
      whose code is not here.
    - The low-level entry points [Run], [Continue] and [RunWith], which make a runner of
      their arguments; context accessors; the JSON encodings of events; [%q].
    - Two goroutines inside one run: an invocation, a hook and the loop each step the run's
      state alone, what they share with the rest moving in between. The agent and its
      questions are modelled with their interleavings.
    - Go's [==] panics on uncomparable dynamic types but in the quarantine and [renameCalls];
      a stream that ends with a response event that has no response. *)

From Stdlib Require Export ZArith Lia Ascii String List.
From stdpp Require Export base gmap strings numbers tactics option list.

#[global] Open Scope Z_scope.

(** ** Record update

    [r <| f := v |>] is [r] with the field [f] replaced, and
    [r <| f ::= g |>] with [g] applied to it. A record opts in with an
    instance of [Eta] that rebuilds it from its projections. *)
Class Eta (R : Type) := eta : R -> R.
Class Setter {R T : Type} (proj : R -> T) := set : (T -> T) -> R -> R.
Arguments set {R T} proj {Setter} _ _ : rename, simpl never.

Ltac build_setter proj :=
  match type of proj with
  | ?R -> ?T =>
      let body := eval hnf in (@eta R _) in
      let abs := eval pattern proj in body in
      match abs with
      | ?F _ => let s := eval cbv beta in (fun (g : T -> T) => F (fun r : R => g (proj r))) in exact s
      end
  end.

#[export] Hint Extern 1 (Setter ?proj) => build_setter proj : typeclass_instances.

Declare Scope agent_scope.
Delimit Scope agent_scope with agent.

Module UpdateNotations.
Notation "r <| f := v |>" := (set f (fun _ => v) r)
  (at level 1, f at level 9, left associativity) : agent_scope.
Notation "r <| f ::= g |>" := (set f g r)
  (at level 1, f at level 9, left associativity) : agent_scope.
End UpdateNotations.
Export UpdateNotations.
#[global] Open Scope agent_scope.

(** ** Tactics *)

(** Destruct every conjunction and existential among the hypotheses. *)
Ltac deconj :=
  repeat match goal with
  | H : exists _, _ |- _ => destruct H
  | H : _ /\ _ |- _ => destruct H
  end.

(** Case analysis on the head [match] of the goal or of a hypothesis. *)
Ltac break :=
  repeat (case_match; simplify_eq/=); try done.

(** Compute the fields of updated records. An update is left folded otherwise, since
    unfolding one writes its record out once per field. *)
Ltac upd_term p q f r :=
  first [ change (p (set q f r)) with (f (p r)) | change (p (set q f r)) with (p r) ].
Ltac upd :=
  repeat match goal with |- context [?p (@set _ _ ?q _ ?f ?r)] => upd_term p q f r; cbv beta end.
Ltac upd_in H :=
  repeat match type of H with
  | context [?p (@set _ _ ?q ?s ?f ?r)] =>
      first [ change (p (@set _ _ q s f r)) with (f (p r)) in H | change (p (@set _ _ q s f r)) with (p r) in H ]; cbv beta in H
  end.

Create HintDb agent.

(** ** Lists *)

Section Lists.
Context {A B : Type}.

(** The value of the first element [f] accepts. *)
Fixpoint find_first (f : A -> bool) (l : list A) : option A :=
  match l with
  | [] => None
  | x :: l => if f x then Some x else find_first f l
  end.

Lemma find_first_some f l x :
  find_first f l = Some x -> x ∈ l /\ f x = true.
Proof.
  induction l as [|y l IH]; simpl; [done|].
  destruct (f y) eqn:E; intros H; simplify_eq.
  - split; [left|done].
  - destruct (IH H); split; [by right|done].
Qed.

Lemma find_first_none f l :
  find_first f l = None <-> (forall x, x ∈ l -> f x = false).
Proof.
  induction l as [|y l IH]; simpl.
  - split; [intros _ x Hx; by apply not_elem_of_nil in Hx | done].
  - destruct (f y) eqn:E; split; intros H.
    + done.
    + rewrite (H y) in E; [done|left].
    + intros x [->|Hx]%elem_of_cons; [done|]. by apply IH.
    + apply IH. intros x Hx. apply H. by right.
Qed.

(** [l] with the leading elements [f] accepts split off. *)
Fixpoint span (f : A -> bool) (l : list A) : list A * list A :=
  match l with
  | [] => ([], [])
  | x :: l' => if f x then let '(a, b) := span f l' in (x :: a, b) else ([], l)
  end.

Lemma span_app f l : fst (span f l) ++ snd (span f l) = l.
Proof.
  induction l as [|x l IH]; simpl; [done|].
  destruct (f x); [|done]. destruct (span f l); simpl in *. by f_equal.
Qed.

Lemma span_all f l : Forall (fun x => f x = true) (fst (span f l)).
Proof.
  induction l as [|x l IH]; simpl; [constructor|].
  destruct (f x) eqn:E; [|constructor]. destruct (span f l); simpl in *.
  by constructor.
Qed.

Lemma span_rest f l x r : snd (span f l) = x :: r -> f x = false.
Proof.
  induction l as [|y l IH]; simpl; [done|].
  destruct (f y) eqn:E; simpl.
  - destruct (span f l); simpl in *. apply IH.
  - intros H; by simplify_eq.
Qed.
End Lists.

Lemma filter_all {A} (P : A -> Prop) `{forall x, Decision (P x)} l : Forall P l -> filter P l = l.
Proof. induction 1; [done|]. rewrite filter_cons_True by done. by f_equal. Qed.

Lemma filter_none {A} (P : A -> Prop) `{forall x, Decision (P x)} l : Forall (fun x => ~ P x) l -> filter P l = [].
Proof. induction 1; [done|]. by rewrite filter_cons_False. Qed.

(** A field an update leaves. *)
Lemma map_alter_other {A B} (f : A -> B) (g : A -> A) i (l : list A) :
  (forall x, f (g x) = f x) -> map f (alter g i l) = map f l.
Proof.
  intros Hfg. revert i. induction l as [|x l IH]; intros [|i]; [done..| |].
  - change (f (g x) :: map f l = f x :: map f l). by rewrite Hfg.
  - change (f x :: map f (alter g i l) = f x :: map f l). by rewrite IH.
Qed.

(** ** Runes

    [runeWidth s]: how many bytes the first rune of [s] takes, as Go's [range] and
    [strings.Map] decode UTF-8; a byte that starts no well-formed rune takes one. *)
Definition byteIn (lo hi : Z) (a : ascii) : bool :=
  let n := Z.of_N (N_of_ascii a) in (lo <=? n) && (n <=? hi).
Definition continues : ascii -> bool := byteIn 128 191.

Definition runeWidth (s : string) : nat :=
  match s with
  | EmptyString => 0
  | String a s =>
      if byteIn 194 223 a then
        match s with String b _ => if continues b then 2 else 1 | _ => 1 end
      else if byteIn 224 239 a then
        let second := if byteIn 224 224 a then byteIn 160 191 else if byteIn 237 237 a then byteIn 128 159 else continues in
        match s with String b (String c _) => if second b && continues c then 3 else 1 | _ => 1 end
      else if byteIn 240 244 a then
        let second := if byteIn 240 240 a then byteIn 144 191 else if byteIn 244 244 a then byteIn 128 143 else continues in
        match s with
        | String b (String c (String d _)) => if second b && continues c && continues d then 4 else 1
        | _ => 1
        end
      else 1
  end%nat.
