(* ===== verification/Items.v ===== *)
(** * Items: the transcript's items, the marks a caller puts on one, and
    the triggers and provenance it may carry ([items.go], and the trigger
    of [events.go]).

    An [openresponses.Item] is an interface holding a pointer, or, for an
    extension's item, possibly a value. Several parts of the program name an
    item by identity, so every item here carries the address of the object it
    is ([ptr]); two items with the same members at different addresses are two
    items. A wrapper [markedItem] exists only between the caller and
    [appendOne], which strips it; it is the type [input] here, so the type of
    the transcript says that it holds no wrapper. *)

From S2P Require Export Prelude.

(** The address of an object. *)
Abbreviation ptr := positive.

(** A [json.RawMessage] or another byte slice whose nil-ness is read. *)
Abbreviation raw := (option string).

(** ** Members of the wire types the source reads or writes *)

Inductive Role := RoleUser | RoleAssistant | RoleDeveloper | RoleSystem | RoleOther (s : string).

#[export] Instance Role_eq_dec : EqDecision Role.
Proof. solve_decision. Defined.

(** [openresponses.Message]: its role and its content; [Content] is the
    content list as encoded. *)
Record Message := { Role_ : Role; Content : string }.

(** [openresponses.FunctionCallOutputData]: the text, or the parts. *)
Record OutputData := { Text_ : string; Parts : list string }.

(** [openresponses.FunctionCall]. *)
Record FunctionCall := { ID : string; CallID : string; Name : string; Arguments : string; CallStatus : string }.

(** [openresponses.FunctionCallOutput]. *)
Record FunctionCallOutput := { OutID : string; OutCallID : string; Output : OutputData; OutStatus : string }.

(** [openresponses.ReasoningItem], whose members the loop never reads. *)
Record ReasoningItem := { Reasoning : string }.

#[export] Instance Message_eq_dec : EqDecision Message.
Proof. solve_decision. Defined.
#[export] Instance OutputData_eq_dec : EqDecision OutputData.
Proof. solve_decision. Defined.
#[export] Instance FunctionCall_eq_dec : EqDecision FunctionCall.
Proof. solve_decision. Defined.
#[export] Instance FunctionCallOutput_eq_dec : EqDecision FunctionCallOutput.
Proof. solve_decision. Defined.
#[export] Instance ReasoningItem_eq_dec : EqDecision ReasoningItem.
Proof. solve_decision. Defined.

#[export] Instance eta_Message : Eta Message := fun r => Build_Message (Role_ r) (Content r).
#[export] Instance eta_OutputData : Eta OutputData := fun r => Build_OutputData (Text_ r) (Parts r).
#[export] Instance eta_FunctionCall : Eta FunctionCall :=
  fun r => Build_FunctionCall (ID r) (CallID r) (Name r) (Arguments r) (CallStatus r).
#[export] Instance eta_FunctionCallOutput : Eta FunctionCallOutput :=
  fun r => Build_FunctionCallOutput (OutID r) (OutCallID r) (Output r) (OutStatus r).

(** How an item of a type the loop does not know is held: by pointer, or by
    value in a type Go can or cannot compare. *)
Inductive holding := ByPtr (p : ptr) | ByValue (comparable : bool).

#[export] Instance holding_eq_dec : EqDecision holding.
Proof. solve_decision. Defined.

(** An [openresponses.Item]. *)
Inductive item :=
| Nil
| IMessage (p : ptr) (m : Message)
| ICall (p : ptr) (c : FunctionCall)
| IOutput (p : ptr) (o : FunctionCallOutput)
| IReasoning (p : ptr) (r : ReasoningItem)
| IOther (h : holding) (typ wire : string).

#[export] Instance item_eq_dec : EqDecision item.
Proof. solve_decision. Defined.

Abbreviation Items := (list item).
Abbreviation Transcript := (list item).

Definition isNil (i : item) : bool := match i with Nil => true | _ => false end.

(** ** Identity

    What Go's [==] compares on an interface: the address for a pointer, the
    value otherwise. *)
Abbreviation ident := (ptr + string * string)%type.

(** The identity of an item, [None] for nil and for a value whose type cannot
    be compared ([reflect.TypeOf(item).Comparable()]). *)
Definition identity (i : item) : option ident :=
  match i with
  | Nil => None
  | IMessage p _ | ICall p _ | IOutput p _ | IReasoning p _ => Some (inl p)
  | IOther (ByPtr p) _ _ => Some (inl p)
  | IOther (ByValue true) typ wire => Some (inr (typ, wire))
  | IOther (ByValue false) _ _ => None
  end.

Definition comparable (i : item) : bool := bool_decide (is_Some (identity i)).

(** Go's [item.ItemType()] of an item that is not nil. *)
Definition ItemType (i : item) : string :=
  match i with
  | Nil => ""
  | IMessage _ _ => "message"
  | ICall _ _ => "function_call"
  | IOutput _ _ => "function_call_output"
  | IReasoning _ _ => "reasoning"
  | IOther _ typ _ => typ
  end.

(** [strings.Contains(s, ":")]. *)
Fixpoint containsColon (s : string) : bool :=
  match s with
  | EmptyString => false
  | String.String c s => Ascii.eqb c ":"%char || containsColon s
  end.

(** ** Errors

    An [error] as the package builds them: a sentinel, one wrapped under a
    text or joined with another, the [errStop] a phase ends the run with, a
    [wireError], or one made elsewhere. *)
Inductive sentinel :=
| ErrNoModel | ErrCannotContinue | ErrNoPrompt | ErrGuard
| ErrRunning | ErrInputRequired | ErrTerminated | ErrAborted
| ErrNotPending | ErrAmbiguousCall | ErrCallAnswered
| ErrProvenance | ErrTriggerExtra | ErrNoQuarantine | ErrNotQuarantinable
| ErrNoInvoker | ErrNoQuestion
| ErrSummaryNoText | ErrSummaryIncomplete | ErrSummaryTooLarge
| ErrCallCompleted | ErrCallReturned | ErrCalleeLink
| Canceled | DeadlineExceeded | ErrTruncatedStream.

#[export] Instance sentinel_eq_dec : EqDecision sentinel.
Proof. solve_decision. Defined.

Inductive Reason := ReasonDone | ReasonStopped | ReasonInputRequired | ReasonAborted | ReasonError.
Inductive StopCause :=
| NoCause | StopMaxTurns | StopHook | StopGuard | StopTerminate | StopPartialTerminate | StopRefused.

#[export] Instance Reason_eq_dec : EqDecision Reason.
Proof. solve_decision. Defined.
#[export] Instance StopCause_eq_dec : EqDecision StopCause.
Proof. solve_decision. Defined.

Inductive error :=
| Sentinel (s : sentinel)
| External (id : positive) (text : string)
| Errorf (text : string)
| Wrap (text : string) (e : error)
| Join (e f : error)
| EStop (reason : Reason) (cause : StopCause) (err : option error) (withheld : bool)
| WireError (e : error).

#[export] Instance error_eq_dec : EqDecision error.
Proof.
  unfold EqDecision. fix go 1. unfold Decision in *. intros x y.
  destruct x as [s|n t|t|t e|e f|r c o w|e], y as [s'|n' t'|t'|t' e'|e' f'|r' c' o' w'|e'];
    try (by right).
  - destruct (decide (s = s')); [left|right]; congruence.
  - destruct (decide (n = n')), (decide (t = t')); [left|right..]; congruence.
  - destruct (decide (t = t')); [left|right]; congruence.
  - destruct (decide (t = t')), (go e e'); [left|right..]; congruence.
  - destruct (go e e'), (go f f'); [left|right..]; congruence.
  - destruct o as [a|], o' as [b|]; try (right; congruence).
    + destruct (decide (r = r')), (decide (c = c')), (go a b), (decide (w = w'));
        [left|right..]; congruence.
    + destruct (decide (r = r')), (decide (c = c')), (decide (w = w')); [left|right..]; congruence.
  - destruct (go e e'); [left|right]; congruence.
Defined.

(** [errors.Is(e, target)] for a sentinel: through every wrapped error;
    [errStop] has no [Unwrap]. *)
Fixpoint errIs (e : error) (s : sentinel) : bool :=
  match e with
  | Sentinel s' => bool_decide (s' = s)
  | External _ _ | Errorf _ | EStop _ _ _ _ => false
  | Wrap _ e | WireError e => errIs e s
  | Join e f => errIs e s || errIs f s
  end.

(** ** Triggers *)

(** A value of a [map[string]any], by its JSON encoding, [None] for one
    [json.Marshal] refuses. *)
Abbreviation any := (option string).

Record Trigger := { Kind : string; Ref : string; Source : string; Extra : gmap string any }.

Definition noTrigger : Trigger := {| Kind := ""; Ref := ""; Source := ""; Extra := ∅ |}.

#[export] Instance Trigger_eq_dec : EqDecision Trigger.
Proof. solve_decision. Defined.

Definition TriggerHuman : string := "human".
Definition TriggerCallee : string := "callee".

(** One member of [Extra] as [Trigger.Validate] judges it. *)
Definition extraError (name : string) (v : any) : option error :=
  if bool_decide (name = "kind") || bool_decide (name = "ref") || bool_decide (name = "source")
  then Some (Wrap name (Sentinel ErrTriggerExtra))
  else match v with
       | None => Some (Wrap name (Sentinel ErrTriggerExtra))
       | Some _ => None
       end.

Fixpoint firstExtraError (l : list (string * any)) : option error :=
  match l with
  | [] => None
  | (name, v) :: l =>
      match extraError name v with
      | Some e => Some e
      | None => firstExtraError l
      end
  end.

(** [Trigger.Validate]: nil, or an error for some member that cannot be
    written. Go's range takes the members in no fixed order; the model takes
    them in the map's. *)
Definition Validate (t : Trigger) : option error := firstExtraError (map_to_list (Extra t)).

Definition TriggerIsZero (t : Trigger) : bool :=
  bool_decide (Kind t = "") && bool_decide (Ref t = "") && bool_decide (Source t = "") &&
  bool_decide (map_to_list (Extra t) = []).

Definition CalleeTrigger (callID task : string) : Trigger :=
  {| Kind := TriggerCallee; Ref := callID; Source := "";
     Extra := if bool_decide (task = "") then ∅ else {[ "task" := Some task ]} |}.

Definition TriggerString (t : Trigger) : string :=
  if negb (bool_decide (Kind t = "")) && negb (bool_decide (Ref t = "")) then (Kind t +:+ ":" +:+ Ref t)
  else if negb (bool_decide (Kind t = "")) then Kind t
  else Ref t.

(** ** Provenance *)

Record Layer := { LayerID : string; LayerSource : string }.

#[export] Instance Layer_eq_dec : EqDecision Layer.
Proof. solve_decision. Defined.

(** [Provenance]: the layers a message was composed from, the source that
    sent the item, and what the host knows of its trust, [None] for a nil
    [*Trust]. *)
Record Provenance := { Layers : list Layer; PSource : Trigger; Trust : option (list string) }.

#[export] Instance Provenance_eq_dec : EqDecision Provenance.
Proof. solve_decision. Defined.

Definition isMessage (i : item) : bool := match i with IMessage _ _ => true | _ => false end.

(** A layer [o] before [l] that names the same layer. *)
Definition sameLayer (l o : Layer) : bool :=
  bool_decide (LayerID o = LayerID l) &&
  (negb (bool_decide (LayerID l = "")) || bool_decide (LayerSource o = LayerSource l)).

Definition layerError (before : list Layer) (l : Layer) : option error :=
  if bool_decide (LayerSource l = "") then Some (Wrap "layer has no source" (Sentinel ErrProvenance))
  else if bool_decide (LayerID l = "") && bool_decide (LayerSource l = "agentsmd")
  then Some (Wrap "instruction file layer has no id" (Sentinel ErrProvenance))
  else match find_first (sameLayer l) before with
       | Some _ => Some (Wrap "layer named again" (Sentinel ErrProvenance))
       | None => None
       end.

Fixpoint layersError (before layers : list Layer) : option error :=
  match layers with
  | [] => None
  | l :: layers =>
      match layerError before l with
      | Some e => Some e
      | None => layersError (before ++ [l]) layers
      end
  end.

Fixpoint labelsError (before reads : list string) : option error :=
  match reads with
  | [] => None
  | l :: reads =>
      if bool_decide (l = "") || bool_decide (l ∈ before)
      then Some (Wrap "trust label is empty or repeated" (Sentinel ErrProvenance))
      else labelsError (before ++ [l]) reads
  end.

(** [Provenance.validate]. *)
Definition validate (p : Provenance) (i : item) : option error :=
  if negb (bool_decide (Layers p = [])) && negb (isMessage i)
  then Some (Wrap "only a message may name layers" (Sentinel ErrProvenance))
  else if negb (bool_decide (Layers p = [])) && bool_decide (Kind (PSource p) = TriggerHuman)
  then Some (Wrap "layers beside a human source" (Sentinel ErrProvenance))
  else match layersError [] (Layers p) with
  | Some e => Some e
  | None =>
      match match Trust p with Some reads => labelsError [] reads | None => None end with
      | Some e => Some e
      | None =>
          match Validate (PSource p) with
          | Some e => Some (Join (Sentinel ErrProvenance) e)
          | None => None
          end
      end
  end.

(** ** Marks *)

(** [answerMarks]: what [Answer.Item] carries of an answer. *)
Record answerMarks := { am_by : string; am_reason : string; am_origin : string; am_failed : bool }.

#[export] Instance answerMarks_eq_dec : EqDecision answerMarks.
Proof. solve_decision. Defined.

(** [markedItem], the wrapper around an item that is not nil. *)
Record markedItem := {
  item_ : item;
  hidden : bool;
  copied : bool;
  prov : option Provenance;
  answer : option answerMarks;
}.

#[export] Instance markedItem_eq_dec : EqDecision markedItem.
Proof. solve_decision. Defined.
#[export] Instance eta_markedItem : Eta markedItem :=
  fun r => Build_markedItem (item_ r) (hidden r) (copied r) (prov r) (answer r).

(** An item as a caller hands it to the loop: plain, or marked. *)
Inductive input := Plain (i : item) | Marked (m : markedItem).

#[export] Instance input_eq_dec : EqDecision input.
Proof. solve_decision. Defined.

(** [m, _ := item.(markedItem); if m.item == nil { m.item = item }]. *)
Definition asMarked (i : input) : markedItem :=
  match i with
  | Marked m => m
  | Plain i => {| item_ := i; hidden := false; copied := false; prov := None; answer := None |}
  end.

Definition inputNil (i : input) : bool := match i with Plain Nil => true | _ => false end.

Definition Hidden (i : input) : input :=
  if inputNil i then i else Marked ((asMarked i) <| hidden := true |>).

Definition Unhide (i : input) : item * bool :=
  match i with Marked m => (item_ m, hidden m) | Plain i => (i, false) end.

Definition Copied (i : input) : input :=
  if inputNil i then i else Marked ((asMarked i) <| copied := true |>).

Definition marks (i : input) : item * bool * bool :=
  match i with Marked m => (item_ m, hidden m, copied m) | Plain i => (i, false, false) end.

Definition IsCopied (i : input) : bool := (marks i).2.

Definition WithProvenance (i : input) (p : Provenance) : input + error :=
  if inputNil i then inl i
  else if bool_decide (Layers p = []) && TriggerIsZero (PSource p) && bool_decide (Trust p = None)
  then inl i
  else
    let m := asMarked i in
    match validate p (item_ m) with
    | Some e => inr e
    | None => inl (Marked (m <| prov := Some p |>))
    end.

Definition ProvenanceOf (i : input) : option Provenance :=
  match i with Marked m => prov m | Plain _ => None end.

(** [provenance]: the provenance an event carries. *)
Definition provenance (i : input) : option Provenance := ProvenanceOf i.

(** [unhideAll]. *)
Definition unhideAll (items : list input) : Items := map (fun i => (Unhide i).1) items.

(** ** Theorems *)

(** What a provenance must satisfy to be recorded. *)
Record provenance_ok (p : Provenance) (i : item) : Prop := {
  pok_message : Layers p <> [] -> isMessage i = true;
  pok_kind : Layers p <> [] -> Kind (PSource p) <> TriggerHuman;
  pok_source : Forall (fun l => LayerSource l <> "") (Layers p);
  pok_file : Forall (fun l => LayerSource l = "agentsmd" -> LayerID l <> "") (Layers p);
  pok_distinct : forall a b l o, Layers p !! a = Some o -> Layers p !! b = Some l -> (a < b)%nat ->
    sameLayer l o = false;
  pok_labels : forall reads, Trust p = Some reads -> NoDup reads /\ "" ∉ reads;
  pok_trigger : Validate (PSource p) = None;
}.

Lemma labelsError_none before reads :
  labelsError before reads = None <->
  (forall l, l ∈ reads -> l <> "" /\ l ∉ before) /\ NoDup reads.
Proof.
  revert before. induction reads as [|l reads IH]; intros before; simpl.
  - split; [|done]. intros _. split; [intros l Hl; by apply not_elem_of_nil in Hl|constructor].
  - destruct (bool_decide (l = "")) eqn:E1; simpl.
    { apply bool_decide_eq_true in E1. split; [done|]. intros [H _].
      destruct (H l); [left|done]. }
    destruct (bool_decide (l ∈ before)) eqn:E2.
    { apply bool_decide_eq_true in E2. split; [done|]. intros [H _].
      destruct (H l); [left|done]. }
    apply bool_decide_eq_false in E1, E2. rewrite IH, NoDup_cons. split.
    + intros [H ND]. split_and!; [|intros Hl; destruct (H l Hl); set_solver|done].
      intros l' [->|Hl]%elem_of_cons; [done|]. destruct (H l' Hl). set_solver.
    + intros (H & Hl & ND). split; [|done]. intros l' Hl'.
      destruct (H l') as [? ?]; [by right|]. split; [done|].
      rewrite elem_of_app, list_elem_of_singleton. intros [Hin| ->]; done.
Qed.

Lemma layersError_none before layers :
  layersError before layers = None <->
  (forall a l, layers !! a = Some l ->
     LayerSource l <> "" /\ (LayerSource l = "agentsmd" -> LayerID l <> "") /\
     forall o, o ∈ before ++ take a layers -> sameLayer l o = false).
Proof.
  revert before. induction layers as [|l layers IH]; intros before; simpl.
  { split; [|done]. intros _ a l H. by rewrite lookup_nil in H. }
  assert (Hl : layerError before l = None <->
    LayerSource l <> "" /\ (LayerSource l = "agentsmd" -> LayerID l <> "") /\
    forall o, o ∈ before -> sameLayer l o = false).
  { unfold layerError. repeat case_bool_decide; simpl; try (split; [done|]; naive_solver).
    all: destruct (find_first (sameLayer l) before) eqn:F;
      [apply find_first_some in F as [? F2]|rewrite find_first_none in F]; split; try done.
    all: try (intros (_ & _ & G); by rewrite G in F2). all: naive_solver. }
  destruct (layerError before l) as [e|] eqn:E.
  - split; [done|]. intros H. assert (Some e = None); [|done].
    apply Hl. destruct (H 0%nat l eq_refl) as (?&?&G). split_and!; [done..|].
    intros o Ho. apply G. by rewrite take_0, app_nil_r.
  - rewrite IH. destruct Hl as [Hl _]. specialize (Hl eq_refl). split.
    + intros H [|a] l' Hl'; simpl in *.
      * simplify_eq. rewrite app_nil_r. done.
      * destruct (H a l' Hl') as (?&?&G). split_and!; [done..|].
        intros o Ho. apply G. by rewrite <- app_assoc.
    + intros H a l' Hl'. destruct (H (S a) l' Hl') as (?&?&G). split_and!; [done..|].
      intros o Ho. apply G. simpl. by rewrite <- app_assoc in Ho.
Qed.

Lemma validate_iff_aux p i : validate p i = None <-> provenance_ok p i.
Proof.
  unfold validate.
  assert (HL : layersError [] (Layers p) = None <->
    Forall (fun l => LayerSource l <> "") (Layers p) /\
    Forall (fun l => LayerSource l = "agentsmd" -> LayerID l <> "") (Layers p) /\
    (forall a b l o, Layers p !! a = Some o -> Layers p !! b = Some l -> (a < b)%nat ->
       sameLayer l o = false)).
  { rewrite layersError_none. split.
    - intros H. split_and!; [apply Forall_lookup..|].
      + intros a l Hl. by destruct (H a l Hl).
      + intros a l Hl. by destruct (H a l Hl) as (?&?&?).
      + intros a b l o Ha Hb Hab. destruct (H b l Hb) as (?&?&G). apply G.
        simpl. apply list_elem_of_lookup. exists a. by rewrite lookup_take_lt by lia.
    - intros (H1 & H2 & H3) b l Hl. rewrite Forall_lookup in H1, H2.
      split_and!; [by eapply H1|by eapply H2|]. simpl. intros o Ho.
      apply list_elem_of_lookup in Ho as [a Ha]. apply lookup_take_Some in Ha as [Ha Hab].
      by eapply H3. }
  assert (HT : match Trust p with Some reads => labelsError [] reads | None => None end = None <->
    (forall reads, Trust p = Some reads -> NoDup reads /\ "" ∉ reads)).
  { destruct (Trust p) as [reads|]; [|naive_solver]. rewrite labelsError_none. split.
    - intros [H ND] r [= <-]. split; [done|]. intros He. by destruct (H "" He).
    - intros H. destruct (H reads eq_refl) as [ND Hn]. split; [|done].
      intros l Hl. split; [by intros ->|apply not_elem_of_nil]. }
  assert (HE : Layers p = [] \/ Layers p <> []) by (destruct (Layers p); [by left|by right]).
  split.
  - intros H. assert (HV : Validate (PSource p) = None /\
      layersError [] (Layers p) = None /\
      match Trust p with Some reads => labelsError [] reads | None => None end = None).
    { by repeat case_match. }
    destruct HV as (HV & H1 & H2). apply HL in H1 as (?&?&?). pose proof (proj1 HT H2).
    constructor; try done.
    + intros Hne. destruct (isMessage i); [done|].
      by rewrite bool_decide_eq_false_2 in H.
    + intros Hne Hk. rewrite (bool_decide_eq_true_2 _ Hk), (bool_decide_eq_false_2 _ Hne) in H.
      by destruct (isMessage i).
  - intros [Hm Hk Hs Hf Hd Hl HV]. rewrite (proj2 HL), (proj2 HT), HV by done.
    destruct HE as [E|E]; [by rewrite (bool_decide_eq_true_2 _ E)|].
    rewrite (bool_decide_eq_false_2 _ E), (bool_decide_eq_false_2 _ (Hk E)), (Hm E). done.
Qed.

Lemma Validate_error t e : Validate t = Some e -> errIs e ErrTriggerExtra = true.
Proof.
  unfold Validate. generalize (map_to_list (Extra t)) as l.
  induction l as [|[n v] l IH]; simpl; [done|].
  unfold extraError. repeat case_match; intros; simplify_eq/=; auto.
Qed.

Lemma layersError_error before layers e : layersError before layers = Some e -> errIs e ErrProvenance = true.
Proof.
  revert before. induction layers as [|l layers IH]; intros before; simpl; [done|].
  unfold layerError. repeat case_match; intros; simplify_eq/=; eauto.
Qed.

Lemma labelsError_error before reads e : labelsError before reads = Some e -> errIs e ErrProvenance = true.
Proof.
  revert before. induction reads as [|l reads IH]; intros before; simpl; [done|].
  case_match; intros; simplify_eq/=; eauto.
Qed.

Lemma validate_error p i e : validate p i = Some e -> errIs e ErrProvenance = true.
Proof.
  unfold validate. repeat case_match; intros; simplify_eq/=;
    eauto using layersError_error, labelsError_error.
Qed.

(** [WithProvenance] is total on well-formed provenances and refuses every
    other one: for an item that is not nil and a provenance that says something,
    it marks the item exactly when the layers name a message and no human source,
    every layer has a source, an instruction file's an ID, no layer is named twice,
    no trust label is empty or repeated and the source can be written; the marked
    item wraps the same item, keeps its other marks, and carries the provenance. *)
Theorem WithProvenance_spec i p :
  inputNil i = false ->
  Layers p <> [] \/ TriggerIsZero (PSource p) = false \/ Trust p <> None ->
  (provenance_ok p (Unhide i).1 ->
     exists i', WithProvenance i p = inl i' /\ (marks i') = (marks i) /\ ProvenanceOf i' = Some p) /\
  (~ provenance_ok p (Unhide i).1 ->
     exists e, WithProvenance i p = inr e /\ errIs e ErrProvenance = true).
Proof.
  intros Hn Hp. unfold WithProvenance. rewrite Hn.
  assert (bool_decide (Layers p = []) && TriggerIsZero (PSource p) && bool_decide (Trust p = None) = false)
    as ->.
  { destruct Hp as [Hp|[->|Hp]]; rewrite ?(bool_decide_eq_false_2 _ Hp), ?andb_false_r; done. }
  assert (item_ (asMarked i) = (Unhide i).1) as -> by (by destruct i).
  split; intros H.
  - rewrite (proj2 (validate_iff_aux p _) H). eexists; split; [done|]. by destruct i as [|[]].
  - destruct (validate p (Unhide i).1) as [e|] eqn:E.
    + eauto using validate_error.
    + by apply validate_iff_aux in E.
Qed.

Lemma WithProvenance_spec_witness :
  let i := Plain (IMessage 1 {| Role_ := RoleUser; Content := "AGENTS.md says" |}) in
  let p := {| Layers := [{| LayerID := "AGENTS.md"; LayerSource := "agentsmd" |}];
              PSource := noTrigger; Trust := Some ["untrusted"] |} in
  (provenance_ok p (Unhide i).1 ->
     exists i', WithProvenance i p = inl i' /\ (marks i') = (marks i) /\ ProvenanceOf i' = Some p) /\
  (~ provenance_ok p (Unhide i).1 ->
     exists e, WithProvenance i p = inr e /\ errIs e ErrProvenance = true).
Proof. intros i p. apply WithProvenance_spec; [reflexivity|left; discriminate]. Defined.
