(* ===== verification/Identity.v ===== *)
(** * Identity: what the loop knows of a transcript's items by identity: who
    produced each reasoning item ([reasoning.go]) and which messages a person
    wrote ([persons.go]). *)

From S2P Require Export Items.

(** ** Reasoning attribution ([reasoning.go]) *)
Module Reasoning.

(** [ReasoningModels], a map from the address of a reasoning item to the
    model that produced it. *)
Abbreviation ReasoningModels := (gmap ptr string).

(** The address of a reasoning item: [item.( *openresponses.ReasoningItem)]. *)
Definition reasoningPtr (i : item) : option ptr :=
  match i with IReasoning p _ => Some p | _ => None end.

Definition attributeOne (modelName : string) (m : ReasoningModels) (i : item) : ReasoningModels :=
  match reasoningPtr i with
  | Some r => match m !! r with Some _ => m | None => <[r := modelName]> m end
  | None => m
  end.

Definition Attribute (m : ReasoningModels) (modelName : string) (items : Items) : ReasoningModels :=
  if bool_decide (modelName = "") then m
  else foldl (attributeOne modelName) m items.

(** Whether [For] leaves [i] out of a request naming [modelName]. *)
Definition foreign (m : ReasoningModels) (modelName : string) (i : item) : bool :=
  match reasoningPtr i with
  | Some r => match m !! r with Some by_ => negb (bool_decide (by_ = modelName)) | None => false end
  | None => false
  end.

(** The loop of [For]: [out] is nil until an item is dropped. [before] is
    [t[:i]]. *)
Fixpoint forLoop (m : ReasoningModels) (modelName : string) (before : Transcript)
    (out : option Transcript) (rest : Transcript) : option Transcript :=
  match rest with
  | [] => out
  | i :: rest =>
      if foreign m modelName i
      then forLoop m modelName (before ++ [i])
             (Some (match out with None => before | Some o => o end)) rest
      else forLoop m modelName (before ++ [i])
             (match out with None => None | Some o => Some (o ++ [i]) end) rest
  end.

Definition For (m : ReasoningModels) (modelName : string) (t : Transcript) : Transcript :=
  if bool_decide (modelName = "") || bool_decide (m = ∅) then t
  else match forLoop m modelName [] None t with
       | None => t
       | Some out => out
       end.

(** [merged]: the second map's entries over the first's. *)
Definition merged (m more : ReasoningModels) : ReasoningModels := more ∪ m.

Definition retainOne (m : ReasoningModels) (out : ReasoningModels) (i : item) : ReasoningModels :=
  match reasoningPtr i with
  | Some r => match m !! r with Some name => <[r := name]> out | None => out end
  | None => out
  end.

Definition retain (m : ReasoningModels) (t : Transcript) : ReasoningModels :=
  foldl (retainOne m) ∅ t.

(** *** Lemmas *)

Lemma forLoop_spec m name before out rest :
  forLoop m name before out rest =
  match out with
  | Some o => Some (o ++ filter (fun i => foreign m name i = false) rest)
  | None => if decide (Exists (fun i => foreign m name i = true) rest)
            then Some (before ++ filter (fun i => foreign m name i = false) rest) else None
  end.
Proof.
  revert before out. induction rest as [|i rest IH]; intros before out; simpl.
  { destruct out; by rewrite ?app_nil_r. }
  rewrite !IH, filter_cons. destruct (foreign m name i) eqn:E.
  - rewrite (decide_False (P := true = false)) by done. destruct out; [done|].
    rewrite decide_True by (by left). done.
  - rewrite (decide_True (P := false = false)) by done. destruct out as [o|].
    { by rewrite <- app_assoc. }
    destruct (decide (Exists _ rest)) as [H|H].
    + rewrite decide_True by (by right). by rewrite <- app_assoc.
    + rewrite decide_False; [done|]. intros [?|?]%Exists_cons; [congruence|done].
Qed.

Lemma filter_not_foreign m name t :
  ~ Exists (fun i => foreign m name i = true) t ->
  filter (fun i => foreign m name i = false) t = t.
Proof.
  induction t as [|i t IH]; intros H; [done|]. rewrite filter_cons.
  destruct (foreign m name i) eqn:E; [by destruct H; left|].
  rewrite decide_True, IH; [done| |done]. intros ?; apply H; by right.
Qed.

(** [For] is the filter its documentation describes. *)
Lemma For_filter m name t :
  For m name t = if decide (name = "") then t else filter (fun i => foreign m name i = false) t.
Proof.
  unfold For. case_bool_decide as Hn; simpl; [by rewrite decide_True|].
  rewrite decide_False by done. case_bool_decide as Hm.
  - rewrite filter_not_foreign; [done|]. intros H. apply Exists_exists in H as (i & _ & Hi).
    unfold foreign in Hi. destruct (reasoningPtr i); [|done]. by rewrite Hm, lookup_empty in Hi.
  - rewrite forLoop_spec. case_decide; [done|]. by rewrite filter_not_foreign.
Qed.

Lemma Attribute_lookup m name items r :
  name <> "" ->
  Attribute m name items !! r =
  match m !! r with
  | Some by_ => Some by_
  | None => if decide (Exists (fun i => reasoningPtr i = Some r) items) then Some name else None
  end.
Proof.
  intros Hn. unfold Attribute. rewrite bool_decide_eq_false_2 by done.
  revert m. induction items as [|i items IH]; intros m; simpl.
  { by destruct (m !! r). }
  rewrite IH. unfold attributeOne. destruct (reasoningPtr i) as [q|] eqn:E.
  - destruct (m !! q) as [by_|] eqn:F.
    + destruct (m !! r) eqn:G; [done|]. apply decide_ext. rewrite Exists_cons, E.
      split; [by right|]. intros [[= ->]|?]; [congruence|done].
    + destruct (decide (q = r)) as [->|Hne].
      * rewrite lookup_insert_eq, F. rewrite decide_True; [done|]. by left.
      * rewrite lookup_insert_ne by done. destruct (m !! r); [done|].
        apply decide_ext. rewrite Exists_cons, E. split; [by right|]. by intros [[= ?]|?].
  - destruct (m !! r); [done|]. apply decide_ext. rewrite Exists_cons, E. naive_solver.
Qed.

Lemma retain_lookup_aux m t out r :
  foldl (retainOne m) out t !! r =
  if decide (Exists (fun i => reasoningPtr i = Some r) t /\ is_Some (m !! r)) then m !! r else out !! r.
Proof.
  revert out. induction t as [|i t IH]; intros out; simpl.
  { done. }
  rewrite IH. unfold retainOne. destruct (decide (Exists (fun i => reasoningPtr i = Some r) t /\ is_Some (m !! r))) as [D|D].
  { rewrite decide_True; [done|]. destruct D. split; [by right|done]. }
  destruct (reasoningPtr i) as [q|] eqn:E.
  - destruct (decide (q = r)) as [->|Hne].
    + destruct (m !! r) as [name|] eqn:F.
      * rewrite decide_True, lookup_insert_eq; [done|]. split; [by left|by eexists].
      * rewrite decide_False; [done|]. by intros [_ []].
    + rewrite decide_False.
      * destruct (m !! q); [|done]. by rewrite lookup_insert_ne.
      * intros [[H|H]%Exists_cons Hs]; [congruence|]. by apply D.
  - rewrite decide_False; [done|]. intros [[H|H]%Exists_cons Hs]; [congruence|]. by apply D.
Qed.

Lemma retain_lookup m t r :
  retain m t !! r = if decide (Exists (fun i => reasoningPtr i = Some r) t) then m !! r else None.
Proof.
  unfold retain. rewrite retain_lookup_aux, lookup_empty.
  destruct (m !! r) eqn:E.
  - apply decide_ext. split; [by intros []|]. intros ?; split; [done|by eexists].
  - rewrite decide_False by (by intros [_ []]). by case_decide.
Qed.

(** *** Properties *)

(** The loop leaves out of a request exactly the reasoning items another
    model produced. For a request naming a model, what [For] returns is the
    transcript with the order kept and without the reasoning items the map
    attributes to another model: every item that is not a reasoning item, the
    model's own reasoning and the reasoning the map does not hold stay, and
    nothing else is added; with no model named nothing is dropped. *)
Theorem For_drops_exactly_foreign m name t :
  For m name t `sublist_of` t /\
  (name = "" -> For m name t = t) /\
  (forall i, name <> "" ->
     i ∈ For m name t <->
     i ∈ t /\ forall r by_, reasoningPtr i = Some r -> m !! r = Some by_ -> by_ = name).
Proof.
  rewrite For_filter. split_and!.
  - case_decide; [done|]. induction t as [|i t IH]; [done|]. rewrite filter_cons.
    case_decide; by constructor.
  - intros ->. by rewrite decide_True.
  - intros i Hn. rewrite decide_False, list_elem_of_filter by done. unfold foreign.
    destruct (reasoningPtr i) as [r|] eqn:E; [|naive_solver].
    destruct (m !! r) as [by_|] eqn:F; [|naive_solver].
    case_bool_decide; naive_solver.
Qed.

(** Attribution is first-writer-wins and survives a switch of model: once
    an answer of [name] is attributed, no later attribution and no merge of
    what a host knows of other items changes which model an item is attributed
    to, so after a switch the request for the new model leaves it out and a
    switch back sends it again. *)
Theorem Attribute_then_For m name other items rest r i :
  name <> "" -> other <> "" -> other <> name ->
  m !! r = None -> reasoningPtr i = Some r -> i ∈ items ->
  let m' := Attribute (Attribute m name items) other rest in
  m' !! r = Some name /\ i ∉ For m' other items /\ i ∈ For m' name items.
Proof.
  intros Hn Ho Hne Hr Hi Hin m'.
  assert (Hm : m' !! r = Some name).
  { unfold m'. rewrite !Attribute_lookup, Hr by done.
    rewrite decide_True; [done|]. apply Exists_exists. eauto. }
  split_and!; [done| |].
  - rewrite For_filter, decide_False, list_elem_of_filter by done. unfold foreign.
    rewrite Hi, Hm, bool_decide_eq_false_2 by done. by intros [? _].
  - rewrite For_filter, decide_False, list_elem_of_filter by done. unfold foreign.
    by rewrite Hi, Hm, bool_decide_eq_true_2.
Qed.

Lemma Attribute_then_For_witness :
  let i := IReasoning 7%positive {| Reasoning := "sig" |} in
  let m' := Attribute (Attribute ∅ "gpt" [i]) "claude" [i] in
  m' !! 7%positive = Some "gpt" /\ i ∉ For m' "claude" [i] /\ i ∈ For m' "gpt" [i].
Proof.
  apply (Attribute_then_For ∅ "gpt" "claude" [_] [_] 7%positive (IReasoning 7%positive {| Reasoning := "sig" |}));
    [discriminate..|reflexivity|reflexivity|by left].
Defined.

End Reasoning.

(** ** The person's own messages ([persons.go]) *)
Module Persons.

(** [PersonMessages], a map from the address of a message to a flag. *)
Abbreviation PersonMessages := (gmap ptr bool).

Definition messagePtr (i : item) : option ptr :=
  match i with IMessage p _ => Some p | _ => None end.

Definition Has (m : PersonMessages) (i : item) : bool :=
  match messagePtr i with
  | Some p => match m !! p with Some ok => ok | None => false end
  | None => false
  end.

(** The entries of a map whose flag is set, as [merged] copies them. *)
Definition kept (m : PersonMessages) : PersonMessages := filter (fun '(_, ok) => ok = true) m.

Definition merged (m more : PersonMessages) : PersonMessages := kept more ∪ kept m.

Definition retainOne (m : PersonMessages) (out : PersonMessages) (i : item) : PersonMessages :=
  match messagePtr i with
  | Some p => if Has m i then <[p := true]> out else out
  | None => out
  end.

Definition retain (m : PersonMessages) (t : Transcript) : PersonMessages :=
  foldl (retainOne m) ∅ t.

(** [PersonMessages.add]. *)
Definition add (m : PersonMessages) (i : item) (trigger : Trigger) (pv : option Provenance)
    (hidden_ copied_ : bool) : PersonMessages :=
  match i with
  | IMessage p msg =>
      if negb (bool_decide (Role_ msg = RoleUser)) || negb (bool_decide (Kind trigger = TriggerHuman)) ||
         hidden_ || copied_
      then m
      else match pv with
           | Some pr => if bool_decide (Layers pr = []) then <[p := true]> m else m
           | None => <[p := true]> m
           end
  | _ => m
  end.

(** What makes a user message the person's own: it came in under a trigger of
    kind human, neither hidden nor copied, composed from no layers. *)
Record personal (msg : Message) (trigger : Trigger) (pv : option Provenance) (hidden_ copied_ : bool) : Prop := {
  per_role : Role_ msg = RoleUser;
  per_kind : Kind trigger = TriggerHuman;
  per_shown : hidden_ = false;
  per_own : copied_ = false;
  per_layers : forall pr, pv = Some pr -> Layers pr = [];
}.

Lemma add_cases m p msg trigger pv hidden_ copied_ :
  (personal msg trigger pv hidden_ copied_ /\
     add m (IMessage p msg) trigger pv hidden_ copied_ = <[p := true]> m) \/
  (~ personal msg trigger pv hidden_ copied_ /\
     add m (IMessage p msg) trigger pv hidden_ copied_ = m).
Proof.
  unfold add. case_bool_decide as H1; [|right; split; [by intros []|done]].
  case_bool_decide as H2; [|right; split; [by intros []|done]].
  destruct hidden_; [right; split; [by intros []|done]|].
  destruct copied_; [right; split; [by intros []|done]|]. simpl.
  destruct pv as [pr|]; [case_bool_decide as H3|].
  - left. split; [|done]. constructor; try done. by intros ? [= <-].
  - right. split; [|done]. intros []. by apply H3, per_layers0.
  - left. split; [|done]. by constructor.
Qed.

(** A message is named as the person's own exactly when it already was, or
    it is this user message, it came in under a trigger of kind human, and the
    host neither hid it, copied it nor composed it from instruction layers. *)
Theorem add_Has m p msg trigger pv hidden_ copied_ j :
  Has (add m (IMessage p msg) trigger pv hidden_ copied_) j = true <->
  Has m j = true \/ (messagePtr j = Some p /\ personal msg trigger pv hidden_ copied_).
Proof.
  destruct (add_cases m p msg trigger pv hidden_ copied_) as [[Hp ->]|[Hp ->]].
  - unfold Has. destruct (messagePtr j) as [q|]; [|by split; [|intros [|[]]]].
    destruct (decide (q = p)) as [->|Hne].
    + rewrite lookup_insert_eq. split; [by right|done].
    + rewrite lookup_insert_ne by done. split; [by left|]. intros [?|[[= ?] _]]; done.
  - split; [by left|]. by intros [?|[_ ?]].
Qed.

Lemma merged_Has m more i : Has (merged m more) i = Has m i || Has more i.
Proof.
  unfold Has, merged, kept. destruct (messagePtr i) as [p|]; [|done].
  rewrite lookup_union, !map_lookup_filter.
  destruct (m !! p) as [[]|], (more !! p) as [[]|]; done.
Qed.

Lemma retain_Has_aux m t out j :
  Has (foldl (retainOne m) out t) j = true <->
  Has out j = true \/ (Has m j = true /\ Exists (fun i => messagePtr i = messagePtr j) t).
Proof.
  revert out. induction t as [|i t IH]; intros out; simpl.
  { rewrite Exists_nil. naive_solver. }
  rewrite IH, Exists_cons. clear IH. unfold retainOne.
  destruct (messagePtr i) as [p|] eqn:E.
  - destruct (decide (messagePtr j = Some p)) as [Ej|Ej].
    + assert (Has m i = Has m j) as -> by (unfold Has; by rewrite Ej, E).
      destruct (Has m j) eqn:F; [|split; (intros [?|[??]]; [by left|done])].
      assert (Has (<[p:=true]> out) j = true) as Ho
        by (unfold Has; by rewrite Ej, lookup_insert_eq).
      split; [intros _; right; split; [done|left; congruence]|by left].
    + assert (Has (if Has m i then <[p:=true]> out else out) j = Has out j) as ->.
      { destruct (Has m i); [|done]. unfold Has. destruct (messagePtr j) as [q|]; [|done].
        rewrite lookup_insert_ne; [done|congruence]. }
      split; intros [?|[? Hx]]; [by left|right; split; [done|by right]|by left|].
      destruct Hx; [congruence|by right].
  - assert (Has m j = true -> messagePtr j <> None) as Hj by (unfold Has; by destruct (messagePtr j)).
    split; intros [?|[? Hx]]; [by left|right; split; [done|by right]|by left|].
    destruct Hx as [Hx|Hx]; [by destruct Hj|by right].
Qed.

(** [retain] forgets exactly the messages the new transcript does not
    hold, and merging what a host knows is the union of the two. *)
Theorem retain_merged_Has m more t j :
  (Has (retain m t) j = true <->
     Has m j = true /\ Exists (fun i => messagePtr i = messagePtr j) t) /\
  Has (merged m more) j = Has m j || Has more j.
Proof.
  split; [|apply merged_Has]. unfold retain. rewrite retain_Has_aux.
  assert (Has ∅ j = false) as -> by (unfold Has; destruct (messagePtr j); by rewrite ?lookup_empty).
  naive_solver.
Qed.

End Persons.
