(* ===== verification/Quarantine.v ===== *)
(** * Quarantine: the items left out of every request for the rest of a
    conversation ([quarantine.go]).

    The set is keyed by identity. [apply] allocates a placeholder for each
    quarantined output, so it takes the next free address and returns the one
    after; it compares two interfaces holding the same item, which panics when
    the item is held by value in a type Go cannot compare, and so returns
    [None] there. *)

From S2P Require Export Items.

Definition QuarantinedOutput : string :=
  "[This output was withheld: a guard quarantined it as untrusted.]".

(** The set and the count of additions. *)
Record quarantine := { qitems : gmap ident item; gen : Z }.

#[export] Instance eta_quarantine : Eta quarantine := fun r => Build_quarantine (qitems r) (gen r).

Definition newQuarantine : quarantine := {| qitems := ∅; gen := 0 |}.

(** [held] of [apply]: [reflect.TypeOf(item).Comparable() && q.items[item]]. *)
Definition held (q : quarantine) (i : item) : bool :=
  match identity i with
  | Some k => bool_decide (is_Some (qitems q !! k))
  | None => false
  end.

Definition addOne (q : quarantine) (i : item) : quarantine :=
  match identity i with
  | Some k =>
      match qitems q !! k with
      | Some _ => q
      | None => q <| qitems ::= <[k := i]> |> <| gen ::= Z.succ |>
      end
  | None => q
  end.

(** [quarantine.add]: refused, and nothing added, when an item cannot be named. *)
Definition add (q : quarantine) (items : Items) : quarantine * option error :=
  match find_first (fun i => negb (isNil i) && negb (comparable i)) items with
  | Some i => (q, Some (Wrap (ItemType i) (Sentinel ErrNotQuarantinable)))
  | None => (foldl addOne q items, None)
  end.

(** [quarantine.list]: the items, in the map's order. *)
Definition list_ (q : quarantine) : Items := (map_to_list (qitems q)).*2.

Definition generation (q : quarantine) : Z := gen q.

Definition callIDOf (i : item) : option string := match i with ICall _ c => Some (CallID c) | _ => None end.
Definition outputOf (i : item) : option FunctionCallOutput := match i with IOutput _ o => Some o | _ => None end.

(** [calls] of [apply]: the call IDs of the quarantined calls. *)
Definition heldCallIDs (q : quarantine) : list string := omap callIDOf (list_ q).

(** What [apply] sends for one item. *)
Inductive verdict := Send | Leave | SendPlaceholder (o : FunctionCallOutput).

Definition judge (q : quarantine) (calls : list string) (last : gmap string item) (i : item) : verdict :=
  let callHeld :=
    match outputOf i with
    | Some o =>
        match last !! OutCallID o with
        | Some c => held q c
        | None => bool_decide (OutCallID o ∈ calls)
        end
    | None => false
    end in
  if callHeld then Leave
  else if held q i
  then match outputOf i with
       | Some o => SendPlaceholder (o <| Output := {| Text_ := QuarantinedOutput; Parts := [] |} |>)
       | None => Leave
       end
  else Send.

(** [last[c.CallID] = c] for a call. *)
Definition noteCall (last : gmap string item) (i : item) : gmap string item :=
  match callIDOf i with Some id => <[id := i]> last | None => last end.

(** The loop of [apply]. [before] is [items[:i]], [out] is [None] until
    something changed, [next] the next free address. *)
Fixpoint applyLoop (q : quarantine) (calls : list string) (last : gmap string item)
    (before : Items) (out : option Items) (next : ptr) (rest : Items) : option (option Items * ptr) :=
  match rest with
  | [] => Some (out, next)
  | i :: rest =>
      let last := noteCall last i in
      match judge q calls last i with
      | Send =>
          if negb (isNil i) && negb (comparable i) then None
          else match out with
               | None => applyLoop q calls last (before ++ [i]) None next rest
               | Some o =>
                   applyLoop q calls last (before ++ [i])
                     (Some (if isNil i then o else o ++ [i])) next rest
               end
      | Leave =>
          applyLoop q calls last (before ++ [i]) (Some (default before out)) next rest
      | SendPlaceholder o =>
          applyLoop q calls last (before ++ [i])
            (Some (default before out ++ [IOutput next o])) (Pos.succ next) rest
      end
  end.

(** [quarantine.apply]. *)
Definition apply (q : quarantine) (next : ptr) (items : Items) : option (Items * ptr) :=
  if bool_decide (qitems q = ∅) then Some (items, next)
  else match applyLoop q (heldCallIDs q) ∅ [] None next items with
       | None => None
       | Some (None, next) => Some (items, next)
       | Some (Some out, next) => Some (out, next)
       end.

(** [quarantine.has]. *)
Definition has (q : quarantine) (i : item) : bool :=
  if isNil i then false
  else if held q i then true
  else match outputOf i with
       | Some o => bool_decide (OutCallID o ∈ heldCallIDs q)
       | None => false
       end.

(** ** A conversation's quarantine across loads: [QuarantineSet]

    [members] is an item's JSON object by member, [None] for an item that
    cannot be encoded: the encoding is openresponses' own. *)
Section Copies.
Context (members : item -> option (gmap string string)).

(** [copyKey]. *)
Definition copyKey (i : item) : option (gmap string string) :=
  delete "status" <$> (delete "id" <$> members i).

(** Whether [Bind] takes [i] of the transcript for one [s] holds. *)
Definition bound (s : quarantine) (i : item) : bool :=
  negb (isNil i) && comparable i &&
  (held s i ||
   match copyKey i with
   | Some key => bool_decide (Some key ∈ map copyKey (list_ s))
   | None => false
   end).

(** [QuarantineSet.Bind]. *)
Definition Bind (s : quarantine) (t : Transcript) : quarantine :=
  if bool_decide (list_ s = []) then newQuarantine
  else (add newQuarantine (filter (fun i => bound s i = true) t)).1.

Definition mergeOne (known : quarantine) (s : quarantine) (i : item) : quarantine :=
  if has known i then s else (add s [i]).1.

(** [QuarantineSet.Merge]. *)
Definition Merge (s o : quarantine) : quarantine :=
  let items := list_ o in
  foldl (mergeOne (Bind s items)) s items.
End Copies.

(** ** Lemmas *)

(** A set as the package builds one: each item under its identity. *)
Definition keyed (q : quarantine) : Prop :=
  map_Forall (fun k i => identity i = Some k) (qitems q).

Lemma keyed_new : keyed newQuarantine.
Proof. apply map_Forall_empty. Qed.

Lemma keyed_addOne q i : keyed q -> keyed (addOne q i).
Proof.
  intros H. unfold addOne. destruct (identity i) as [k|] eqn:E; [|done].
  destruct (qitems q !! k); [done|]. by apply map_Forall_insert_2.
Qed.

Lemma keyed_foldl q items : keyed q -> keyed (foldl addOne q items).
Proof. revert q. induction items as [|i items IH]; intros q H; simpl; [done|]. by apply IH, keyed_addOne. Qed.

Lemma keyed_add q items : keyed q -> keyed (add q items).1.
Proof. intros H. unfold add. case_match; [done|]. by apply keyed_foldl. Qed.

Lemma keyed_held q i : keyed q -> i ∈ list_ q -> held q i = true.
Proof.
  intros H (kv & -> & Hk)%list_elem_of_fmap. destruct kv as [k j].
  apply elem_of_map_to_list in Hk. unfold held. simpl. rewrite (H k j Hk).
  rewrite bool_decide_eq_true_2; [done|by eexists].
Qed.

Lemma held_iff q i : held q i = true <-> exists k, identity i = Some k /\ is_Some (qitems q !! k).
Proof.
  unfold held. destruct (identity i) as [k|]; [|naive_solver]. rewrite bool_decide_eq_true.
  split; [eauto|]. by intros (k' & [= <-] & ?).
Qed.

Lemma addOne_held q i j :
  held (addOne q i) j = true <-> held q j = true \/ (identity j = identity i /\ is_Some (identity i)).
Proof.
  rewrite !held_iff. unfold addOne. destruct (identity i) as [k|] eqn:E; [|naive_solver].
  destruct (qitems q !! k) as [i'|] eqn:F.
  - split; [by left|]. intros [?|[-> _]]; [done|]. eauto.
  - simpl. destruct (identity j) as [k'|]; [|naive_solver]. destruct (decide (k' = k)) as [->|Hne].
    + split; [right; eauto|]. intros _. exists k. split; [done|]. rewrite lookup_insert_eq. by eexists.
    + split.
      * intros (? & [= <-] & H). rewrite lookup_insert_ne in H by done. left; eauto.
      * intros [(? & [= <-] & H)|[[= ?] _]]; [|done]. exists k'. by rewrite lookup_insert_ne.
Qed.

Lemma foldl_addOne_held q items j :
  held (foldl addOne q items) j = true <->
  held q j = true \/ exists i, i ∈ items /\ identity j = identity i /\ is_Some (identity i).
Proof.
  revert q. induction items as [|i items IH]; intros q; simpl.
  - split; [by left|]. intros [?|(i & Hi & _)]; [done|]. by apply not_elem_of_nil in Hi.
  - rewrite IH, addOne_held. setoid_rewrite elem_of_cons.
    split; [intros [[?|?]|(i'&?&?)]|intros [?|(i'&[->|?]&?)]]; eauto 10.
Qed.

(** The reference reading of [apply]: what is sent for each item in turn. *)
Fixpoint sent (q : quarantine) (calls : list string) (last : gmap string item) (next : ptr)
    (items : Items) : Items * ptr :=
  match items with
  | [] => ([], next)
  | i :: items =>
      let last := noteCall last i in
      match judge q calls last i with
      | Send => let '(o, n) := sent q calls last next items in (i :: o, n)
      | Leave => sent q calls last next items
      | SendPlaceholder o =>
          let '(os, n) := sent q calls last (Pos.succ next) items in (IOutput next o :: os, n)
      end
  end.

(** A transcript as the loop builds one: no nil, and every item comparable. *)
Abbreviation nameable := (Forall (fun i => comparable i = true)).

Lemma comparable_not_nil i : comparable i = true -> isNil i = false.
Proof. by destruct i. Qed.

Fixpoint allSend (q : quarantine) (calls : list string) (last : gmap string item) (items : Items) : bool :=
  match items with
  | [] => true
  | i :: items =>
      let last := noteCall last i in
      match judge q calls last i with Send => allSend q calls last items | _ => false end
  end.

Lemma sent_allSend q calls last next items :
  allSend q calls last items = true -> sent q calls last next items = (items, next).
Proof.
  revert last next. induction items as [|i items IH]; intros last next; simpl; [done|].
  destruct (judge _ _ _ _); try done. intros H. by rewrite IH.
Qed.

Lemma applyLoop_sent q calls last before out next items :
  nameable items ->
  applyLoop q calls last before out next items =
  let '(s, n) := sent q calls last next items in
  match out with
  | Some o => Some (Some (o ++ s), n)
  | None => if allSend q calls last items then Some (None, n) else Some (Some (before ++ s), n)
  end.
Proof.
  revert last before out next. induction items as [|i items IH]; intros last before out next Hc; simpl.
  { destruct out; [by rewrite app_nil_r|done]. }
  inversion_clear Hc as [|?? Hi Hc'].
  destruct (judge q calls (noteCall last i) i) as [| |o] eqn:J.
  - rewrite (comparable_not_nil _ Hi), Hi. simpl. destruct out; rewrite IH by done;
      destruct (sent _ _ _ _ items); rewrite <- ?app_assoc; [done|].
    by destruct (allSend _ _ _ _).
  - rewrite IH by done. destruct (sent _ _ _ _ items). by destruct out.
  - rewrite IH by done. destruct (sent _ _ _ _ items). destruct out; simpl; by rewrite <- app_assoc.
Qed.

Lemma heldCallIDs_empty q : qitems q = ∅ -> heldCallIDs q = [].
Proof. unfold heldCallIDs, list_. intros ->. by rewrite map_to_list_empty. Qed.

Lemma held_empty q i : qitems q = ∅ -> held q i = false.
Proof.
  unfold held. intros ->. destruct (identity i); [|done].
  rewrite lookup_empty. rewrite bool_decide_eq_false_2; [done|by intros []].
Qed.

Lemma judge_empty q last i : qitems q = ∅ -> judge q [] last i = Send.
Proof.
  intros H. unfold judge. rewrite (held_empty _ _ H). destruct (outputOf i); [|done].
  destruct (last !! _); [by rewrite (held_empty _ _ H)|done].
Qed.

Lemma apply_sent q next items :
  nameable items -> apply q next items = Some (sent q (heldCallIDs q) ∅ next items).
Proof.
  intros Hc. unfold apply. case_bool_decide as He.
  - rewrite (heldCallIDs_empty _ He). rewrite sent_allSend; [done|].
    generalize (∅ : gmap string item). clear Hc. induction items as [|i items IH]; intros last; simpl; [done|].
    by rewrite judge_empty.
  - rewrite applyLoop_sent by done. destruct (sent _ _ _ _ _) as [s n] eqn:E.
    destruct (allSend _ _ _ _) eqn:A; [|done]. rewrite (sent_allSend _ _ _ _ _ A) in E. by simplify_eq.
Qed.

(** No address from [next] on is in use by the set. *)
Definition unused (q : quarantine) (next : ptr) : Prop :=
  forall p, (next <= p)%positive -> qitems q !! (inl p : ident) = None.

Lemma unused_succ q next : unused q next -> unused q (Pos.succ next).
Proof. intros H p Hp. apply H. lia. Qed.

Lemma unused_placeholder q next o : unused q next -> held q (IOutput next o) = false.
Proof.
  intros H. unfold held. simpl. rewrite (H next) by lia. rewrite bool_decide_eq_false_2; [done|by intros []].
Qed.

Lemma sent_not_held q calls last next items i :
  unused q next -> i ∈ (sent q calls last next items).1 -> held q i = false.
Proof.
  revert last next. induction items as [|j items IH]; intros last next Hu; simpl.
  { intros H. by apply not_elem_of_nil in H. }
  destruct (judge q calls (noteCall last j) j) as [| |o] eqn:J.
  - destruct (sent _ _ _ _ items) as [s n] eqn:E. simpl.
    intros [->|H]%elem_of_cons.
    + unfold judge in J. by repeat case_match.
    + eapply (IH _ next); [done|]. by rewrite E.
  - by apply IH.
  - destruct (sent _ _ _ _ items) as [s n] eqn:E. simpl.
    intros [->|H]%elem_of_cons; [by apply unused_placeholder|].
    eapply (IH _ (Pos.succ next)); [by apply unused_succ|]. by rewrite E.
Qed.

Lemma judge_send_not_held q calls last i : judge q calls last i = Send -> held q i = false.
Proof. unfold judge. by repeat case_match. Qed.

Lemma judge_keeps_output q calls last i o :
  judge q calls last i = SendPlaceholder o ->
  exists p o', i = IOutput p o' /\ OutCallID o = OutCallID o' /\ held q i = true /\
    Text_ (Output o) = QuarantinedOutput.
Proof.
  unfold judge. destruct (held q i) eqn:E.
  - destruct i as [| | |p o'| |]; simpl; try done.
    destruct (match last !! _ with Some _ => _ | None => _ end); [done|].
    intros ?; simplify_eq/=. by exists p, o'.
  - by repeat case_match.
Qed.

(** [o] is what is sent for [i]: itself, or a placeholder answering the same call. *)
Definition sentFor (i o : item) : Prop :=
  o = i \/ exists p p' a b, i = IOutput p a /\ o = IOutput p' b /\ OutCallID b = OutCallID a /\
    Text_ (Output b) = QuarantinedOutput.

Lemma sent_order q calls last next items :
  exists kept, kept `sublist_of` items /\ Forall2 sentFor kept (sent q calls last next items).1.
Proof.
  revert last next. induction items as [|i items IH]; intros last next; simpl.
  { exists []. by split; constructor. }
  destruct (judge q calls (noteCall last i) i) as [| |o] eqn:J.
  - destruct (IH (noteCall last i) next) as (kept & Hs & Hf).
    destruct (sent _ _ _ _ items) as [s n]. exists (i :: kept). simpl.
    split; [by constructor|]. constructor; [by left|done].
  - destruct (IH (noteCall last i) next) as (kept & Hs & Hf). exists kept. by split; [constructor|].
  - apply judge_keeps_output in J as (p & o' & -> & Ho & _ & Ht).
    destruct (IH (noteCall last (IOutput p o')) (Pos.succ next)) as (kept & Hs & Hf).
    destruct (sent _ _ _ _ items) as [s n]. exists (IOutput p o' :: kept). simpl.
    split; [by constructor|]. constructor; [|done]. right. by exists p, next, o', o.
Qed.

Lemma sent_has q last next items i :
  (forall x c, last !! x = Some c -> held q c = true -> x ∈ heldCallIDs q) ->
  (forall j x, j ∈ items -> callIDOf j = Some x -> held q j = true -> x ∈ heldCallIDs q) ->
  has q i = false -> isNil i = false -> i ∈ items ->
  i ∈ (sent q (heldCallIDs q) last next items).1.
Proof.
  intros Hl Hc Hh Hn. revert last next Hl Hc.
  induction items as [|j items IH]; intros last next Hl Hc Hi; [by apply not_elem_of_nil in Hi|].
  assert (Hc' : forall j x, j ∈ items -> callIDOf j = Some x -> held q j = true -> x ∈ heldCallIDs q)
    by (intros ???; apply Hc; by right).
  assert (Hl' : forall x c, noteCall last j !! x = Some c -> held q c = true -> x ∈ heldCallIDs q).
  { unfold noteCall. intros x c. destruct (callIDOf j) as [y|] eqn:E; [|apply Hl].
    destruct (decide (y = x)) as [->|]; [rewrite lookup_insert_eq|rewrite lookup_insert_ne by done; apply Hl].
    intros [= <-] ?. eapply Hc; [by left|done..]. }
  simpl. apply elem_of_cons in Hi as [->|Hi].
  - assert (judge q (heldCallIDs q) (noteCall last j) j = Send) as ->.
    { unfold has in Hh. rewrite Hn in Hh. unfold judge. destruct (held q j) eqn:F; [done|].
      destruct (outputOf j) as [o|]; [|done].
      destruct (noteCall last j !! OutCallID o) as [c|] eqn:G.
      - destruct (held q c) eqn:K; [|done]. apply bool_decide_eq_false in Hh.
        destruct Hh. by eapply Hl'.
      - by rewrite Hh. }
    destruct (sent _ _ _ _ items). by left.
  - destruct (judge _ _ _ _) as [| |o]; [| |].
    + specialize (IH _ next Hl' Hc' Hi). destruct (sent _ _ _ _ items). by right.
    + by apply IH.
    + specialize (IH _ (Pos.succ next) Hl' Hc' Hi). destruct (sent _ _ _ _ items). by right.
Qed.

Lemma keyed_heldCallIDs q j x :
  keyed q -> (forall a, a ∈ list_ q -> identity a = identity j -> a = j) ->
  callIDOf j = Some x -> held q j = true -> x ∈ heldCallIDs q.
Proof.
  intros Hk Hco Hx (k & Hi & [i Hq])%held_iff. unfold heldCallIDs.
  apply list_elem_of_omap. exists i.
  assert (i ∈ list_ q) as Hin.
  { unfold list_. apply list_elem_of_fmap. exists (k, i). split; [done|]. by apply elem_of_map_to_list. }
  split; [done|]. rewrite (Hco i Hin); [done|]. by rewrite Hi, (Hk k i Hq).
Qed.

(** ** What a request carries is a valid input

    [closed open items]: every output answers a call made before it and not yet
    answered, no call reuses the ID of one still open, and no call is left open
    at the end. *)
Fixpoint closed (open : gset string) (items : Items) : bool :=
  match items with
  | [] => bool_decide (open = ∅)
  | i :: items =>
      match callIDOf i, outputOf i with
      | Some x, _ => negb (bool_decide (x ∈ open)) && closed ({[x]} ∪ open) items
      | None, Some o => bool_decide (OutCallID o ∈ open) && closed (open ∖ {[OutCallID o]}) items
      | None, None => closed open items
      end
  end.

Definition openLast (q : quarantine) (last : gmap string item) (open open' : gset string) : Prop :=
  (forall x, x ∈ open -> is_Some (last !! x)) /\
  (forall x, x ∈ open' <-> x ∈ open /\ exists c, last !! x = Some c /\ held q c = false).

Lemma openLast_call q last open open' i x :
  openLast q last open open' -> callIDOf i = Some x -> x ∉ open ->
  openLast q (noteCall last i) ({[x]} ∪ open) (if held q i then open' else {[x]} ∪ open').
Proof.
  intros [H1 H2] Hx Hn. unfold noteCall. rewrite Hx. split.
  - intros y [->%elem_of_singleton|Hy]%elem_of_union.
    + rewrite lookup_insert_eq. by eexists.
    + rewrite lookup_insert_ne; [by apply H1|]. by intros ->.
  - intros y. destruct (decide (y = x)) as [->|Hne].
    + rewrite lookup_insert_eq. assert (x ∉ open') by (rewrite H2; tauto).
      destruct (held q i) eqn:E; [|set_solver]. split; [done|].
      intros [_ (c & [= <-] & Hc)]. congruence.
    + rewrite lookup_insert_ne by done. destruct (held q i); set_solver.
Qed.

Lemma openLast_output q last open open' x c :
  openLast q last open open' -> last !! x = Some c ->
  openLast q last (open ∖ {[x]}) (if held q c then open' else open' ∖ {[x]}).
Proof.
  intros [H1 H2] Hc. split; [set_solver|]. intros y.
  destruct (held q c) eqn:E; [|set_solver].
  rewrite H2, elem_of_difference, elem_of_singleton. split; [|tauto].
  intros [Hy (c' & Hc' & He)]. split; [|eauto]. split; [done|]. intros ->. congruence.
Qed.

Lemma sent_closed q calls last next items open open' :
  openLast q last open open' -> closed open items = true ->
  closed open' (sent q calls last next items).1 = true.
Proof.
  revert last next open open'.
  induction items as [|i items IH]; intros last next open open' HO Hcl; simpl in *.
  { apply bool_decide_eq_true in Hcl as ->. destruct HO as [_ H2].
    apply bool_decide_eq_true. apply set_eq. intros x. rewrite H2. set_solver. }
  destruct (callIDOf i) as [x|] eqn:Ei.
  - apply andb_true_iff in Hcl as [Hx Hcl]. apply negb_true_iff, bool_decide_eq_false in Hx.
    pose proof (openLast_call _ _ _ _ _ _ HO Ei Hx) as HO'.
    assert (outputOf i = None) as Eo by (by destruct i). unfold judge. rewrite Eo.
    destruct (held q i) eqn:F; [by eapply IH|].
    pose proof (IH _ next _ _ HO' Hcl) as G. destruct (sent _ _ _ _ items). simpl.
    rewrite Ei, bool_decide_eq_false_2; [done|]. destruct HO as [_ H2]. rewrite H2. tauto.
  - unfold noteCall. rewrite Ei. destruct (outputOf i) as [o|] eqn:Eo.
    + apply andb_true_iff in Hcl as [Hx%bool_decide_eq_true Hcl].
      destruct (proj1 HO _ Hx) as [c Hc].
      pose proof (openLast_output _ _ _ _ _ _ HO Hc) as HO'.
      unfold judge. rewrite Eo, Hc. destruct (held q c) eqn:Fc; [by eapply IH|].
      assert (OutCallID o ∈ open') by (apply HO; eauto).
      destruct (held q i) eqn:Fi.
      * pose proof (IH _ (Pos.succ next) _ _ HO' Hcl) as G. destruct (sent _ _ _ _ items). simpl in *.
        by rewrite bool_decide_eq_true_2.
      * pose proof (IH _ next _ _ HO' Hcl) as G. destruct (sent _ _ _ _ items). simpl in *.
        by rewrite Ei, Eo, bool_decide_eq_true_2.
    + unfold judge. rewrite Eo. destruct (held q i); [by eapply IH|].
      pose proof (IH _ next _ _ HO Hcl) as G. destruct (sent _ _ _ _ items). simpl in *. by rewrite Ei, Eo.
Qed.

(** ** [apply] is idempotent *)

Definition lastKept (q : quarantine) (last last' : gmap string item) : Prop :=
  (forall x, last !! x = None -> last' !! x = None) /\
  (forall x c, last !! x = Some c -> held q c = false -> last' !! x = Some c).

Lemma lastKept_note q last last' i :
  lastKept q last last' -> held q i = false -> lastKept q (noteCall last i) (noteCall last' i).
Proof.
  intros [H1 H2] Hi. unfold noteCall. destruct (callIDOf i) as [x|]; [|done]. split.
  - intros y Hy. apply lookup_insert_None in Hy as [??]. rewrite lookup_insert_ne by done. auto.
  - intros y c. destruct (decide (x = y)) as [->|]; [by rewrite !lookup_insert_eq|].
    rewrite !lookup_insert_ne by done. apply H2.
Qed.

Lemma lastKept_leave q last last' i :
  lastKept q last last' -> held q i = true -> lastKept q (noteCall last i) last'.
Proof.
  intros [H1 H2] Hi. unfold noteCall. destruct (callIDOf i) as [x|]; [|done]. split.
  - intros y Hy. apply lookup_insert_None in Hy as [??]. auto.
  - intros y c. destruct (decide (x = y)) as [->|].
    + rewrite lookup_insert_eq. intros [= <-]. congruence.
    + rewrite lookup_insert_ne by done. apply H2.
Qed.

(** Whether the call an output with ID [x] answers is held. *)
Definition callHeld (q : quarantine) (calls : list string) (last : gmap string item) (x : string) : bool :=
  match last !! x with Some c => held q c | None => bool_decide (x ∈ calls) end.

Lemma callHeld_kept q calls last last' x :
  lastKept q last last' -> callHeld q calls last x = false -> callHeld q calls last' x = false.
Proof.
  intros [H1 H2]. unfold callHeld. destruct (last !! x) as [c|] eqn:E.
  - intros Hc. by rewrite (H2 _ _ E Hc).
  - by rewrite (H1 _ E).
Qed.

Lemma judge_unfold q calls last i :
  judge q calls last i =
  match outputOf i with
  | Some o => if callHeld q calls last (OutCallID o) then Leave
              else if held q i then SendPlaceholder (o <| Output := {| Text_ := QuarantinedOutput; Parts := [] |} |>)
              else Send
  | None => if held q i then Leave else Send
  end.
Proof. unfold judge, callHeld. destruct (outputOf i) as [o|]; [|done]. by destruct (last !! OutCallID o). Qed.

Lemma sent_allSend_again q calls last last' next items :
  unused q next -> lastKept q last last' ->
  allSend q calls last' (sent q calls last next items).1 = true.
Proof.
  revert last last' next. induction items as [|i items IH]; intros last last' next Hu HL; [done|].
  simpl. rewrite judge_unfold. destruct (outputOf i) as [o|] eqn:Eo.
  - assert (noteCall last i = last) as -> by (by destruct i).
    destruct (callHeld q calls last (OutCallID o)) eqn:Ec; [by apply IH|].
    pose proof (callHeld_kept _ _ _ _ _ HL Ec) as Ec'.
    destruct (held q i) eqn:Eh.
    + pose proof (IH last last' (Pos.succ next) (unused_succ _ _ Hu) HL) as G.
      destruct (sent _ _ _ _ items) as [s n]. simpl. rewrite judge_unfold. unfold noteCall. simpl.
      upd. by rewrite Ec', unused_placeholder.
    + pose proof (IH last last' next Hu HL) as G. destruct (sent _ _ _ _ items) as [s n]. simpl.
      rewrite judge_unfold, Eo.
      assert (noteCall last' i = last') as -> by (by destruct i). by rewrite Ec', Eh.
  - destruct (held q i) eqn:Eh; [by apply IH, lastKept_leave|].
    pose proof (IH _ _ next Hu (lastKept_note _ _ _ _ HL Eh)) as G.
    destruct (sent _ _ _ _ items) as [s n]. simpl. by rewrite judge_unfold, Eo, Eh.
Qed.

Lemma sent_nameable q calls last next items :
  nameable items -> nameable (sent q calls last next items).1.
Proof.
  revert last next. induction items as [|i items IH]; intros last next H; [done|].
  inversion_clear H as [|?? Hi Hs]. simpl. destruct (judge _ _ _ _).
  - pose proof (IH (noteCall last i) next Hs). destruct (sent _ _ _ _ items). by constructor.
  - by apply IH.
  - pose proof (IH (noteCall last i) (Pos.succ next) Hs). destruct (sent _ _ _ _ items). by constructor.
Qed.

(** *** Lemmas on [Bind] and [Merge] *)

Lemma elem_of_list_ q i : i ∈ list_ q <-> exists k, qitems q !! k = Some i.
Proof.
  unfold list_. rewrite list_elem_of_fmap. split.
  - intros ([k j] & -> & H). exists k. by apply elem_of_map_to_list.
  - intros [k H]. exists (k, i). by rewrite elem_of_map_to_list.
Qed.

Lemma addOne_mono q i j : j ∈ list_ q -> j ∈ list_ (addOne q i).
Proof.
  rewrite !elem_of_list_. intros [k Hk]. unfold addOne. destruct (identity i) as [k'|]; [|by exists k].
  destruct (qitems q !! k') eqn:E; [by exists k|]. exists k. simpl.
  rewrite lookup_insert_ne; [done|]. by intros ->; rewrite Hk in E.
Qed.

Lemma foldl_addOne_mono q items j : j ∈ list_ q -> j ∈ list_ (foldl addOne q items).
Proof. revert q. induction items as [|i items IH]; intros q H; simpl; [done|]. by apply IH, addOne_mono. Qed.

Lemma add_mono q items j : j ∈ list_ q -> j ∈ list_ (add q items).1.
Proof. intros H. unfold add. case_match; [done|]. by apply foldl_addOne_mono. Qed.

Lemma add_nameable q items :
  nameable items -> add q items = (foldl addOne q items, None).
Proof.
  intros H. unfold add. destruct (find_first _ items) as [i|] eqn:E; [|done].
  apply find_first_some in E as [Hi E]. rewrite Forall_forall in H.
  rewrite (H i Hi) in E. by rewrite andb_false_r in E.
Qed.

Lemma mergeOne_mono known s i j : j ∈ list_ s -> j ∈ list_ (mergeOne known s i).
Proof. intros H. unfold mergeOne. case_match; [done|]. by apply add_mono. Qed.

Lemma foldl_mergeOne_mono known s items j : j ∈ list_ s -> j ∈ list_ (foldl (mergeOne known) s items).
Proof. revert s. induction items as [|i items IH]; intros s H; simpl; [done|]. by apply IH, mergeOne_mono. Qed.

Lemma list_addOne_sub q i j : j ∈ list_ (addOne q i) -> j ∈ list_ q \/ j = i.
Proof.
  rewrite !elem_of_list_. intros [k Hk]. unfold addOne in Hk.
  destruct (identity i) as [k'|]; [|eauto]. destruct (qitems q !! k') eqn:E; [eauto|].
  upd_in Hk. destruct (decide (k' = k)) as [->|].
  - rewrite lookup_insert_eq in Hk. by simplify_eq; right.
  - rewrite lookup_insert_ne in Hk by done. eauto.
Qed.

Lemma addOne_self q i :
  (forall j, j ∈ list_ q -> identity j = identity i -> j = i) -> keyed q -> comparable i = true ->
  i ∈ list_ (addOne q i).
Proof.
  intros Hco Hk Hc. unfold comparable in Hc. apply bool_decide_eq_true in Hc as [x Hx].
  rewrite elem_of_list_. exists x. unfold addOne. rewrite Hx.
  destruct (qitems q !! x) as [j|] eqn:E; [|upd; by rewrite lookup_insert_eq].
  rewrite (Hco j) in E; [done| |].
  - apply elem_of_list_. by exists x.
  - by rewrite Hx, (Hk x j E).
Qed.

Lemma add_single q i : comparable i = true -> (add q [i]).1 = addOne q i.
Proof. intros H. by rewrite add_nameable by (by repeat constructor). Qed.

Lemma foldl_mergeOne_adds known s items i :
  keyed s -> nameable items ->
  (forall j, j ∈ list_ s \/ j ∈ items -> identity j = identity i -> j = i) ->
  i ∈ items -> has known i = false ->
  i ∈ list_ (foldl (mergeOne known) s items).
Proof.
  revert s. induction items as [|k items IH]; intros s Hk Hn Hco Hi Hh; [by apply not_elem_of_nil in Hi|].
  inversion_clear Hn as [|?? Hck Hn']. simpl.
  destruct (decide (i = k)) as [->|Hne].
  - apply foldl_mergeOne_mono. unfold mergeOne. rewrite Hh, add_single by done.
    apply addOne_self; auto.
  - apply IH; [| |intros j Hj|by apply elem_of_cons in Hi as [?|?]|done].
    + unfold mergeOne. case_match; [done|]. by apply keyed_add.
    + done.
    + apply Hco. destruct Hj as [Hj|Hj]; [|right; by right].
      unfold mergeOne in Hj. destruct (has known k); [by left|]. rewrite add_single in Hj by done.
      apply list_addOne_sub in Hj as [?| ->]; [by left|right; by left].
Qed.

Lemma held_new i : held newQuarantine i = false.
Proof. unfold held. destruct (identity i); [|done]. apply bool_decide_eq_false. simpl. rewrite lookup_empty. by intros []. Qed.

Lemma Bind_held members s t i :
  held (Bind members s t) i = true <->
  exists j, j ∈ t /\ identity i = identity j /\ bound members s j = true.
Proof.
  assert (Hnone : list_ s = [] -> forall j, bound members s j = false).
  { intros E j. unfold bound. rewrite E. destruct (held s j) eqn:F.
    - apply held_iff in F as (k & _ & [x Hx]). assert (x ∈ list_ s) as H by (apply elem_of_list_; eauto).
      rewrite E in H. by apply not_elem_of_nil in H.
    - destruct (copyKey members j); [|by rewrite andb_false_r].
      by rewrite andb_false_r. }
  unfold Bind. case_bool_decide as E.
  { split; [|intros (j & _ & _ & Hb); by rewrite Hnone in Hb].
    by rewrite held_new. }
  rewrite add_nameable.
  - simpl. rewrite foldl_addOne_held. split.
    + intros [H|(j & Hj & Ej & _)]; [by rewrite held_new in H|].
      apply list_elem_of_filter in Hj as [Hb Hj]. eauto.
    + intros (j & Hj & Ej & Hb). right. exists j. rewrite list_elem_of_filter. split_and!; try done.
      unfold bound in Hb. apply andb_true_iff in Hb as [[_ Hb]%andb_true_iff _].
      by apply bool_decide_eq_true in Hb.
  - apply Forall_forall. intros j [Hb _]%list_elem_of_filter. unfold bound in Hb.
    by apply andb_true_iff in Hb as [[_ Hb]%andb_true_iff _].
Qed.

(** Two of the items name the same object only when they are that object. *)
Definition coherent (items : Items) : Prop :=
  forall i j, i ∈ items -> j ∈ items -> identity i = identity j -> i = j.

Lemma keyed_list_nameable q : keyed q -> nameable (list_ q).
Proof.
  intros H. apply Forall_forall. intros i [k Hk]%elem_of_list_. unfold comparable.
  apply bool_decide_eq_true. rewrite (H k i Hk). by eexists.
Qed.

Lemma Merge_keeps members s o i :
  keyed s -> keyed o -> coherent (list_ s ++ list_ o) -> i ∈ list_ o -> outputOf i = None ->
  copyKey members i ∈ map (copyKey members) (list_ (Merge members s o)).
Proof.
  intros Hs Ho Hco Hi Hout. unfold Merge.
  set (known := Bind members s (list_ o)).
  pose proof (keyed_list_nameable o Ho) as Hn.
  destruct (has known i) eqn:Hh.
  - assert (comparable i = true) as Hci by (rewrite Forall_forall in Hn; auto).
    unfold has in Hh. rewrite (comparable_not_nil i Hci), Hout in Hh.
    destruct (held known i) eqn:Hk; [|done].
    apply Bind_held in Hk as (j & Hj & Eij & Hb).
    assert (i = j) as <- by (apply Hco; [set_solver..|done]).
    unfold bound in Hb. apply andb_true_iff in Hb as [_ [Hb|Hb]%orb_true_iff].
    + apply held_iff in Hb as (k & Hk & [x Hx]).
      assert (x ∈ list_ s) as Hxs by (apply elem_of_list_; eauto).
      assert (i = x) as <- by (apply Hco; [set_solver..|by rewrite Hk, (Hs k x Hx)]).
      apply list_elem_of_fmap. exists i. split; [done|]. by apply foldl_mergeOne_mono.
    + destruct (copyKey members i) as [key|]; [|done]. apply bool_decide_eq_true in Hb.
      apply list_elem_of_fmap in Hb as (x & Hx & Hxs). apply list_elem_of_fmap. exists x.
      split; [done|]. by apply foldl_mergeOne_mono.
  - apply list_elem_of_fmap. exists i. split; [done|]. apply foldl_mergeOne_adds; try done.
    intros j Hj E. symmetry. apply Hco; [set_solver..|done].
Qed.

(** ** Properties *)

(** C33: under a quarantine nothing quarantined reaches a request. For a
    transcript of items that can be named, and addresses from [next] on unused,
    [apply] returns a list that holds no quarantined item; it is the transcript
    with items left out and quarantined outputs replaced by a placeholder for the
    same call, in the same order; what [has] does not report is in it unchanged,
    so what [has] reports is at least what is withheld; and applying it again
    changes nothing. *)
Theorem apply_withholds q next items :
  nameable items -> unused q next -> keyed q -> coherent (list_ q ++ items) ->
  exists out next', apply q next items = Some (out, next') /\
    (forall i, i ∈ out -> held q i = false) /\
    (exists kept, kept `sublist_of` items /\ Forall2 sentFor kept out) /\
    (forall i, i ∈ items -> has q i = false -> i ∈ out) /\
    (forall n, unused q n -> apply q n out = Some (out, n)).
Proof.
  intros Hn Hu Hk Hco. rewrite apply_sent by done.
  destruct (sent q (heldCallIDs q) ∅ next items) as [out next'] eqn:E.
  exists out, next'. split; [done|].
  replace out with (sent q (heldCallIDs q) ∅ next items).1 by (by rewrite E).
  split_and!.
  - intros i. by apply sent_not_held.
  - apply sent_order.
  - intros i Hi Hh. apply sent_has; try done.
    + intros j x Hj Hx Hh'. eapply keyed_heldCallIDs; try done.
      intros a Ha E'. apply Hco; [set_solver..|done].
    + rewrite Forall_forall in Hn. by apply comparable_not_nil, Hn.
  - intros n _. rewrite apply_sent by (by apply sent_nameable).
    rewrite sent_allSend; [done|]. apply sent_allSend_again; [done|]. by split.
Qed.

(** The quarantine keeps a request a valid input. When every call of the
    transcript is answered by an output after it, before another call takes its
    ID, the same holds of what [apply] sends: a call left out takes its outputs
    with it, and a call that is sent keeps an output, its own or the placeholder. *)
Theorem apply_closed q next items :
  nameable items -> closed ∅ items = true ->
  exists out next', apply q next items = Some (out, next') /\ closed ∅ out = true.
Proof.
  intros Hn Hc. rewrite apply_sent by done.
  destruct (sent q (heldCallIDs q) ∅ next items) as [out next'] eqn:E. exists out, next'.
  split; [done|]. replace out with (sent q (heldCallIDs q) ∅ next items).1 by (by rewrite E).
  eapply sent_closed; [|done]. split; [set_solver|]. intros x. split; [set_solver|]. by intros [? _].
Qed.

(** A quarantine made in one task holds in the next. What a run's set [o]
    holds and [Merge] kept in the conversation's set [s] is quarantined by [Bind]
    in every later load [t] of the transcript, by the copy alone: for an item of
    [o] that is not a function call output, each comparable item of [t] equal to it
    in its JSON encoding but for the id and status members is quarantined again. *)
Theorem Merge_Bind_roundtrip members s o t i j :
  keyed s -> keyed o -> coherent (list_ s ++ list_ o) ->
  i ∈ list_ o -> outputOf i = None ->
  j ∈ t -> comparable j = true -> copyKey members j = copyKey members i ->
  is_Some (copyKey members i) ->
  held (Bind members (Merge members s o) t) j = true.
Proof.
  intros Hs Ho Hco Hi Hout Hj Hc Heq [key Hkey]. apply Bind_held. exists j. split_and!; [done..|].
  unfold bound. rewrite (comparable_not_nil j Hc), Hc. simpl.
  rewrite Heq, Hkey. apply orb_true_iff. right. apply bool_decide_eq_true.
  rewrite <- Hkey. by apply Merge_keeps.
Qed.

(** *** Witnesses *)

Module QuarantineExamples.
Definition user : item := IMessage 1 {| Role_ := RoleUser; Content := "hi" |}.
Definition call1 : item :=
  ICall 2 {| ID := "fc_1"; CallID := "c1"; Name := "read"; Arguments := "{}"; CallStatus := "completed" |}.
Definition out1 : item :=
  IOutput 3 {| OutID := ""; OutCallID := "c1"; Output := {| Text_ := "secret"; Parts := [] |}; OutStatus := "" |}.
Definition call2 : item :=
  ICall 4 {| ID := "fc_2"; CallID := "c1"; Name := "fetch"; Arguments := "{}"; CallStatus := "completed" |}.
Definition out2 : item :=
  IOutput 5 {| OutID := ""; OutCallID := "c1"; Output := {| Text_ := "injected"; Parts := [] |}; OutStatus := "" |}.
Definition quar : quarantine := (add newQuarantine [out1]).1.
Definition wire (i : item) : option (gmap string string) :=
  match i with
  | IMessage _ m => Some {[ "content" := Content m ]}
  | ICall _ c => Some {[ "call_id" := CallID c; "id" := ID c; "name" := Name c; "arguments" := Arguments c ]}
  | IOutput _ o => Some {[ "call_id" := OutCallID o; "output" := Text_ (Output o) ]}
  | _ => None
  end.
End QuarantineExamples.
Import QuarantineExamples.

Lemma unused_quar : unused quar 10.
Proof.
  intros p Hp. change (qitems quar) with ({[ (inl 3%positive : ident) := out1 ]} : gmap ident item).
  apply lookup_singleton_ne. intros [= <-]. by apply Hp.
Defined.

Lemma coherent_quar : coherent (list_ quar ++ [user; call1; out1]).
Proof.
  change (list_ quar) with [out1]. intros i j Hi Hj.
  repeat (apply elem_of_cons in Hi as [->|Hi]); try (by apply not_elem_of_nil in Hi);
  repeat (apply elem_of_cons in Hj as [->|Hj]); try (by apply not_elem_of_nil in Hj); done.
Defined.

Lemma apply_withholds_witness :
  exists out next', apply quar 10 [user; call1; out1] = Some (out, next') /\
    (forall i, i ∈ out -> held quar i = false) /\
    (exists kept, kept `sublist_of` [user; call1; out1] /\ Forall2 sentFor kept out) /\
    (forall i, i ∈ [user; call1; out1] -> has quar i = false -> i ∈ out) /\
    (forall n, unused quar n -> apply quar n out = Some (out, n)).
Proof.
  apply (apply_withholds quar 10 [user; call1; out1]).
  - repeat constructor.
  - apply unused_quar.
  - apply keyed_add, keyed_new.
  - apply coherent_quar.
Defined.

Lemma apply_closed_witness :
  exists out next', apply quar 10 [user; call1; out1] = Some (out, next') /\ closed ∅ out = true.
Proof. apply (apply_closed quar 10 [user; call1; out1]); [repeat constructor|vm_compute; reflexivity]. Defined.

(** The same message loaded again, at another address. *)
Definition userAgain : item := IMessage 21 {| Role_ := RoleUser; Content := "hi" |}.
Definition userQuar : quarantine := (add newQuarantine [user]).1.

Lemma Merge_Bind_roundtrip_witness :
  held (Bind wire (Merge wire newQuarantine userQuar) [userAgain; call1]) userAgain = true.
Proof.
  apply (Merge_Bind_roundtrip wire newQuarantine userQuar [userAgain; call1] user userAgain).
  - apply keyed_new.
  - apply keyed_add, keyed_new.
  - change (list_ newQuarantine ++ list_ userQuar) with [user]. intros i j ->%list_elem_of_singleton.
    by intros ->%list_elem_of_singleton.
  - change (list_ userQuar) with [user]. by left.
  - reflexivity.
  - by left.
  - reflexivity.
  - reflexivity.
  - by eexists.
Defined.

(** Where the two sets disagree. [Merge] asks [has] whether the
    conversation's set already holds a copy of an item, and [has] answers yes for
    any output whose call ID is a quarantined call's. So with a reused call ID an
    output a run quarantined for itself is not merged, and the next load of the
    same transcript sends it as it arrived, where the run withheld it. *)
Theorem Merge_loses_reused_output :
  let s := (add newQuarantine [call1]).1 in
  let o := (add newQuarantine [call1; out2]).1 in
  let t := [user; call1; out1; call2; out2] in
  (exists sentRun n, apply o 10 t = Some (sentRun, n) /\ out2 ∉ sentRun) /\
  (exists sentNext n, apply (Bind wire (Merge wire s o) t) 10 t = Some (sentNext, n) /\ out2 ∈ sentNext).
Proof.
  split.
  - eexists _, _. split; [vm_compute; reflexivity|].
    rewrite !not_elem_of_cons. split_and!; [done..|apply not_elem_of_nil].
  - eexists _, _. split; [vm_compute; reflexivity|]. apply list_elem_of_In. vm_compute. tauto.
Qed.

(** A request over an item held by value in a type that cannot be compared
    does not come back once anything is quarantined: [apply] compares the item
    with itself, which panics. *)
Theorem apply_panics_on_uncomparable q next before typ w rest :
  qitems q <> ∅ -> nameable before ->
  apply q next (before ++ IOther (ByValue false) typ w :: rest) = None.
Proof.
  intros Hq Hb. unfold apply. rewrite bool_decide_eq_false_2 by done.
  assert (forall last bf out n, applyLoop q (heldCallIDs q) last bf out n
    (before ++ IOther (ByValue false) typ w :: rest) = None) as ->; [|done].
  induction before as [|i before IH]; intros last bf out n; simpl; [done|].
  inversion_clear Hb as [|?? Hi Hb']. destruct (judge _ _ _ _); try by apply IH.
  rewrite (comparable_not_nil _ Hi), Hi. simpl. destruct out; by apply IH.
Qed.

Lemma apply_panics_on_uncomparable_witness :
  apply quar 10 ([user; call1] ++ IOther (ByValue false) "acme:widget" "{}" :: [out1]) = None.
Proof. apply apply_panics_on_uncomparable; [discriminate|repeat constructor]. Defined.
