(* ===== verification/Types.v ===== *)
(** * Types: the records the loop, its hooks and its subscribers exchange
    ([events.go], [config.go]), and the interface of the libraries it calls.

    An [agenttool.Tool] is an interface value: it is its address here, and what
    it does is asked of [Externals] or of the environment a run is given. A
    record's projections carry a prefix, since several of the Go structs share
    member names. *)

From S2P Require Export Items.

Abbreviation Tool := ptr.

(** [agenttool.Result]. *)
Record Result := { res_Output : OutputData; res_Terminate : bool; res_Details : any }.
#[export] Instance eta_Result : Eta Result := fun r => Build_Result (res_Output r) (res_Terminate r) (res_Details r).
#[export] Instance Result_eq_dec : EqDecision Result.
Proof. solve_decision. Defined.

(** Go's zero [agenttool.Result]. *)
Definition noResult : Result := {| res_Output := {| Text_ := ""; Parts := [] |}; res_Terminate := false; res_Details := None |}.

(** [agenttool.Replay]. *)
Inductive Replay := ReplayUnknown | ReplaySafe | ReplayKeyed.

(** [agenttool.Call]. *)
Record Call := { call_ID : string; call_Args : raw; call_Key : string }.

(** ** Decisions on a tool call *)

Inductive ToolAction := Allow | Block | Defer.
#[export] Instance ToolAction_eq_dec : EqDecision ToolAction.
Proof. solve_decision. Defined.

Record ToolDecision := {
  Action : ToolAction;
  td_Reason : string;
  td_Terminate : bool;
  td_Args : raw;
  td_By : string;
  td_Note : string;
  td_Held : bool;
  td_Subject : string;
  td_DeclineText : string;
}.
#[export] Instance eta_ToolDecision : Eta ToolDecision := fun r =>
  Build_ToolDecision (Action r) (td_Reason r) (td_Terminate r) (td_Args r) (td_By r) (td_Note r)
    (td_Held r) (td_Subject r) (td_DeclineText r).
#[export] Instance ToolDecision_eq_dec : EqDecision ToolDecision.
Proof. solve_decision. Defined.

(** ** How an item joined the transcript *)

Inductive InputMode :=
| InputPrompt | InputResume | InputSteer | InputFollowUp | InputDeliver | InputHook | InputTool | InputContinued.
#[export] Instance InputMode_eq_dec : EqDecision InputMode.
Proof. solve_decision. Defined.

(** [TurnInput]. A drain hands the loop items as they were queued, marks
    included; what a turn reports holds the item itself, [Plain]. *)
Record TurnInput := { ti_Item : input; ti_Mode : InputMode; ti_Trigger : Trigger }.

Inductive QueueMode := QueueSteer | QueueFollowUp.
#[export] Instance QueueMode_eq_dec : EqDecision QueueMode.
Proof. solve_decision. Defined.

(** ** Notes and pending calls *)

Record Note := { n_Item : item; n_Mode : InputMode; n_Trigger : Trigger; n_CallID : string }.
#[export] Instance eta_Note : Eta Note := fun r => Build_Note (n_Item r) (n_Mode r) (n_Trigger r) (n_CallID r).
#[export] Instance Note_eq_dec : EqDecision Note.
Proof. solve_decision. Defined.

Record NestedRecord := {
  nr_CallID : string;
  nr_Parent : string;
  nr_Name : string;
  nr_Args : raw;
  nr_Dispatched : bool;
  nr_IdempotencyKey : string;
  nr_DispatchArgs : raw;
  nr_Ended : bool;
  nr_Result : Result;
  nr_Err : string;
  nr_Blocked : bool;
  nr_Reason : string;
}.
#[export] Instance eta_NestedRecord : Eta NestedRecord := fun r =>
  Build_NestedRecord (nr_CallID r) (nr_Parent r) (nr_Name r) (nr_Args r) (nr_Dispatched r)
    (nr_IdempotencyKey r) (nr_DispatchArgs r) (nr_Ended r) (nr_Result r) (nr_Err r) (nr_Blocked r) (nr_Reason r).

Record AskedCall := {
  ac_Parent : string;
  ac_CallID : string;
  ac_Name : string;
  ac_Args : raw;
  ac_Decision : option ToolDecision;
  ac_Callee : string;
}.

Record OpenQuestion := { oq_ID : string; oq_Message : string; oq_Call : option AskedCall }.

Inductive PendingReason :=
| PendingDeferred | PendingAborted | PendingUndispatched | PendingUnknown
| PendingAnswered | PendingRejected | PendingReturned.
#[export] Instance PendingReason_eq_dec : EqDecision PendingReason.
Proof. solve_decision. Defined.

(** A [*openresponses.FunctionCall]: its address and its members. *)
Record callRef := { cr_ptr : ptr; cr_call : FunctionCall }.
#[export] Instance callRef_eq_dec : EqDecision callRef.
Proof. solve_decision. Defined.

Definition callItem (c : callRef) : item := ICall (cr_ptr c) (cr_call c).
Abbreviation callID c := (CallID (cr_call c)).

(** A [*openresponses.Message]: its address and its members. *)
Record msgRef := { mg_ptr : ptr; mg_message : Message }.
#[export] Instance msgRef_eq_dec : EqDecision msgRef.
Proof. solve_decision. Defined.

Definition msgItem (m : msgRef) : item := IMessage (mg_ptr m) (mg_message m).

(** [PendingCall]. [p_Call] is nil only in what a host gives [WithPending]. *)
Record PendingCall := {
  p_Call : option callRef;
  p_Reason : PendingReason;
  p_Tool : option Tool;
  p_Dispatched : bool;
  p_IdempotencyKey : string;
  p_Args : raw;
  p_Ran : option FunctionCallOutput;
  p_RanWhere : string;
  p_Refused : string;
  p_Decision : option ToolDecision;
  p_Question : option OpenQuestion;
  p_Notes : list Note;
  p_Nested : list NestedRecord;
}.
#[export] Instance eta_PendingCall : Eta PendingCall := fun r =>
  Build_PendingCall (p_Call r) (p_Reason r) (p_Tool r) (p_Dispatched r) (p_IdempotencyKey r) (p_Args r)
    (p_Ran r) (p_RanWhere r) (p_Refused r) (p_Decision r) (p_Question r) (p_Notes r) (p_Nested r).

(** A pending call with a call and a reason and nothing else. *)
Definition newPending (c : callRef) (reason : PendingReason) : PendingCall := {|
  p_Call := Some c; p_Reason := reason; p_Tool := None; p_Dispatched := false; p_IdempotencyKey := "";
  p_Args := None; p_Ran := None; p_RanWhere := ""; p_Refused := ""; p_Decision := None; p_Question := None;
  p_Notes := []; p_Nested := [] |}.

(** [PendingCall.MayHaveRun]. *)
Definition MayHaveRun (p : PendingCall) : bool :=
  bool_decide (p_Reason p = PendingAborted) || bool_decide (p_Reason p = PendingUnknown) ||
  (bool_decide (p_Reason p = PendingDeferred) && p_Dispatched p).

(** [PendingCalls]. *)
Definition PendingCalls (pending : list PendingCall) : list (option callRef) := map p_Call pending.

(** The call ID of a pending call, "" for one without a call. *)
Definition pendingID (p : PendingCall) : string :=
  match p_Call p with Some c => callID c | None => "" end.

(** ** Requests and responses *)

(** [openresponses.Request]: the members the loop sets or reads; [rq_InputAt] is
    the address of the input's backing array and [rq_Rest] is every other member. *)
Record Request := {
  rq_Model : string;
  rq_Input : Items;
  rq_InputAt : ptr;
  rq_Instructions : string;
  rq_Tools : list string;
  rq_Store : option bool;
  rq_Stream : bool;
  rq_StreamOptions : option string;
  rq_PreviousResponseID : string;
  rq_Reasoning : string;
  rq_Text : string;
  rq_Metadata : gmap string string;
  rq_Extra : gmap string any;
  rq_Include : list string;
  rq_MaxOutputTokens : option Z;
  rq_Rest : string;
}.
#[export] Instance eta_Request : Eta Request := fun r =>
  Build_Request (rq_Model r) (rq_Input r) (rq_InputAt r) (rq_Instructions r) (rq_Tools r) (rq_Store r) (rq_Stream r)
    (rq_StreamOptions r) (rq_PreviousResponseID r) (rq_Reasoning r) (rq_Text r) (rq_Metadata r)
    (rq_Extra r) (rq_Include r) (rq_MaxOutputTokens r) (rq_Rest r).

(** [openresponses.Usage], its details' members among its own. *)
Record Usage := { us_Input : Z; us_Output : Z; us_Total : Z; us_Cached : Z; us_Reasoning : Z }.

Inductive ResponseStatus := StatusCompleted | StatusIncomplete | StatusFailed | StatusOther (s : string).
#[export] Instance ResponseStatus_eq_dec : EqDecision ResponseStatus.
Proof. solve_decision. Defined.

(** [openresponses.Response]. *)
Record Response := {
  rp_ID : string;
  rp_Status : ResponseStatus;
  rp_Output : Items;
  rp_Usage : option Usage;
  rp_Error : option error;
  rp_Incomplete : string;
}.
#[export] Instance eta_Response : Eta Response := fun r =>
  Build_Response (rp_ID r) (rp_Status r) (rp_Output r) (rp_Usage r) (rp_Error r) (rp_Incomplete r).

(** ** Events *)

Inductive Source := SourceInput | SourceResume.
#[export] Instance Source_eq_dec : EqDecision Source.
Proof. solve_decision. Defined.

Record RunStart := { rs_RunID : string; rs_Source : Source; rs_Trigger : Trigger }.
Record TurnStart := { ts_RunID : string; ts_Turn : Z; ts_Request : Request; ts_Inputs : Items;
  ts_Arrived : list TurnInput; ts_Quarantined : Items }.
Record ModelRetry := { mr_RunID : string; mr_Turn : Z; mr_Attempt : Z; mr_Err : error; mr_Delay : Z;
  mr_Request : Request; mr_Quarantined : Items }.
Record ModelBlocked := { mb_RunID : string; mb_Turn : Z; mb_Request : Request; mb_Err : error;
  mb_Usage : option Usage; mb_Quarantined : Items }.
Record QuarantineAdded := { qa_Items : Items; qa_Quarantined : Items }.
Record ItemStart := { is_RunID : string; is_Turn : Z; is_Item : item; is_ResponseID : string;
  is_Hidden : bool; is_Copied : bool; is_Provenance : option Provenance }.
Record ItemUpdate := { iu_RunID : string; iu_Turn : Z; iu_Item : item; iu_Stream : string; iu_ResponseID : string }.
Record ItemEnd := { ie_RunID : string; ie_Turn : Z; ie_Item : item; ie_ResponseID : string; ie_Hidden : bool;
  ie_Copied : bool; ie_Provenance : option Provenance; ie_Trigger : Trigger; ie_ModelCallID : string }.
Record ResponseEnd := { re_RunID : string; re_Turn : Z; re_Response : Response; re_Withheld : bool }.
Record ToolStart := { tst_RunID : string; tst_Turn : Z; tst_CallID : string; tst_Name : string; tst_Args : raw;
  tst_Decision : option ToolDecision; tst_Parent : string; tst_Invoked : raw; tst_Replayed : bool }.
Record ToolDispatch := { tdi_RunID : string; tdi_Turn : Z; tdi_CallID : string; tdi_Name : string;
  tdi_Parent : string; tdi_IdempotencyKey : string }.
Record ToolUpdate := { tu_RunID : string; tu_Turn : Z; tu_CallID : string; tu_Name : string; tu_Partial : Result }.
Record ToolEnd := { te_RunID : string; te_Turn : Z; te_CallID : string; te_Name : string; te_Result : Result;
  te_Err : option error; te_Blocked : bool; te_Deferred : bool; te_Reason : string; te_Parent : string;
  te_Withdrawn : bool; te_Cut : bool; te_Replayed : bool }.
Record TurnEnd := { tn_RunID : string; tn_Turn : Z; tn_Response : Response; tn_ToolResults : list Result }.
Record RunEnd := { re_ID : string; re_Items : Transcript; re_Reason : Reason; re_Cause : StopCause;
  re_Err : option error; re_Failure : option error; re_Pending : list PendingCall; re_Notes : list Note;
  re_Quarantined : Items; re_WithheldMsg : bool }.
Record NotesHeld := { nh_RunID : string; nh_Notes : list Note }.
Record Queued := { qd_RunID : string; qd_Item : item; qd_Mode : QueueMode; qd_Input : InputMode; qd_Hidden : bool;
  qd_Copied : bool; qd_Trigger : Trigger; qd_Provenance : option Provenance }.

(** [Event]. *)
Inductive event :=
| EvRunStart (e : RunStart) | EvTurnStart (e : TurnStart) | EvModelRetry (e : ModelRetry)
| EvModelBlocked (e : ModelBlocked) | EvItemStart (e : ItemStart) | EvItemUpdate (e : ItemUpdate)
| EvItemEnd (e : ItemEnd) | EvResponseEnd (e : ResponseEnd) | EvToolStart (e : ToolStart)
| EvToolDispatch (e : ToolDispatch) | EvToolUpdate (e : ToolUpdate) | EvToolEnd (e : ToolEnd)
| EvTurnEnd (e : TurnEnd) | EvRunEnd (e : RunEnd) | EvNotesHeld (e : NotesHeld) | EvQueued (e : Queued)
| EvQuarantineAdded (e : QuarantineAdded).

(** ** The libraries the loop calls

    What the source uses of openresponses and agenttool beyond the members of
    their types, and of the JSON decoder, whose values are compared with
    [reflect.DeepEqual]: their canonical text here. *)
Class Externals := {
  (** [Message.Text()] *)
  MessageText : Message -> string;
  (** [json.Marshal(item)] *)
  marshal : item -> option string;
  (** [openresponses.UserText] and [DeveloperText], the content of the message made *)
  textContent : string -> string;
  (** [Response.FunctionCalls()] *)
  FunctionCalls : Response -> list callRef;
  (** [agenttool.ErrorResult] *)
  ErrorResult : error -> Result;
  (** [agenttool.ReplayOf], asked under the call on the context *)
  ReplayOf : Tool -> Call -> raw -> Replay;
  (** [decodeNumbers]: the first JSON value of the text, numbers kept as written *)
  decodeValue : string -> option string;
  (** whether the text is a JSON object and nothing else *)
  decodeObject : string -> bool;
}.

(** The bytes of a [json.RawMessage], none for nil. *)
Definition bytesOf (a : raw) : string := default "" a.

(** [validObject]. *)
Definition validObject `{Externals} (a : raw) : bool := decodeObject (bytesOf a).

(** [sameArgs]. *)
Definition sameArgs `{Externals} (a b : raw) : bool :=
  match decodeValue (bytesOf a), decodeValue (bytesOf b) with
  | Some x, Some y => bool_decide (x = y)
  | _, _ => bool_decide (bytesOf a = bytesOf b)
  end.

(** [orEmpty]. *)
Definition orEmpty (args : raw) (own : string) : raw :=
  let args := match args with None => Some own | Some _ => args end in
  if bool_decide (bytesOf args = "") then Some "{}" else args.

Lemma sameArgs_refl `{Externals} a : sameArgs a a = true.
Proof. unfold sameArgs. destruct (decodeValue _); by apply bool_decide_eq_true. Qed.

Lemma sameArgs_sym `{Externals} a b : sameArgs a b = sameArgs b a.
Proof.
  unfold sameArgs. destruct (decodeValue (bytesOf a)), (decodeValue (bytesOf b)); apply bool_decide_ext; done.
Qed.

Lemma sameArgs_trans `{Externals} a b c : sameArgs a b = true -> sameArgs b c = true -> sameArgs a c = true.
Proof.
  unfold sameArgs.
  destruct (decodeValue (bytesOf a)) eqn:A, (decodeValue (bytesOf b)) eqn:B, (decodeValue (bytesOf c)) eqn:C;
    rewrite !bool_decide_eq_true; congruence.
Qed.
#[export] Hint Resolve sameArgs_refl : agent.
