(* ===== verification/Chain.v ===== *)
(** * Chain: several hooks joined into one ([chain.go]).

    A hook is a function of the world it runs in: it may read and change
    anything outside the loop, so it takes a world and returns the next one. *)

From S2P Require Export Types.

(** The members of [ToolCallInfo] a chain reads or changes: the arguments. *)
Record ToolCallInfo := {
  tci_RunID : string; tci_Turn : Z; tci_Call : callRef; tci_Tool : option Tool; tci_Args : raw;
  tci_Batch : list callRef; tci_Index : Z; tci_Parent : string }.
#[export] Instance eta_ToolCallInfo : Eta ToolCallInfo := fun r =>
  Build_ToolCallInfo (tci_RunID r) (tci_Turn r) (tci_Call r) (tci_Tool r) (tci_Args r) (tci_Batch r) (tci_Index r) (tci_Parent r).

(** [OutputInfo]. *)
Record OutputInfo := { oi_RunID : string; oi_Turn : Z; oi_ResponseID : string; oi_Message : msgRef; oi_Output : Items }.
#[export] Instance eta_OutputInfo : Eta OutputInfo := fun r =>
  Build_OutputInfo (oi_RunID r) (oi_Turn r) (oi_ResponseID r) (oi_Message r) (oi_Output r).

Section Chains.
Context {W : Type}.

(** A hook given a value of type [I] and returning one of type [O] or an error. *)
Definition hook (I O : Type) := W -> I -> (O + error) * W.

(** [for _, fn := range fns { if fn != nil { kept = append(kept, fn) } }]. *)
Definition kept {I O} (fns : list (option (hook I O))) : list (hook I O) := omap id fns.

(** The chain of a list of hooks, none when no hook is kept. *)
Definition chained {I O} (loop : list (hook I O) -> hook I O) (fns : list (option (hook I O))) :
    option (hook I O) :=
  match kept fns with
  | [] => None
  | fns => Some (loop fns)
  end.

(** [ChainBeforeModelCall]: each hook edits the request the next one sees; the
    request is passed by pointer, so the edits made before an error stand. *)
Definition requestHook := W -> Request -> option error * Request * W.

Fixpoint modelCallLoop (fns : list requestHook) (w : W) (req : Request) : option error * Request * W :=
  match fns with
  | [] => (None, req, w)
  | fn :: fns =>
      match fn w req with
      | (Some e, req, w) => (Some e, req, w)
      | (None, req, w) => modelCallLoop fns w req
      end
  end.

Definition ChainBeforeModelCall (fns : list (option requestHook)) : option requestHook :=
  match omap id fns with [] => None | fns => Some (modelCallLoop fns) end.

(** [ChainTransform]. *)
Fixpoint transformLoop (fns : list (hook Transcript Transcript)) (w : W) (t : Transcript) :
    (Transcript + error) * W :=
  match fns with
  | [] => (inl t, w)
  | fn :: fns =>
      match fn w t with
      | (inr e, w) => (inr e, w)
      | (inl t, w) => transformLoop fns w t
      end
  end.

Definition ChainTransform := chained transformLoop.

(** [ChainBeforeTurn], over the [TurnStartInfo] of the turn. *)
Fixpoint beforeTurnLoop {I} (fns : list (hook I (list input))) (items : list input) (w : W) (info : I) :
    (list input + error) * W :=
  match fns with
  | [] => (inl items, w)
  | fn :: fns =>
      match fn w info with
      | (inr e, w) => (inr e, w)
      | (inl got, w) => beforeTurnLoop fns (items ++ got) w info
      end
  end.

Definition ChainBeforeTurn {I} := chained (fun fns w (info : I) => beforeTurnLoop fns [] w info).

(** [ChainShouldStopAfterTurn]. *)
Fixpoint shouldStopLoop {I} (fns : list (hook I bool)) (w : W) (info : I) : (bool + error) * W :=
  match fns with
  | [] => (inl false, w)
  | fn :: fns =>
      match fn w info with
      | (inr e, w) => (inr e, w)
      | (inl true, w) => (inl true, w)
      | (inl false, w) => shouldStopLoop fns w info
      end
  end.

Definition ChainShouldStopAfterTurn {I} := chained (shouldStopLoop (I := I)).

(** [strictness]. *)
Definition strictness (a : ToolAction) : Z :=
  match a with Block => 2 | Defer => 1 | Allow => 0 end.

(** The action, the reason and the deferral's members as [merge] takes them. *)
Definition mergeStrict (d next : ToolDecision) : ToolDecision :=
  if strictness (Action d) <? strictness (Action next)
  then d <| Action := Action next |> <| td_Reason := td_Reason next |> <| td_By := td_By next |>
         <| td_Held := td_Held next |> <| td_Subject := td_Subject next |> <| td_DeclineText := td_DeclineText next |>
  else if bool_decide (Action d = Defer) && bool_decide (Action next = Defer) && td_Held d && negb (td_Held next)
  then d <| td_Held := false |> <| td_Reason := td_Reason next |> <| td_By := td_By next |>
         <| td_Subject := td_Subject next |> <| td_DeclineText := td_DeclineText next |>
  else d.

(** [a] when it says something, [b] otherwise. *)
Definition orElse (a b : string) : string := if bool_decide (a = "") then b else a.

(** [ToolDecision.merge]: the members [mergeStrict] leaves, each then filled from [next]. *)
Definition merge (d next : ToolDecision) : ToolDecision :=
  let d := mergeStrict d next in
  {| Action := Action d;
     td_Reason := orElse (td_Reason d) (td_Reason next);
     td_By := orElse (td_By d) (td_By next);
     td_Held := td_Held d;
     td_Subject := td_Subject d;
     td_DeclineText :=
       if bool_decide (td_DeclineText d = "") && bool_decide (Action d = Defer) &&
          bool_decide (Action next = Defer) && Bool.eqb (td_Held d) (td_Held next)
       then td_DeclineText next else td_DeclineText d;
     td_Note := orElse (td_Note d) (td_Note next);
     td_Args := match td_Args next with Some a => Some a | None => td_Args d end;
     td_Terminate := td_Terminate d || td_Terminate next |}.

(** One decision folded into the chain's. *)
Definition foldDecision (out : option ToolDecision) (d : ToolDecision) : ToolDecision :=
  match out with None => d | Some o => merge o d end.

(** [ChainBeforeToolCall]. *)
Fixpoint toolCallLoop (fns : list (hook ToolCallInfo (option ToolDecision))) (out : option ToolDecision)
    (w : W) (info : ToolCallInfo) : (option ToolDecision + error) * W :=
  match fns with
  | [] => (inl out, w)
  | fn :: fns =>
      match fn w info with
      | (inr e, w) => (inr e, w)
      | (inl None, w) => toolCallLoop fns out w info
      | (inl (Some d), w) =>
          let out := foldDecision out d in
          let info := match td_Args out with Some a => info <| tci_Args := Some a |> | None => info end in
          if bool_decide (Action out = Block) then (inl (Some out), w)
          else toolCallLoop fns (Some out) w info
      end
  end.

Definition ChainBeforeToolCall := chained (fun fns w info => toolCallLoop fns None w info).

(** [ChainOutputGuard]. *)
Fixpoint outputGuardLoop (fns : list (hook OutputInfo (option msgRef))) (replaced : option msgRef)
    (w : W) (info : OutputInfo) : (option msgRef + error) * W :=
  match fns with
  | [] => (inl replaced, w)
  | fn :: fns =>
      match fn w info with
      | (inr e, w) => (inr e, w)
      | (inl None, w) => outputGuardLoop fns replaced w info
      | (inl (Some out), w) => outputGuardLoop fns (Some out) w (info <| oi_Message := out |>)
      end
  end.

Definition ChainOutputGuard := chained (fun fns w info => outputGuardLoop fns None w info).

End Chains.

(** ** Lemmas and properties *)

Section Merging.

Lemma merge_Action d next :
  strictness (Action (merge d next)) = Z.max (strictness (Action d)) (strictness (Action next)).
Proof.
  destruct d as [[] ? ? ? ? ? [] ? ?], next as [[] ? ? ? ? ? [] ? ?]; reflexivity.
Qed.

Lemma merge_Terminate d next : td_Terminate (merge d next) = td_Terminate d || td_Terminate next.
Proof. destruct d as [[] ? ? ? ? ? [] ? ?], next as [[] ? ? ? ? ? [] ? ?]; reflexivity. Qed.

Lemma merge_Args d next :
  td_Args (merge d next) = match td_Args next with Some a => Some a | None => td_Args d end.
Proof. destruct d as [[] ? ? ? ? ? [] ? ?], next as [[] ? ? ? ? ? [] ? ?]; reflexivity. Qed.

(** Whether a decision asks about the call, rather than holding it beside another. *)
Definition asks (d : ToolDecision) : bool := bool_decide (Action d = Defer) && negb (td_Held d).

Lemma merge_asks d next :
  Action d <> Block -> Action next <> Block ->
  asks (merge d next) = asks d || asks next.
Proof. by destruct d as [[] ? ? ? ? ? [] ? ?], next as [[] ? ? ? ? ? [] ? ?]. Qed.

Local Opaque merge.

Lemma strictness_nonneg a : 0 <= strictness a <= 2.
Proof. destruct a; simpl; lia. Qed.

Lemma strictness_block a : strictness a = 2 <-> a = Block.
Proof. by destruct a. Qed.

(** The chain's decision as a fold of the decisions given. *)
Definition foldDecisions (out : option ToolDecision) (ds : list ToolDecision) : option ToolDecision :=
  foldl (fun out d => Some (foldDecision out d)) out ds.

(** The arguments a hook sees once [out] has been folded. *)
Definition seenArgs (args : raw) (out : option ToolDecision) : raw :=
  match out with
  | Some d => match td_Args d with Some a => Some a | None => args end
  | None => args
  end.

End Merging.

Section ToolCalls.
Context {W : Type}.

(** The hooks of a chain that ran: with the arguments each saw and the decision
    it gave. A run ends at the first error and at the first Block. *)
Inductive ran : list (hook (W := W) ToolCallInfo (option ToolDecision)) -> W -> ToolCallInfo ->
    list (raw * option ToolDecision) -> option error -> W -> Prop :=
| ran_nil w info : ran [] w info [] None w
| ran_error fn fns w info e w' : fn w info = (inr e, w') -> ran (fn :: fns) w info [] (Some e) w'
| ran_block fn fns w info d w' :
    fn w info = (inl (Some d), w') -> Action d = Block ->
    ran (fn :: fns) w info [(tci_Args info, Some d)] None w'
| ran_none fn fns w info w' ds e w'' :
    fn w info = (inl None, w') -> ran fns w' info ds e w'' ->
    ran (fn :: fns) w info ((tci_Args info, None) :: ds) e w''
| ran_some fn fns w info d w' ds e w'' :
    fn w info = (inl (Some d), w') -> Action d <> Block ->
    ran fns w' (info <| tci_Args := seenArgs (tci_Args info) (Some d) |>) ds e w'' ->
    ran (fn :: fns) w info ((tci_Args info, Some d) :: ds) e w''.

Lemma info_eta (info : ToolCallInfo) : info <| tci_Args := tci_Args info |> = info.
Proof. by destruct info. Qed.

Lemma foldDecision_block out d :
  (forall o, out = Some o -> Action o <> Block) ->
  Action (foldDecision out d) = Block <-> Action d = Block.
Proof.
  intros Ho. destruct out as [o|]; [|done]. unfold foldDecision. rewrite <- !strictness_block, merge_Action.
  pose proof (strictness_nonneg (Action o)). pose proof (strictness_nonneg (Action d)).
  assert (strictness (Action o) <> 2) by (rewrite strictness_block; auto). lia.
Qed.

(** The arguments seen after folding [d]: those it rewrote, else those seen before. *)
Lemma foldDecision_args out d info :
  (forall o a, out = Some o -> td_Args o = Some a -> tci_Args info = Some a) ->
  match td_Args (foldDecision out d) with Some a => info <| tci_Args := Some a |> | None => info end =
  info <| tci_Args := seenArgs (tci_Args info) (Some d) |>.
Proof.
  intros Ho. unfold foldDecision, seenArgs. destruct out as [o|]; rewrite ?merge_Args.
  - destruct (td_Args d); [done|]. destruct (td_Args o) as [a|] eqn:E; [|by destruct info].
    by rewrite (Ho o a).
  - destruct (td_Args d); [done|by destruct info].
Qed.

Lemma toolCallLoop_ran fns out w info :
  (forall o, out = Some o -> Action o <> Block) ->
  (forall o a, out = Some o -> td_Args o = Some a -> tci_Args info = Some a) ->
  exists ds e w', ran fns w info ds e w' /\
    toolCallLoop fns out w info =
    (match e with Some e => inr e | None => inl (foldDecisions out (omap snd ds)) end, w').
Proof.
  revert out w info. induction fns as [|fn fns IH]; intros out w info Hb Ha; simpl.
  { exists [], None, w. split; [constructor|done]. }
  destruct (fn w info) as [[[d|]|e] w1] eqn:E.
  - rewrite (foldDecision_args out d info Ha). case_bool_decide as HB.
    + exists [(tci_Args info, Some d)], None, w1. split; [|done].
      eapply ran_block; [done|]. by eapply foldDecision_block.
    + assert (Action d <> Block) as Hd by (by rewrite <- (foldDecision_block out d Hb)).
      destruct (IH (Some (foldDecision out d)) w1 (info <| tci_Args := seenArgs (tci_Args info) (Some d) |>))
        as (ds & e & w2 & Hr & Heq).
      * by intros o [= <-].
      * intros o a [= <-] Hoa. unfold set; simpl. destruct out as [o'|]; unfold foldDecision in Hoa.
        { rewrite merge_Args in Hoa. destruct (td_Args d); [done|]. by rewrite (Ha o' a). }
        { by rewrite Hoa. }
      * exists ((tci_Args info, Some d) :: ds), e, w2. split; [by eapply ran_some|done].
  - destruct (IH out w1 info Hb Ha) as (ds & e & w2 & Hr & Heq).
    exists ((tci_Args info, None) :: ds), e, w2. split; [by eapply ran_none|done].
  - exists [], (Some e), w1. split; [by constructor|done].
Qed.

Lemma foldDecisions_some out ds :
  (out = None -> ds <> []) -> exists r, foldDecisions out ds = Some r.
Proof.
  revert out. induction ds as [|d ds IH]; intros out H; simpl.
  - destruct out; [eauto|]. by destruct H.
  - by apply IH.
Qed.

Lemma foldDecisions_strict out ds r :
  foldDecisions out ds = Some r ->
  (forall d, out = Some d \/ d ∈ ds -> strictness (Action d) <= strictness (Action r)) /\
  (exists d, (out = Some d \/ d ∈ ds) /\ Action d = Action r) /\
  (td_Terminate r = true <-> exists d, (out = Some d \/ d ∈ ds) /\ td_Terminate d = true).
Proof.
  revert out. induction ds as [|d ds IH]; intros out; simpl.
  { intros ->. split_and!.
    - intros d [[= <-]|Hd]; [done|]. by apply not_elem_of_nil in Hd.
    - exists r. by split; [left|].
    - split; [intros ?; exists r; by split; [left|]|].
      intros (d & [[= <-]|Hd] & ?); [done|]. by apply not_elem_of_nil in Hd. }
  intros Hr. destruct (IH _ Hr) as (H1 & (x & Hx & Hxr) & H3). split_and!.
  - assert (strictness (Action (foldDecision out d)) <= strictness (Action r)) as Hf by (apply H1; by left).
    intros y [->|[->|Hy]%elem_of_cons].
    + unfold foldDecision in Hf. rewrite merge_Action in Hf. lia.
    + destruct out; unfold foldDecision in Hf; [rewrite merge_Action in Hf|]; lia.
    + apply H1. by right.
  - destruct Hx as [[= <-]|Hx]; [|exists x; split; [right; by right|done]].
    destruct out as [o|]; unfold foldDecision in Hxr; [|exists d; split; [right; by left|done]].
    pose proof (merge_Action o d) as Hm. rewrite Hxr in Hm.
    destruct (Z.max_spec (strictness (Action o)) (strictness (Action d))) as [[_ E]|[_ E]]; rewrite E in Hm.
    + exists d. split; [right; by left|]. destruct (Action d), (Action r); simpl in *; try done; lia.
    + exists o. split; [by left|]. destruct (Action o), (Action r); simpl in *; try done; lia.
  - rewrite H3. split.
    + intros (y & [[= <-]|Hy] & Hy'); [|exists y; split; [right; by right|done]].
      destruct out as [o|]; unfold foldDecision in Hy'; [|exists d; split; [right; by left|done]].
      rewrite merge_Terminate in Hy'. apply orb_true_iff in Hy' as [?|?]; [exists o|exists d];
        (split; [|done]); [by left|right; by left].
    + intros (y & [->|[->|Hy]%elem_of_cons] & Hy').
      * exists (foldDecision (Some y) d). split; [by left|]. unfold foldDecision. by rewrite merge_Terminate, Hy'.
      * exists (foldDecision out d). split; [by left|]. destruct out; unfold foldDecision; [|done].
        by rewrite merge_Terminate, Hy', orb_true_r.
      * exists y. split; [by right|done].
Qed.

Lemma foldDecisions_last_block ds d out :
  Action d = Block -> exists r, foldDecisions out (ds ++ [d]) = Some r /\ Action r = Block.
Proof.
  intros Hd. destruct (foldDecisions_some out (ds ++ [d])) as [r Hr]; [by destruct ds|].
  exists r. split; [done|]. apply strictness_block.
  destruct (foldDecisions_strict _ _ _ Hr) as (H & _). pose proof (strictness_nonneg (Action r)).
  specialize (H d). rewrite Hd in H. simpl in H. assert (2 <= strictness (Action r)); [|lia].
  apply H. right. set_solver.
Qed.

(** A chain of policies never weakens a decision. The chain asks the hooks in
    order, each with the arguments the decisions before it left, and stops at the
    first error, which it returns, and at the first Block. What it returns is nil
    when no hook decided; otherwise its action is the strictest any hook that ran
    gave and one of theirs, and it terminates exactly when one of them said so. *)
Theorem ChainBeforeToolCall_strictest fns hook w info :
  ChainBeforeToolCall fns = Some hook ->
  exists ds e w', ran (kept fns) w info ds e w' /\ (hook w info).2 = w' /\
    match e with
    | Some e => (hook w info).1 = inr e
    | None =>
        match omap snd ds with
        | [] => (hook w info).1 = inl None
        | d0 :: ds' =>
            exists r, (hook w info).1 = inl (Some r) /\
              (forall d, d ∈ d0 :: ds' -> strictness (Action d) <= strictness (Action r)) /\
              (exists d, d ∈ d0 :: ds' /\ Action d = Action r) /\
              (td_Terminate r = true <-> exists d, d ∈ d0 :: ds' /\ td_Terminate d = true)
        end
    end.
Proof.
  unfold ChainBeforeToolCall, chained. intros H.
  assert (hook = fun w info => toolCallLoop (kept fns) None w info) as -> by (destruct (kept fns); by simplify_eq).
  destruct (toolCallLoop_ran (kept fns) None w info) as (ds & e & w' & Hr & Heq); [done..|].
  exists ds, e, w'. split; [done|]. rewrite Heq. split; [done|]. destruct e as [e|]; [done|].
  destruct (omap snd ds) as [|d0 ds'] eqn:Eds; [done|].
  destruct (foldDecisions_some None (d0 :: ds')) as [r Hf]; [done|]. exists r. cbn [fst]. rewrite Hf.
  destruct (foldDecisions_strict _ _ _ Hf) as (H1 & (x & [?|Hx] & Hxr) & H3); [done|].
  split_and!; [done|by auto|by eauto|]. rewrite H3. naive_solver.
Qed.

Lemma transformLoop_app (fs gs : list (hook (W := W) Transcript Transcript)) w t :
  transformLoop (fs ++ gs) w t =
  match transformLoop fs w t with (inl t, w) => transformLoop gs w t | r => r end.
Proof.
  revert w t. induction fs as [|f fs IH]; intros w t; simpl; [done|].
  destruct (f w t) as [[t'|e] w']; [apply IH|done].
Qed.

Lemma modelCallLoop_app (fs gs : list (requestHook (W := W))) w req :
  modelCallLoop (fs ++ gs) w req =
  match modelCallLoop fs w req with (None, req, w) => modelCallLoop gs w req | r => r end.
Proof.
  revert w req. induction fs as [|f fs IH]; intros w req; simpl; [done|].
  destruct (f w req) as [[[e|] req'] w']; [done|apply IH].
Qed.

Lemma beforeTurnLoop_app {I} (fs gs : list (hook (W := W) I (list input))) items w info :
  beforeTurnLoop (fs ++ gs) items w info =
  match beforeTurnLoop fs items w info with (inl items, w) => beforeTurnLoop gs items w info | r => r end.
Proof.
  revert items w. induction fs as [|f fs IH]; intros items w; simpl; [done|].
  destruct (f w info) as [[got|e] w']; [apply IH|done].
Qed.

Lemma beforeTurnLoop_prefix {I} (gs : list (hook (W := W) I (list input))) items w info :
  beforeTurnLoop gs items w info =
  match beforeTurnLoop gs [] w info with (inl got, w) => (inl (items ++ got), w) | r => r end.
Proof.
  revert items w. induction gs as [|g gs IH]; intros items w; simpl; [by rewrite app_nil_r|].
  destruct (g w info) as [[got|e] w']; [|done]. rewrite (IH (items ++ got)), (IH got).
  destruct (beforeTurnLoop gs [] w' info) as [[r|e] w'']; [by rewrite app_assoc|done].
Qed.

Lemma shouldStopLoop_app {I} (fs gs : list (hook (W := W) I bool)) w info :
  shouldStopLoop (fs ++ gs) w info =
  match shouldStopLoop fs w info with (inl false, w) => shouldStopLoop gs w info | r => r end.
Proof.
  revert w. induction fs as [|f fs IH]; intros w; simpl; [done|].
  destruct (f w info) as [[[]|e] w']; [done|apply IH|done].
Qed.

End ToolCalls.

(** Chains compose. Joining the chains of two lists of hooks is the chain of
    the two lists: layers that chain their own hooks can be chained again in the
    order they are given, for the transforms, the model-call hooks, the before-turn
    hooks, whose items come in order, and the stop hooks; and a chain of one hook
    behaves exactly as that hook, the tool hooks' chain included. *)
Theorem chains_compose {W} :
  (forall (fs gs : list (hook (W := W) Transcript Transcript)) w t,
     transformLoop [transformLoop fs; transformLoop gs] w t = transformLoop (fs ++ gs) w t) /\
  (forall (fs gs : list (requestHook (W := W))) w req,
     modelCallLoop [modelCallLoop fs; modelCallLoop gs] w req = modelCallLoop (fs ++ gs) w req) /\
  (forall I (fs gs : list (hook (W := W) I (list input))) w info,
     beforeTurnLoop [beforeTurnLoop fs []; beforeTurnLoop gs []] [] w info = beforeTurnLoop (fs ++ gs) [] w info) /\
  (forall I (fs gs : list (hook (W := W) I bool)) w info,
     shouldStopLoop [shouldStopLoop fs; shouldStopLoop gs] w info = shouldStopLoop (fs ++ gs) w info) /\
  (forall (f : hook (W := W) ToolCallInfo (option ToolDecision)) w info, toolCallLoop [f] None w info = f w info) /\
  (forall (f : hook (W := W) OutputInfo (option msgRef)) w info, outputGuardLoop [f] None w info = f w info).
Proof.
  split_and!.
  - intros fs gs w t. rewrite transformLoop_app. simpl.
    destruct (transformLoop fs w t) as [[t'|e] w']; [|done].
    by destruct (transformLoop gs w' t') as [[|] ?].
  - intros fs gs w req. rewrite modelCallLoop_app. simpl.
    destruct (modelCallLoop fs w req) as [[[e|] req'] w']; [done|].
    by destruct (modelCallLoop gs w' req') as [[[|] ?] ?].
  - intros I fs gs w info. rewrite beforeTurnLoop_app. simpl.
    destruct (beforeTurnLoop fs [] w info) as [[got|e] w']; [|done].
    rewrite (beforeTurnLoop_prefix gs got). by destruct (beforeTurnLoop gs [] w' info) as [[|] ?].
  - intros I fs gs w info. rewrite shouldStopLoop_app. simpl.
    destruct (shouldStopLoop fs w info) as [[[]|e] w']; [done| |done].
    by destruct (shouldStopLoop gs w' info) as [[[]|] ?].
  - intros f w info. simpl. destruct (f w info) as [[[d|]|e] w']; simpl; [|done..]. by case_bool_decide.
  - intros f w info. simpl. by destruct (f w info) as [[[d|]|e] w'].
Qed.

(** A decision with an action and a reason and nothing else. *)
Definition simpleDecision (a : ToolAction) (reason by_ : string) : ToolDecision := {|
  Action := a; td_Reason := reason; td_Terminate := false; td_Args := None; td_By := by_; td_Note := "";
  td_Held := false; td_Subject := ""; td_DeclineText := "" |}.

Local Transparent merge.

(** A deferral that gives no reason takes the reason and the decider of an
    allow after it: the chain's reason then explains a decision that does not
    stand. *)
Theorem merge_takes_weaker_reason reason by_ :
  let r := merge (simpleDecision Defer "" "") (simpleDecision Allow reason by_) in
  Action r = Defer /\ td_Reason r = reason /\ td_By r = by_.
Proof. done. Qed.

Lemma ChainBeforeToolCall_strictest_witness :
  let ask : hook (W := nat) ToolCallInfo (option ToolDecision) :=
    fun w _ => (inl (Some (simpleDecision Defer "policy" "policy")), S w) in
  let deny : hook (W := nat) ToolCallInfo (option ToolDecision) :=
    fun w _ => (inl (Some (simpleDecision Block "never" "policy")), S w) in
  let info := Build_ToolCallInfo "run" 1 {| cr_ptr := 1; cr_call := Build_FunctionCall "" "c" "rm" "{}" "" |}
    None (Some "{}") [] 0 "" in
  exists ds e w', ran (kept [Some ask; None; Some deny; Some ask]) 0%nat info ds e w' /\
    (toolCallLoop [ask; deny; ask] None 0%nat info).2 = w' /\
    match e with
    | Some e => (toolCallLoop [ask; deny; ask] None 0%nat info).1 = inr e
    | None =>
        match omap snd ds with
        | [] => (toolCallLoop [ask; deny; ask] None 0%nat info).1 = inl None
        | d0 :: ds' =>
            exists r, (toolCallLoop [ask; deny; ask] None 0%nat info).1 = inl (Some r) /\
              (forall d, d ∈ d0 :: ds' -> strictness (Action d) <= strictness (Action r)) /\
              (exists d, d ∈ d0 :: ds' /\ Action d = Action r) /\
              (td_Terminate r = true <-> exists d, d ∈ d0 :: ds' /\ td_Terminate d = true)
        end
    end.
Proof.
  intros ask deny info.
  exact (ChainBeforeToolCall_strictest [Some ask; None; Some deny; Some ask] _ 0%nat info eq_refl).
Defined.
