(* ===== verification/Transcript.v ===== *)
(** * Transcript: what the loop and the agent read off a transcript, its
    unanswered calls and the calls pending on it ([run.go], [agent.go],
    [config.go] filters, [RunEnd.Answer] of [events.go]). *)

From S2P Require Export Types.

(** ** Reading a transcript *)

(** [CanContinue]. *)
Definition CanContinue (t : Transcript) : bool :=
  match last t with
  | Some (IMessage _ m) => negb (bool_decide (Role_ m = RoleAssistant))
  | Some (IOutput _ _) => true
  | _ => false
  end.

(** The call IDs the outputs of [t] answer. *)
Definition answered (t : Transcript) : gset string :=
  foldl (fun s i => match i with IOutput _ o => {[ OutCallID o ]} ∪ s | _ => s end) ∅ t.

(** The calls of [t], in order. *)
Definition calls (t : Transcript) : list callRef :=
  omap (fun i => match i with ICall p c => Some {| cr_ptr := p; cr_call := c |} | _ => None end) t.

(** [unansweredCalls]. *)
Definition unansweredCalls (t : Transcript) : list callRef :=
  filter (fun c : callRef => callID c ∉ answered t) (calls t).

(** [pendingCalls]. *)
Definition pendingCalls (calls : list callRef) (reason : PendingReason) : list PendingCall :=
  map (fun c => newPending c reason) calls.

(** [modelProduced]. *)
Definition modelProduced (i : item) : bool :=
  match i with
  | Nil => true
  | IOutput _ _ => false
  | IMessage _ m => bool_decide (Role_ m = RoleAssistant)
  | i => negb (containsColon (ItemType i))
  end.

(** [continuedInputs]: the tail after the last item the model produced. *)
Definition continuedInputs (t : Transcript) : list TurnInput :=
  let '(tail, _) := span (fun i => negb (modelProduced i)) (reverse t) in
  map (fun i => {| ti_Item := Plain i; ti_Mode := InputContinued; ti_Trigger := noTrigger |}) (reverse tail).

(** [terminates]. *)
Definition terminates (results : list Result) : StopCause * bool :=
  let '(some, all) :=
    foldl (fun '(some, all) res => if res_Terminate res then (true, all) else (some, false))
      (false, negb (bool_decide (results = []))) results in
  if all then (StopTerminate, true) else if some then (StopPartialTerminate, true) else (NoCause, false).

(** [VisibleFilter] and [DefaultFilter]. *)
Definition visible (keep : list string) (i : item) : bool :=
  negb (isNil i) && (negb (containsColon (ItemType i)) || bool_decide (ItemType i ∈ keep)).

Definition VisibleFilter (keep : list string) (t : Transcript) : Transcript :=
  filter (fun i => visible keep i = true) t.

Definition DefaultFilter (t : Transcript) : Transcript := VisibleFilter [] t.

(** [source]: what a run on [t] begins from, given its prompts and the number of
    approved calls. *)
Definition source (t : Transcript) (prompts : list input) (approved : nat) : Source :=
  if (0 <? approved)%nat then SourceResume
  else
    let open := map (fun c => callID c) (unansweredCalls t) in
    if existsb (fun i => match i with IOutput _ o => bool_decide (OutCallID o ∈ open) | _ => false end)
         (unhideAll prompts)
    then SourceResume else SourceInput.

(** The outputs a prompt opens with. *)
Definition leadingOutputs (items : Items) : list FunctionCallOutput :=
  omap (fun i => match i with IOutput _ o => Some o | _ => None end)
    (fst (span (fun i => match i with IOutput _ _ => true | _ => false end) items)).

(** The loop of [answersPending]: what is still wanted, or an output for no pending call. *)
Fixpoint answerWanted (outs : list FunctionCallOutput) (want : gset string) : gset string + error :=
  match outs with
  | [] => inl want
  | o :: outs =>
      if bool_decide (OutCallID o ∈ want) then answerWanted outs (want ∖ {[ OutCallID o ]})
      else inr (Wrap (OutCallID o) (Sentinel ErrNotPending))
  end.

(** [answersPending]. *)
Definition answersPending (pending : list PendingCall) (prompts : list input) : option error :=
  match answerWanted (leadingOutputs (unhideAll prompts)) (list_to_set (map pendingID pending)) with
  | inr e => Some e
  | inl want =>
      if bool_decide (want = ∅) then None
      else Some (Wrap "pending call(s) unanswered" (Sentinel ErrInputRequired))
  end.

(** [RunEnd.Answer]. *)
Definition Answer_ `{Externals} (e : RunEnd) : string * bool :=
  if re_WithheldMsg e then ("", false)
  else
    let '(_, rest) := span (fun i => isNil i || containsColon (ItemType i)) (reverse (re_Items e)) in
    match rest with
    | IMessage _ m :: _ =>
        if bool_decide (Role_ m = RoleAssistant)
        then (MessageText m, negb (bool_decide (MessageText m = "")))
        else ("", false)
    | _ => ("", false)
    end.

(** ** Comparing lists of items *)

(** An item without its address: what [reflect.DeepEqual] compares. *)
Definition contents (i : item) : item :=
  match i with
  | Nil => Nil
  | IMessage _ m => IMessage 1 m
  | ICall _ c => ICall 1 c
  | IOutput _ o => IOutput 1 o
  | IReasoning _ r => IReasoning 1 r
  | IOther (ByPtr _) t w => IOther (ByPtr 1) t w
  | IOther (ByValue b) t w => IOther (ByValue b) t w
  end.

(** [sameItems]. *)
Definition sameItems (a b : Items) : bool := bool_decide (map contents a = map contents b).

(** [foldedAway], given what the quarantine says of an item. *)
Definition foldedAway (has : item -> bool) (transcript sent : Transcript) : bool :=
  let kept := omap identity sent in
  existsb (fun i => match identity i with Some k => negb (bool_decide (k ∈ kept)) && has i | None => false end)
    transcript.

(** ** Pending calls an agent holds *)

(** [liveNotes]. *)
Definition liveNotes (notes : list Note) : list Note := filter (fun n => isNil (n_Item n) = false) notes.

(** [byID[id]] of [mergePending]: the last of [known] with the ID. *)
Fixpoint lastKnown (id : string) (known : list PendingCall) : option PendingCall :=
  match known with
  | [] => None
  | q :: known =>
      match lastKnown id known with
      | Some q => Some q
      | None =>
          match p_Call q with
          | Some c => if bool_decide (callID c = id) then Some q else None
          | None => None
          end
      end
  end.

Definition mergeOne (known : list PendingCall) (p : PendingCall) : PendingCall :=
  match p_Call p with
  | None => p
  | Some c =>
      match lastKnown (callID c) known with
      | None => p
      | Some q =>
          match p_Call q with
          | None => p
          | Some k =>
              if bool_decide (Name (cr_call k) = Name (cr_call c)) &&
                 bool_decide (Arguments (cr_call k) = Arguments (cr_call c))
              then q <| p_Call := Some c |> <| p_Notes := liveNotes (p_Notes q) |>
              else p
          end
      end
  end.

(** [mergePending]: the agent's own pending calls all have a call. *)
Definition mergePending (pending known : list PendingCall) : list PendingCall := map (mergeOne known) pending.

(** The notes of [notes] put on the last call whose ID is in [ids]. *)
Fixpoint putLast (ids : list string) (notes : list Note) (pending : list PendingCall) : list PendingCall * bool :=
  match pending with
  | [] => ([], false)
  | p :: pending =>
      let '(pending, put) := putLast ids notes pending in
      if put then (p :: pending, true)
      else if bool_decide (pendingID p ∈ ids) then ((p <| p_Notes := notes |>) :: pending, true)
      else (p :: pending, false)
  end.

(** The IDs of the calls of [known] that have one. *)
Definition knownIDs (known : list PendingCall) : list string :=
  omap (fun p => match p_Call p with Some c => Some (callID c) | None => None end) known.

(** [keepNotes]. *)
Definition keepNotes (pending known : list PendingCall) : list PendingCall :=
  (putLast (knownIDs known) (known ≫= p_Notes) (map (fun p => p <| p_Notes := [] |>) pending)).1.

(** [keepOwed]. *)
Definition keepOwed (notes : list Note) (t : Transcript) : list Note :=
  filter (fun n => n_CallID n = "" \/ n_CallID n ∈ answered t) notes.

(** ** What the context says of the answers *)

(** The maps [ContextWithDeciders], [ContextWithReasons], [ContextWithOrigins] and
    [ContextWithFailures] put on a context. *)
Record AnswerContext := {
  ac_deciders : gmap string string;
  ac_reasons : gmap string string;
  ac_origins : gmap string string;
  ac_failures : gset string;
}.

(** [setOrClear]. *)
Definition setOrClear (m : gmap string string) (k v : string) : gmap string string :=
  if bool_decide (v = "") then delete k m else <[k := v]> m.

Definition markAnswer (cx : AnswerContext) (id : string) (a : answerMarks) : AnswerContext := {|
  ac_deciders := setOrClear (ac_deciders cx) id (am_by a);
  ac_reasons := setOrClear (ac_reasons cx) id (am_reason a);
  ac_origins := setOrClear (ac_origins cx) id (am_origin a);
  ac_failures := if am_failed a then {[ id ]} ∪ ac_failures cx else ac_failures cx ∖ {[ id ]};
|}.

(** [withAnswerMarks]. *)
Fixpoint withAnswerMarks (cx : AnswerContext) (items : list input) : AnswerContext :=
  match items with
  | [] => cx
  | i :: items =>
      match (Unhide i).1 with
      | IOutput _ o =>
          withAnswerMarks
            (match i with
             | Marked m => match answer m with Some a => markAnswer cx (OutCallID o) a | None => cx end
             | Plain _ => cx
             end) items
      | _ => cx
      end
  end.

(** ** Lemmas *)

Lemma elem_of_answered t id :
  id ∈ answered t <-> exists p o, IOutput p o ∈ t /\ OutCallID o = id.
Proof.
  unfold answered.
  assert (forall s : gset string, id ∈ foldl (fun s i => match i with IOutput _ o => {[ OutCallID o ]} ∪ s | _ => s end) s t <->
    id ∈ s \/ exists p o, IOutput p o ∈ t /\ OutCallID o = id) as H.
  { induction t as [|i t IH]; intros s; simpl.
    - split; [by left|]. intros [?|(?&?&Hin&_)]; [done|]. by apply not_elem_of_nil in Hin.
    - rewrite IH. split.
      + destruct i; try (intros [?|(p'&o'&?&?)]; [by left|right; exists p', o'; split; [by right|done]]).
        rewrite elem_of_union, elem_of_singleton. intros [[->|?]|(p'&o'&?&?)]; [|by left|].
        * right. exists p, o. split; [left|done].
        * right. exists p', o'. split; [by right|done].
      + intros [Hs|(p'&o'&[<-|Hin]%elem_of_cons&<-)].
        * destruct i; try by left. left. set_solver.
        * left. set_solver.
        * right. by exists p', o'. }
  rewrite H. set_solver.
Qed.

Lemma elem_of_calls t c : c ∈ calls t <-> callItem c ∈ t.
Proof.
  unfold calls, callItem. rewrite list_elem_of_omap. split.
  - intros (i & Hi & Hc). destruct i; by simplify_eq.
  - intros Hc. eexists. split; [done|]. by destruct c.
Qed.

Lemma calls_app t u : calls (t ++ u) = calls t ++ calls u.
Proof. apply omap_app. Qed.

Lemma answered_app t u : answered (t ++ u) = answered t ∪ answered u.
Proof.
  apply set_eq. intros id. rewrite elem_of_union, !elem_of_answered. split.
  - intros (p & o & [?|?]%elem_of_app & ?); [left|right]; eauto.
  - intros [(p & o & ? & ?)|(p & o & ? & ?)]; exists p, o; rewrite elem_of_app; auto.
Qed.

Lemma unansweredCalls_app t u :
  unansweredCalls (t ++ u) =
  filter (fun c : callRef => callID c ∉ answered u) (unansweredCalls t) ++
  filter (fun c : callRef => callID c ∉ answered t) (unansweredCalls u).
Proof.
  unfold unansweredCalls. rewrite calls_app, filter_app, answered_app, !list_filter_filter.
  f_equal; apply list_filter_iff; intros c; set_solver.
Qed.

Lemma leadingOutputs_prefix items :
  exists outs rest, items = map (fun po => IOutput po.1 po.2) outs ++ rest /\
    leadingOutputs items = map snd outs /\
    (forall p o r, rest <> IOutput p o :: r).
Proof.
  unfold leadingOutputs. induction items as [|i items (outs & rest & IH & Ho & Hr)].
  - by exists [], [].
  - destruct (match i with IOutput _ _ => true | _ => false end) eqn:Ei.
    2: { exists [], (i :: items). simpl. rewrite Ei. split_and!; [done..|]. intros p o r [= ->]. done. }
    destruct i as [| | |p o| |]; try done.
    exists ((p, o) :: outs), rest. simpl. destruct (span _ items) as [a b] eqn:E.
    simpl in *. split_and!; [by rewrite IH|by rewrite <- Ho|done].
Qed.

Lemma answerWanted_ok outs want want' :
  answerWanted outs want = inl want' <->
  NoDup (map OutCallID outs) /\ (forall id, id ∈ map OutCallID outs -> id ∈ want) /\
  want' = want ∖ list_to_set (map OutCallID outs).
Proof.
  revert want. induction outs as [|o outs IH]; intros want; simpl.
  { split.
    - intros [= <-]. split_and!; [constructor|by intros id Hid%not_elem_of_nil|set_solver].
    - intros (_ & _ & ->). f_equal. set_solver. }
  rewrite NoDup_cons. case_bool_decide as Hin.
  - rewrite IH. split.
    + intros (Hnd & Hw & ->). split_and!; [|done| |set_solver].
      * intros H. apply Hw in H. set_solver.
      * intros id [->|H]%elem_of_cons; [done|]. apply Hw in H. set_solver.
    + intros ([Hn Hnd] & Hw & ->). split_and!; [done| |set_solver].
      intros id H. apply elem_of_difference. split; [apply Hw; by right|].
      intros ->%elem_of_singleton. done.
  - split; [done|]. intros (_ & Hw & _). destruct Hin. apply Hw. left.
Qed.

Lemma answerWanted_error outs want e :
  answerWanted outs want = inr e -> errIs e ErrNotPending = true.
Proof.
  revert want. induction outs as [|o outs IH]; intros want; simpl; [done|].
  case_bool_decide; [apply IH|]. by intros [= <-].
Qed.

(** ** Properties *)

(** A call more, answered by an output before it or not. *)
Lemma unansweredCalls_call t c :
  unansweredCalls (t ++ [callItem c]) = unansweredCalls t ++ (if bool_decide (callID c ∈ answered t) then [] else [c]).
Proof.
  rewrite unansweredCalls_app. f_equal.
  - apply filter_all, Forall_forall. intros x _. set_solver.
  - unfold unansweredCalls. simpl. destruct c; simpl. rewrite filter_cons_True by set_solver. simpl.
    rewrite filter_nil. case_bool_decide.
    + by rewrite filter_cons_False by tauto.
    + by rewrite filter_cons_True.
Qed.

(** [unansweredCalls] is sound and complete: it lists, in transcript order,
    exactly the calls of the transcript no output of which names the ID; it is
    empty exactly when every call is answered, and appending an output takes from
    it the calls with that output's ID and nothing else. *)
Theorem unansweredCalls_spec t :
  (forall c, c ∈ unansweredCalls t <-> callItem c ∈ t /\ ~ exists p o, IOutput p o ∈ t /\ OutCallID o = callID c) /\
  unansweredCalls t `sublist_of` calls t /\
  (forall p o, unansweredCalls (t ++ [IOutput p o]) =
     filter (fun c : callRef => callID c <> OutCallID o) (unansweredCalls t)) /\
  (forall c, unansweredCalls (t ++ [callItem c]) =
     unansweredCalls t ++ (if bool_decide (callID c ∈ answered t) then [] else [c])).
Proof.
  split_and!.
  - intros c. unfold unansweredCalls. rewrite list_elem_of_filter, elem_of_calls, elem_of_answered. tauto.
  - apply sublist_filter.
  - intros p o. rewrite unansweredCalls_app. simpl. rewrite app_nil_r.
    apply list_filter_iff. intros c. set_solver.
  - apply unansweredCalls_call.
Qed.

(** An output anywhere answers a call, one before it included: a call whose ID
    an earlier output carries is not reported unanswered though no output follows
    it. *)
Theorem unansweredCalls_output_before t p o c :
  OutCallID o = callID c -> unansweredCalls (t ++ [IOutput p o; callItem c]) = unansweredCalls (t ++ [IOutput p o]).
Proof.
  intros Heq. change [IOutput p o; callItem c] with ([IOutput p o] ++ [callItem c]). rewrite app_assoc.
  rewrite unansweredCalls_call, bool_decide_eq_true_2, app_nil_r; [done|]. rewrite elem_of_answered. exists p, o.
  split; [set_solver|done].
Qed.

Lemma unansweredCalls_output_before_witness :
  let o := Build_FunctionCallOutput "" "c" (Build_OutputData "done" []) "" in
  let c := {| cr_ptr := 2; cr_call := Build_FunctionCall "" "c" "rm" "{}" "" |} in
  OutCallID o = callID c /\
  unansweredCalls ([] ++ [IOutput 1 o; callItem c]) = unansweredCalls ([] ++ [IOutput 1 o]).
Proof. intros o c. split; [reflexivity|]. apply (unansweredCalls_output_before [] 1 o c). reflexivity. Defined.

(** The IDs the outputs opening a prompt answer. *)
Definition answering (prompts : list input) : list string := map OutCallID (leadingOutputs (unhideAll prompts)).

(** [answersPending] accepts a prompt exactly when the outputs it opens with
    answer every pending call once and nothing else; what it returns otherwise says
    which: [ErrNotPending] for an output of a call not pending or answered already,
    [ErrInputRequired] when a pending call is left. Items after the leading
    outputs are not read. *)
Theorem answersPending_spec pending prompts :
  match answersPending pending prompts with
  | None => NoDup (answering prompts) /\ forall id, id ∈ answering prompts <-> id ∈ map pendingID pending
  | Some e =>
      (errIs e ErrNotPending = true /\
         (~ NoDup (answering prompts) \/ exists id, id ∈ answering prompts /\ id ∉ map pendingID pending)) \/
      (errIs e ErrInputRequired = true /\ exists id, id ∈ map pendingID pending /\ id ∉ answering prompts)
  end.
Proof.
  unfold answersPending, answering. set (outs := leadingOutputs (unhideAll prompts)).
  set (want := list_to_set (map pendingID pending) : gset string).
  assert (forall id, id ∈ want <-> id ∈ map pendingID pending) as Hw by (intros; apply elem_of_list_to_set).
  destruct (answerWanted outs want) as [want'|e] eqn:E.
  - apply answerWanted_ok in E as (Hnd & Hsub & ->). case_bool_decide as Hempty.
    + split; [done|]. intros id. rewrite <- Hw. split; [apply Hsub|]. intros Hid.
      destruct (decide (id ∈ map OutCallID outs)) as [|Hn]; [done|].
      assert (id ∈ want ∖ list_to_set (map OutCallID outs)) as Hx; [|rewrite Hempty in Hx; set_solver].
      apply elem_of_difference. split; [done|]. by rewrite elem_of_list_to_set.
    + right. split; [done|]. apply set_choose_L in Hempty as [id Hid].
      apply elem_of_difference in Hid as [Hid Hn]. rewrite elem_of_list_to_set in Hn.
      exists id. by rewrite <- Hw.
  - left. split; [by eapply answerWanted_error|].
    destruct (decide (NoDup (map OutCallID outs))) as [Hnd|]; [|by left]. right.
    destruct (decide (Forall (fun id => id ∈ want) (map OutCallID outs))) as [Hall|Hex].
    + exfalso. rewrite Forall_forall in Hall.
      assert (answerWanted outs want = inl (want ∖ list_to_set (map OutCallID outs))); [|congruence].
      by apply answerWanted_ok.
    + apply not_Forall_Exists, Exists_exists in Hex as (id & Hid & Hn); [|apply _].
      exists id. by rewrite <- Hw.
Qed.

Lemma reverse_span {A} (f : A -> bool) l :
  l = reverse (span f (reverse l)).2 ++ reverse (span f (reverse l)).1.
Proof. rewrite <- reverse_app, span_app. by rewrite reverse_involutive. Qed.

(** The tail of [t] after the last item the model produced. *)
Definition unproduced (t : Transcript) : Items := reverse (span (fun i => negb (modelProduced i)) (reverse t)).1.

(** The inputs a run on [t] continues with are [t]'s longest tail without an
    item the model produced, in order; and a transcript that can continue has one:
    the model is never called with nothing to answer. *)
Theorem continuedInputs_spec t :
  (exists pre, t = pre ++ map (fun i => (Unhide (ti_Item i)).1) (continuedInputs t) /\
     (pre = [] \/ exists pre' i, pre = pre' ++ [i] /\ modelProduced i = true)) /\
  Forall (fun i => modelProduced (Unhide (ti_Item i)).1 = false /\ ti_Mode i = InputContinued /\
    ti_Trigger i = noTrigger) (continuedInputs t) /\
  (CanContinue t = true -> continuedInputs t <> []).
Proof.
  assert (map (fun i => (Unhide (ti_Item i)).1) (continuedInputs t) = unproduced t) as Hm.
  { unfold continuedInputs, unproduced. destruct (span _ (reverse t)) as [tail rest]. simpl.
    rewrite map_map. by rewrite map_id. }
  rewrite Hm. split_and!.
  - exists (reverse (span (fun i => negb (modelProduced i)) (reverse t)).2). split; [apply reverse_span|].
    destruct (span _ (reverse t)).2 as [|i rest] eqn:E; [by left|right].
    exists (reverse rest), i. rewrite reverse_cons. split; [done|].
    apply span_rest in E. by destruct (modelProduced i).
  - unfold continuedInputs. pose proof (span_all (fun i => negb (modelProduced i)) (reverse t)) as H.
    destruct (span _ (reverse t)) as [tail rest]. simpl in H. apply Forall_map. simpl.
    apply Forall_reverse. eapply Forall_impl; [exact H|]. intros i Hi. simpl in *.
    by destruct (modelProduced i).
  - intros Hc Hnil. rewrite Hnil in Hm. simpl in Hm. unfold CanContinue in Hc.
    destruct (last t) as [i|] eqn:El; [|done]. apply last_Some in El as [t' ->].
    unfold unproduced in Hm. rewrite reverse_snoc in Hm. simpl in Hm.
    assert (modelProduced i = false) as Hi by (destruct i; simpl in *; try done; by destruct (bool_decide _)).
    rewrite Hi in Hm. simpl in Hm. destruct (span _ (reverse t')) as [a b]. simpl in Hm.
    rewrite reverse_cons in Hm. by destruct (reverse a).
Qed.

(** A filter keeps the order of what it keeps, keeps every item that is not
    nil and not namespaced and of the namespaced ones exactly those of a listed
    type; applying it twice, or after [DefaultFilter], changes nothing more, and it
    goes through the transcript item by item, so filtering a longer transcript only
    extends what was sent before. *)
Theorem VisibleFilter_spec keep t u :
  VisibleFilter keep t `sublist_of` t /\
  (forall i, i ∈ VisibleFilter keep t <->
     i ∈ t /\ i <> Nil /\ (containsColon (ItemType i) = true -> ItemType i ∈ keep)) /\
  VisibleFilter keep (VisibleFilter keep t) = VisibleFilter keep t /\
  VisibleFilter keep (DefaultFilter t) = DefaultFilter t /\
  VisibleFilter keep (t ++ u) = VisibleFilter keep t ++ VisibleFilter keep u.
Proof.
  assert (forall i, visible keep i = true <-> i <> Nil /\ (containsColon (ItemType i) = true -> ItemType i ∈ keep))
    as Hv.
  { intros i. unfold visible. rewrite andb_true_iff, orb_true_iff, !negb_true_iff, bool_decide_eq_true.
    destruct (containsColon (ItemType i)), i; simpl; intuition congruence. }
  unfold VisibleFilter, DefaultFilter. split_and!.
  - apply sublist_filter.
  - intros i. rewrite list_elem_of_filter, Hv. tauto.
  - rewrite list_filter_filter. apply list_filter_iff. tauto.
  - unfold VisibleFilter. rewrite list_filter_filter. apply list_filter_iff. intros i. rewrite Hv.
    unfold visible. rewrite andb_true_iff, orb_true_iff, !negb_true_iff, bool_decide_eq_true.
    split; [tauto|]. intros [Hn H]. split; [|done]. split; [by destruct i|].
    destruct H as [H|H]; [by rewrite H|by apply not_elem_of_nil in H].
  - apply filter_app.
Qed.

(** A run answered exactly when the last of its items that is neither nil nor
    an extension's is an assistant's message with text, and OutputGuard withheld
    none: the answer is that message's text, whatever the model said before. *)
Theorem Answer_spec `{Externals} e text :
  Answer_ e = (text, true) <->
  re_WithheldMsg e = false /\ text <> "" /\
  exists pre p m ext, re_Items e = pre ++ IMessage p m :: ext /\ Role_ m = RoleAssistant /\ MessageText m = text /\
    Forall (fun i => isNil i || containsColon (ItemType i) = true) ext.
Proof.
  unfold Answer_. destruct (re_WithheldMsg e); [split; [done|by intros []]|].
  set (f := fun i => isNil i || containsColon (ItemType i)).
  pose proof (reverse_span f (re_Items e)) as Hs. pose proof (span_all f (reverse (re_Items e))) as Ha.
  pose proof (span_rest f (reverse (re_Items e))) as Hr.
  destruct (span f (reverse (re_Items e))) as [ext rest]. simpl in *. split.
  - destruct rest as [|[|p m| | | |] rest]; try done. case_bool_decide; [|done]. intros [= <- Ht].
    split_and!; [done|by apply negb_true_iff, bool_decide_eq_false in Ht|].
    exists (reverse rest), p, m, (reverse ext). rewrite reverse_cons, <- app_assoc in Hs.
    split_and!; [done..|]. by apply Forall_reverse.
  - intros (_ & Ht & pre & p & m & ext' & He & Hm & <- & Hall).
    assert (rest = IMessage p m :: reverse pre) as ->.
    { assert (reverse (re_Items e) = ext ++ rest) as Hx.
      { rewrite Hs, reverse_app, !reverse_involutive. done. }
      rewrite He, reverse_app, reverse_cons, <- app_assoc in Hx. simpl in Hx.
      apply Forall_reverse in Hall. revert Hx Hall Ha Hr. generalize (reverse ext') as a. clear.
      revert ext. induction ext as [|x ext IH]; intros a Hx Hall Ha Hr.
      - destruct a as [|y a]; [done|]. simpl in *. subst rest. inversion Hall; subst.
        unfold f in Hr. specialize (Hr y _ eq_refl). congruence.
      - destruct a as [|y a]; simplify_eq/=.
        + inversion Ha; subst. unfold f in *. simpl in *. done.
        + inversion Ha; inversion Hall; subst. by eapply IH. }
    rewrite bool_decide_eq_true_2 by done. by rewrite bool_decide_eq_false_2.
Qed.

Lemma mergeOne_call known p : p_Call (mergeOne known p) = p_Call p.
Proof. unfold mergeOne. repeat case_match; simplify_eq; done. Qed.

Lemma putLast_calls ids notes pending : map p_Call (putLast ids notes pending).1 = map p_Call pending.
Proof.
  induction pending as [|p pending IH]; simpl; [done|].
  destruct (putLast ids notes pending) as [l []]; simpl in *; [by f_equal|].
  case_bool_decide; simpl; by f_equal.
Qed.

Lemma putLast_put ids notes pending :
  (putLast ids notes pending).2 = bool_decide (Exists (fun p => pendingID p ∈ ids) pending).
Proof.
  induction pending as [|p pending IH]; [done|]. cbn [putLast].
  destruct (putLast ids notes pending) as [l b]; cbn [snd] in *. subst b.
  destruct (decide (Exists (fun p => pendingID p ∈ ids) pending)) as [E|E].
  - rewrite (bool_decide_eq_true_2 _ E), bool_decide_eq_true_2; [done|]. by right.
  - rewrite (bool_decide_eq_false_2 _ E). case_bool_decide as E'.
    + rewrite bool_decide_eq_true_2; [done|]. by left.
    + rewrite bool_decide_eq_false_2; [done|]. by rewrite Exists_cons; intros [].
Qed.

Lemma putLast_notes ids notes pending :
  Forall (fun p => p_Notes p = []) pending ->
  (putLast ids notes pending).1 ≫= p_Notes = if (putLast ids notes pending).2 then notes else [].
Proof.
  induction pending as [|p pending IH]; intros Hp; [done|]. cbn [putLast].
  inversion Hp as [|? ? Hn Hps]; subst. specialize (IH Hps).
  destruct (putLast ids notes pending) as [l []]; cbn [fst snd] in *; [by rewrite bind_cons, Hn, IH|].
  case_bool_decide; cbn [fst snd]; rewrite bind_cons, IH, app_nil_r; done.
Qed.

Lemma putLast_one ids notes pending :
  Forall (fun p => p_Notes p = []) pending ->
  (length (filter (fun p => p_Notes p <> []) (putLast ids notes pending).1) <=
   if (putLast ids notes pending).2 then 1 else 0)%nat.
Proof.
  induction pending as [|p pending IH]; intros Hp; [done|]. cbn [putLast].
  inversion Hp as [|? ? Hn Hps]; subst. specialize (IH Hps).
  destruct (putLast ids notes pending) as [l []]; cbn [fst snd] in *.
  - rewrite filter_cons_False; [done|]. intros H. by apply H.
  - case_bool_decide; cbn [fst snd].
    + rewrite filter_cons. case_decide; cbn [length]; lia.
    + rewrite filter_cons_False; [done|]. intros H'. by apply H'.
Qed.

(** What an agent is told of its pending calls changes what it knows of them,
    never which are pending nor their order, nor the call items, which stay the
    transcript's; and no note is lost while any call it waited with is pending: the
    notes of all of them then wait, in order, on one pending call, and on none
    otherwise. *)
Theorem merge_keep_pending pending known :
  let r := keepNotes (mergePending pending known) known in
  map p_Call r = map p_Call pending /\
  r ≫= p_Notes =
    (if bool_decide (Exists (fun p => pendingID p ∈ knownIDs known) pending) then known ≫= p_Notes else []) /\
  (length (filter (fun p => p_Notes p <> []) r) <= 1)%nat.
Proof.
  assert (Hm : map p_Call (mergePending pending known) = map p_Call pending).
  { unfold mergePending. rewrite map_map. apply map_ext. intros. apply mergeOne_call. }
  unfold keepNotes. set (q := map _ (mergePending pending known)).
  assert (Hq : map p_Call q = map p_Call pending).
  { unfold q. rewrite map_map. rewrite <- Hm. apply map_ext. intros p. by upd. }
  assert (Hn : Forall (fun p => p_Notes p = []) q).
  { apply Forall_map, Forall_true. intros p. by upd. }
  simpl. split_and!.
  - by rewrite putLast_calls.
  - rewrite putLast_notes, putLast_put by done.
    assert (forall l, Exists (fun p => pendingID p ∈ knownIDs known) l <->
      Exists (fun c => (match c with Some c => callID c | None => "" end) ∈ knownIDs known) (map p_Call l)) as HE.
    { intros l. rewrite !Exists_exists. split.
      - intros (p & Hp & Hin). exists (p_Call p). split; [by apply list_elem_of_fmap_2|done].
      - intros (c & (p & -> & Hp)%list_elem_of_fmap & Hin). by exists p. }
    erewrite bool_decide_ext; [done|]. by rewrite !HE, Hq.
  - pose proof (putLast_one (knownIDs known) (known ≫= p_Notes) q Hn). by destruct (putLast _ _ q).2; lia.
Qed.

(** The marks of the outputs opening a prompt, in order, with the calls they answer. *)
Fixpoint leadingMarks (items : list input) : list (string * answerMarks) :=
  match items with
  | [] => []
  | i :: items =>
      match (Unhide i).1 with
      | IOutput _ o =>
          match i with
          | Marked m => match answer m with Some a => [(OutCallID o, a)] | None => [] end
          | Plain _ => []
          end ++ leadingMarks items
      | _ => []
      end
  end.

(** What the last mark for [id] says, if any. *)
Definition lastMark (id : string) (ms : list (string * answerMarks)) : option answerMarks :=
  snd <$> last (filter (fun m => m.1 = id) ms).

Lemma lastMark_cons id m ms :
  lastMark id (m :: ms) =
  match lastMark id ms with Some a => Some a | None => if bool_decide (m.1 = id) then Some m.2 else None end.
Proof.
  unfold lastMark. destruct (decide (m.1 = id)) as [E|E].
  - rewrite filter_cons_True, (bool_decide_eq_true_2 _ E), last_cons by done. by destruct (last _) as [[]|].
  - rewrite filter_cons_False, (bool_decide_eq_false_2 _ E) by done. by destruct (last _) as [[]|].
Qed.

Lemma withAnswerMarks_fold cx items :
  withAnswerMarks cx items = foldl (fun cx m => markAnswer cx m.1 m.2) cx (leadingMarks items).
Proof.
  revert cx. induction items as [|i items IH]; intros cx; simpl; [done|].
  destruct (Unhide i).1; try done. rewrite foldl_app, IH. f_equal. by repeat case_match.
Qed.

(** [v] unless it is empty. *)
Definition nonEmpty (v : string) : option string := if bool_decide (v = "") then None else Some v.

(** What a prompt's leading outputs say of themselves reaches the run's context:
    for each call ID, the decider, the reason, the origin and whether it failed are
    the last leading output's that carries a mark, an empty one clearing what the
    context held, and the context's own for a call no leading output marks. *)
Theorem withAnswerMarks_spec cx items id :
  let cx' := withAnswerMarks cx items in
  match lastMark id (leadingMarks items) with
  | Some a => ac_deciders cx' !! id = nonEmpty (am_by a) /\ ac_reasons cx' !! id = nonEmpty (am_reason a) /\
      ac_origins cx' !! id = nonEmpty (am_origin a) /\ (id ∈ ac_failures cx' <-> am_failed a = true)
  | None => ac_deciders cx' !! id = ac_deciders cx !! id /\ ac_reasons cx' !! id = ac_reasons cx !! id /\
      ac_origins cx' !! id = ac_origins cx !! id /\ (id ∈ ac_failures cx' <-> id ∈ ac_failures cx)
  end.
Proof.
  simpl. rewrite withAnswerMarks_fold. generalize (leadingMarks items) as ms.
  assert (forall m k v (id : string), setOrClear m k v !! id = if bool_decide (k = id) then nonEmpty v else m !! id)
    as Hset.
  { intros m k v id'. unfold setOrClear, nonEmpty. repeat case_bool_decide; subst; by simplify_map_eq. }
  intros ms. revert cx. induction ms as [|[k a] ms IH]; intros cx; simpl; [done|].
  rewrite lastMark_cons. simpl. specialize (IH (markAnswer cx k a)).
  destruct (lastMark id ms) as [b|]; [done|]. destruct IH as (H1 & H2 & H3 & H4).
  cbn [ac_deciders ac_reasons ac_origins ac_failures markAnswer] in *. rewrite !Hset in *.
  case_bool_decide; (split_and!; [done..|]); rewrite H4; destruct (am_failed a); set_solver.
Qed.

(** A batch ends the run exactly when some result says so, and the cause tells
    whether every one did. *)
Theorem terminates_spec results :
  terminates results =
  (if bool_decide (Exists (fun r => res_Terminate r = true) results)
   then (if bool_decide (Forall (fun r => res_Terminate r = true) results) then StopTerminate
         else StopPartialTerminate, true)
   else (NoCause, false)).
Proof.
  unfold terminates.
  assert (forall some all, (results <> [] -> True) ->
    foldl (fun '(some, all) res => if res_Terminate res then (true, all) else (some, false)) (some, all) results =
    (some || bool_decide (Exists (fun r => res_Terminate r = true) results),
     all && bool_decide (Forall (fun r => res_Terminate r = true) results))) as H.
  { clear. induction results as [|r rs IH]; intros some all _; cbn [foldl].
    - by destruct some, all.
    - destruct (res_Terminate r) eqn:E; rewrite IH by done.
      + rewrite (bool_decide_eq_true_2 (Exists _ (r :: rs))) by (by left).
        rewrite orb_true_r. f_equal. f_equal. apply bool_decide_ext. rewrite Forall_cons. tauto.
      + rewrite (bool_decide_eq_false_2 (Forall _ (r :: rs))) by (rewrite Forall_cons; intros []; congruence).
        rewrite andb_false_r. f_equal. f_equal. apply bool_decide_ext. rewrite Exists_cons. split; [by right|intros [?|?]; [congruence|done]]. }
  rewrite H by done. destruct results as [|r rs]; [done|].
  rewrite (bool_decide_eq_false_2 (r :: rs = [])) by done. cbn [negb andb orb].
  destruct (decide (Forall (fun r => res_Terminate r = true) (r :: rs))) as [Hall|Hall].
  - rewrite (bool_decide_eq_true_2 _ Hall). rewrite bool_decide_eq_true_2; [done|]. inversion Hall. by left.
  - rewrite (bool_decide_eq_false_2 _ Hall). by destruct (bool_decide _).
Qed.

(** Owed notes are dropped exactly when the output they follow is gone. *)
Lemma elem_of_keepOwed n notes t :
  n ∈ keepOwed notes t <-> n ∈ notes /\ (n_CallID n = "" \/ exists p o, IOutput p o ∈ t /\ OutCallID o = n_CallID n).
Proof. unfold keepOwed. rewrite list_elem_of_filter, elem_of_answered. tauto. Qed.
