(* ===== verification/Config.v ===== *)
(** * Config: the configuration of the loop, the request it starts every turn
    from, and the retry policy ([config.go], [Config.validate] and
    [Config.baseRequest] of [run.go]).

    A hook is caller's code: it runs in a world it may change, holds the run's
    quarantine through its context, and makes items of its own. [shared] is what
    the loop shares with it: that world, the quarantine, and the next address. *)

From S2P Require Export Chain Quarantine Transcript.

Record shared (W : Type) := Shared { outside : W; quar : quarantine; next : ptr }.
Arguments Shared {W}.
Arguments outside {W}.
Arguments quar {W}.
Arguments next {W}.
#[export] Instance eta_shared {W} : Eta (shared W) := fun s => Shared (outside s) (quar s) (next s).

(** A duration in nanoseconds, a 64-bit integer. *)
Definition Second : Z := 1000000000.
Definition wrap64 (z : Z) : Z := (z + 2 ^ 63) mod 2 ^ 64 - 2 ^ 63.

(** [ToolResultInfo], [ToolOverride], [TurnInfo], [TurnStartInfo], and what a
    transform reads on its context: the request as the turn will carry it, whether a
    fold is asked for, and the person's own messages. *)
Record ToolResultInfo := { tri_RunID : string; tri_Turn : Z; tri_Call : callRef; tri_Tool : option Tool;
  tri_Args : raw; tri_Result : Result; tri_Err : option error }.
Record ToolOverride := { ov_Result : Result; ov_Err : option error }.
Record TurnInfo := { tif_RunID : string; tif_Turn : Z; tif_Response : Response; tif_ToolResults : list Result;
  tif_Final : bool; tif_Transcript : Transcript }.
Record TurnStartInfo := { tsi_RunID : string; tsi_Turn : Z; tsi_Transcript : Transcript; tsi_Inputs : list TurnInput }.
Record TransformInfo := { tf_Request : Request; tf_Fold : bool; tf_Persons : gmap ptr bool; tf_Transcript : Transcript }.

(** [Retry]. *)
Record Retry {W : Type} := {
  MaxAttempts : Z;
  Backoff : option (Z -> error -> Z);
  Retryable : option (error -> bool);
  Revise : option (shared W -> Z -> Request -> error -> option Request * Request * shared W);
}.
Arguments Retry : clear implicits.

(** [Config], the members the loop reads. [Reasoning] and [Text] are none when
    they are zero; [cf_Model] says whether a model is set. *)
Record Config {W : Type} := {
  cf_Model : bool;
  cf_ModelName : string;
  cf_Instructions : string;
  cf_Tools : list Tool;
  cf_ToolProvider : option (shared W -> list Tool * shared W);
  cf_Reasoning : option string;
  cf_Text : option string;
  cf_Request : Request;
  cf_RequestExtra : gmap string any;
  cf_BeforeTurn : option (hook (W := shared W) TurnStartInfo (list input));
  cf_BeforeModelCall : option (requestHook (W := shared W));
  cf_OutputGuard : option (hook (W := shared W) OutputInfo (option msgRef));
  cf_Retry : Retry W;
  cf_MaxTurns : Z;
  cf_Filter : option (Transcript -> Transcript);
  cf_Transform : option (hook (W := shared W) TransformInfo Transcript);
  cf_BeforeToolCall : option (hook (W := shared W) ToolCallInfo (option ToolDecision));
  cf_AfterToolCall : option (hook (W := shared W) ToolResultInfo (option ToolOverride));
  cf_ShouldStopAfterTurn : option (hook (W := shared W) TurnInfo bool);
}.
Arguments Config : clear implicits.

(** What the loop uses of [agenttool.Set], and what it asks of an error a model
    call failed with: the members of an [openresponses.Error] it reads, and whether
    it is a transport failure ([io.EOF], a reset connection, a [net.Error]). *)
Record WireErr := { we_status : Z; we_insufficientQuota : bool; we_contextLength : bool; we_RetryAfter : string }.

Class Tools := {
  Lookup : list Tool -> string -> option Tool;
  ValidateTools : list Tool -> option error;
  Definitions : list Tool -> list string;
  asWireErr : error -> option WireErr;
  isTransport : error -> bool;
}.

Section Config.
Context `{Tools} {W : Type}.
Implicit Types c : Config W.

(** [Config.validate]. *)
Definition validateConfig c : option error :=
  if negb (cf_Model c) then Some (Sentinel ErrNoModel)
  else match cf_ToolProvider c with
  | None => match ValidateTools (cf_Tools c) with Some e => Some (Wrap "agentturn" e) | None => None end
  | Some _ => None
  end.

(** [Config.ResolveTools], and [Config.tools] over it. *)
Definition ResolveTools c (s : shared W) : list Tool * shared W :=
  match cf_ToolProvider c with Some provider => provider s | None => (cf_Tools c, s) end.

(** [Config.filter]. *)
Definition filter_ c : Transcript -> Transcript := default DefaultFilter (cf_Filter c).

(** [Config.baseRequest]. *)
Definition baseRequest c (tools : list Tool) : Request :=
  let req := cf_Request c in {|
    rq_Model := if bool_decide (cf_ModelName c = "") then rq_Model req else cf_ModelName c;
    rq_Input := []; rq_InputAt := 1;
    rq_Instructions := if bool_decide (cf_Instructions c = "") then rq_Instructions req else cf_Instructions c;
    rq_Tools := Definitions tools;
    rq_Store := Some false;
    rq_Stream := true;
    rq_StreamOptions := None;
    rq_PreviousResponseID := "";
    rq_Reasoning := default (rq_Reasoning req) (cf_Reasoning c);
    rq_Text := default (rq_Text req) (cf_Text c);
    rq_Metadata := rq_Metadata req;
    rq_Extra := cf_RequestExtra c ∪ rq_Extra req;
    rq_Include := rq_Include req;
    rq_MaxOutputTokens := rq_MaxOutputTokens req;
    rq_Rest := rq_Rest req |}.

End Config.

(** ** The retry policy *)

(** [strings.TrimSpace], on the ASCII spaces. *)
Definition isSpace (a : ascii) : bool :=
  let n := N_of_ascii a in (N.eqb n 32 || (N.leb 9 n && N.leb n 13))%N.

Fixpoint trimLeft (l : list ascii) : list ascii :=
  match l with
  | [] => []
  | a :: l' => if isSpace a then trimLeft l' else l
  end.

Definition TrimSpace (s : string) : list ascii :=
  reverse (trimLeft (reverse (trimLeft (list_ascii_of_string s)))).

Definition digit (a : ascii) : option Z :=
  let n := Z.of_N (N_of_ascii a) in if (48 <=? n) && (n <=? 57) then Some (n - 48) else None.

(** The digits of a decimal number, [None] for none at all or another character. *)
Fixpoint digits (acc : Z) (l : list ascii) : option Z :=
  match l with
  | [] => Some acc
  | a :: l => match digit a with Some d => digits (10 * acc + d) l | None => None end
  end.

(** [strconv.Atoi] on a 64-bit platform, errors as [None]. *)
Definition Atoi (l : list ascii) : option Z :=
  let '(neg, ds) :=
    match l with
    | "-"%char :: l => (true, l)
    | "+"%char :: l => (false, l)
    | l => (false, l)
    end in
  match ds with
  | [] => None
  | _ =>
      match digits 0 ds with
      | None => None
      | Some n =>
          let n := if neg : bool then - n else n in
          if (- 2 ^ 63 <=? n) && (n <? 2 ^ 63) then Some n else None
      end
  end.

Definition doubling : Z := 500 * 1000000.
Definition maxDelay : Z := 30 * Second.

(** [for i := 1; i < attempt && d < 30*time.Second; i++ { d *= 2 }], the loop run
    at most [n] times. *)
Fixpoint doubled (n : nat) (d : Z) : Z :=
  match n with
  | O => d
  | S n => if d <? maxDelay then doubled n (wrap64 (d * 2)) else d
  end.

Section Retry.
Context `{Tools} {W : Type}.

(** [DefaultRetryable]. *)
Definition DefaultRetryable (err : error) : bool :=
  match asWireErr err with
  | Some oe =>
      if we_insufficientQuota oe then false
      else let status := we_status oe in
        (status =? 408) || (status =? 409) || (status =? 429) || (500 <=? status)
  | None => errIs err ErrTruncatedStream || isTransport err
  end.

(** [DefaultBackoff]. *)
Definition DefaultBackoff (attempt : Z) (err : error) : Z :=
  let exponential := Z.min (doubled (Z.to_nat (attempt - 1)) doubling) maxDelay in
  match asWireErr err with
  | Some oe =>
      match Atoi (TrimSpace (we_RetryAfter oe)) with
      | Some secs => if 0 <=? secs then wrap64 (secs * Second) else exponential
      | None => exponential
      end
  | None => exponential
  end.

(** [Retry.retryable] and [Retry.backoff]. *)
Definition retryable (p : Retry W) (err : error) : bool :=
  match Retryable p with Some f => f err | None => DefaultRetryable err end.
Definition backoff (p : Retry W) (attempt : Z) (err : error) : Z :=
  match Backoff p with Some f => f attempt err | None => DefaultBackoff attempt err end.

End Retry.

(** ** Lemmas and properties *)

Lemma wrap64_small z : - 2 ^ 63 <= z < 2 ^ 63 -> wrap64 z = z.
Proof. intros Hz. unfold wrap64. rewrite Z.mod_small; lia. Qed.

Lemma doubled_spec n d :
  0 < d <= 2 * maxDelay -> Z.min (doubled n d) maxDelay = Z.min (d * 2 ^ Z.of_nat n) maxDelay.
Proof.
  revert d. induction n as [|n IH]; intros d Hd; simpl.
  - by rewrite Z.mul_1_r.
  - destruct (Z.ltb_spec d maxDelay) as [Hlt|Hge].
    + unfold maxDelay, Second in *. rewrite wrap64_small by lia. rewrite IH by lia.
      f_equal. rewrite Nat2Z.inj_succ, Z.pow_succ_r by lia. ring.
    + assert (1 <= 2 ^ Z.of_nat (S n)) by (apply (Z.pow_le_mono_r 2 0); lia).
      unfold maxDelay, Second in *. rewrite !Z.min_r; nia.
Qed.

(** The default delay is exact and bounded. A Retry-After of a number of seconds
    that fits a duration is waited in full; without one it is half a second doubled
    for each attempt before, capped at thirty seconds, so it lies between them and
    never shrinks from one attempt to the next. *)
Theorem DefaultBackoff_spec `{Tools} attempt err :
  (forall oe secs, asWireErr err = Some oe -> Atoi (TrimSpace (we_RetryAfter oe)) = Some secs ->
     0 <= secs -> secs * Second < 2 ^ 63 -> DefaultBackoff attempt err = secs * Second) /\
  ((forall oe secs, asWireErr err = Some oe -> Atoi (TrimSpace (we_RetryAfter oe)) = Some secs -> secs < 0) ->
   (1 <= attempt -> DefaultBackoff attempt err = Z.min (doubling * 2 ^ (attempt - 1)) maxDelay) /\
   doubling <= DefaultBackoff attempt err <= maxDelay /\
   DefaultBackoff attempt err <= DefaultBackoff (attempt + 1) err).
Proof.
  split.
  - intros oe secs Ho Ha Hs Hf. unfold DefaultBackoff. rewrite Ho, Ha. destruct (Z.leb_spec 0 secs); [|lia].
    apply wrap64_small. unfold Second in *. lia.
  - intros Hno.
    assert (forall n, DefaultBackoff n err = Z.min (doubling * 2 ^ Z.of_nat (Z.to_nat (n - 1))) maxDelay) as Hexp.
    { intros n. rewrite <- doubled_spec by (unfold doubling, maxDelay, Second; lia). unfold DefaultBackoff.
      destruct (asWireErr err) as [oe|] eqn:Ho; [|done].
      destruct (Atoi (TrimSpace (we_RetryAfter oe))) as [secs|] eqn:Ha; [|done].
      specialize (Hno oe secs eq_refl Ha). by destruct (Z.leb_spec 0 secs); [lia|]. }
    rewrite !Hexp. split_and!.
    + intros Ha. by rewrite Z2Nat.id by lia.
    + assert (1 <= 2 ^ Z.of_nat (Z.to_nat (attempt - 1))) by (apply (Z.pow_le_mono_r 2 0); lia).
      unfold doubling, maxDelay, Second. lia.
    + lia.
    + apply Z.min_le_compat_r. unfold doubling. apply Z.mul_le_mono_nonneg_l; [lia|].
      apply Z.pow_le_mono_r; lia.
Qed.

(** A Retry-After too large for a duration wraps around: a server that asks for
    9223372037 seconds is asked again at once, since the delay comes out negative. *)
Theorem DefaultBackoff_overflows `{Tools} attempt err oe :
  asWireErr err = Some oe -> we_RetryAfter oe = "9223372037" -> DefaultBackoff attempt err < 0.
Proof. unfold DefaultBackoff. intros -> ->. reflexivity. Qed.

(** A server that asks so. *)
Definition overloaded : WireErr :=
  {| we_status := 429; we_insufficientQuota := false; we_contextLength := false; we_RetryAfter := "9223372037" |}.
Definition overloadedTools : Tools :=
  {| Lookup := fun _ _ => None; ValidateTools := fun _ => None; Definitions := fun _ => [];
     asWireErr := fun _ => Some overloaded; isTransport := fun _ => false |}.

Lemma DefaultBackoff_overflows_witness :
  asWireErr (Tools := overloadedTools) (Errorf "overloaded") = Some overloaded /\
  DefaultBackoff (H := overloadedTools) 1 (Errorf "overloaded") < 0.
Proof. split; [done|]. by apply (@DefaultBackoff_overflows overloadedTools 1 (Errorf "overloaded") overloaded). Defined.

(** The request a turn starts from sets every transport member the loop owns,
    whatever the configuration's request holds: nothing is stored, the answer is
    streamed, no previous response is named, the input is empty and the tools are
    those of the moment; a member the configuration names stands over the request's,
    and an extra member of the configuration over the request's of its name. *)
Theorem baseRequest_spec `{Tools} {W} (c : Config W) tools :
  let req := baseRequest c tools in
  rq_Store req = Some false /\ rq_Stream req = true /\ rq_StreamOptions req = None /\
  rq_PreviousResponseID req = "" /\ rq_Input req = [] /\ rq_Tools req = Definitions tools /\
  (rq_Model req = "" <-> cf_ModelName c = "" /\ rq_Model (cf_Request c) = "") /\
  (cf_ModelName c <> "" -> rq_Model req = cf_ModelName c) /\
  (forall k, rq_Extra req !! k =
     match cf_RequestExtra c !! k with Some v => Some v | None => rq_Extra (cf_Request c) !! k end) /\
  rq_Metadata req = rq_Metadata (cf_Request c) /\ rq_Rest req = rq_Rest (cf_Request c).
Proof.
  split_and!; try done.
  - simpl. case_bool_decide; naive_solver.
  - intros Hn. simpl. by rewrite bool_decide_eq_false_2.
  - intros k. simpl. rewrite lookup_union. by destruct (cf_RequestExtra c !! k), (rq_Extra (cf_Request c) !! k).
Qed.
