(* ===== verification/Runner.v ===== *)
(** * Runner: the state of one run and the steps it is made of ([runner] and its
    helpers in [run.go]).

    A run is a program in the monad [M]: it reads and changes the run's own state,
    [runner], and what it shares with the world, [shared], and returns a value, an
    error, a panic, or [OutOfFuel] for a loop given too little. The world answers
    through an environment, [Env]: the consumer each event is sent to, the queues of
    an agent, the context's cancellation, the model and the executor of tools. Each
    of these, and each hook of the configuration, is a function of what is shared.
    The events sent are kept, in order, in [log]. *)

From S2P Require Export Identity Config.
Export Reasoning (ReasoningModels).
Export Persons (PersonMessages).

(** ** State *)

(** [answerNote], [approval], [handOff], [heldCall]. *)
Record answerNote := { an_callID : string; an_item : item }.
Record approval := { ap_call : callRef; ap_args : raw; ap_note : string; ap_held : string; ap_by : string;
  ap_reason : string; ap_key : string; ap_decide : bool; ap_nested : list NestedRecord }.
Record handOff := { ho_key : string; ho_args : raw }.
Record heldCall := { hc_args : raw; hc_decision : ToolDecision }.

(** [callSlot], [openedItem], with [Nil] for an item not done, and [heldItem]. *)
Record callSlot := { cs_id : string; cs_itemID : string }.
Record openedItem := { o_index : Z; o_done : item; o_itemID : string; o_modelCallID : string; o_call : bool;
  o_callID : string; o_fromResponse : bool }.
#[export] Instance eta_openedItem : Eta openedItem := fun r =>
  Build_openedItem (o_index r) (o_done r) (o_itemID r) (o_modelCallID r) (o_call r) (o_callID r) (o_fromResponse r).
Record heldItem := { hi_item : item; hi_responseID : string; hi_modelCallID : string }.

(** [recordedCall]. *)
Record recordedCall := { rc_rec : NestedRecord; rc_taken : bool }.

(** [runner], the members that change; those that do not are in [Env]. Go's nil
    maps are empty ones here. *)
Record runner := Runner {
  transcript : Transcript;
  runID : string;
  notes : list Note;
  reported : list Note;
  roots : gmap string string;
  callNotes : gmap string Items;
  noteKeys : list string;
  batchCalls : gset string;
  recorded : gmap string (list recordedCall);
  nestedRan : gmap string (list NestedRecord);
  turn : Z;
  added : Transcript;
  mark : nat;
  arrived : list TurnInput;
  deferred : gmap string heldCall;
  callTools : gmap string Tool;
  undispatched : gset string;
  dispatched : gmap string handOff;
  approved : gset string;
  ctxReserved : gset string;
  reasoning : ReasoningModels;
  persons : PersonMessages;
  heldItems : list heldItem;
  callAt : gmap Z callSlot;
  callItems : gmap string string;
  decided : gset string;
  opened : list openedItem;
}.
#[export] Instance eta_runner : Eta runner := fun r =>
  Runner (transcript r) (runID r) (notes r) (reported r) (roots r) (callNotes r) (noteKeys r) (batchCalls r)
    (recorded r) (nestedRan r) (turn r) (added r) (mark r) (arrived r) (deferred r) (callTools r) (undispatched r)
    (dispatched r) (approved r) (ctxReserved r) (reasoning r) (persons r) (heldItems r) (callAt r) (callItems r)
    (decided r) (opened r).

(** A run's state: its own, what it shares, and the events sent so far. *)
Record St (W : Type) := MkSt { run_ : runner; sh : shared W; log : list event }.
Arguments MkSt {W}.
Arguments run_ {W}.
Arguments sh {W}.
Arguments log {W}.
#[export] Instance eta_St {W} : Eta (St W) := fun s => MkSt (run_ s) (sh s) (log s).

(** ** The model's stream

    An event of the stream as [streamEvent] reads it: an output item opened or
    done, an error, the response that ends the stream, an event about the item at an
    output index, or another. *)
Inductive StreamEvent :=
| OutputItemAdded (index : Z)
| OutputItemDone (index : Z) (i : item)
| ErrorEvent (e : error)
| TerminalResponse (r : Response)
| ItemScoped (wire : string) (index : Z)
| OtherEvent (wire : string).

(** What [openresponses.Events] yields: at each step the world moves, then an event
    or an error arrives; what follows depends on what is shared by then. *)
Inductive wire (W : Type) :=
| WDone
| WNext (advance : shared W -> shared W) (x : StreamEvent + error) (rest : shared W -> wire W).
Arguments WDone {W}.
Arguments WNext {W}.

(** [openresponses.Accumulator]. *)
Class Accumulator := {
  Acc : Type;
  acc0 : Acc;
  accAdd : Acc -> StreamEvent -> Acc;
  accItemAt : Acc -> Z -> option item;
  accResponse : Acc -> option Response;
}.

(** ** The executor of tools

    [agenttool.Job], and an event of a job: its result so far, or its last. *)
Record Job := { j_Tool : Tool; j_Call : Call }.
Record jobEvent := { ev_Final : bool; ev_Result : Result; ev_Err : option error }.

(** What [agenttool.Executor.Execute] does, one step at a time in the order the
    loop sees them: it starts a job, which runs the start callback and is told what
    came of it, or hands over an event of one, learning whether the batch failed.
    The world moves before each step. A start that waits for another call is told so,
    and may be tried again. *)
Inductive started := StartWaits | StartOk | StartRefused (e : error).

Inductive exec (W : Type) :=
| XDrained
| XStart (advance : shared W -> shared W) (job : nat) (rest : shared W -> started -> exec W)
| XEvent (advance : shared W -> shared W) (job : nat) (ev : jobEvent) (rest : shared W -> bool -> exec W).
Arguments XDrained {W}.
Arguments XStart {W}.
Arguments XEvent {W}.

(** ** The environment of a run *)
Record Env (W : Type) := {
  cfg : Config W;
  (** [r.send] *)
  send : event -> shared W -> option error * shared W;
  (** [r.steer], [r.followUp], [r.last] and [r.closing], none for the low-level loop *)
  steer : option (shared W -> list TurnInput * shared W);
  followUp : option (shared W -> list TurnInput * shared W);
  last_ : option (shared W -> list TurnInput * shared W);
  closing : option (shared W -> bool * shared W);
  (** [ctx.Err()] with [context.Cause(ctx)] *)
  ctxErr : shared W -> option (error * error) * shared W;
  (** the timer of [sleep]: whether it fires before the context is done *)
  timer : Z -> shared W -> bool * shared W;
  (** [openresponses.NewID] *)
  NewID : string -> shared W -> string * shared W;
  (** [openresponses.Events] *)
  Events : Request -> shared W -> wire W;
  (** [agenttool.Executor]: [Preceding] and [Execute] *)
  Preceding : list Job -> list (list nat);
  Execute : list Job -> shared W -> exec W;
  (** the run's trigger, what [Agent.Resume] sets, and what the agent knew *)
  trigger : Trigger;
  resuming : bool;
  resumeNotes : list answerNote;
  prior : list PendingCall;
  reserved : gset string;
  ctxReserved_ : gset string;
  isContextLengthExceeded : error -> bool;
}.
Arguments cfg {W}. Arguments send {W}. Arguments steer {W}. Arguments followUp {W}. Arguments last_ {W}.
Arguments closing {W}. Arguments ctxErr {W}. Arguments timer {W}. Arguments NewID {W}. Arguments Events {W}.
Arguments Preceding {W}. Arguments Execute {W}. Arguments trigger {W}. Arguments resuming {W}.
Arguments resumeNotes {W}. Arguments prior {W}. Arguments reserved {W}. Arguments ctxReserved_ {W}.
Arguments isContextLengthExceeded {W}.

(** ** The monad *)
Inductive res (A : Type) := Ok (a : A) | Err (e : error) | Panicked | OutOfFuel.
Arguments Ok {A}.
Arguments Err {A}.
Arguments Panicked {A}.
Arguments OutOfFuel {A}.

Definition M (W A : Type) : Type := St W -> res A * St W.

Section Monad.
Context {W : Type}.

Definition ret {A} (a : A) : M W A := fun s => (Ok a, s).
Definition fail {A} (e : error) : M W A := fun s => (Err e, s).
Definition stuck {A} : M W A := fun s => (OutOfFuel, s).
Definition bind {A B} (m : M W A) (k : A -> M W B) : M W B := fun s =>
  match m s with
  | (Ok a, s) => k a s
  | (Err e, s) => (Err e, s)
  | (Panicked, s) => (Panicked, s)
  | (OutOfFuel, s) => (OutOfFuel, s)
  end.

(** [m], its error handed on as a value: [err := m(); ...]. *)
Definition try {A} (m : M W A) : M W (A + error) := fun s =>
  match m s with
  | (Ok a, s) => (Ok (inl a), s)
  | (Err e, s) => (Ok (inr e), s)
  | (Panicked, s) => (Panicked, s)
  | (OutOfFuel, s) => (OutOfFuel, s)
  end.

(** An error as a value. *)
Definition errOf (m : M W unit) : M W (option error) := fun s =>
  match m s with
  | (Ok _, s) => (Ok None, s)
  | (Err e, s) => (Ok (Some e), s)
  | (Panicked, s) => (Panicked, s)
  | (OutOfFuel, s) => (OutOfFuel, s)
  end.

Definition get : M W runner := fun s => (Ok (run_ s), s).
Definition modify (f : runner -> runner) : M W unit := fun s => (Ok tt, s <| run_ ::= f |>).

(** A step of the world: [f] of what is shared. *)
Definition ask {A} (f : shared W -> A * shared W) : M W A := fun s =>
  let '(a, h) := f (sh s) in (Ok a, s <| sh := h |>).
Definition move (f : shared W -> shared W) : M W unit := ask (fun h => (tt, f h)).
Definition shares : M W (shared W) := ask (fun h => (h, h)).

(** A hook's answer, its error raised. *)
Definition call {A} (f : shared W -> (A + error) * shared W) : M W A := fun s =>
  let '(a, h) := f (sh s) in
  (match a with inl a => Ok a | inr e => Err e end, s <| sh := h |>).

Definition orPanic {A} (a : option A) : M W A := match a with Some a => ret a | None => fun s => (Panicked, s) end.
Definition raise (e : option error) : M W unit := match e with Some e => fail e | None => ret tt end.

(** A new address. *)
Definition fresh : M W ptr := ask (fun h => (next h, h <| next ::= Pos.succ |>)).

End Monad.

Module MonadNotations.
Notation "'let!' x := m 'in' k" := (bind m (fun x => k))
  (at level 200, x pattern, m at level 100, k at level 200, right associativity,
   format "'[v' 'let!'  x  :=  m  'in' '/' k ']'") : agent_scope.
Notation "m ;; k" := (bind m (fun _ => k)) (at level 100, k at level 200, right associativity,
   format "'[v' m  ;; '/' k ']'") : agent_scope.
End MonadNotations.
Export MonadNotations.

Existing Class Env.

Section Steps.
Context {W : Type} {env : Env W}.

(** [runner.emit]: the event, made of the run's state, is sent whether or not the
    consumer takes it. *)
Definition emit (f : runner -> event) : M W unit := fun s =>
  let ev := f (run_ s) in
  let '(e, h) := send env ev (sh s) in
  (match e with Some e => Err e | None => Ok tt end, s <| sh := h |> <| log ::= fun l => l ++ [ev] |>).

(** An item joins the transcript, [g] what else changes with it, and its item_end
    is sent. *)
Definition appendItem (i : item) (g : runner -> runner) (f : runner -> ItemEnd) : M W unit :=
  modify (fun r => (g r) <| transcript ::= fun t => t ++ [i] |> <| added ::= fun t => t ++ [i] |>) ;;
  emit (fun r => EvItemEnd (f r)).

(** [ctx.Err() != nil], with the error and its cause. *)
Definition ctxDone : M W (option (error * error)) := ask (ctxErr env).

(** [runner.appendOne]. *)
Definition appendOne (i : input) (mode : InputMode) (trig endTrigger : Trigger) : M W unit :=
  if inputNil i then ret tt
  else
    let pv := provenance i in
    let trig := match pv with Some p => if TriggerIsZero (PSource p) then trig else PSource p | None => trig end in
    let '(it, hid, cop) := marks i in
    emit (fun r => EvItemStart {| is_RunID := runID r; is_Turn := turn r; is_Item := it; is_ResponseID := "";
      is_Hidden := hid; is_Copied := cop; is_Provenance := pv |}) ;;
    let named := if TriggerIsZero trig then endTrigger else trig in
    appendItem it
      (fun r => r <| arrived ::= fun l => l ++ [{| ti_Item := Plain it; ti_Mode := mode; ti_Trigger := trig |}] |>
                  <| persons ::= fun m => Persons.add m it named pv hid cop |>)
      (fun r => {| ie_RunID := runID r; ie_Turn := turn r; ie_Item := it; ie_ResponseID := ""; ie_Hidden := hid;
         ie_Copied := cop; ie_Provenance := pv; ie_Trigger := endTrigger; ie_ModelCallID := "" |}).

(** [runner.appendWith], [runner.appendItems] and [runner.appendArrived]. *)
Fixpoint appendWith (items : list input) (mode : InputMode) (trig endTrigger : Trigger) : M W unit :=
  match items with
  | [] => ret tt
  | i :: items => appendOne i mode trig endTrigger ;; appendWith items mode trig endTrigger
  end.

Definition appendItems (items : list input) (mode : InputMode) : M W unit := appendWith items mode noTrigger noTrigger.

Fixpoint appendArrived (inputs : list TurnInput) : M W unit :=
  match inputs with
  | [] => ret tt
  | i :: inputs => appendOne (ti_Item i) (ti_Mode i) (ti_Trigger i) noTrigger ;; appendArrived inputs
  end.

(** [runner.drain], [runner.ending] and [runner.drainLast]. *)
Definition drain (q : option (shared W -> list TurnInput * shared W)) : M W (list TurnInput) :=
  match q with None => ret [] | Some q => ask q end.

Definition ending : M W bool := match closing env with None => ret false | Some c => ask c end.

Definition drainLast : M W (list TurnInput) :=
  match last_ env with
  | Some l => ask l
  | None => let! a := drain (steer env) in let! b := drain (followUp env) in ret (a ++ b)
  end.

(** [runner.quarantined]. *)
Definition quarantined : M W Items := let! h := shares in ret (list_ (quar h)).

(** [runner.attribute], over the items from position [start] on. *)
Definition attribute (modelName : string) (start : nat) : M W unit :=
  modify (fun r => r <| reasoning ::= fun m => Reasoning.Attribute m modelName (drop start (transcript r)) |>).

(** [runner.quarantine.apply]. *)
Definition applyQuarantine (items : Items) : M W Items :=
  let! h := shares in
  let! (out, n) := orPanic (Quarantine.apply (quar h) (next h) items) in
  move (fun h => h <| next := n |>) ;;
  ret out.

End Steps.

(** ** Reasoning about every step of a run

    [keeps R m]: whatever [m] returns, it goes from a state to one [R] relates. *)
Section Keeps.
Context {W : Type}.
Context (R : St W -> St W -> Prop) `{!PreOrder R}.

Definition keeps {A} (m : M W A) : Prop := forall s, R s (m s).2.

Lemma keeps_ret {A} (a : A) : keeps (ret a).
Proof. intros s. reflexivity. Qed.
Lemma keeps_fail {A} e : keeps (@fail W A e).
Proof. intros s. reflexivity. Qed.
Lemma keeps_stuck {A} : keeps (@stuck W A).
Proof. intros s. reflexivity. Qed.
Lemma keeps_get : keeps get.
Proof. intros s. reflexivity. Qed.
Lemma keeps_orPanic {A} (a : option A) : keeps (orPanic a).
Proof. intros s. destruct a; reflexivity. Qed.
Lemma keeps_raise e : keeps (raise e).
Proof. intros s. destruct e; reflexivity. Qed.

Lemma keeps_bind {A B} (m : M W A) (k : A -> M W B) :
  keeps m -> (forall a, keeps (k a)) -> keeps (bind m k).
Proof.
  intros Hm Hk s. specialize (Hm s). unfold bind. destruct (m s) as [[a|e| |] s']; [|done..].
  simpl in *. etransitivity; [done|apply Hk].
Qed.

Lemma keeps_try {A} (m : M W A) : keeps m -> keeps (try m).
Proof. intros Hm s. specialize (Hm s). unfold try. by destruct (m s) as [[] ?]. Qed.

Lemma keeps_errOf (m : M W unit) : keeps m -> keeps (errOf m).
Proof. intros Hm s. specialize (Hm s). unfold errOf. by destruct (m s) as [[] ?]. Qed.

Lemma keeps_modify f : (forall s, R s (s <| run_ ::= f |>)) -> keeps (modify f).
Proof. intros Hf s. apply Hf. Qed.

(** What does not depend on the world. *)
Definition worldly : Prop := forall s h, R s (s <| sh := h |>).

Lemma keeps_ask {A} (f : shared W -> A * shared W) : worldly -> keeps (ask f).
Proof. intros Hw s. unfold ask. destruct (f (sh s)). apply Hw. Qed.
Lemma keeps_call {A} (f : shared W -> (A + error) * shared W) : worldly -> keeps (call f).
Proof. intros Hw s. unfold call. destruct (f (sh s)). apply Hw. Qed.

Lemma keeps_emit {env : Env W} f :
  worldly -> (forall s, R s (s <| log ::= fun l => l ++ [f (run_ s)] |>)) -> keeps (emit f).
Proof.
  intros Hw Hf s. unfold emit. destruct (send env (f (run_ s)) (sh s)) as [e h]. simpl.
  etransitivity; [apply (Hw s h)|]. exact (Hf (s <| sh := h |>)).
Qed.

(** The event and what the run's state becomes together. *)
Lemma keeps_appendItem {env : Env W} i g f :
  worldly ->
  (forall s, let r := (g (run_ s)) <| transcript ::= fun t => t ++ [i] |> <| added ::= fun t => t ++ [i] |> in
     R s (s <| run_ := r |> <| log ::= fun l => l ++ [EvItemEnd (f r)] |>)) ->
  keeps (appendItem i g f).
Proof.
  intros Hw Hf s. unfold appendItem, bind, modify, emit. simpl.
  set (r := (g (run_ s)) <| transcript ::= _ |> <| added ::= _ |>).
  destruct (send env _ _) as [e h]. simpl. etransitivity; [apply (Hf s)|].
  exact (Hw (s <| run_ := r |> <| log ::= fun l => l ++ [EvItemEnd (f r)] |>) h).
Qed.
End Keeps.

#[global] Arguments keeps {W} R {A} m.

(** [triple Pre m Post Exn]: from a state of [Pre], [m] returns a value of [Post], or
    gives out in a state of [Exn]. *)
Section Triples.
Context {W : Type}.

Definition triple {A} (Pre : St W -> Prop) (m : M W A) (Post : A -> St W -> Prop) (Exn : St W -> Prop) : Prop :=
  forall s, Pre s -> match m s with (Ok a, s') => Post a s' | (_, s') => Exn s' end.

Lemma bind_ok {A B} (m : M W A) (k : A -> M W B) s a s' : m s = (Ok a, s') -> bind m k s = k a s'.
Proof. unfold bind. by intros ->. Qed.

Lemma triple_bind {A B} Pre (m : M W A) (k : A -> M W B) Mid Post Exn :
  triple Pre m Mid Exn -> (forall a, triple (Mid a) (k a) Post Exn) -> triple Pre (bind m k) Post Exn.
Proof.
  intros Hm Hk s Hs. specialize (Hm s Hs). unfold bind. destruct (m s) as [[a|e| |] s']; try done.
  by apply Hk.
Qed.

Lemma triple_ret {A} (a : A) Pre Post Exn : (forall s, Pre s -> Post a s) -> triple Pre (ret a) Post Exn.
Proof. intros H s Hs. by apply H. Qed.

Lemma triple_fail {A} e (Pre : St W -> Prop) Post (Exn : St W -> Prop) :
  (forall s, Pre s -> Exn s) -> triple Pre (fail (A := A) e) Post Exn.
Proof. intros H s Hs. by apply H. Qed.

Lemma triple_get Pre Exn : triple Pre get (fun r s => r = run_ s /\ Pre s) Exn.
Proof. by intros s Hs. Qed.

Lemma triple_conseq {A} (Pre Pre' : St W -> Prop) (m : M W A) (Post Post' : A -> St W -> Prop) (Exn Exn' : St W -> Prop) :
  triple Pre' m Post' Exn' -> (forall s, Pre s -> Pre' s) -> (forall a s, Post' a s -> Post a s) ->
  (forall s, Exn' s -> Exn s) -> triple Pre m Post Exn.
Proof.
  intros H H1 H2 H3 s Hs. specialize (H s (H1 s Hs)). destruct (m s) as [[a|e| |] s']; auto.
Qed.

(** What a relation keeps, as a triple. *)
Lemma triple_keeps {A} R (m : M W A) (I : St W -> Prop) :
  keeps R m -> (forall s s', R s s' -> I s -> I s') -> triple I m (fun _ => I) I.
Proof. intros Hm HI s Hs. specialize (Hm s). destruct (m s) as [[a|e| |] s']; eauto. Qed.
End Triples.

(** Case analysis along the program. *)
Create HintDb keeps.
Ltac keeps_step :=
  match goal with
  | |- keeps _ (bind _ _) => apply keeps_bind; [try typeclasses eauto| |intros ?]
  | |- keeps _ (try _) => apply keeps_try
  | |- keeps _ (errOf _) => apply keeps_errOf
  | |- keeps _ (ret _) => apply keeps_ret; typeclasses eauto
  | |- keeps _ (fail _) => apply keeps_fail; typeclasses eauto
  | |- keeps _ stuck => apply keeps_stuck; typeclasses eauto
  | |- keeps _ get => apply keeps_get; typeclasses eauto
  | |- keeps _ (orPanic _) => apply keeps_orPanic; typeclasses eauto
  | |- keeps _ (raise _) => apply keeps_raise; typeclasses eauto
  | |- keeps _ (match ?x with _ => _ end) => destruct x eqn:?
  | |- keeps _ (let '_ := ?x in _) => destruct x
  | _ => solve [eauto with keeps]
  end.
Ltac keeps := intros; repeat keeps_step.
