(* ===== verification/Toy.v ===== *)
(** * Toy: concrete instances of the interfaces, for evaluating the definitions.

    A small model, a tool and a consumer: what the library functions do here is as
    little as their documentation allows, and nothing in the development rests on it. *)

From stdpp Require Import pretty.
From S2P Require Export Runner.

Module Toy.

Definition externals : Externals := {|
  MessageText := Content;
  marshal := fun _ => None;
  textContent := fun text => text;
  FunctionCalls := fun resp => calls (rp_Output resp);
  ErrorResult := fun _ => {| res_Output := {| Text_ := "error"; Parts := [] |}; res_Terminate := false; res_Details := None |};
  ReplayOf := fun _ _ _ => ReplayUnknown;
  decodeValue := Some;
  decodeObject := fun text => bool_decide (text = "{}");
|}.

Definition tools : Tools := {|
  Lookup := fun ts name => if bool_decide (name = "tool") then head ts else None;
  ValidateTools := fun _ => None;
  Definitions := fun ts => map (fun _ => "tool") ts;
  asWireErr := fun e => match e with
    | External 429 after => Some {| we_status := 429; we_insufficientQuota := false; we_contextLength := false;
        we_RetryAfter := after |}
    | _ => None end;
  isTransport := fun e => match e with External 1 _ => true | _ => false end;
|}.

(** The item at each output index, as last completed or opened. *)
Definition call (n : positive) (id : string) : FunctionCall :=
  {| ID := ""; CallID := id; Name := "tool"; Arguments := "{}"; CallStatus := "" |}.

Definition accumulator : Accumulator := {|
  Acc := list StreamEvent;
  acc0 := [];
  accAdd := fun acc ev => acc ++ [ev];
  accItemAt := fun acc index => Some (ICall 90 (call 90 "c"));
  accResponse := fun _ => None;
|}.

Definition message (text : string) : item := IMessage 80 {| Role_ := RoleUser; Content := text |}.
Definition said (text : string) : item := IMessage 81 {| Role_ := RoleAssistant; Content := text |}.

Definition response (output : Items) : Response := {|
  rp_ID := "resp"; rp_Status := StatusCompleted; rp_Output := output; rp_Usage := None; rp_Error := None;
  rp_Incomplete := "" |}.

(** A stream of one call, and one of an answer. *)
Definition yield {W : Type} (xs : list (StreamEvent + error)) : wire W := foldr (fun x w => WNext id x (fun _ => w)) WDone xs.
Definition calling {W : Type} : wire W :=
  let i := ICall 91 (call 91 "c") in
  yield [inl (OutputItemAdded 0); inl (OutputItemDone 0 i); inl (TerminalResponse (response [i]))].
Definition answering {W : Type} : wire W :=
  yield [inl (OutputItemDone 0 (said "done")); inl (TerminalResponse (response [said "done"]))].

Definition request : Request := {| rq_Model := "model"; rq_Input := []; rq_InputAt := 1; rq_Instructions := "";
  rq_Tools := []; rq_Store := None; rq_Stream := false; rq_StreamOptions := None; rq_PreviousResponseID := "";
  rq_Reasoning := ""; rq_Text := ""; rq_Metadata := ∅; rq_Extra := ∅; rq_Include := []; rq_MaxOutputTokens := None; rq_Rest := "" |}.

Definition policied {W : Type} (before : option (hook (W := shared W) ToolCallInfo (option ToolDecision))) : Config W := {|
  cf_Model := true; cf_ModelName := ""; cf_Instructions := ""; cf_Tools := [70%positive]; cf_ToolProvider := None;
  cf_Reasoning := None; cf_Text := None; cf_Request := request; cf_RequestExtra := ∅; cf_BeforeTurn := None;
  cf_BeforeModelCall := None; cf_OutputGuard := None;
  cf_Retry := {| MaxAttempts := 2; Backoff := None; Retryable := None; Revise := None |};
  cf_MaxTurns := 2; cf_Filter := None; cf_Transform := None; cf_BeforeToolCall := before; cf_AfterToolCall := None;
  cf_ShouldStopAfterTurn := None |}.
Definition config {W : Type} : Config W := policied None.

(** Every job is started and ends with an empty output. *)
Fixpoint runJobs {W : Type} (n : nat) (jobs : list Job) : exec W :=
  match jobs with
  | [] => XDrained
  | _ :: jobs =>
      XStart id n (fun _ _ =>
        XEvent id n {| ev_Final := true; ev_Result := noResult; ev_Err := None |} (fun _ _ => runJobs (S n) jobs))
  end.

(** The world counts the calls of the model: the first [n] make a call, the others
    answer. *)
Definition environment (n : nat) : Env nat := {|
  cfg := config; send := fun _ h => (None, h); steer := None; followUp := None; last_ := None; closing := None;
  ctxErr := fun h => (None, h); timer := fun _ h => (true, h);
  NewID := fun prefix h => (prefix +:+ "_" +:+ pretty (Npos (next h)), h <| next ::= Pos.succ |>);
  Events := fun req h => if (length (calls (rq_Input req)) <? n)%nat then calling else answering;
  Preceding := fun jobs => map (fun _ => []) jobs;
  Execute := fun jobs _ => runJobs 0 jobs;
  trigger := noTrigger; resuming := false; resumeNotes := []; prior := []; reserved := ∅; ctxReserved_ := ∅;
  isContextLengthExceeded := fun _ => false |}.

Definition state (t : Transcript) : St nat := {|
  run_ := {| transcript := t; runID := "run"; notes := []; reported := []; roots := ∅; callNotes := ∅; noteKeys := [];
    batchCalls := ∅; recorded := ∅; nestedRan := ∅; turn := 0; added := []; mark := 0; arrived := []; deferred := ∅;
    callTools := ∅; undispatched := ∅; dispatched := ∅; approved := ∅; ctxReserved := ∅; reasoning := ∅; persons := ∅;
    heldItems := []; callAt := ∅; callItems := ∅; decided := ∅; opened := [] |};
  sh := {| outside := 0%nat; quar := newQuarantine; next := 1000 |}; log := [] |}.

End Toy.
