(* ===== verification/Notes.v ===== *)
(** * Notes: what is said about the calls of a batch, held until the batch is
    complete ([holdNotesOf], [hold], [flushNotes], [notesHeld], [sayUnder],
    [holdStrays] of [run.go]). *)

From S2P Require Import Toy.
From S2P Require Export Runner.

Section Notes.
Context `{Externals} {W : Type} {env : Env W}.

(** [openresponses.UserText] and [DeveloperText]: a new message. *)
Definition newMessage (role : Role) (text : string) : M W item :=
  let! p := fresh in ret (IMessage p {| Role_ := role; Content := textContent text |}).

(** [answerNoteItem]. *)
Definition answerNoteItem (note by_ : string) : M W item :=
  newMessage (if bool_decide (by_ = "") || bool_decide (by_ = "human") then RoleUser else RoleDeveloper) note.

(** [sameNoteItem]. *)
Definition sameNoteItem (a b : item) : bool :=
  match a, b with
  | IMessage _ am, IMessage _ bm =>
      bool_decide (Role_ am = Role_ bm) && bool_decide (MessageText am = MessageText bm)
  | _, _ =>
      match marshal a, marshal b with
      | Some ja, Some jb => bool_decide (ja = jb)
      | _, _ => false
      end
  end.

(** Whether a note equal to [n] is among [held]. *)
Definition alreadyHeld (held : list Note) (n : Note) : bool :=
  existsb (fun h => bool_decide (n_CallID h = n_CallID n) && bool_decide (n_Mode h = n_Mode n) &&
    sameNoteItem (n_Item h) (n_Item n)) held.

Definition holdIn (held : list Note) (n : Note) : list Note := if alreadyHeld held n then held else held ++ [n].

(** [runner.hold]. *)
Definition hold (n : Note) : M W unit := modify (fun r => r <| notes ::= fun held => holdIn held n |>).

Fixpoint holdAll (ns : list Note) : M W unit :=
  match ns with [] => ret tt | n :: ns => hold n ;; holdAll ns end.

(** [==] of two [openresponses.Item]s, which panics on two values of one type Go
    cannot compare. *)
Definition itemEq (a b : item) : option bool :=
  match a, b with
  | Nil, Nil => Some true
  | IOther (ByValue false) ta _, IOther (ByValue false) tb _ => if bool_decide (ta = tb) then None else Some false
  | _, _ => Some (bool_decide (identity a = identity b) && negb (bool_decide (identity a = None)))
  end.

(** [sameNote]. *)
Definition sameNote (a b : Note) : option bool :=
  if bool_decide (n_CallID a = n_CallID b) && bool_decide (n_Mode a = n_Mode b) then itemEq (n_Item a) (n_Item b)
  else Some false.

(** [slices.EqualFunc(a, b, sameNote)]. *)
Fixpoint sameNotesLoop (a b : list Note) : option bool :=
  match a, b with
  | x :: a, y :: b => match sameNote x y with Some true => sameNotesLoop a b | r => r end
  | _, _ => Some true
  end.

Definition sameNotes (a b : list Note) : option bool :=
  if bool_decide (length a = length b) then sameNotesLoop a b else Some false.

(** [runner.notesHeld]. *)
Definition notesHeld : M W unit :=
  let! r := get in
  let! same := orPanic (sameNotes (notes r) (reported r)) in
  if same : bool then ret tt
  else
    emit (fun r => EvNotesHeld {| nh_RunID := runID r; nh_Notes := notes r |}) ;;
    modify (fun r => r <| reported := notes r |>).

(** The loop of [flushNotes], with [fuel] rounds left. *)
Fixpoint flushLoop (fuel : nat) : M W unit :=
  let! r := get in
  match notes r, fuel with
  | [], _ => notesHeld
  | _, O => stuck
  | n :: _, S fuel =>
      if isNil (n_Item n) then modify (fun r => r <| notes ::= tail |>) ;; flushLoop fuel
      else
        let! err := try (appendOne (Plain (n_Item n)) (n_Mode n) noTrigger (n_Trigger n)) in
        let! r' := get in
        (if (length (transcript r) <? length (transcript r'))%nat then modify (fun r => r <| notes ::= tail |>)
         else ret tt) ;;
        match err with inl _ => flushLoop fuel | inr e => fail e end
  end.

(** [runner.flushNotes]. *)
Definition flushNotes : M W unit := let! r := get in flushLoop (length (notes r)).

(** [runner.adopt]. *)
Definition adopt (id parent : string) : M W unit :=
  if bool_decide (parent = "") then ret tt
  else modify (fun r => r <| roots ::= fun m => <[id := default parent (m !! parent)]> m |>).

(** [runner.batchCall]. *)
Definition batchCall (id : string) : M W unit := modify (fun r => r <| batchCalls ::= union {[ id ]} |>).

(** The call a note said under the first of [ids] waits with. *)
Fixpoint rootOf (r : runner) (ids : list string) : option string :=
  match ids with
  | [] => None
  | c :: ids =>
      match roots r !! c with
      | Some root => Some root
      | None => if bool_decide (c ∈ batchCalls r) then Some c else rootOf r ids
      end
  end.

Definition noteKey (r : runner) (ids : list string) : string :=
  let id := default "" (rootOf r ids) in
  let id := if bool_decide (id = "") then default "" (find_first (fun c => negb (bool_decide (c = ""))) ids) else id in
  if bool_decide (id = "") then "-" else id.

(** [runner.sayUnder]. *)
Definition sayIn (note : item) (ids : list string) (r : runner) : runner :=
  let id := noteKey r ids in
  r <| noteKeys := match callNotes r !! id with Some _ => noteKeys r | None => noteKeys r ++ [id] end |>
    <| callNotes := <[id := default [] (callNotes r !! id) ++ [note]]> (callNotes r) |>.

Definition sayUnder (note : item) (ids : list string) : M W unit := modify (sayIn note ids).

(** The notes said under [id], and [runner.holdNotesOf] for a call with its own. *)
Definition saidUnder (r : runner) (id : string) : Items := default [] (callNotes r !! id).

Definition toolNote (id : string) (i : item) : Note :=
  {| n_Item := i; n_Mode := InputTool; n_Trigger := noTrigger; n_CallID := id |}.

Definition holdNotesOf (id : string) (own : list Note) : M W unit :=
  holdAll (map (fun n => n <| n_CallID := id |>) own) ;;
  let! r := get in
  modify (fun r => r <| callNotes ::= delete id |> <| noteKeys ::= filter (fun k => k <> id) |>) ;;
  holdAll (map (toolNote id) (saidUnder r id)).

(** [runner.holdStrays]. *)
Definition strayNotes (r : runner) (id : string) : list Note :=
  map (toolNote (if bool_decide (id = "-") then "" else id)) (saidUnder r id).

Definition holdStrays : M W unit :=
  let! r := get in
  modify (fun r => r <| noteKeys := [] |> <| callNotes := ∅ |>) ;;
  holdAll (noteKeys r ≫= strayNotes r).

(** [knownDecider]. *)
Definition knownDecider (by_ : string) : option error :=
  if bool_decide (by_ ∈ [""; "human"; "policy"; "agent"]) then None
  else Some (Wrap by_ (Errorf "the answer names an unknown decider")).

(** [saidBy]. *)
Definition saidBy (by_ note : string) : string :=
  if bool_decide (by_ = "policy") then "The policy said: " +:+ note
  else if bool_decide (by_ = "agent") then "Another agent said: " +:+ note
  else "The user said: " +:+ note.

(** [lowerFirst]: the first byte, when it is an ASCII capital. *)
Definition lowerFirst (s : string) : string :=
  match s with
  | EmptyString => s
  | String.String a s' =>
      let n := N_of_ascii a in
      if (N.leb 65 n && N.leb n 90)%N then String.String (ascii_of_N (n + 32)) s' else s
  end.

End Notes.

(** ** Lemmas *)

Section NotesLemmas.
Context `{Externals} {W : Type} {env : Env W}.
Implicit Types (s : St W) (r : runner).

(** What [appendOne] does of an item that is not nil: it is in the transcript, and
    among the run's items, unless the consumer refused its item_start; nothing the
    notes are kept in changes. *)
Lemma appendOne_run i mode trig endTrigger s :
  inputNil i = false ->
  exists res s', appendOne i mode trig endTrigger s = (res, s') /\
    notes (run_ s') = notes (run_ s) /\ reported (run_ s') = reported (run_ s) /\
    ((transcript (run_ s') = transcript (run_ s) ++ [(Unhide i).1] /\
        (res = Ok tt \/ exists e, res = Err e)) \/
     (transcript (run_ s') = transcript (run_ s) /\ exists e, res = Err e)).
Proof.
  intros Hi. unfold appendOne. rewrite Hi. destruct (marks i) as [[it hid] cop] eqn:Em.
  assert (it = (Unhide i).1) as -> by (by destruct i; simplify_eq/=).
  unfold bind at 1, emit at 1. destruct (send env _ _) as [[e|] h1].
  { eexists _, _. split; [reflexivity|]. upd. eauto 6. }
  unfold appendItem, bind, modify, emit. destruct (send env _ _) as [[e|] h2];
    (eexists _, _; split; [reflexivity|]); upd; eauto 8.
Qed.

Lemma sameNotes_nil l : sameNotes [] l = Some (bool_decide (l = [])).
Proof. by destruct l. Qed.

Lemma notesHeld_empty s :
  notes (run_ s) = [] ->
  exists res s', notesHeld s = (res, s') /\ (res = Ok tt \/ exists e, res = Err e) /\
    transcript (run_ s') = transcript (run_ s) /\ notes (run_ s') = [].
Proof.
  intros Hn. unfold notesHeld, bind, get. rewrite Hn, sameNotes_nil. simpl. unfold ret.
  case_bool_decide; [eexists _, _; by eauto|]. unfold emit.
  destruct (send env _ _) as [[e|] h]; unfold modify; eexists _, _; (split; [reflexivity|]); upd; eauto.
Qed.

Lemma flushLoop_run fuel s :
  (length (notes (run_ s)) <= fuel)%nat ->
  exists res s' k, flushLoop fuel s = (res, s') /\
    notes (run_ s') = drop k (notes (run_ s)) /\
    transcript (run_ s') =
      transcript (run_ s) ++ filter (fun i => isNil i = false) (map n_Item (take k (notes (run_ s)))) /\
    ((res = Ok tt /\ notes (run_ s') = []) \/ exists e, res = Err e).
Proof.
  revert s. induction fuel as [|fuel IH]; intros s Hf.
  all: cbn [flushLoop]; unfold bind at 1, get at 1; destruct (notes (run_ s)) as [|n ns] eqn:En.
  1, 3: destruct (notesHeld_empty s En) as (res & s' & Hs & Hr & Ht & Hn);
    exists res, s', 0%nat; rewrite Hs, Ht, Hn, app_nil_r; by naive_solver.
  { simpl in Hf. lia. }
  destruct (isNil (n_Item n)) eqn:Ei.
  - unfold bind, modify. set (s1 := s <| run_ ::= _ |>).
    assert (notes (run_ s1) = ns) as Hn1 by (unfold s1; upd; by rewrite En).
    destruct (IH s1) as (res & s' & k & Hs & Hn & Ht & Hr). { rewrite Hn1. simpl in Hf. lia. }
    exists res, s', (S k). rewrite Hn1 in *. simpl.
    split_and!; [done|done| |done]. rewrite Ht, filter_cons_False by (by rewrite Ei). done.
  - destruct (appendOne_run (Plain (n_Item n)) (n_Mode n) noTrigger (n_Trigger n) s) as (res & s1 & Ha & Hn1 & _ & Hc).
    { by destruct (n_Item n). }
    unfold bind at 1, try. rewrite Ha. rewrite En in Hn1.
    destruct Hc as [[Ht1 Hres]|[Ht1 [e ->]]].
    + assert ((length (transcript (run_ s)) <? length (transcript (run_ s1)))%nat = true) as Hl.
      { apply Nat.ltb_lt. rewrite Ht1, length_app. simpl. lia. }
      set (s2 := s1 <| run_ ::= fun r => r <| notes ::= tail |> |>).
      assert (notes (run_ s2) = ns) as Hn2 by (unfold s2; upd; by rewrite Hn1).
      assert (transcript (run_ s2) = transcript (run_ s) ++ [n_Item n]) as Ht2 by (unfold s2; upd; done).
      destruct Hres as [->|[e ->]]; unfold bind, get; rewrite Hl; unfold modify; fold s2.
      * destruct (IH s2) as (res & s' & k & Hs & Hn & Ht & Hr). { rewrite Hn2. simpl in Hf. lia. }
        exists res, s', (S k). rewrite Hn2, Ht2 in *. simpl. split_and!; [done|done| |done].
        rewrite Ht, filter_cons_True by done. by rewrite <- app_assoc.
      * exists (Err e), s2, 1%nat. rewrite Hn2, Ht2.
        change (take 1 (n :: ns)) with [n]. cbn [map]. rewrite filter_cons_True, filter_nil by done. eauto 10.
    + unfold bind, get. rewrite Ht1, Nat.ltb_irrefl. unfold ret, fail.
      exists (Err e), s1, 0%nat. rewrite Hn1, Ht1, take_0. cbn [map]. rewrite filter_nil, app_nil_r. eauto 6.
Qed.

(** Flushing the notes terminates and neither loses nor repeats one: whatever a
    consumer refuses, the notes appended are the first of those waiting, in order
    and each once, and exactly the rest still wait; when it succeeds none does. *)
Theorem flushNotes_spec s :
  exists res s' k, flushNotes s = (res, s') /\
    notes (run_ s') = drop k (notes (run_ s)) /\
    transcript (run_ s') =
      transcript (run_ s) ++ filter (fun i => isNil i = false) (map n_Item (take k (notes (run_ s)))) /\
    ((res = Ok tt /\ notes (run_ s') = []) \/ exists e, res = Err e).
Proof. unfold flushNotes, bind, get. by apply flushLoop_run. Qed.

(** A note [n] is held in [l]: it, or one that says the same for the same call. *)
Definition holds (l : list Note) (n : Note) : Prop :=
  exists h, h ∈ l /\ (h = n \/ n_CallID h = n_CallID n /\ n_Mode h = n_Mode n /\ sameNoteItem (n_Item h) (n_Item n) = true).

Lemma holdIn_prefix held n : held `prefix_of` holdIn held n.
Proof. unfold holdIn. destruct (alreadyHeld held n); [done|]. by apply prefix_app_r. Qed.

Lemma holdIn_holds held n : holds (holdIn held n) n.
Proof.
  unfold holdIn. destruct (alreadyHeld held n) eqn:E.
  - apply existsb_exists in E as (h & Hin & Hh). rewrite !andb_true_iff, !bool_decide_eq_true in Hh.
    exists h. split; [by apply list_elem_of_In|]. right. naive_solver.
  - exists n. split; [set_solver|by left].
Qed.

Lemma holds_prefix l l' n : l `prefix_of` l' -> holds l n -> holds l' n.
Proof. intros [k ->] (h & Hin & Hh). exists h. split; [set_solver|done]. Qed.

Lemma holdAll_run ns s :
  holdAll ns s = (Ok tt, s <| run_ ::= fun r => r <| notes ::= fun l => foldl holdIn l ns |> |>).
Proof.
  revert s. induction ns as [|n ns IH]; intros s; simpl.
  - unfold ret. by destruct s as [[] ? ?].
  - unfold bind, hold, modify. by rewrite IH.
Qed.

Lemma foldl_holdIn l ns :
  l `prefix_of` foldl holdIn l ns /\ Forall (holds (foldl holdIn l ns)) ns.
Proof.
  revert l. induction ns as [|n ns IH]; intros l; simpl; [done|].
  destruct (IH (holdIn l n)) as [Hp Hf]. split.
  - etransitivity; [apply holdIn_prefix|done].
  - constructor; [|done]. eapply holds_prefix; [done|apply holdIn_holds].
Qed.

(** The notes said so far are keyed by what [noteKeys] lists. *)
Definition saidOk r : Prop := NoDup (noteKeys r) /\ forall id, id ∈ noteKeys r <-> is_Some (callNotes r !! id).

Lemma sayIn_saidOk note ids r : saidOk r -> saidOk (sayIn note ids r).
Proof.
  intros [Hnd Hk]. unfold saidOk, sayIn. upd. set (id := noteKey r ids). split.
  - destruct (callNotes r !! id) eqn:E; [done|]. apply NoDup_app. split_and!; [done| |apply NoDup_singleton].
    intros x Hx ->%list_elem_of_singleton. apply Hk in Hx as [? ?]. congruence.
  - intros k. destruct (decide (k = id)) as [->|Hn].
    + rewrite lookup_insert_eq. split; [by eauto|intros _].
      destruct (callNotes r !! id) eqn:E; [apply Hk; by eauto|set_solver].
    + rewrite lookup_insert_ne by done. rewrite <- Hk. destruct (callNotes r !! id); set_solver.
Qed.

Lemma holdNotesOf_run id own s :
  exists s', holdNotesOf id own s = (Ok tt, s') /\
    callNotes (run_ s') = delete id (callNotes (run_ s)) /\
    noteKeys (run_ s') = filter (fun k => k <> id) (noteKeys (run_ s)) /\
    notes (run_ s') = foldl holdIn (notes (run_ s))
      (map (fun n => n <| n_CallID := id |>) own ++ map (toolNote id) (saidUnder (run_ s) id)).
Proof.
  unfold holdNotesOf, bind at 1. rewrite holdAll_run. unfold bind, get, modify. rewrite holdAll_run.
  eexists. split; [reflexivity|]. upd. by rewrite foldl_app.
Qed.

Lemma holdStrays_run s :
  exists s', holdStrays s = (Ok tt, s') /\ callNotes (run_ s') = ∅ /\ noteKeys (run_ s') = [] /\
    notes (run_ s') = foldl holdIn (notes (run_ s)) (noteKeys (run_ s) ≫= strayNotes (run_ s)).
Proof.
  unfold holdStrays, bind, get, modify. rewrite holdAll_run. eexists. split; [reflexivity|]. by upd.
Qed.

(** C34: no note is lost on the way to the waiting set. While the notes said are
    keyed by call, saying another keeps them so and never touches those waiting;
    taking a call's notes holds each of them, and everything a call took or not is
    held once the strays are, each under the call it was said about; what waited
    before stays in front, in order, and a note that says again what one held for
    the same call says is not held twice. *)
Theorem notes_never_lost s id own :
  saidOk (run_ s) ->
  exists s1 s2, holdNotesOf id own s = (Ok tt, s1) /\ holdStrays s1 = (Ok tt, s2) /\
    saidOk (run_ s1) /\ callNotes (run_ s2) = ∅ /\
    notes (run_ s) `prefix_of` notes (run_ s1) /\ notes (run_ s1) `prefix_of` notes (run_ s2) /\
    (forall n, n ∈ own -> holds (notes (run_ s2)) (n <| n_CallID := id |>)) /\
    (forall k i, i ∈ saidUnder (run_ s) k ->
       holds (notes (run_ s2)) (toolNote (if bool_decide (k = "-") && negb (bool_decide (k = id)) then "" else k) i)).
Proof.
  intros [Hnd Hk]. destruct (holdNotesOf_run id own s) as (s1 & H1 & Hc1 & Hk1 & Hn1).
  destruct (holdStrays_run s1) as (s2 & H2 & Hc2 & _ & Hn2). exists s1, s2.
  destruct (foldl_holdIn (notes (run_ s))
    (map (fun n => n <| n_CallID := id |>) own ++ map (toolNote id) (saidUnder (run_ s) id))) as [Hp1 Hf1].
  rewrite <- Hn1 in Hp1, Hf1. apply Forall_app in Hf1 as [Ho Hs].
  destruct (foldl_holdIn (notes (run_ s1)) (noteKeys (run_ s1) ≫= strayNotes (run_ s1))) as [Hp2 Hf2].
  rewrite <- Hn2 in Hp2, Hf2. rewrite !Forall_forall in *. split_and!; try done.
  - split; [rewrite Hk1; by apply NoDup_filter|]. intros k. rewrite Hk1, Hc1, list_elem_of_filter, Hk.
    destruct (decide (k = id)) as [->|Hn].
    + rewrite lookup_delete_eq. split; [naive_solver|by intros [? ?]].
    + rewrite lookup_delete_ne by done. tauto.
  - intros n Hin. eapply holds_prefix; [done|]. apply Ho. by apply (list_elem_of_fmap_2 (fun n => n <| n_CallID := id |>)).
  - intros k i Hi. destruct (decide (k = id)) as [->|Hn].
    + rewrite (bool_decide_eq_true_2 (id = id)), andb_false_r by done.
      eapply holds_prefix; [done|]. apply Hs. by apply list_elem_of_fmap_2.
    + rewrite (bool_decide_eq_false_2 _ Hn), andb_true_r. apply Hf2. apply list_elem_of_bind. exists k. split.
      * unfold strayNotes, saidUnder. rewrite Hc1, lookup_delete_ne by done. by apply list_elem_of_fmap_2.
      * rewrite Hk1. apply list_elem_of_filter. split; [done|]. apply Hk. unfold saidUnder in Hi.
        destruct (callNotes (run_ s) !! k); [by eauto|]. by apply not_elem_of_nil in Hi.
Qed.

End NotesLemmas.

#[local] Existing Instance Toy.externals.

Lemma notes_never_lost_witness :
  let s := (Toy.state []) <| run_ ::= sayIn (Toy.message "careful") ["c"] |> in
  let own := {| n_Item := Toy.message "mine"; n_Mode := InputTool; n_Trigger := noTrigger; n_CallID := "" |} in
  saidOk (run_ s) /\
  exists s1 s2, holdNotesOf (W := nat) "d" [own] s = (Ok tt, s1) /\ holdStrays s1 = (Ok tt, s2) /\
    holds (notes (run_ s2)) (own <| n_CallID := "d" |>).
Proof.
  cbv zeta. assert (saidOk (run_ ((Toy.state []) <| run_ ::= sayIn (Toy.message "careful") ["c"] |>))) as Hs.
  { apply (sayIn_saidOk (Toy.message "careful") ["c"] (run_ (Toy.state []))). split; [apply NoDup_nil_2|].
    intros id. split; [intros Hin; by apply not_elem_of_nil in Hin|]. intros [i Hi]. discriminate Hi. }
  split; [exact Hs|].
  destruct (notes_never_lost (W := nat) ((Toy.state []) <| run_ ::= sayIn (Toy.message "careful") ["c"] |>) "d"
    [{| n_Item := Toy.message "mine"; n_Mode := InputTool; n_Trigger := noTrigger; n_CallID := "" |}] Hs)
    as (s1 & s2 & H1 & H2 & _ & _ & _ & _ & Ho & _).
  exists s1, s2. split; [exact H1|]. split; [exact H2|]. apply Ho. left.
Defined.
