(* ===== verification/Stream.v ===== *)
(** * Stream: one attempt at a turn's request ([stream], [streamEvent] and the call
    IDs of [run.go]).

    A call of the model's is known by the ID the loop decides for it as it opens; the
    response that ends the attempt is rewritten so its calls are those the transcript
    holds ([renameCalls]). *)

From S2P Require Export Notes.

(** ** Call IDs *)

(** [maxCallIDPrefix] and [callIDPrefix]: each rune outside the alphabet gives one '_'. *)
Definition maxCallIDPrefix : nat := 64 - 1 - 24.

Definition callIDChar (a : ascii) : bool :=
  let n := N_of_ascii a in
  ((N.leb 97 n && N.leb n 122) || (N.leb 65 n && N.leb n 90) || (N.leb 48 n && N.leb n 57) ||
   N.eqb n 95 || N.eqb n 45)%N.

(** [strings.Map] with the function of [callIDPrefix]; [skip] is what is left of the
    rune being read. *)
Fixpoint mapRunes (skip : nat) (s : string) : string :=
  match s with
  | EmptyString => EmptyString
  | String.String a s' =>
      match skip with
      | S skip => mapRunes skip s'
      | O => String.String (if callIDChar a then a else "_"%char) (mapRunes (runeWidth s - 1) s')
      end
  end.

Definition callIDPrefix (id : string) : string :=
  if bool_decide (id = "") then "call" else String.substring 0 maxCallIDPrefix (mapRunes 0 id).

(** [withheldResponse]. *)
Definition withheldResponse (base : option Response) : Response :=
  let out := default {| rp_ID := ""; rp_Status := StatusOther ""; rp_Output := []; rp_Usage := None;
    rp_Error := None; rp_Incomplete := "" |} base in
  out <| rp_Status := StatusIncomplete |> <| rp_Incomplete := "content_filter" |> <| rp_Error := None |>
      <| rp_Output := [] |>.

(** [commitsAttempt]. *)
Definition commitsAttempt (i : item) : bool :=
  match i with IMessage _ _ | ICall _ _ => true | _ => false end.

(** An item at another address. *)
Definition readdress (p : ptr) (i : item) : item :=
  match i with
  | Nil => Nil
  | IMessage _ m => IMessage p m
  | ICall _ c => ICall p c
  | IOutput _ o => IOutput p o
  | IReasoning _ r => IReasoning p r
  | IOther (ByPtr _) t w => IOther (ByPtr p) t w
  | IOther (ByValue b) t w => IOther (ByValue b) t w
  end.

(** [errors.As(err, &stop)] for the loop's own [errStop], and [*wireError]. *)
Fixpoint asStop (e : error) : option (Reason * StopCause * option error * bool) :=
  match e with
  | EStop r c err w => Some (r, c, err, w)
  | Wrap _ e | WireError e => asStop e
  | Join e f => match asStop e with Some s => Some s | None => asStop f end
  | _ => None
  end.

Fixpoint asWire (e : error) : option error :=
  match e with
  | WireError e => Some e
  | Wrap _ e => asWire e
  | Join e f => match asWire e with Some s => Some s | None => asWire f end
  | _ => None
  end.

Section Stream.
Context `{Externals} `{Accumulator} {W : Type} {env : Env W}.

(** [guardedResponse], over [acc.Response()]. *)
Definition guardedResponse (cur : option Response) (err : error) : option Response :=
  if negb (errIs err ErrGuard) then None
  else match cur with None => None | Some _ => Some (withheldResponse cur) end.

(** [snapshotItem]. *)
Definition snapshotItem (i : item) : M W item := let! p := fresh in ret (readdress p i).

(** [callIDTaken]. *)
Definition callIDTaken (r : runner) (id : string) : bool :=
  bool_decide (id = "") || bool_decide (id ∈ reserved env) || bool_decide (id ∈ ctxReserved r) ||
  bool_decide (id ∈ decided r) || existsb (fun c => bool_decide (callID c = id)) (calls (transcript r)).

(** [decideCallID]. *)
Definition decideID (call : FunctionCall) : M W string :=
  let! r := get in
  if callIDTaken r (CallID call) then ask (NewID env (callIDPrefix (CallID call))) else ret (CallID call).

Definition decideCallID (call : FunctionCall) (index : Z) : M W unit :=
  let! id := decideID call in
  modify (fun r => r <| callAt ::= <[index := {| cs_id := id; cs_itemID := ID call |}]> |>
    <| decided ::= union {[ id ]} |>
    <| callItems ::= fun m => if bool_decide (ID call = "") then m else <[ID call := id]> m |>).

(** [decidedCallID]. *)
Definition decidedCallID (r : runner) (call : FunctionCall) (index : Z) : option string :=
  match (if bool_decide (ID call = "") then None else callItems r !! ID call) with
  | Some id => Some id
  | None =>
      match callAt r !! index with
      | None => None
      | Some slot =>
          if negb (bool_decide (ID call = "")) && negb (bool_decide (cs_itemID slot = "")) then None
          else Some (cs_id slot)
      end
  end.

(** [withCallID]. *)
Definition withCallID (i : item) (index : Z) : M W item :=
  match i with
  | ICall p call =>
      let! r := get in
      match decidedCallID r call index with
      | Some id =>
          if bool_decide (id = CallID call) then ret i
          else let! p := fresh in ret (ICall p (call <| CallID := id |>))
      | None => ret i
      end
  | _ => ret i
  end.

(** [openedAt]: the position in [opened], which grows when nothing opened at
    [index] is left to complete. *)
Definition isOpenAt (index : Z) (o : openedItem) : bool := bool_decide (o_index o = index) && isNil (o_done o).

Fixpoint lastOpen (index : Z) (os : list openedItem) (n : nat) : option nat :=
  match os with
  | [] => None
  | o :: os =>
      match lastOpen index os (S n) with
      | Some i => Some i
      | None => if isOpenAt index o then Some n else None
      end
  end.

Definition emptyOpened (index : Z) : openedItem := {| o_index := index; o_done := Nil; o_itemID := "";
  o_modelCallID := ""; o_call := false; o_callID := ""; o_fromResponse := false |}.

Definition openedAt (index : Z) : M W nat :=
  let! r := get in
  match lastOpen index (opened r) 0 with
  | Some i => ret i
  | None => modify (fun r => r <| opened ::= fun os => os ++ [emptyOpened index] |>) ;; ret (length (opened r))
  end.

Definition atOpened (i : nat) (f : openedItem -> openedItem) : M W unit :=
  modify (fun r => r <| opened ::= alter f i |>).

Definition lastOpened (f : openedItem -> openedItem) : M W unit :=
  modify (fun r => r <| opened ::= fun os => alter f (length os - 1)%nat os |>).

(** The item_end of an item the model produced. *)
Definition modelEnd (i : item) (responseID modelCallID : string) (r : runner) : ItemEnd :=
  {| ie_RunID := runID r; ie_Turn := turn r; ie_Item := i; ie_ResponseID := responseID; ie_Hidden := false;
     ie_Copied := false; ie_Provenance := None; ie_Trigger := noTrigger; ie_ModelCallID := modelCallID |}.

(** [flushHeld]: what the attempt held is taken before it is appended. *)
Fixpoint appendHeld (held : list heldItem) : M W unit :=
  match held with
  | [] => ret tt
  | h :: held =>
      appendItem (hi_item h) id (modelEnd (hi_item h) (hi_responseID h) (hi_modelCallID h)) ;;
      appendHeld held
  end.

Definition flushHeld : M W unit :=
  let! r := get in
  modify (fun r => r <| heldItems := [] |>) ;;
  appendHeld (heldItems r).

(** [appendFromResponse]. *)
Fixpoint appendCompleted (responseID : string) (os : list openedItem) : M W unit :=
  match os with
  | [] => ret tt
  | o :: os =>
      (if o_fromResponse o
       then appendItem (o_done o) id
              (modelEnd (o_done o) responseID
                (if bool_decide (o_modelCallID o = o_callID o) then "" else o_modelCallID o))
       else ret tt) ;;
      appendCompleted responseID os
  end.

Definition appendFromResponse (responseID : string) : M W unit :=
  let! r := get in appendCompleted responseID (opened r).

(** ** One event of the stream *)

Definition responseID (acc : Acc) : string := match accResponse acc with Some cur => rp_ID cur | None => "" end.

(** [streamEvent] on [OutputItemAddedEvent]. *)
Definition itemAdded (acc : Acc) (committed : bool) (index : Z) : M W (bool * option error) :=
  let i := default Nil (accItemAt acc index) in
  modify (fun r => r <| opened ::= fun os => os ++ [emptyOpened index] |>) ;;
  let! i :=
    match i with
    | ICall p c =>
        decideCallID c index ;;
        let! r := get in
        lastOpened (fun o => o <| o_itemID := ID c |> <| o_modelCallID := CallID c |> <| o_call := true |>
          <| o_callID := match callAt r !! index with Some slot => cs_id slot | None => "" end |>) ;;
        withCallID i index
    | i => ret i
    end in
  let commits := negb committed && commitsAttempt i in
  let! err := (if commits then errOf flushHeld else ret None) in
  match err with
  | Some e => ret (true, Some e)
  | None =>
      let! snap := snapshotItem i in
      let! err := errOf (emit (fun r => EvItemStart {| is_RunID := runID r; is_Turn := turn r; is_Item := snap;
        is_ResponseID := responseID acc; is_Hidden := false; is_Copied := false; is_Provenance := None |})) in
      ret (commits, err)
  end.

(** The items before the message the guard is asked about, as completed or as they
    stand. *)
Fixpoint itemsBefore (acc : Acc) (os : list openedItem) : M W Items :=
  match os with
  | [] => ret []
  | o :: os =>
      let! here :=
        (if negb (isNil (o_done o)) then ret [o_done o]
         else match accResponse acc, accItemAt acc (o_index o) with
              | Some _, Some open => let! i := withCallID open (o_index o) in ret [i]
              | _, _ => ret []
              end) in
      let! more := itemsBefore acc os in
      ret (here ++ more)
  end.

(** The guard's answer on an item done: the item kept, or the error that ends the
    attempt. *)
Definition guarded (acc : Acc) (self : nat) (i : item) : M W (item + error) :=
  match i, cf_OutputGuard (cfg env) with
  | IMessage p m, Some guard =>
      let! r := get in
      let! before := itemsBefore acc (take self (opened r)) in
      let! r := get in
      let! out := try (call (fun h => guard h {| oi_RunID := runID r; oi_Turn := turn r;
        oi_ResponseID := responseID acc; oi_Message := {| mg_ptr := p; mg_message := m |}; oi_Output := before |})) in
      ret (match out with
           | inr e => if errIs e ErrGuard then inr (EStop ReasonStopped StopGuard (Some e) true)
                      else inr (Wrap "agentturn: output guard" e)
           | inl (Some m) => inl (msgItem m)
           | inl None => inl i
           end)
  | _, _ => ret (inl i)
  end.

(** The call ID of a call done: decided now when the stream never opened it, named
    by the item ID it completes with when it opened with none. *)
Definition callDone (call : FunctionCall) (index : Z) : M W unit :=
  let! r := get in
  match decidedCallID r call index with
  | None => decideCallID call index
  | Some id =>
      if negb (bool_decide (ID call = "")) &&
         match callAt r !! index with Some slot => bool_decide (cs_itemID slot = "") | None => true end
      then modify (fun r => r <| callAt ::= <[index := {| cs_id := id; cs_itemID := ID call |}]> |>
             <| callItems ::= <[ID call := id]> |>)
      else ret tt
  end.

(** [streamEvent] on [OutputItemDoneEvent]. *)
Definition itemDone (acc : Acc) (committed : bool) (index : Z) (done : item) : M W (bool * option error) :=
  let! (i, modelCallID) :=
    match done with
    | ICall p c =>
        callDone c index ;;
        let! i := withCallID done index in
        ret (i, if bool_decide (i = done) then "" else CallID c)
    | i => ret (i, "")
    end in
  let! self := openedAt index in
  (match done with
   | ICall p c => atOpened self (fun o => o <| o_modelCallID := CallID c |>
       <| o_itemID ::= fun was => if bool_decide (ID c = "") then was else ID c |>)
   | _ => ret tt
   end) ;;
  let! kept := guarded acc self i in
  match kept with
  | inr e => ret (true, Some e)
  | inl i =>
      atOpened self (fun o => o <| o_done := i |>) ;;
      if negb committed
      then
        modify (fun r => r <| heldItems ::= fun l => l ++ [{| hi_item := i; hi_responseID := responseID acc;
          hi_modelCallID := modelCallID |}] |>) ;;
        ret (false, None)
      else
        let! err := errOf (appendItem i id (modelEnd i (responseID acc) modelCallID)) in
        ret (false, err)
  end.

(** [streamEvent]. *)
Definition streamEvent (ev : StreamEvent) (acc : Acc) (committed : bool) : M W (bool * option error) :=
  match ev with
  | OutputItemAdded index => itemAdded acc committed index
  | OutputItemDone index i => itemDone acc committed index i
  | ErrorEvent e => ret (false, Some (WireError e))
  | ItemScoped name index =>
      let! i := withCallID (default Nil (accItemAt acc index)) index in
      let! snap := snapshotItem i in
      let! err := errOf (emit (fun r => EvItemUpdate {| iu_RunID := runID r; iu_Turn := turn r; iu_Item := snap;
        iu_Stream := name; iu_ResponseID := responseID acc |})) in
      ret (false, err)
  | TerminalResponse _ | OtherEvent _ => ret (false, None)
  end.

End Stream.
