(* ===== verification/Attempt.v ===== *)
(** * Attempt: the response of an attempt rewritten to the transcript's calls
    ([renameCalls]), and the attempt as a whole ([stream]). *)

From S2P Require Export Stream.

(** ** Pairing the response's calls with the attempt's

    [calls] of [renameCalls] are positions in [opened]; [cs] are the entries there.
    A pairing says, for each index of the response's output, the position in [cs] of
    the call it is paired with. *)
Record pairing := Pairing { paired : gmap nat nat; taken : gset nat }.
#[export] Instance eta_pairing : Eta pairing := fun r => Pairing (paired r) (taken r).

Definition isCall (i : item) : bool := match i with ICall _ _ => true | _ => false end.

(** Whether the attempt's call is one the response's may be paired with. *)
Definition isTracked (complete : bool) (o : openedItem) : bool :=
  isCall (o_done o) || (complete && isNil (o_done o) && o_call o).

(** The first position from [n] on, not taken, that [ok] accepts. *)
Fixpoint firstFree (ok : openedItem -> bool) (tk : gset nat) (cs : list openedItem) (n : nat) : option nat :=
  match cs with
  | [] => None
  | o :: cs => if negb (bool_decide (n ∈ tk)) && ok o then Some n else firstFree ok tk cs (S n)
  end.

(** [pair], with the test of its [completed] argument in [ok]. *)
Definition pair_ (ok : openedItem -> bool) (cs : list openedItem) (index : nat) (p : pairing) : pairing :=
  match paired p !! index, firstFree ok (taken p) cs 0 with
  | None, Some j => Pairing (<[index := j]> (paired p)) ({[ j ]} ∪ taken p)
  | _, _ => p
  end.

(** [each]: a pass over the response's calls not yet paired. *)
Fixpoint each (pass : nat -> FunctionCall -> pairing -> pairing) (output : Items) (index : nat) (p : pairing) : pairing :=
  match output with
  | [] => p
  | i :: output =>
      each pass output (S index)
        (match i with
         | ICall _ c => match paired p !! index with None => pass index c p | Some _ => p end
         | _ => p
         end)
  end.

Definition completed (o : openedItem) : bool := negb (isNil (o_done o)).
Definition doneArguments (o : openedItem) : string := match o_done o with ICall _ c => Arguments c | _ => "" end.

(** The five passes of [renameCalls]. *)
Definition byItemID (cs : list openedItem) (index : nat) (c : FunctionCall) (p : pairing) : pairing :=
  if bool_decide (ID c = "") then p
  else
    let p := pair_ (fun o => completed o && bool_decide (o_itemID o = ID c)) cs index p in
    pair_ (fun o => negb (completed o) && bool_decide (o_itemID o = ID c)) cs index p.

Definition byCallIDAndArguments (cs : list openedItem) (index : nat) (c : FunctionCall) (p : pairing) : pairing :=
  pair_ (fun o => completed o && bool_decide (o_modelCallID o = CallID c) &&
    bool_decide (doneArguments o = Arguments c)) cs index p.

Definition byCallID (cs : list openedItem) (index : nat) (c : FunctionCall) (p : pairing) : pairing :=
  if bool_decide (CallID c = "") then p
  else pair_ (fun o => bool_decide (o_modelCallID o = CallID c)) cs index p.

Definition byOrder (want : bool) (cs : list openedItem) (index : nat) (_ : FunctionCall) (p : pairing) : pairing :=
  pair_ (fun o => Bool.eqb (completed o) want) cs index p.

Definition pairUp (cs : list openedItem) (output : Items) : pairing :=
  let p := Pairing ∅ ∅ in
  let p := each (byItemID cs) output 0 p in
  let p := each (byCallIDAndArguments cs) output 0 p in
  let p := each (byCallID cs) output 0 p in
  let p := each (byOrder true cs) output 0 p in
  each (byOrder false cs) output 0 p.

(** ** The response rewritten *)

(** A call of the attempt's place among the transcript's. *)
Definition rank (cs : list openedItem) (j : nat) : nat :=
  match cs !! j with
  | Some o => if o_fromResponse o then (length cs + j)%nat else j
  | None => j
  end.

(** Whether the response lists the calls in the transcript's order. *)
Fixpoint inOrder (cs : list openedItem) (p : pairing) (n : nat) (index : nat) (bound : nat) : bool :=
  match n with
  | O => true
  | S n =>
      match paired p !! index with
      | Some j => (bound <=? rank cs j)%nat && inOrder cs p n (S index) (rank cs j)
      | None => inOrder cs p n (S index) bound
      end
  end.

(** Whether a completed call is paired with none of the response's. *)
Fixpoint leftOver (cs : list openedItem) (tk : gset nat) (n : nat) : bool :=
  match cs with
  | [] => false
  | o :: cs => (negb (bool_decide (n ∈ tk)) && completed o) || leftOver cs tk (S n)
  end.

(** The transcript's calls: those the stream completed, in the order they opened,
    then those only the response did. *)
Definition transcriptCalls (cs : list openedItem) : Items :=
  map o_done (filter (fun o => o_fromResponse o = false /\ completed o = true) cs) ++
  map o_done (filter (fun o => o_fromResponse o = true) cs).

(** The response's calls, as a group, give way to [held] where the first stood. *)
Fixpoint replaceCalls (output held : Items) (placed : bool) : Items :=
  match output with
  | [] => if placed then [] else held
  | i :: output =>
      if isCall i then (if placed then [] else held) ++ replaceCalls output held true
      else i :: replaceCalls output held placed
  end.

Section Attempt.
Context `{Externals} `{Accumulator} {W : Type} {env : Env W}.

(** [completedCall]. *)
Definition completedCall (c : FunctionCall) (id itemID : string) : M W item :=
  let! p := fresh in
  ret (ICall p (c <| CallID := id |> <| ID ::= fun own => if bool_decide (own = "") then itemID else own |>)).

(** The calls the response completes: [at_] are the positions in [opened]. *)
Fixpoint completeCalls (output : Items) (index : nat) (at_ : list nat) (p : pairing) : M W (list nat * pairing) :=
  match output with
  | [] => ret (at_, p)
  | i :: output =>
      match i with
      | ICall _ c =>
          match paired p !! index with
          | Some j =>
              let! r := get in
              let pos := default 0%nat (at_ !! j) in
              let o := default (emptyOpened 0) (opened r !! pos) in
              (if completed o then ret tt
               else
                 let! done := completedCall c (o_callID o) (o_itemID o) in
                 atOpened pos (fun o => o <| o_done := done |> <| o_fromResponse := true |>
                   <| o_modelCallID ::= fun own => if bool_decide (own = "") then CallID c else own |>)) ;;
              completeCalls output (S index) at_ p
          | None =>
              decideCallID c (Z.of_nat index) ;;
              let! r := get in
              let id := match callAt r !! Z.of_nat index with Some slot => cs_id slot | None => "" end in
              let! done := completedCall c id "" in
              modify (fun r => r <| opened ::= fun os => os ++ [{| o_index := Z.of_nat index; o_done := done;
                o_itemID := ID c; o_modelCallID := CallID c; o_call := true; o_callID := id;
                o_fromResponse := true |}] |>) ;;
              completeCalls output (S index) (at_ ++ [length (opened r)])
                (p <| paired ::= <[index := length at_]> |> <| taken ::= union {[ length at_ ]} |>)
          end
      | _ => completeCalls output (S index) at_ p
      end
  end.

(** Each call of the response replaced by the one it is paired with; each item is
    compared with what replaces it. *)
Fixpoint renameEach (cs : list openedItem) (p : pairing) (output : Items) (index : nat) : M W Items :=
  match output with
  | [] => ret []
  | i :: output =>
      let! renamed :=
        match paired p !! index ≫= fun j => cs !! j with
        | Some o => if completed o then ret (o_done o) else withCallID i (Z.of_nat index)
        | None => withCallID i (Z.of_nat index)
        end in
      orPanic (itemEq renamed i) ;;
      let! output := renameEach cs p output (S index) in
      ret (renamed :: output)
  end.

(** The positions of the calls [renameCalls] tracks. *)
Fixpoint trackedAt (complete : bool) (os : list openedItem) (n : nat) : list nat :=
  match os with
  | [] => []
  | o :: os => (if isTracked complete o then [n] else []) ++ trackedAt complete os (S n)
  end.

Definition entries (os : list openedItem) (at_ : list nat) : list openedItem :=
  map (fun i => default (emptyOpened 0) (os !! i)) at_.

(** [renameCalls]. *)
Definition renameCalls (resp : Response) : M W Response :=
  let complete := negb (bool_decide (rp_Status resp = StatusFailed)) in
  let! r := get in
  let at_ := trackedAt complete (opened r) 0 in
  let p := pairUp (entries (opened r) at_) (rp_Output resp) in
  let! (at_, p) := (if complete then completeCalls (rp_Output resp) 0 at_ p else ret (at_, p)) in
  let! r := get in
  let cs := entries (opened r) at_ in
  if leftOver cs (taken p) 0 || negb (inOrder cs p (length (rp_Output resp)) 0 0)
  then ret (resp <| rp_Output := replaceCalls (rp_Output resp) (transcriptCalls cs) false |>)
  else
    let! output := renameEach cs p (rp_Output resp) 0 in
    ret (resp <| rp_Output := output |>).

(** ** The attempt *)

(** How reading the stream went: it stopped the attempt, or the stream ended. *)
Inductive reading :=
| Stopped (resp : option Response) (committed : bool) (err : error)
| Ended (acc : Acc) (halt : option error) (resp : option Response) (committed : bool).

Definition terminal (ev : StreamEvent) (resp : option Response) : option Response :=
  match ev with TerminalResponse final => Some final | _ => resp end.

(** [errStop] with [withheld]. *)
Definition withheldStop (e : error) : bool := match asStop e with Some (_, _, _, w) => w | None => false end.
Definition stopOf (e : error) : error :=
  match asStop e with Some (r, c, err, w) => EStop r c err w | None => e end.

(** The range over the events of [stream]. *)
Fixpoint streamLoop (w : wire W) (acc : Acc) (halt : option error) (resp : option Response) (committed : bool) :
    M W reading :=
  match w with
  | WDone => ret (Ended acc halt resp committed)
  | WNext advance x rest =>
      move advance ;;
      match halt, x with
      | Some _, inr _ => ret (Ended acc halt resp committed)
      | Some _, inl ev =>
          let! h := shares in streamLoop (rest h) (accAdd acc ev) halt (terminal ev resp) committed
      | None, inr err => ret (Stopped (guardedResponse (accResponse acc) err) committed err)
      | None, inl ev =>
          let acc := accAdd acc ev in
          let! (commits, err) := streamEvent ev acc committed in
          let committed := committed || commits in
          match err with
          | None => let! h := shares in streamLoop (rest h) acc None (terminal ev resp) committed
          | Some err =>
              if withheldStop err
              then let! h := shares in streamLoop (rest h) acc (Some (stopOf err)) resp committed
              else match asWire err with
                   | Some e => ret (Stopped (guardedResponse (accResponse acc) e) committed e)
                   | None => ret (Stopped None true err)
                   end
          end
      end
  end.

(** The end of [stream], once the response arrived. *)
Definition deliverResponse (resp : Response) : M W (option Response * bool * option error) :=
  let! resp := renameCalls resp in
  let! err := (if bool_decide (rp_Status resp = StatusFailed) then ret None
               else errOf (flushHeld ;; appendFromResponse (rp_ID resp))) in
  match err with
  | Some e => ret (None, true, Some e)
  | None =>
      let! err := errOf (emit (fun r => EvResponseEnd {| re_RunID := runID r; re_Turn := turn r; re_Response := resp;
        re_Withheld := false |})) in
      match err with
      | Some e => ret (None, true, Some e)
      | None =>
          if bool_decide (rp_Status resp = StatusFailed)
          then ret (None, true, Some (default (Errorf "response failed") (rp_Error resp)))
          else ret (Some resp, true, None)
      end
  end.

Definition clearAttempt (r : runner) : runner :=
  r <| heldItems := [] |> <| callAt := ∅ |> <| callItems := ∅ |> <| decided := ∅ |> <| opened := [] |>.

(** [stream]: the response, whether the attempt committed, and its error. *)
Definition stream (req : Request) : M W (option Response * bool * option error) :=
  modify clearAttempt ;;
  let! h := shares in
  let! read := streamLoop (Events env req h) acc0 None None false in
  match read with
  | Stopped resp committed err => ret (resp, committed, Some err)
  | Ended acc (Some halt) resp committed =>
      ret (Some (withheldResponse (match resp with Some r => Some r | None => accResponse acc end)), true, Some halt)
  | Ended acc None None committed => ret (None, committed, Some (Sentinel ErrTruncatedStream))
  | Ended acc None (Some resp) committed => deliverResponse resp
  end.

End Attempt.
