(* ===== verification/Turn.v ===== *)
(** * Turn: the request of a turn, and the attempts at it ([build], [modelTurn] and
    what they use of [run.go]). *)

From S2P Require Export Attempt.

Definition WithheldCallOutput : string :=
  "Error: not run: the response that made this call was withheld".

(** [built]: the filtered list and the input the loop set, each a slice, with the
    address of its array. *)
Record built := { b_filtered : Items; b_filteredAt : ptr; b_input : Items; b_inputAt : ptr }.
#[export] Instance eta_built : Eta built := fun r => Build_built (b_filtered r) (b_filteredAt r) (b_input r) (b_inputAt r).

(** [sameSlice]. *)
Definition sameSlice (a : Items) (aAt : ptr) (b : Items) (bAt : ptr) : bool :=
  bool_decide (length a = length b) && (bool_decide (a = []) || bool_decide (aAt = bAt)).

Definition isInput (req : Request) (b : built) : bool :=
  sameSlice (rq_Input req) (rq_InputAt req) (b_input b) (b_inputAt b).

Section Turn.
Context `{Externals} `{Tools} `{Accumulator} {W : Type} {env : Env W}.

(** [inputFor]: the slice it is given, when neither step changes it, or a new one. *)
Definition inputFor (model : string) (filtered : Items) (at_ : ptr) : M W (Items * ptr) :=
  let! r := get in
  let! out := applyQuarantine (Reasoning.For (reasoning r) model filtered) in
  if bool_decide (out = filtered) then ret (out, at_) else let! p := fresh in ret (out, p).

(** [built.forModel]: the request to send and the input set. *)
Definition forModel (b : built) (prev req : Request) : M W (built * Request) :=
  if bool_decide (rq_Model req = rq_Model prev) || negb (isInput req b) || negb (isInput prev b)
  then ret (b, req)
  else
    let! (input, at_) := inputFor (rq_Model req) (b_filtered b) (b_filteredAt b) in
    ret (b <| b_input := input |> <| b_inputAt := at_ |>, req <| rq_Input := input |> <| rq_InputAt := at_ |>).

(** The model call refused before it is made. *)
Definition blockedCall (req : Request) (e : error) : M W unit :=
  let! q := quarantined in
  emit (fun r => EvModelBlocked {| mb_RunID := runID r; mb_Turn := turn r; mb_Request := req; mb_Err := e;
    mb_Usage := None; mb_Quarantined := q |}).

(** [transform]: the transcript as the transform leaves it. *)
Definition transformed (weighed : Request) (fold : bool) : M W Transcript :=
  let! r := get in
  match cf_Transform (cfg env) with
  | None => ret (transcript r)
  | Some transform =>
      let! out := try (call (fun h => transform h {| tf_Request := weighed; tf_Fold := fold;
        tf_Persons := persons r; tf_Transcript := transcript r |})) in
      match out with inl t => ret t | inr e => fail (Wrap "agentturn: transform" e) end
  end.

(** [build]: at most twice, [again] says whether it may be built once more. *)
Definition buildOnce (tools : list Tool) (settings : option Request) (fold : bool)
    (rebuild : option (M W (Request * built))) : M W (Request * built) :=
  let req := baseRequest (cfg env) tools in
  let! input := transformed (default req settings) fold in
  let filtered := filter_ (cfg env) input in
  let! p := fresh in
  let! (own, at_) := inputFor (rq_Model req) filtered p in
  let req := req <| rq_Input := own |> <| rq_InputAt := at_ |> in
  let b := {| b_filtered := filtered; b_filteredAt := p; b_input := own; b_inputAt := at_ |} in
  match cf_BeforeModelCall (cfg env) with
  | None => ret (req, b)
  | Some before =>
      let! h := shares in
      let g := generation (quar h) in
      let! (err, edited) := ask (fun h => let '(err, edited, h) := before h req in ((err, edited), h)) in
      match err with
      | Some e =>
          blockedCall edited e ;;
          if errIs e ErrGuard then fail (EStop ReasonStopped StopGuard (Some e) false)
          else fail (Wrap "agentturn: before-model-call hook" e)
      | None =>
          let! (b, req) := forModel b req edited in
          let! h := shares in
          let! r := get in
          let changed := negb (bool_decide (generation (quar h) = g)) in
          let folded := foldedAway (has (quar h)) (transcript r) input in
          match (if changed && bool_decide (is_Some (cf_Transform (cfg env))) && folded then rebuild else None) with
          | Some rebuild => rebuild
          | None =>
              let own := isInput req b in
              let! input := applyQuarantine (rq_Input req) in
              let! at_ := (if bool_decide (input = rq_Input req) then ret (rq_InputAt req) else fresh) in
              ret (req <| rq_Input := input |> <| rq_InputAt := at_ |>,
                   if own then b <| b_input := input |> <| b_inputAt := at_ |> else b)
          end
      end
  end.

(** [requestWith], and [request] without settings or a fold. *)
Definition requestWith (tools : list Tool) (settings : option Request) (fold : bool) : M W (Request * built) :=
  buildOnce tools settings fold (Some (buildOnce tools settings fold None)).

Definition request (tools : list Tool) : M W (Request * built) := requestWith tools None false.

(** [closeWithheld]. *)
Definition withheldOutput (c : callRef) : M W input :=
  let! p := fresh in
  ret (Plain (IOutput p {| OutID := ""; OutCallID := callID c;
    Output := {| Text_ := WithheldCallOutput; Parts := [] |}; OutStatus := "" |})).

Fixpoint withheldOutputs (cs : list callRef) : M W (list input) :=
  match cs with
  | [] => ret []
  | c :: cs => let! o := withheldOutput c in let! os := withheldOutputs cs in ret (o :: os)
  end.

Definition closeWithheld (start : nat) : M W unit :=
  let! r := get in
  let! outputs := withheldOutputs (unansweredCalls (drop start (transcript r))) in
  appendItems outputs InputTool.

(** [sleep]. *)
Definition sleep (d : Z) : M W (option error) :=
  if d <=? 0 then let! e := ctxDone in ret (fst <$> e)
  else
    let! fired := ask (timer env d) in
    if fired : bool then ret None
    else let! e := ctxDone in ret (fst <$> e).

(** [stop(ReasonAborted, context.Cause(ctx))]. *)
Definition abortedStop : M W error :=
  let! e := ctxDone in ret (EStop ReasonAborted NoCause (snd <$> e) false).

(** The end of a withheld response: it goes on record with what the transcript took
    of it, and the calls it made are closed. *)
Definition recordWithheld (start : nat) (resp : Response) : M W unit :=
  emit (fun r => EvResponseEnd {| re_RunID := runID r; re_Turn := turn r;
    re_Response := resp <| rp_Output := drop start (transcript r) |>; re_Withheld := true |}).

(** An attempt stopped by OutputGuard. *)
Definition guardStopped (start : nat) (resp : option Response) (err : error) : M W Response :=
  (match resp with Some resp => if withheldStop err then recordWithheld start resp else ret tt | None => ret tt end) ;;
  closeWithheld start ;;
  fail err.

(** An attempt the model, or a wrapper around it, refused as a guard. *)
Definition guardRefused (start : nat) (req : Request) (resp : option Response) (committed : bool) (err : error) :
    M W Response :=
  let! withheld :=
    match resp, committed with
    | Some resp, true => recordWithheld start resp ;; ret true
    | _, _ =>
        let! q := quarantined in
        emit (fun r => EvModelBlocked {| mb_RunID := runID r; mb_Turn := turn r; mb_Request := req; mb_Err := err;
          mb_Usage := resp ≫= rp_Usage; mb_Quarantined := q |}) ;;
        ret false
    end in
  closeWithheld start ;;
  fail (EStop ReasonStopped StopGuard (Some err) withheld).

(** What a turn retries with: the request and what it was built from. *)
Definition retry (call delay : Z) (err : error) (req : Request) : M W unit :=
  let! q := quarantined in
  emit (fun r => EvModelRetry {| mr_RunID := runID r; mr_Turn := turn r; mr_Attempt := call; mr_Err := err;
    mr_Delay := delay; mr_Request := req; mr_Quarantined := q |}).

(** The request rebuilt through the transform with a fold asked for. *)
Definition foldedRequest (tools : list Tool) (req : Request) (revised : bool) : M W (Request * built) :=
  let! (next, nb) := requestWith tools (if revised then Some req else None) true in
  if negb revised then ret (next, nb)
  else
    let! (input, at_, nb) :=
      (if isInput next nb
       then
         let! (input, at_) := inputFor (rq_Model req) (b_filtered nb) (b_filteredAt nb) in
         ret (input, at_, nb <| b_input := input |> <| b_inputAt := at_ |>)
       else ret (rq_Input next, rq_InputAt next, nb)) in
    ret (req <| rq_Input := input |> <| rq_InputAt := at_ |>, nb).

(** The request [Retry.Revise] leaves for the next attempt. *)
Definition revise (attempt : Z) (err : error) (req : Request) (b : built) : M W (built * Request * bool) :=
  match Revise (cf_Retry (cfg env)) with
  | None => ret (b, req, false)
  | Some f =>
      let! (out, edited) := ask (fun h => let '(out, edited, h) := f h attempt req err in ((out, edited), h)) in
      let! (b, req) := forModel b req (default edited out) in
      ret (b, req, true)
  end.

(** The loop of [modelTurn], with at most [fuel] calls left. *)
Fixpoint attempts (fuel : nat) (tools : list Tool) (start : nat) (call attempt : Z) (folded revised : bool)
    (req : Request) (b : built) : M W Response :=
  match fuel with
  | O => stuck
  | S fuel =>
      let! (resp, committed, err) := stream req in
      attribute (rq_Model req) start ;;
      match err, resp with
      | None, Some resp =>
          modify (fun r => r <| mark := length (transcript r) |> <| arrived := [] |>) ;;
          ret resp
      | None, None => fail (Sentinel ErrTruncatedStream)
      | Some err, _ =>
          match asStop err with
          | Some _ => guardStopped start resp err
          | None =>
              let! done := ctxDone in
              match done with
              | Some (_, cause) => fail (EStop ReasonAborted NoCause (Some cause) false)
              | None =>
                  if errIs err ErrGuard then guardRefused start req resp committed err
                  else
                    let fold := negb committed && negb folded && bool_decide (is_Some (cf_Transform (cfg env))) &&
                      isContextLengthExceeded env err in
                    let again :=
                      if committed || (MaxAttempts (cf_Retry (cfg env)) <=? attempt) ||
                         negb (retryable (cf_Retry (cfg env)) err)
                      then fail (Wrap "agentturn: model" err)
                      else
                        let delay := backoff (cf_Retry (cfg env)) attempt err in
                        let! (b, req, moved) := revise attempt err req b in
                        retry call delay err req ;;
                        let! woken := sleep delay in
                        match woken with
                        | Some _ => let! e := abortedStop in fail e
                        | None =>
                            attempts fuel tools start (call + 1) (attempt + 1) (folded || fold) (revised || moved) req b
                        end in
                    if fold
                    then
                      let! (next, nb) := foldedRequest tools req revised in
                      if sameItems (rq_Input next) (rq_Input req) then again
                      else retry call 0 err next ;; attempts fuel tools start (call + 1) attempt true revised next nb
                    else again
              end
          end
      end
  end.

(** [modelTurn]: the retry policy's attempts, and one more for a fold. *)
Definition modelTurn (tools : list Tool) : M W Response :=
  let! (req, b) := request tools in
  let! q := quarantined in
  emit (fun r => EvTurnStart {| ts_RunID := runID r; ts_Turn := turn r; ts_Request := req;
    ts_Inputs := drop (mark r `min` length (transcript r)) (transcript r); ts_Arrived := arrived r;
    ts_Quarantined := q |}) ;;
  let! r := get in
  attempts (Z.to_nat (MaxAttempts (cf_Retry (cfg env))) + 2) tools (length (transcript r)) 1 1 false false req b.

End Turn.
