(* ===== verification/Batch.v ===== *)
(** * Batch: the calls of a turn, or those a Resume approved, from their decisions
    to their outputs ([toolBatch], [approvedBatch] and what they use of [run.go]).

    A call's state is a value here; the functions that change it return it. A batch
    cut short has no state yet for the calls it did not reach, [None]. *)

From S2P Require Export Turn.

(** [callState]. [c_done] says whether a later call waits for this one, and then
    whether it is closed. [c_after] are positions in the batch. *)
Record callState := {
  c_call : callRef; c_tool : option Tool; c_args : raw; c_result : Result; c_err : option error;
  c_blocked : bool; c_settled : bool; c_deferred : bool; c_cut : bool; c_ended : bool; c_terminate : bool;
  c_dispatchErr : option error; c_parent : string; c_turn : Z; c_appended : bool; c_notes : list Note;
  c_reason : string; c_key : string; c_dispatched : bool; c_after : list nat; c_done : option bool }.
#[export] Instance eta_callState : Eta callState := fun r =>
  Build_callState (c_call r) (c_tool r) (c_args r) (c_result r) (c_err r) (c_blocked r) (c_settled r) (c_deferred r)
    (c_cut r) (c_ended r) (c_terminate r) (c_dispatchErr r) (c_parent r) (c_turn r) (c_appended r) (c_notes r)
    (c_reason r) (c_key r) (c_dispatched r) (c_after r) (c_done r).

Abbreviation batch := (list callState).

(** [errors.Is(e, target)]. *)
Fixpoint isError (e target : error) : bool :=
  bool_decide (e = target) ||
  match e with
  | Wrap _ e | WireError e => isError e target
  | Join e f => isError e target || isError f target
  | _ => false
  end.

Section Batch.
Context `{Externals} `{Tools} `{Accumulator} {W : Type} {env : Env W}.

(** [isCancellation], given the context's error and its cause. *)
Definition cancellation (err : option error) (done : option (error * error)) : bool :=
  match err, done with
  | Some e, Some (ctxErr, cause) => isError e ctxErr || isError e cause
  | _, _ => false
  end.

Definition isCancellation (err : option error) : M W bool := let! done := ctxDone in ret (cancellation err done).

(** [prepare]. *)
Definition prepare (tools : list Tool) (turn_ : Z) (c : callRef) (args : raw) : M W callState :=
  let! r := get in
  let args := match args with None => Some (Arguments (cr_call c)) | Some _ => args end in
  let args := if bool_decide (bytesOf args = "") then Some "{}" else args in
  ret {| c_call := c; c_tool := Lookup tools (Name (cr_call c)); c_args := args; c_result := noResult; c_err := None;
    c_blocked := false; c_settled := false; c_deferred := false; c_cut := false; c_ended := false; c_terminate := false;
    c_dispatchErr := None; c_parent := ""; c_turn := turn_; c_appended := false; c_notes := []; c_reason := "";
    c_key := runID r +:+ "/" +:+ callID c; c_dispatched := false; c_after := []; c_done := None |}.

(** [resolved]. *)
Definition resolved (p : callState) : M W unit :=
  match c_tool p with
  | None => ret tt
  | Some t => modify (fun r => r <| callTools ::= <[callID (c_call p) := t]> |>)
  end.

(** [finish]: the call as it ends, and whether a consumer failed on its tool_end. *)
Definition ended_ (p : callState) : callState :=
  let result := match c_err p with
    | Some e => (ErrorResult e) <| res_Terminate := res_Terminate (c_result p) |> <| res_Details := res_Details (c_result p) |>
    | None => c_result p
    end in
  p <| c_result := result <| res_Terminate := res_Terminate result || c_terminate p |> |> <| c_ended := true |>.

Definition toolEnd (p : callState) (r : runner) : event := EvToolEnd {|
  te_RunID := runID r; te_Turn := c_turn p; te_CallID := callID (c_call p); te_Name := Name (cr_call (c_call p));
  te_Result := c_result p; te_Err := c_err p; te_Blocked := c_blocked p; te_Deferred := false; te_Reason := c_reason p;
  te_Parent := c_parent p; te_Withdrawn := bool_decide (is_Some (c_dispatchErr p)); te_Cut := c_cut p;
  te_Replayed := false |}.

Definition finish (p : callState) : M W (callState * option error) :=
  let p := ended_ p in
  let! err := errOf (emit (toolEnd p)) in
  ret (p, err).

(** [settle]. *)
Definition settle (p : callState) : M W (callState * option error) :=
  let! judged :=
    match cf_AfterToolCall (cfg env) with
    | Some after =>
        if c_blocked p then ret (inl p)
        else
          let! r := get in
          let! out := try (call (fun h => after h {| tri_RunID := runID r; tri_Turn := c_turn p; tri_Call := c_call p;
            tri_Tool := c_tool p; tri_Args := c_args p; tri_Result := c_result p; tri_Err := c_err p |})) in
          ret (match out with
               | inr e => inr (Wrap "agentturn: after-tool-call hook" e)
               | inl (Some o) => inl (p <| c_result := ov_Result o |> <| c_err := ov_Err o |>)
               | inl None => inl p
               end)
    | None => ret (inl p)
    end in
  match judged with
  | inr e => ret (p, Some e)
  | inl p =>
      let! cut := isCancellation (c_err p) in
      finish (p <| c_cut ::= orb cut |>)
  end.

(** [check]; the name of an unknown tool is not quoted here. *)
Definition refusal (p : callState) : option error :=
  if c_blocked p then c_err p
  else match c_tool p with
  | None => Some (Errorf ("unknown tool " +:+ Name (cr_call (c_call p))))
  | Some _ =>
      if negb (validObject (c_args p)) then Some (Errorf "invalid arguments: expected a JSON object") else c_err p
  end.

Definition check (p : callState) : M W (callState * option error) :=
  let p := p <| c_err := refusal p |> in
  match c_err p with
  | None => ret (p, None)
  | Some e => settle (p <| c_settled := true |> <| c_result := ErrorResult e |>)
  end.

(** [decide]. *)
Definition decided_ (p : callState) (d : ToolDecision) (note : item) : callState :=
  let p := match td_Args d with Some a => p <| c_args := Some a |> | None => p end in
  let p := if negb (bool_decide (td_Note d = "")) && bool_decide (Action d = Allow)
    then p <| c_notes ::= fun ns => ns ++ [{| n_Item := note; n_Mode := InputTool; n_Trigger := noTrigger; n_CallID := "" |}] |>
    else p in
  let p := p <| c_terminate := td_Terminate d |> in
  let reason := if bool_decide (td_Reason d = "") then "call blocked" else td_Reason d in
  match Action d with
  | Block => p <| c_blocked := true |> <| c_err := Some (Errorf reason) |> <| c_reason := reason |>
  | Defer => p <| c_deferred := true |>
  | Allow => p
  end.

Definition decide_ (p : callState) (d : ToolDecision) : M W callState :=
  let! note := (if negb (bool_decide (td_Note d = "")) && bool_decide (Action d = Allow)
    then newMessage RoleDeveloper (td_Note d) else ret Nil) in
  let p := decided_ p d note in
  (if bool_decide (Action d = Defer)
   then modify (fun r => r <| deferred ::= <[callID (c_call p) := {| hc_args := c_args p; hc_decision := d |}]> |>)
   else ret tt) ;;
  ret p.

(** BeforeToolCall's answer for a call of the batch. *)
Definition askPolicy (p : callState) (calls : list callRef) (index : nat) : M W (option ToolDecision + error) :=
  match cf_BeforeToolCall (cfg env) with
  | None => ret (inl None)
  | Some before =>
      let! r := get in
      let! out := try (call (fun h => before h {| tci_RunID := runID r; tci_Turn := turn r; tci_Call := c_call p;
        tci_Tool := c_tool p; tci_Args := c_args p; tci_Batch := calls; tci_Index := Z.of_nat index; tci_Parent := "" |})) in
      ret (match out with inl d => inl d | inr e => inr (Wrap "agentturn: before-tool-call hook" e) end)
  end.

(** The tool_start of a call of the batch, then its tool_end when it is deferred and
    what [check] makes of it otherwise. *)
Definition startCall (p : callState) (d : option ToolDecision) : M W (callState * option error) :=
  let! err := errOf (emit (fun r => EvToolStart {| tst_RunID := runID r; tst_Turn := turn r;
    tst_CallID := callID (c_call p); tst_Name := Name (cr_call (c_call p)); tst_Args := c_args p; tst_Decision := d;
    tst_Parent := ""; tst_Invoked := None; tst_Replayed := false |})) in
  match err with
  | Some e => ret (p, Some e)
  | None =>
      if c_deferred p
      then
        let p := p <| c_settled := true |> <| c_ended := true |> in
        let! err := errOf (emit (fun r => EvToolEnd {| te_RunID := runID r; te_Turn := turn r;
          te_CallID := callID (c_call p); te_Name := Name (cr_call (c_call p)); te_Result := noResult; te_Err := None;
          te_Blocked := false; te_Deferred := true;
          te_Reason := match d with Some d => td_Reason d | None => "" end; te_Parent := "";
          te_Withdrawn := false; te_Cut := false; te_Replayed := false |})) in
        ret (p, err)
      else check p
  end.

(** [preflight]: no state before tool_start. *)
Definition preflight (tools : list Tool) (c : callRef) (calls : list callRef) (index : nat) :
    M W (option callState * option error) :=
  let! r := get in
  let! p := prepare tools (turn r) c None in
  resolved p ;;
  batchCall (callID c) ;;
  let! d := askPolicy p calls index in
  match d with
  | inr e => ret (None, Some e)
  | inl d =>
      let! p := match d with Some d => decide_ p d | None => ret p end in
      let! (p, err) := startCall p d in
      ret (Some p, err)
  end.

(** ** Ending a batch *)

(** A call ended with a failure that is not its own. *)
Definition cutWith (cause : error) (p : callState) : callState :=
  p <| c_settled := true |> <| c_cut := true |> <| c_err := Some cause |> <| c_result := noResult |>.

Definition finishCut (cause : error) (p : callState) : M W callState :=
  let! (p, _) := finish (cutWith cause p) in ret p.

Definition toolOutput (p : callState) : M W input :=
  let! a := fresh in
  ret (Plain (IOutput a {| OutID := ""; OutCallID := callID (c_call p); Output := res_Output (c_result p); OutStatus := "" |})).

(** The first loop of [appendFinished]: the outputs of the calls that finished, and
    whether every call of the batch did. *)
Fixpoint finishedOutputs (b : list (option callState)) : M W (list input * bool) :=
  match b with
  | [] => ret ([], true)
  | None :: b => let! (outs, _) := finishedOutputs b in ret (outs, false)
  | Some p :: b =>
      if negb (c_settled p) || c_deferred p || c_cut p
      then let! (outs, all) := finishedOutputs b in ret (outs, all && c_appended p)
      else if c_appended p then finishedOutputs b
      else
        let! cut := isCancellation (c_err p) in
        if cut : bool then let! (outs, _) := finishedOutputs b in ret (outs, false)
        else
          let! o := toolOutput p in
          let! (outs, all) := finishedOutputs b in
          ret (o :: outs, all)
  end.

Fixpoint holdBatch (b : list (option callState)) : M W unit :=
  match b with
  | [] => ret tt
  | None :: b => holdBatch b
  | Some p :: b => holdNotesOf (callID (c_call p)) (c_notes p) ;; holdBatch b
  end.

(** [appendFinished]. *)
Definition appendFinished (b : list (option callState)) : M W unit :=
  let! (outs, all) := finishedOutputs b in
  holdBatch b ;;
  holdStrays ;;
  notesHeld ;;
  appendItems outs InputTool ;;
  if all : bool then flushNotes else ret tt.

(** [failBatch]: the calls that have not ended are, with the failure. *)
Fixpoint failCalls (cause : error) (b : list (option callState)) : M W (list (option callState)) :=
  match b with
  | [] => ret []
  | None :: b => let! b := failCalls cause b in ret (None :: b)
  | Some p :: b =>
      let! p := (if c_ended p then ret p else finishCut cause p) in
      let! b := failCalls cause b in
      ret (Some p :: b)
  end.

Definition failBatch {A} (b : list (option callState)) (cause : error) : M W A :=
  let! b := failCalls cause b in
  let! _ := try (appendFinished b) in
  fail cause.

(** [abortBatch]: [first] is the first failure of a hook or a consumer. *)
Definition abortCall (cause : error) (first : option error) (p : callState) : M W (callState * option error) :=
  let p := p <| c_settled := true |> <| c_cut := true |> <| c_err := Some cause |> in
  match first with
  | Some _ => let! (p, _) := finish p in ret (p, first)
  | None =>
      let! (p, err) := settle p in
      match err with
      | None => ret (p, None)
      | Some e =>
          if c_ended p then ret (p, Some e)
          else let! (p, _) := finish p in ret (p, Some e)
      end
  end.

Fixpoint abortCalls (cause : error) (first : option error) (b : list (option callState)) :
    M W (list (option callState) * option error) :=
  match b with
  | [] => ret ([], first)
  | None :: b => let! (b, first) := abortCalls cause first b in ret (None :: b, first)
  | Some p :: b =>
      let! (p, first) := (if c_ended p then ret (p, first) else abortCall cause first p) in
      let! (b, first) := abortCalls cause first b in
      ret (Some p :: b, first)
  end.

Definition abortBatch {A} (b : list (option callState)) (cause : error) : M W A :=
  let! (b, first) := abortCalls cause None b in
  let! aerr := errOf (appendFinished b) in
  match first, aerr with
  | Some e, _ => fail e
  | None, Some e => fail e
  | None, None => fail (EStop ReasonAborted NoCause (Some cause) false)
  end.

(** [preflightAll]: [sofar] are the calls before, [rest] those to come. *)
Fixpoint preflightLoop (tools : list Tool) (calls : list callRef) (sofar : batch) (rest : list callRef) : M W batch :=
  match rest with
  | [] => ret sofar
  | c :: rest =>
      let! (p, err) := preflight tools c calls (length sofar) in
      match err with
      | Some e => failBatch (map Some sofar ++ p :: map (fun _ => None) rest) e
      | None =>
          match p with
          | Some p => preflightLoop tools calls (sofar ++ [p]) rest
          | None => ret sofar
          end
      end
  end.

Definition preflightAll (tools : list Tool) (calls : list callRef) : M W batch :=
  let! b := preflightLoop tools calls [] calls in
  let! done := ctxDone in
  match done with
  | Some (_, cause) => abortBatch (map Some b) cause
  | None => ret b
  end.

End Batch.
