(* ===== verification/Ask.v ===== *)
(** * Ask: a call put to whoever answers for the user, and what the answer decides ([Ask]
    and [clip] of [ask.go]; [noteElicitor] of [run.go]).

    An elicitor is a function of what the world shares: the call its context carries, if
    any, and the question, to an answer or an error. *)

From S2P Require Import Toy.
From S2P Require Export Nested.

(** What is read of an [agenttool.Answer]. *)
Inductive elicitAction := ActionAccept | ActionDecline | ActionOther.
Record elicited := { el_Action : elicitAction; el_By : string; el_Note : string }.
Definition elicitor (W : Type) : Type := option AskedCall -> string -> shared W -> (elicited + error) * shared W.

(** ** Words *)

(** Where a cut at [n] falls back to: [utf8.RuneStart]. *)
Fixpoint runeStart (s : string) (n : nat) : nat :=
  match n with
  | O => O
  | S m => match String.get n s with Some a => if continues a then runeStart s m else n | None => n end
  end.

(** [clip]. *)
Definition clip (s : string) (n : nat) : string :=
  if (String.length s <=? n)%nat then s else substring 0 (runeStart s n) s +:+ "…".

Definition maxAskedArgs : nat := 500.

Definition newline : string := String (ascii_of_nat 10) EmptyString.

Section Ask.
(** [%q], Go's quoting of another agent's name. *)
Context (quote : string -> string).

(** The question. *)
Definition askMessage (c : AskedCall) (d : ToolDecision) : string :=
  let args := clip (bytesOf (ac_Args c)) maxAskedArgs in
  let msg := if bool_decide (ac_Callee c = "") then "Allow " +:+ ac_Name c +:+ " with arguments " +:+ args +:+ "?"
    else "Allow agent " +:+ quote (ac_Callee c) +:+ " to run " +:+ ac_Name c +:+ " with arguments " +:+ args +:+ "?" in
  let reason := if bool_decide (ac_Callee c = "") || bool_decide (td_Reason d = "") then td_Reason d
    else "Agent " +:+ quote (ac_Callee c) +:+ " says: " +:+ td_Reason d in
  if bool_decide (reason = "") then msg else msg +:+ " " +:+ reason.

(** The decisions an accept and a decline make, the answer's note apart. *)
Definition accepted (by_ : string) (d : ToolDecision) : ToolDecision :=
  d <| td_By := by_ |> <| Action := Allow |>
    <| td_Reason := if bool_decide (td_Reason d = "") then "allowed when asked" else td_Reason d |>.

Definition declined (by_ note : string) (d : ToolDecision) : ToolDecision :=
  let reason :=
    if negb (bool_decide (td_DeclineText d = "")) then td_DeclineText d
    else if negb (bool_decide (td_Reason d = "")) then "declined when asked: " +:+ td_Reason d
    else "declined when asked" in
  d <| td_By := by_ |> <| Action := Block |>
    <| td_Reason := if bool_decide (note = "") then reason else reason +:+ "; " +:+ lowerFirst (saidBy by_ note) |>.

(** An accept's note with no run to hold it: the decision carries it. *)
Definition noted_ (by_ note : string) (d : ToolDecision) : ToolDecision :=
  d <| td_Note ::= fun n => (if bool_decide (n = "") then "" else n +:+ newline) +:+ saidBy by_ note |>.

Context `{Externals} {W : Type} {env : Env W}.

(** [noteElicitor]: [mine] says that no run inside this one has taken the question's note,
    [asking] is the call on the context. *)
Definition noteElicitor (elicit : elicitor W) (mine : bool) (asking : option string) (asked : option AskedCall) (q : string) :
    M W (elicited + error) :=
  let! ans := try (call (elicit asked q)) in
  match ans with
  | inr e => ret (inr e)
  | inl ans =>
      match knownDecider (el_By ans) with
      | Some e => ret (inr e)
      | None =>
          (if bool_decide (el_Note ans = "") || negb mine || bool_decide (is_Some asked) then ret tt
           else match asking with
           | Some id => let! i := answerNoteItem (el_Note ans) (el_By ans) in sayUnder i [id]
           | None => ret tt
           end) ;;
          ret (inl ans)
      end
  end.

(** [Ask]: [sink] says that the context carries a run to hold a note, and [asking] is the
    call on it, empty when there is none. *)
Definition Ask (elicit : option (option AskedCall -> string -> M W (elicited + error))) (sink : bool) (asking : string)
    (c : AskedCall) : M W (option ToolDecision) :=
  match elicit with
  | None => ret None
  | Some elicit =>
      let! d := orPanic (ac_Decision c) in
      let! ans := elicit (Some c) (askMessage c d) in
      match ans with
      | inr _ => ret None
      | inl ans =>
          match knownDecider (el_By ans) with
          | Some _ => ret None
          | None =>
              let by_ := if bool_decide (el_By ans = "") then "human" else el_By ans in
              match el_Action ans with
              | ActionAccept =>
                  if bool_decide (el_Note ans = "") then ret (Some (accepted by_ d))
                  else if sink && bool_decide (ac_Callee c = "")
                  then
                    adopt (ac_CallID c) (ac_Parent c) ;;
                    let! i := answerNoteItem (el_Note ans) by_ in
                    sayUnder i [ac_CallID c; ac_Parent c; asking] ;;
                    ret (Some (accepted by_ d))
                  else ret (Some (noted_ by_ (el_Note ans) (accepted by_ d)))
              | ActionDecline => ret (Some (declined by_ (el_Note ans) d))
              | ActionOther => ret None
              end
          end
      end
  end.

End Ask.

(** A question never quotes more than 500 bytes of the arguments and the mark that they
    were cut, and quotes the beginning of them. *)
Lemma runeStart_le s n : (runeStart s n <= n)%nat.
Proof.
  induction n as [|n IH]; [done|]. cbn [runeStart]. destruct (String.get (S n) s); [|done].
  destruct (continues a); [lia|done].
Qed.

Lemma clip_beginning s n :
  clip s n = s \/ exists k, (k <= n)%nat /\ clip s n = substring 0 k s +:+ "…" /\
    (k = 0%nat \/ exists a, String.get k s = Some a /\ continues a = false).
Proof.
  unfold clip. destruct (Nat.leb_spec (String.length s) n) as [Hle|Hlt]; [by left|right].
  exists (runeStart s n). split; [apply runeStart_le|]. split; [done|].
  assert (forall m, (m < String.length s)%nat -> exists a, String.get m s = Some a) as Hget.
  { intros m. revert s Hlt. clear. intros s _. revert m. induction s as [|c s IH]; intros [|m] Hm; cbn in *; try lia; [by eexists|].
    apply IH. lia. }
  revert Hlt. induction n as [|n IH]; intros Hlt; [by left|]. cbn [runeStart]. destruct (Hget (S n) Hlt) as [a Ha]. rewrite Ha.
  destruct (continues a) eqn:E; [apply IH; lia|]. right. by exists a.
Qed.
