(* ===== verification/Execute.v ===== *)
(** * Execute: a batch run by the executor of tools, and its outputs appended
    ([execute], [executor], [collect], [toolBatch], [approvedBatch] of [run.go]).

    The steps of the executor and of the loop's goroutine are interleaved as the
    environment's schedule says, a start callback running between two steps of the
    loop. *)

From S2P Require Export Nested.

(** What [execute] keeps while the executor runs: the batch, the failure, whether it
    was the after-call hook's, and what the batch's context was cancelled with, [None]
    while only the run's may have been. *)
Record running := { x_batch : batch; x_failed : option error; x_hookFailed : bool; x_cancelled : option (error * error) }.
#[export] Instance eta_running : Eta running := fun r =>
  Build_running (x_batch r) (x_failed r) (x_hookFailed r) (x_cancelled r).

(** The positions of the calls preflight did not settle: [jobIndex]. *)
Fixpoint unsettled (b : batch) (n : nat) : list nat :=
  match b with
  | [] => []
  | p :: b => (if c_settled p then [] else [n]) ++ unsettled b (S n)
  end.

(** The last of [at_] whose call has the ID: [byID[id]]. *)
Fixpoint lastWithID (b : batch) (id : string) (at_ : list nat) : option nat :=
  match at_ with
  | [] => None
  | i :: at_ =>
      match lastWithID b id at_ with
      | Some i => Some i
      | None => match b !! i with Some p => if bool_decide (callID (c_call p) = id) then Some i else None | None => None end
      end
  end.

(** [p.after] and [p.done], from the jobs the executor runs each job after. *)
Definition waitFor (at_ : list nat) (j : nat) (b : batch) (k : nat) : batch :=
  match at_ !! j, at_ !! k with
  | Some p, Some prev =>
      alter (fun p => p <| c_after ::= fun l => l ++ [prev] |>) p
        (alter (fun q => q <| c_done := Some (default false (c_done q)) |>) prev b)
  | _, _ => b
  end.

Fixpoint linkJobs (at_ : list nat) (pre : list (list nat)) (j : nat) (b : batch) : batch :=
  match pre with
  | [] => b
  | ks :: pre => linkJobs at_ pre (S j) (foldl (waitFor at_ j) b ks)
  end.

Section Execute.
Context `{Externals} `{Tools} `{Accumulator} {W : Type} {env : Env W}.

(** The batch's context: [bctx.Err()] with its cause. *)
Definition bctxDone (x : running) : M W (option (error * error)) :=
  match x_cancelled x with Some c => ret (Some c) | None => ctxDone end.

(** [cancel(err)], which a context done already ignores. *)
Definition cancelWith (err : error) (x : running) : M W running :=
  let! done := ctxDone in
  ret (match x_cancelled x, done with
       | None, None => x <| x_cancelled := Some (Sentinel Canceled, err) |>
       | _, _ => x
       end).

Definition fails (err : error) (x : running) : M W running := cancelWith err (x <| x_failed := Some err |>).

Definition setCall (i : nat) (p : callState) (x : running) : running := x <| x_batch ::= <[i := p]> |>.

(** The start callback, for the call at position [i]. *)
Definition onStart (i : nat) (x : running) : M W (running * started) :=
  match x_batch x !! i with
  | None => ret (x, StartOk)
  | Some p =>
      let! done := (match c_after p with [] => ret None | _ => bctxDone x end) in
      match done with
      | Some (e, _) => ret (x, StartRefused e)
      | None =>
          if forallb (fun k => match x_batch x !! k with Some q => default false (c_done q) | None => true end) (c_after p)
          then
            let! err := errOf (emit (fun r => EvToolDispatch {| tdi_RunID := runID r; tdi_Turn := c_turn p;
              tdi_CallID := callID (c_call p); tdi_Name := Name (cr_call (c_call p)); tdi_Parent := c_parent p;
              tdi_IdempotencyKey := c_key p |})) in
            ret (setCall i (p <| c_dispatchErr := err |> <| c_dispatched := bool_decide (err = None) |>) x,
                 match err with None => StartOk | Some e => StartRefused e end)
          else ret (x, StartWaits)
      end
  end.

(** [markUndispatched] and [markDispatched]. *)
Definition markUndispatched (p : callState) : M W unit :=
  modify (fun r => r <| undispatched ::= union {[ callID (c_call p) ]} |>).
Definition markDispatched (p : callState) : M W unit :=
  modify (fun r => r <| dispatched ::= <[callID (c_call p) := {| ho_key := c_key p; ho_args := c_args p |}]> |>).

(** A last event once the batch has failed: a result of the call's own goes through
    the hook, and is cut if the hook refuses it too. *)
Definition drainEvent (p : callState) (ev : jobEvent) (x : running) : M W callState :=
  (if ev_Final ev && bool_decide (is_Some (c_dispatchErr p)) then markUndispatched p else ret tt) ;;
  let! done := bctxDone x in
  if negb (ev_Final ev) || cancellation (ev_Err ev) done || x_hookFailed x || bool_decide (is_Some (c_dispatchErr p))
  then ret p
  else
    let p := p <| c_result := ev_Result ev |> <| c_err := ev_Err ev |> <| c_settled := true |> in
    let! (p, err) := settle p in
    match err with
    | None => ret p
    | Some e =>
        if c_ended p then ret p
        else
          let! (p, _) := finish (p <| c_cut := true |> <| c_err := Some e |> <| c_result := noResult |>) in
          ret p
    end.

(** [step], for the call [p] at position [i]. *)
Definition step (i : nat) (p : callState) (ev : jobEvent) (x : running) : M W running :=
  match x_failed x with
  | Some _ => let! p := drainEvent p ev x in ret (setCall i p x)
  | None =>
      if negb (ev_Final ev)
      then
        let! err := errOf (emit (fun r => EvToolUpdate {| tu_RunID := runID r; tu_Turn := turn r;
          tu_CallID := callID (c_call p); tu_Name := Name (cr_call (c_call p)); tu_Partial := ev_Result ev |})) in
        match err with None => ret x | Some e => fails e x end
      else
        match c_dispatchErr p with
        | Some e => markUndispatched p ;; fails e x
        | None =>
            let! (p, err) := settle (p <| c_result := ev_Result ev |> <| c_err := ev_Err ev |> <| c_settled := true |>) in
            let x := setCall i p x in
            match err with
            | None => ret x
            | Some e => fails e (x <| x_hookFailed := negb (c_ended p) |>)
            end
        end
  end.

(** [close(p.done)], when a later call waits for it. *)
Definition closeDone (ev : jobEvent) (i : nat) (x : running) : running :=
  if ev_Final ev
  then x <| x_batch ::= alter (fun p => p <| c_done ::= fmap (fun _ => true) |>) i |>
  else x.

(** The range over the executor's events; [at_] is [jobIndex]. *)
Fixpoint executeLoop (at_ : list nat) (jobs : list Job) (t : exec W) (x : running) : M W running :=
  match t with
  | XDrained => ret x
  | XStart advance j rest =>
      move advance ;;
      let! (x, st) :=
        match jobs !! j ≫= fun job => lastWithID (x_batch x) (call_ID (j_Call job)) at_ with
        | Some i => onStart i x
        | None => ret (x, StartOk)
        end in
      let! h := shares in
      executeLoop at_ jobs (rest h st) x
  | XEvent advance j ev rest =>
      move advance ;;
      let! x :=
        match at_ !! j with
        | Some i =>
            match x_batch x !! i with
            | Some p => let! x := step i p ev x in ret (closeDone ev i x)
            | None => ret x
            end
        | None => ret x
        end in
      let! h := shares in
      executeLoop at_ jobs (rest h (bool_decide (is_Some (x_failed x)))) x
  end.

Definition jobOf (p : callState) : Job :=
  {| j_Tool := default 1%positive (c_tool p);
     j_Call := {| call_ID := callID (c_call p); call_Args := c_args p; call_Key := c_key p |} |}.

Fixpoint markBatch (b : batch) : M W unit :=
  match b with
  | [] => ret tt
  | p :: b => (if c_dispatched p then markDispatched p else ret tt) ;; markBatch b
  end.

(** [execute]. *)
Definition execute (b : batch) : M W batch :=
  let at_ := unsettled b 0 in
  let jobs := map jobOf (omap (fun i => b !! i) at_) in
  let b := linkJobs at_ (Preceding env jobs) 0 b in
  let! h := shares in
  let! x := executeLoop at_ jobs (Execute env jobs h)
    {| x_batch := b; x_failed := None; x_hookFailed := false; x_cancelled := None |} in
  markBatch (x_batch x) ;;
  match x_failed x with
  | Some e => failBatch (map Some (x_batch x)) e
  | None =>
      let! done := ctxDone in
      match done with
      | Some (_, cause) =>
          appendFinished (map Some (x_batch x)) ;;
          fail (EStop ReasonAborted NoCause (Some cause) false)
      | None => ret (x_batch x)
      end
  end.

(** [collect]: the outputs of the calls that are not deferred, and those that are. *)
Fixpoint batchOutputs (b : batch) : M W (list input) :=
  match b with
  | [] => ret []
  | p :: b =>
      if c_deferred p then batchOutputs b
      else let! o := toolOutput p in let! os := batchOutputs b in ret (o :: os)
  end.

Definition deferredCalls (b : batch) : list callRef := map c_call (filter (fun p => c_deferred p = true) b).

Definition collect (b : batch) : M W (list Result * list callRef) :=
  let! outs := batchOutputs b in
  holdBatch (map Some b) ;;
  holdStrays ;;
  notesHeld ;;
  appendItems outs InputTool ;;
  (match deferredCalls b with [] => flushNotes | _ => ret tt end) ;;
  ret (map c_result b, deferredCalls b).

(** What [toolContext] reads for the tools: the transcript under the quarantine. *)
Definition toolContext : M W unit := let! r := get in applyQuarantine (transcript r) ;; ret tt.

(** [toolBatch]. *)
Definition toolBatch (tools : list Tool) (cs : list callRef) : M W (list Result * list callRef) :=
  match cs with
  | [] => ret ([], [])
  | _ =>
      toolContext ;;
      let! b := preflightAll tools cs in
      let! b := execute b in
      collect b
  end.

(** [approvedBatch]: one approved call, from its state to its tool_start. *)
Definition approvalNote (text : string) (i : M W item) : M W (list Note) :=
  if bool_decide (text = "") then ret []
  else let! i := i in ret [{| n_Item := i; n_Mode := InputTool; n_Trigger := noTrigger; n_CallID := "" |}].

Definition approve (tools : list Tool) (cs : list callRef) (index : nat) (ap : approval) :
    M W (option callState * option error) :=
  let! r := get in
  let! p := prepare tools (turn r) (ap_call ap) (ap_args ap) in
  resolved p ;;
  batchCall (callID (ap_call ap)) ;;
  modify (fun r => r <| approved ::= union {[ callID (ap_call ap) ]} |>) ;;
  let p := if bool_decide (ap_key ap = "") then p else p <| c_key := ap_key ap |> in
  expect (ap_nested ap) ;;
  let! own := approvalNote (ap_note ap) (answerNoteItem (ap_note ap) (ap_by ap)) in
  let! held := approvalNote (ap_held ap) (newMessage RoleDeveloper (ap_held ap)) in
  let p := p <| c_notes := own ++ held |> in
  let given := {| Action := Allow; td_Reason := ap_reason ap; td_Terminate := false; td_Args := ap_args ap;
    td_By := ap_by ap; td_Note := ap_note ap; td_Held := false; td_Subject := ""; td_DeclineText := "" |} in
  let! d := (if ap_decide ap then askPolicy p cs index else ret (inl None)) in
  match d with
  | inr e => ret (None, Some e)
  | inl d =>
      let! p := match d with Some d => decide_ p d | None => ret p end in
      let! (p, err) := startCall p (Some (default given d)) in
      ret (Some p, err)
  end.

Fixpoint approveLoop (tools : list Tool) (cs : list callRef) (sofar : batch) (rest : list approval) : M W batch :=
  match rest with
  | [] => ret sofar
  | ap :: rest =>
      let! (p, err) := approve tools cs (length sofar) ap in
      match err with
      | Some e => failBatch (map Some sofar ++ p :: map (fun _ => None) rest) e
      | None =>
          match p with
          | Some p => approveLoop tools cs (sofar ++ [p]) rest
          | None => ret sofar
          end
      end
  end.

Definition approvedBatch (aps : list approval) : M W (list Result * list callRef) :=
  let! tools := ask (ResolveTools (cfg env)) in
  toolContext ;;
  let! b := approveLoop tools (map ap_call aps) [] aps in
  let! done := ctxDone in
  match done with
  | Some (_, cause) => abortBatch (map Some b) cause
  | None => let! b := execute b in collect b
  end.

End Execute.
