(* ===== verification/Loop.v ===== *)
(** * Loop: a run, from its prompts to its run_end ([run], [loop], [pending] of
    [run.go]). *)

From stdpp Require Import pretty.
From S2P Require Export Execute.

Section Loop.
Context `{Externals} `{Tools} `{Accumulator} {W : Type} {env : Env W}.

(** ** The pending calls of a run's end *)

(** [prior[id]]: the last the agent knew of the call. *)
Definition priorOf (id : string) : option PendingCall := lastKnown id (prior env).

(** The calls among the items of this run. *)
Definition isMine (r : runner) (c : callRef) : bool := bool_decide (c ∈ calls (added r)).

(** What the agent knew, kept as it was. *)
Definition asBefore (p before : PendingCall) : PendingCall :=
  p <| p_Reason := p_Reason before |> <| p_Dispatched := p_Dispatched before |>
    <| p_IdempotencyKey := p_IdempotencyKey before |> <| p_Args := p_Args before |> <| p_Ran := p_Ran before |>
    <| p_RanWhere := p_RanWhere before |> <| p_Decision := p_Decision before |> <| p_Question := p_Question before |>.

(** The arguments a call was held or handed over with, when not its own. *)
Definition otherArgs (args : raw) (c : callRef) : raw :=
  if sameArgs args (orEmpty None (Arguments (cr_call c))) then None else args.

(** The switch of [pending], and what follows it for one call. *)
Definition reasoned (r : runner) (c : callRef) : PendingCall :=
  let id := callID c in
  let p := (newPending c PendingUnknown) <| p_Tool := callTools r !! id |> in
  match deferred r !! id, dispatched r !! id, priorOf id with
  | Some held, _, _ =>
      p <| p_Reason := PendingDeferred |> <| p_Decision := Some (hc_decision held) |>
        <| p_Args := match hc_args held with Some _ => otherArgs (hc_args held) c | None => None end |>
  | None, Some h, _ =>
      p <| p_Reason := PendingAborted |> <| p_IdempotencyKey := ho_key h |> <| p_Args := otherArgs (ho_args h) c |>
  | None, None, Some b =>
      if MayHaveRun b
      then
        let p := asBefore p b in
        if bool_decide (p_Reason b = PendingDeferred) && bool_decide (id ∈ approved r)
        then p <| p_Reason := PendingAborted |> <| p_Dispatched := false |> <| p_Decision := None |>
        else p
      else if bool_decide (id ∈ undispatched r) || isMine r c || bool_decide (id ∈ approved r)
      then p <| p_Reason := PendingUndispatched |>
      else asBefore p b
  | None, None, None =>
      if bool_decide (id ∈ undispatched r) || isMine r c || bool_decide (id ∈ approved r)
      then p <| p_Reason := PendingUndispatched |>
      else p
  end.

Definition pendingOne (r : runner) (c : callRef) : PendingCall :=
  let p := reasoned r c in
  let before := priorOf (callID c) in
  p <| p_Tool ::= fun tool => match tool with Some t => Some t | None => before ≫= p_Tool end |>
    <| p_Nested := nestedOf r (callID c) (match before with Some b => p_Nested b | None => [] end) |>.

(** [pending]: the notes still waiting go with the last. *)
Definition pending (r : runner) : list PendingCall :=
  let ps := map (pendingOne r) (unansweredCalls (transcript r)) in
  alter (fun p => p <| p_Notes := notes r |>) (length ps - 1)%nat ps.

(** ** The loop *)

(** The outputs a prompt opens with, and the rest. *)
Definition splitAnswers (prompts : list input) : list input * list input :=
  span (fun i => match (Unhide i).1 with IOutput _ _ => true | _ => false end) prompts.

(** One answer: its note is reported held before its output is appended, and stays
    held only if the output went in. *)
Definition answerNotes (id : string) (trig : Trigger) : list Note :=
  map (fun n => {| n_Item := an_item n; n_Mode := InputResume; n_Trigger := trig; n_CallID := id |})
    (filter (fun n => an_callID n = id) (resumeNotes env)).

Definition answerID (i : input) : string := match (Unhide i).1 with IOutput _ o => OutCallID o | _ => "" end.

Definition appendAnswer (onAnswers : Trigger) (i : input) : M W unit :=
  let! r := get in
  let held := notes r in
  holdAll (answerNotes (answerID i) (trigger env)) ;;
  let! err := errOf notesHeld in
  match err with
  | Some e => modify (fun r => r <| notes := held |>) ;; fail e
  | None =>
      let! r := get in
      let! err := errOf (appendOne i InputResume noTrigger onAnswers) in
      let! r' := get in
      (if (length (transcript r') =? length (transcript r))%nat then modify (fun r => r <| notes := held |>) else ret tt) ;;
      raise err
  end.

Fixpoint appendAnswers (onAnswers : Trigger) (answers : list input) : M W unit :=
  match answers with
  | [] => ret tt
  | i :: answers => appendAnswer onAnswers i ;; appendAnswers onAnswers answers
  end.

(** What the run begins with, before its first turn. *)
Definition runStart (prompts : list input) (aps : list approval) (r : runner) : event :=
  EvRunStart {| rs_RunID := runID r; rs_Source := source (transcript r) prompts (length aps);
    rs_Trigger := trigger env |}.

Definition begin_ (prompts : list input) (aps : list approval) (terminate : bool) : M W unit :=
  let (answers, others) := splitAnswers prompts in
  let onAnswers := if resuming env then noTrigger else trigger env in
  let rest := if resuming env then InputResume else InputPrompt in
  let onRest := if resuming env then noTrigger else trigger env in
  modify (fun r => r <| reported := notes r |>) ;;
  appendAnswers onAnswers answers ;;
  (match aps with [] => flushNotes | _ => ret tt end) ;;
  appendWith others rest onRest (trigger env) ;;
  match aps with
  | [] =>
      if terminate then ret tt
      else let! queued := drain (steer env) in appendArrived queued
  | _ =>
      let! (results, deferred) := approvedBatch aps in
      match deferred with
      | _ :: _ => ending ;; fail (EStop ReasonInputRequired NoCause None false)
      | [] =>
          let (cause, ended) := terminates results in
          if ended && negb terminate then fail (EStop ReasonStopped cause None false)
          else let! queued := drain (steer env) in appendArrived queued
      end
  end.

(** BeforeTurn, and the items it adds. *)
Definition beforeTurn : M W unit :=
  match cf_BeforeTurn (cfg env) with
  | None => ret tt
  | Some before =>
      let! r := get in
      let! out := try (call (fun h => before h {| tsi_RunID := runID r; tsi_Turn := turn r;
        tsi_Transcript := transcript r; tsi_Inputs := arrived r |})) in
      match out with
      | inr e =>
          if errIs e ErrGuard then fail (EStop ReasonStopped StopGuard (Some e) false)
          else fail (Wrap "agentturn: before-turn hook" e)
      | inl items => appendItems items InputHook
      end
  end.

(** The tools of a turn: a provided list is checked. *)
Definition turnTools : M W (list Tool) :=
  let! tools := ask (ResolveTools (cfg env)) in
  match cf_ToolProvider (cfg env) with
  | None => ret tools
  | Some _ =>
      match ValidateTools tools with
      | Some e =>
          let! r := get in
          fail (Wrap ("agentturn: turn " +:+ pretty (turn r) +:+ ": tool provider") e)
      | None => ret tools
      end
  end.

(** ShouldStopAfterTurn, and the stop it makes. *)
Definition shouldStop (resp : Response) (results : list Result) (final : bool) : M W unit :=
  match cf_ShouldStopAfterTurn (cfg env) with
  | None => ret tt
  | Some should =>
      let! r := get in
      let! out := try (call (fun h => should h {| tif_RunID := runID r; tif_Turn := turn r; tif_Response := resp;
        tif_ToolResults := results; tif_Final := final; tif_Transcript := transcript r |})) in
      match out with
      | inr e =>
          ending ;;
          if errIs e ErrGuard then fail (EStop ReasonStopped StopGuard (Some e) false)
          else fail (Wrap "agentturn: should-stop-after-turn hook" e)
      | inl true => ending ;; fail (EStop ReasonStopped StopHook None false)
      | inl false => ret tt
      end
  end.

(** What follows a turn, decided before the queues are drained: whether another
    turn does. *)
Definition afterTurn (resp : Response) (results : list Result) (deferred : list callRef) (final : bool) : M W bool :=
  match deferred with
  | _ :: _ => ending ;; fail (EStop ReasonInputRequired NoCause None false)
  | [] =>
      shouldStop resp results final ;;
      let (cause, ended) := terminates results in
      if ended then ending ;; fail (EStop ReasonStopped cause None false)
      else
        let! r := get in
        if (0 <? cf_MaxTurns (cfg env)) && (cf_MaxTurns (cfg env) <=? turn r)
        then
          let! waiting := ending in
          if negb final || waiting then fail (EStop ReasonStopped StopMaxTurns None false)
          else ret false
        else
          let! queued := (if final then drainLast else drain (steer env)) in
          if final && bool_decide (queued = []) then ret false
          else appendArrived queued ;; ret true
  end.

(** One turn: whether another follows it. *)
Definition oneTurn : M W bool :=
  let! done := ctxDone in
  match done with
  | Some (_, cause) => fail (EStop ReasonAborted NoCause (Some cause) false)
  | None =>
      modify (fun r => r <| turn ::= Z.succ |>) ;;
      beforeTurn ;;
      let! tools := turnTools in
      let! resp := modelTurn tools in
      let cs := FunctionCalls resp in
      let! (results, deferred) := toolBatch tools cs in
      emit (fun r => EvTurnEnd {| tn_RunID := runID r; tn_Turn := turn r; tn_Response := resp; tn_ToolResults := results |}) ;;
      afterTurn resp results deferred (bool_decide (cs = []))
  end.

(** The turns, at most [fuel] of them. *)
Fixpoint turns (fuel : nat) : M W unit :=
  match fuel with
  | O => stuck
  | S fuel => let! more := oneTurn in if more : bool then turns fuel else ret tt
  end.

(** [loop]. *)
Definition loop (fuel : nat) (prompts : list input) (aps : list approval) (terminate : bool) : M W unit :=
  emit (runStart prompts aps) ;;
  begin_ prompts aps terminate ;;
  if terminate then fail (EStop ReasonStopped StopRefused None false) else turns fuel.

(** How the run ended: [end.Reason], [Cause], [Err], [Failure] and [Withheld]. *)
Record outcome := { oc_Reason : Reason; oc_Cause : StopCause; oc_Err : option error; oc_Failure : option error;
  oc_Withheld : bool }.

Definition conclude (err : option error) (done : option (error * error)) : outcome :=
  match err with
  | None => {| oc_Reason := ReasonDone; oc_Cause := NoCause; oc_Err := None; oc_Failure := None; oc_Withheld := false |}
  | Some e =>
      match asStop e with
      | Some (reason, cause, err, withheld) =>
          {| oc_Reason := reason; oc_Cause := cause; oc_Err := err; oc_Failure := None; oc_Withheld := withheld |}
      | None =>
          match done with
          | Some (_, cause) =>
              if isError e cause
              then {| oc_Reason := ReasonAborted; oc_Cause := NoCause; oc_Err := Some cause; oc_Failure := None;
                      oc_Withheld := false |}
              else {| oc_Reason := ReasonAborted; oc_Cause := NoCause; oc_Err := Some (Join cause e);
                      oc_Failure := Some e; oc_Withheld := false |}
          | None => {| oc_Reason := ReasonError; oc_Cause := NoCause; oc_Err := Some e; oc_Failure := None;
                       oc_Withheld := false |}
          end
      end
  end.

(** The state a run starts in, from what the caller gave its runner. *)
Definition startRun : M W unit :=
  let! r := get in
  (if bool_decide (runID r = "")
   then let! id := ask (NewID env "run") in modify (fun r => r <| runID := id |>)
   else ret tt) ;;
  modify (fun r => r <| mark := length (transcript r) |> <| arrived := continuedInputs (transcript r) |>
    <| ctxReserved := ctxReserved_ env |>).

(** The [RunEnd] of a run whose loop returned [err]. *)
Definition runEnd (err : option error) : M W RunEnd :=
  let! done := (match err with
    | Some e => match asStop e with None => ctxDone | Some _ => ret None end
    | None => ret None
    end) in
  let oc := conclude err done in
  ending ;;
  let! q := quarantined in
  let! r := get in
  let ps := pending r in
  ret {| re_ID := runID r; re_Items := added r; re_Reason := oc_Reason oc; re_Cause := oc_Cause oc; re_Err := oc_Err oc;
         re_Failure := oc_Failure oc; re_Pending := ps; re_Notes := if bool_decide (ps = []) then notes r else [];
         re_Quarantined := q; re_WithheldMsg := oc_Withheld oc |}.

(** [run]: nothing a consumer says of the run_end changes it. *)
Definition run (fuel : nat) (prompts : list input) (aps : list approval) (terminate : bool) : M W RunEnd :=
  startRun ;;
  let! err := errOf (loop fuel prompts aps terminate) in
  let! e := runEnd err in
  let! _ := try (emit (fun _ => EvRunEnd e)) in
  ret e.

End Loop.
