(* ===== verification/Logic.v ===== *)
(** * Logic: what a property of every step of a run needs to be checked of.

    A property of programs that holds of the monad's operations, of a step of the
    world, of a change to the run's state that keeps what the run is known by, and of
    the events sent, holds of every function of the run: [RunLogic] lists the cases
    for the functions that start or end no call and no turn, [ToolLogic] adds the
    tool events, [RetryLogic] the retries and [TurnLogic] the turns. A theorem about a whole run gives an
    instance of these rather than going through the functions again. *)

From S2P Require Export Loop.

(** The run an event names, and the item of an item_end. *)
Definition eventRun (ev : event) : string :=
  match ev with
  | EvRunStart e => rs_RunID e | EvTurnStart e => ts_RunID e | EvModelRetry e => mr_RunID e
  | EvModelBlocked e => mb_RunID e | EvItemStart e => is_RunID e | EvItemUpdate e => iu_RunID e
  | EvItemEnd e => ie_RunID e | EvResponseEnd e => re_RunID e | EvToolStart e => tst_RunID e
  | EvToolDispatch e => tdi_RunID e | EvToolUpdate e => tu_RunID e | EvToolEnd e => te_RunID e
  | EvTurnEnd e => tn_RunID e | EvRunEnd e => re_ID e | EvNotesHeld e => nh_RunID e
  | EvQueued e => qd_RunID e | EvQuarantineAdded _ => ""
  end.

Definition endedItem (ev : event) : option item := match ev with EvItemEnd e => Some (ie_Item e) | _ => None end.
Definition endedItems (l : list event) : Items := omap endedItem l.

(** An event a run sends between its run_start and its run_end. *)
Definition inner (id : string) (ev : event) : Prop :=
  eventRun ev = id /\
  match ev with EvRunStart _ | EvRunEnd _ | EvQueued _ | EvQuarantineAdded _ => False | _ => True end.

(** The kinds of events a property may have to tell apart. *)
Inductive eventKind := KTurnStart | KModelRetry | KToolStart | KToolEnd | KItemEnd | KOther.
#[export] Instance eventKind_eq_dec : EqDecision eventKind.
Proof. solve_decision. Defined.
Definition kindOf (ev : event) : eventKind :=
  match ev with
  | EvTurnStart _ => KTurnStart | EvModelRetry _ => KModelRetry | EvToolStart _ => KToolStart | EvToolEnd _ => KToolEnd | EvItemEnd _ => KItemEnd
  | _ => KOther
  end.

(** An event of the run, of kind [k], whatever its state. *)
Definition sends (k : eventKind) (f : runner -> event) : Prop := forall r, inner (runID r) (f r) /\ kindOf (f r) = k.

(** A change to the run's state that keeps its ID, its transcript, its items and its
    turn. *)
Definition frames (f : runner -> runner) : Prop :=
  forall r, runID (f r) = runID r /\ transcript (f r) = transcript r /\ added (f r) = added r /\ turn (f r) = turn r.

(** An item_end of the run for the item [i]. *)
Definition endsItem (i : item) (f : runner -> ItemEnd) : Prop := forall r, ie_RunID (f r) = runID r /\ ie_Item (f r) = i.

(** ** What a run asks of the world

    [asked f]: [f] is one of the functions of the environment a run calls: the queues,
    the context, a hook of the configuration, a step of the model's stream or of the
    executor, or what it does itself to what it shares, a new address. *)
Inductive occurs {W : Type} : wire W -> (shared W -> shared W) -> Prop :=
| occurs_here adv x rest : occurs (WNext adv x rest) adv
| occurs_later adv x rest h f : occurs (rest h) f -> occurs (WNext adv x rest) f.

Inductive executes {W : Type} : exec W -> (shared W -> shared W) -> Prop :=
| executes_start adv j rest : executes (XStart adv j rest) adv
| executes_event adv j ev rest : executes (XEvent adv j ev rest) adv
| executes_started adv j rest h st f : executes (rest h st) f -> executes (XStart adv j rest) f
| executes_later adv j ev rest h b f : executes (rest h b) f -> executes (XEvent adv j ev rest) f.

Inductive asked {W : Type} (env : Env W) : forall A, (shared W -> A * shared W) -> Prop :=
| A_fresh : asked env ptr (fun h => (next h, h <| next ::= Pos.succ |>))
| A_next n : asked env unit (fun h => (tt, h <| next := n |>))
| A_shares : asked env (shared W) (fun h => (h, h))
| A_ctxErr : asked env _ (ctxErr env)
| A_timer d : asked env _ (timer env d)
| A_NewID prefix : asked env _ (NewID env prefix)
| A_steer q : steer env = Some q -> asked env _ q
| A_followUp q : followUp env = Some q -> asked env _ q
| A_last q : last_ env = Some q -> asked env _ q
| A_closing q : closing env = Some q -> asked env _ q
| A_wire req h f : occurs (Events env req h) f -> asked env _ (fun h => (tt, f h))
| A_exec jobs h f : executes (Execute env jobs h) f -> asked env _ (fun h => (tt, f h))
| A_tools : asked env _ (ResolveTools (cfg env))
| A_BeforeTurn f i : cf_BeforeTurn (cfg env) = Some f -> asked env _ (fun h => f h i)
| A_BeforeModelCall f req : cf_BeforeModelCall (cfg env) = Some f ->
    asked env _ (fun h => let '(err, edited, h) := f h req in ((err, edited), h))
| A_OutputGuard f i : cf_OutputGuard (cfg env) = Some f -> asked env _ (fun h => f h i)
| A_Transform f i : cf_Transform (cfg env) = Some f -> asked env _ (fun h => f h i)
| A_Revise f n req err : Revise (cf_Retry (cfg env)) = Some f ->
    asked env _ (fun h => let '(out, edited, h) := f h n req err in ((out, edited), h))
| A_BeforeToolCall f i : cf_BeforeToolCall (cfg env) = Some f -> asked env _ (fun h => f h i)
| A_AfterToolCall f i : cf_AfterToolCall (cfg env) = Some f -> asked env _ (fun h => f h i)
| A_ShouldStop f i : cf_ShouldStopAfterTurn (cfg env) = Some f -> asked env _ (fun h => f h i).
Arguments asked {W env A} f.

Ltac asks :=
  first [ assumption | exact (A_fresh _) | exact (A_next _ _) | exact (A_shares _) | exact (A_ctxErr _) | exact (A_timer _ _)
        | exact (A_NewID _ _) | exact (A_tools _)
        | eapply A_steer; eassumption | eapply A_followUp; eassumption | eapply A_last; eassumption
        | eapply A_closing; eassumption | eapply A_BeforeTurn; eassumption | eapply A_BeforeModelCall; eassumption
        | eapply A_OutputGuard; eassumption | eapply A_Transform; eassumption | eapply A_Revise; eassumption
        | eapply A_BeforeToolCall; eassumption | eapply A_AfterToolCall; eassumption | eapply A_ShouldStop; eassumption ].

(** [obeys P m]: the program [m] has the property [P]. *)
Definition obeys {W A : Type} (P : forall A, M W A -> Prop) (m : M W A) : Prop := P A m.

Class RunLogic `{Externals} {W : Type} {env : Env W} (P : forall A, M W A -> Prop) := {
  L_ret : forall A (a : A), obeys P (ret a);
  L_fail : forall A e, obeys P (fail (A := A) e);
  L_bind : forall A B (m : M W A) (k : A -> M W B), obeys P m -> (forall a, obeys P (k a)) -> obeys P (bind m k);
  L_try : forall A (m : M W A), obeys P m -> obeys P (try m);
  L_errOf : forall m : M W unit, obeys P m -> obeys P (errOf m);
  L_get : obeys P get;
  L_orPanic : forall A (a : option A), obeys P (orPanic a);
  L_raise : forall e, obeys P (raise e);
  L_ask : forall A (f : shared W -> A * shared W), asked f -> obeys P (ask f);
  L_call : forall A (f : shared W -> (A + error) * shared W), asked f -> obeys P (call f);
  L_modify : forall f, frames f -> obeys P (modify f);
  L_emit : forall f, sends KOther f -> obeys P (emit f);
  L_appendItem : forall i g f, frames g -> endsItem i f -> obeys P (appendItem i g f);
  L_flushNotes : obeys P flushNotes;
}.

Class ToolLogic `{RunLogic} := {
  L_toolStart : forall f, sends KToolStart f -> obeys P (emit f);
  L_toolEnd : forall f, sends KToolEnd f -> obeys P (emit f);
}.
Arguments ToolLogic {_ _ _} P {_}.

Class RetryLogic `{RunLogic} := L_modelRetry : forall f, sends KModelRetry f -> obeys P (emit f).
Arguments RetryLogic {_ _ _} P {_}.

(** Case analysis along a program. *)
Create HintDb walk.
Ltac sent := intros ?; split; [split; [reflexivity|exact I]|reflexivity].
Ltac walk_step :=
  match goal with
  | |- obeys _ (bind _ _) => apply L_bind; [|intros ?]
  | |- obeys _ (try _) => apply L_try
  | |- obeys _ (errOf _) => apply L_errOf
  | |- obeys _ (ret _) => apply L_ret
  | |- obeys _ (fail _) => apply L_fail
  | |- obeys _ get => apply L_get
  | |- obeys _ (orPanic _) => apply L_orPanic
  | |- obeys _ (raise _) => apply L_raise
  | |- obeys _ (ask _) => apply L_ask; asks
  | |- obeys _ (move _) => apply L_ask; asks
  | |- obeys _ shares => apply L_ask; asks
  | |- obeys _ fresh => apply L_ask; asks
  | |- obeys _ ctxDone => apply L_ask; asks
  | |- obeys _ (call _) => apply L_call; asks
  | |- obeys _ flushNotes => apply L_flushNotes
  | |- obeys _ (modify _) => apply L_modify; intros ?; split_and!; reflexivity
  | |- obeys _ (emit _) => apply L_emit; sent
  | |- obeys _ (emit _) => apply L_toolStart; sent
  | |- obeys _ (emit _) => apply L_toolEnd; sent
  | |- obeys _ (appendItem _ _ _) => apply L_appendItem; [intros ?; split_and!; reflexivity|intros ?; split; reflexivity]
  | |- obeys _ (match ?x with _ => _ end) => destruct x eqn:?
  | _ => solve [eauto with walk]
  end.
Ltac walk := intros; repeat walk_step.

(** [keeps R] as a property of programs. *)
Definition keeping {W : Type} (R : St W -> St W -> Prop) (A : Type) (m : M W A) : Prop := keeps R m.

(** What a relation between states needs to be kept by every such function. *)
Lemma keeps_RunLogic `{Externals} {W : Type} {env : Env W} (R : St W -> St W -> Prop) `{!PreOrder R} :
  (forall A (f : shared W -> A * shared W), asked f -> forall s, R s (s <| sh := (f (sh s)).2 |>)) ->
  (forall f, frames f -> keeps R (modify f)) ->
  (forall f, sends KOther f -> keeps R (emit f)) ->
  (forall i g f, frames g -> endsItem i f -> keeps R (appendItem i g f)) ->
  RunLogic (keeping R).
Proof.
  intros Hw Hm He Hi.
  assert (forall fuel, keeps R (flushLoop fuel)) as Hflush.
  { assert (keeps R notesHeld) as Hn.
    { unfold notesHeld. keeps; [apply He; sent|apply Hm; intros ?; split_and!; reflexivity]. }
    assert (forall i mode t t', keeps R (appendOne i mode t t')) as Ha.
    { intros. unfold appendOne. keeps; [apply He; sent|].
      apply Hi; [intros ?; split_and!|intros ?; split]; reflexivity. }
    induction fuel; cbn [flushLoop]; keeps; try (apply Hm; intros ?; split_and!; reflexivity); done. }
  split; unfold obeys, keeping; intros;
    eauto using keeps_ret, keeps_fail, keeps_bind, keeps_try, keeps_errOf, keeps_get, keeps_orPanic, keeps_raise.
  - intros s. unfold ask. specialize (Hw A f H0 s). by destruct (f (sh s)).
  - intros s. unfold call. specialize (Hw _ f H0 s). by destruct (f (sh s)).
Qed.

(** A relation that does not depend on the world. *)
Lemma worldly_asked {W : Type} {env : Env W} (R : St W -> St W -> Prop) :
  worldly R -> forall A (f : shared W -> A * shared W), asked (env := env) f -> forall s, R s (s <| sh := (f (sh s)).2 |>).
Proof. intros Hw A f _ s. apply Hw. Qed.

(** ** The functions that start and end no call and no turn *)
Section RunLogic.
Context `{Externals} `{Tools} `{Accumulator} {W : Type} {env : Env W}.
Context (P : forall A, M W A -> Prop) `{!RunLogic P}.
Notation L m := (obeys P m).

Lemma logic_appendOne i mode t t' : L (appendOne i mode t t').
Proof. unfold appendOne. walk. Qed.
#[local] Hint Resolve logic_appendOne : walk.
Lemma logic_appendWith items mode t t' : L (appendWith items mode t t').
Proof. induction items; simpl; walk. Qed.
#[local] Hint Resolve logic_appendWith : walk.
Lemma logic_appendItems items mode : L (appendItems items mode).
Proof. apply logic_appendWith. Qed.
#[local] Hint Resolve logic_appendItems : walk.
Lemma logic_appendArrived inputs : L (appendArrived inputs).
Proof. induction inputs; simpl; walk. Qed.
#[local] Hint Resolve logic_appendArrived : walk.
Lemma logic_steer : L (drain (steer env)).
Proof. unfold drain. walk. Qed.
#[local] Hint Resolve logic_steer : walk.
Lemma logic_followUp : L (drain (followUp env)).
Proof. unfold drain. walk. Qed.
#[local] Hint Resolve logic_followUp : walk.
Lemma logic_ending : L ending.
Proof. unfold ending. walk. Qed.
#[local] Hint Resolve logic_ending : walk.
Lemma logic_drainLast : L drainLast.
Proof. unfold drainLast. walk. Qed.
#[local] Hint Resolve logic_drainLast : walk.
Lemma logic_quarantined : L quarantined.
Proof. unfold quarantined. walk. Qed.
#[local] Hint Resolve logic_quarantined : walk.
Lemma logic_attribute m start : L (attribute m start).
Proof. unfold attribute. walk. Qed.
#[local] Hint Resolve logic_attribute : walk.
Lemma logic_applyQuarantine items : L (applyQuarantine items).
Proof. unfold applyQuarantine. walk. Qed.
#[local] Hint Resolve logic_applyQuarantine : walk.
Lemma logic_hold n : L (hold n).
Proof. unfold hold. walk. Qed.
#[local] Hint Resolve logic_hold : walk.
Lemma logic_holdAll ns : L (holdAll ns).
Proof. induction ns; simpl; walk. Qed.
#[local] Hint Resolve logic_holdAll : walk.
Lemma logic_notesHeld : L notesHeld.
Proof. unfold notesHeld. walk. Qed.
#[local] Hint Resolve logic_notesHeld : walk.
Lemma logic_holdNotesOf id own : L (holdNotesOf id own).
Proof. unfold holdNotesOf. walk. Qed.
#[local] Hint Resolve logic_holdNotesOf : walk.
Lemma logic_holdStrays : L holdStrays.
Proof. unfold holdStrays. walk. Qed.
#[local] Hint Resolve logic_holdStrays : walk.
Lemma logic_newMessage role text : L (newMessage role text).
Proof. unfold newMessage. walk. Qed.
#[local] Hint Resolve logic_newMessage : walk.
Lemma logic_answerNoteItem note by_ : L (answerNoteItem note by_).
Proof. unfold answerNoteItem. walk. Qed.
#[local] Hint Resolve logic_answerNoteItem : walk.
Lemma logic_snapshotItem i : L (snapshotItem i).
Proof. unfold snapshotItem. walk. Qed.
#[local] Hint Resolve logic_snapshotItem : walk.
Lemma logic_decideCallID c index : L (decideCallID c index).
Proof. unfold decideCallID, decideID. walk. Qed.
#[local] Hint Resolve logic_decideCallID : walk.
Lemma logic_withCallID i index : L (withCallID i index).
Proof. unfold withCallID. walk. Qed.
#[local] Hint Resolve logic_withCallID : walk.
Lemma logic_openedAt index : L (openedAt index).
Proof. unfold openedAt. walk. Qed.
#[local] Hint Resolve logic_openedAt : walk.
Lemma logic_atOpened i f : L (atOpened i f).
Proof. unfold atOpened. walk. Qed.
#[local] Hint Resolve logic_atOpened : walk.
Lemma logic_lastOpened f : L (lastOpened f).
Proof. unfold lastOpened. walk. Qed.
#[local] Hint Resolve logic_lastOpened : walk.
Lemma logic_appendHeld l : L (appendHeld l).
Proof. induction l; simpl; walk. Qed.
#[local] Hint Resolve logic_appendHeld : walk.
Lemma logic_flushHeld : L flushHeld.
Proof. unfold flushHeld. walk. Qed.
#[local] Hint Resolve logic_flushHeld : walk.
Lemma logic_appendCompleted id l : L (appendCompleted id l).
Proof. induction l; simpl; walk. Qed.
#[local] Hint Resolve logic_appendCompleted : walk.
Lemma logic_appendFromResponse id : L (appendFromResponse id).
Proof. unfold appendFromResponse. walk. Qed.
#[local] Hint Resolve logic_appendFromResponse : walk.
Lemma logic_itemAdded acc committed index : L (itemAdded acc committed index).
Proof. unfold itemAdded. walk. Qed.
#[local] Hint Resolve logic_itemAdded : walk.
Lemma logic_itemsBefore acc os : L (itemsBefore acc os).
Proof. induction os; simpl; walk. Qed.
#[local] Hint Resolve logic_itemsBefore : walk.
Lemma logic_guarded acc self i : L (guarded acc self i).
Proof. unfold guarded. walk. Qed.
#[local] Hint Resolve logic_guarded : walk.
Lemma logic_callDone c index : L (callDone c index).
Proof. unfold callDone. walk. Qed.
#[local] Hint Resolve logic_callDone : walk.
Lemma logic_itemDone acc committed index i : L (itemDone acc committed index i).
Proof. unfold itemDone. walk. Qed.
#[local] Hint Resolve logic_itemDone : walk.
Lemma logic_streamEvent ev acc committed : L (streamEvent ev acc committed).
Proof. unfold streamEvent. walk. Qed.
#[local] Hint Resolve logic_streamEvent : walk.
Lemma logic_completedCall c id itemID : L (completedCall c id itemID).
Proof. unfold completedCall. walk. Qed.
#[local] Hint Resolve logic_completedCall : walk.
Lemma logic_completeCalls output index at_ p : L (completeCalls output index at_ p).
Proof. revert index at_ p. induction output; intros; cbn [completeCalls]; walk. Qed.
#[local] Hint Resolve logic_completeCalls : walk.
Lemma logic_renameEach cs p output index : L (renameEach cs p output index).
Proof. revert index. induction output; intros; cbn [renameEach]; walk. Qed.
#[local] Hint Resolve logic_renameEach : walk.
Lemma logic_renameCalls resp : L (renameCalls resp).
Proof. unfold renameCalls. walk. Qed.
#[local] Hint Resolve logic_renameCalls : walk.
Lemma logic_streamLoop w acc halt resp committed :
  (forall f, occurs w f -> asked (env := env) (fun h => (tt, f h))) -> L (streamLoop w acc halt resp committed).
Proof.
  revert acc halt resp committed. induction w as [|adv x rest IH]; intros acc halt resp committed Hw; cbn [streamLoop]; [walk|].
  assert (asked (env := env) (fun h => (tt, adv h))) as Ha by apply Hw, occurs_here.
  assert (forall h acc halt resp committed, L (streamLoop (rest h) acc halt resp committed)) as IH'.
  { intros h acc' halt' resp' committed'. apply IH. intros f Hf. by eapply Hw, occurs_later. }
  walk; apply IH'.
Qed.
Lemma logic_stream req : L (stream req).
Proof.
  unfold stream, deliverResponse. walk. apply logic_streamLoop. intros f Hf. by eapply A_wire.
Qed.
#[local] Hint Resolve logic_stream : walk.
Lemma logic_inputFor model filtered at_ : L (inputFor model filtered at_).
Proof. unfold inputFor. walk. Qed.
#[local] Hint Resolve logic_inputFor : walk.
Lemma logic_forModel b prev req : L (forModel b prev req).
Proof. unfold forModel. walk. Qed.
#[local] Hint Resolve logic_forModel : walk.
Lemma logic_blockedCall req e : L (blockedCall req e).
Proof. unfold blockedCall. walk. Qed.
#[local] Hint Resolve logic_blockedCall : walk.
Lemma logic_transformed weighed fold : L (transformed weighed fold).
Proof. unfold transformed. walk. Qed.
#[local] Hint Resolve logic_transformed : walk.
Lemma logic_buildOnce tools settings fold rebuild :
  match rebuild with Some m => L m | None => True end -> L (buildOnce tools settings fold rebuild).
Proof.
  intros Hr. unfold buildOnce. walk.
  match goal with E : (if ?b then _ else _) = Some _ |- _ => by destruct b; simplify_eq end.
Qed.
#[local] Hint Resolve logic_buildOnce : walk.
Lemma logic_requestWith tools settings fold : L (requestWith tools settings fold).
Proof. unfold requestWith. by repeat apply logic_buildOnce. Qed.
#[local] Hint Resolve logic_requestWith : walk.
Lemma logic_closeWithheld start : L (closeWithheld start).
Proof.
  assert (forall cs, L (withheldOutputs cs)) as Hw.
  { induction cs; cbn [withheldOutputs]; unfold withheldOutput; walk. }
  unfold closeWithheld. walk.
Qed.
#[local] Hint Resolve logic_closeWithheld : walk.
Lemma logic_guardStopped start resp err : L (guardStopped start resp err).
Proof. unfold guardStopped, recordWithheld. walk. Qed.
#[local] Hint Resolve logic_guardStopped : walk.
Lemma logic_guardRefused start req resp committed err : L (guardRefused start req resp committed err).
Proof. unfold guardRefused, recordWithheld. walk. Qed.
#[local] Hint Resolve logic_guardRefused : walk.
Lemma logic_foldedRequest tools req revised : L (foldedRequest tools req revised).
Proof. unfold foldedRequest. walk. Qed.
#[local] Hint Resolve logic_foldedRequest : walk.
Lemma logic_revise attempt err req b : L (revise attempt err req b).
Proof. unfold revise. walk. Qed.
#[local] Hint Resolve logic_revise : walk.
Lemma logic_sleep d : L (sleep d).
Proof. unfold sleep. walk. Qed.
#[local] Hint Resolve logic_sleep : walk.
Lemma logic_isCancellation e : L (isCancellation e).
Proof. unfold isCancellation. walk. Qed.
#[local] Hint Resolve logic_isCancellation : walk.
Lemma logic_prepare tools turn_ c args : L (prepare tools turn_ c args).
Proof. unfold prepare. walk. Qed.
#[local] Hint Resolve logic_prepare : walk.
Lemma logic_resolved p : L (resolved p).
Proof. unfold resolved. walk. Qed.
#[local] Hint Resolve logic_resolved : walk.
Lemma logic_batchCall id : L (batchCall id).
Proof. unfold batchCall. walk. Qed.
#[local] Hint Resolve logic_batchCall : walk.
Lemma logic_decide_ p d : L (decide_ p d).
Proof. unfold decide_. walk. Qed.
#[local] Hint Resolve logic_decide_ : walk.
Lemma logic_askPolicy p cs index : L (askPolicy p cs index).
Proof. unfold askPolicy. walk. Qed.
#[local] Hint Resolve logic_askPolicy : walk.
Lemma logic_toolOutput p : L (toolOutput p).
Proof. unfold toolOutput. walk. Qed.
#[local] Hint Resolve logic_toolOutput : walk.
Lemma logic_finishedOutputs b : L (finishedOutputs b).
Proof. induction b; cbn [finishedOutputs]; walk. Qed.
#[local] Hint Resolve logic_finishedOutputs : walk.
Lemma logic_holdBatch b : L (holdBatch b).
Proof. induction b; cbn [holdBatch]; walk. Qed.
#[local] Hint Resolve logic_holdBatch : walk.
Lemma logic_appendFinished b : L (appendFinished b).
Proof. unfold appendFinished. walk. Qed.
#[local] Hint Resolve logic_appendFinished : walk.
Lemma logic_bctxDone x : L (bctxDone x).
Proof. unfold bctxDone. walk. Qed.
#[local] Hint Resolve logic_bctxDone : walk.
Lemma logic_fails e x : L (fails e x).
Proof. unfold fails, cancelWith. walk. Qed.
#[local] Hint Resolve logic_fails : walk.
Lemma logic_markUndispatched p : L (markUndispatched p).
Proof. unfold markUndispatched. walk. Qed.
#[local] Hint Resolve logic_markUndispatched : walk.
Lemma logic_onStart i x : L (onStart i x).
Proof. unfold onStart. walk. Qed.
#[local] Hint Resolve logic_onStart : walk.
Lemma logic_markBatch b : L (markBatch b).
Proof. induction b; cbn [markBatch]; unfold markDispatched; walk. Qed.
#[local] Hint Resolve logic_markBatch : walk.
Lemma logic_batchOutputs b : L (batchOutputs b).
Proof. induction b; cbn [batchOutputs]; walk. Qed.
#[local] Hint Resolve logic_batchOutputs : walk.
Lemma logic_collect b : L (collect b).
Proof. unfold collect. walk. Qed.
#[local] Hint Resolve logic_collect : walk.
Lemma logic_toolContext : L toolContext.
Proof. unfold toolContext. walk. Qed.
#[local] Hint Resolve logic_toolContext : walk.
Lemma logic_appendAnswers t answers : L (appendAnswers t answers).
Proof. induction answers; cbn [appendAnswers]; unfold appendAnswer; walk. Qed.
#[local] Hint Resolve logic_appendAnswers : walk.
Lemma logic_beforeTurn : L beforeTurn.
Proof. unfold beforeTurn. walk. Qed.
#[local] Hint Resolve logic_beforeTurn : walk.
Lemma logic_turnTools : L turnTools.
Proof. unfold turnTools. walk. Qed.
#[local] Hint Resolve logic_turnTools : walk.
Lemma logic_shouldStop resp results final : L (shouldStop resp results final).
Proof. unfold shouldStop. walk. Qed.
#[local] Hint Resolve logic_shouldStop : walk.
Lemma logic_runEnd err : L (runEnd err).
Proof. unfold runEnd. walk. Qed.
#[local] Hint Resolve logic_runEnd : walk.

End RunLogic.

#[export] Hint Extern 1 (obeys _ (appendOne _ _ _ _)) => eapply logic_appendOne; typeclasses eauto : walk.
#[export] Hint Extern 1 (obeys _ (appendWith _ _ _ _)) => eapply logic_appendWith; typeclasses eauto : walk.
#[export] Hint Extern 1 (obeys _ (appendItems _ _)) => eapply logic_appendItems; typeclasses eauto : walk.
#[export] Hint Extern 1 (obeys _ (appendArrived _)) => eapply logic_appendArrived; typeclasses eauto : walk.
#[export] Hint Extern 1 (obeys _ (drain (steer _))) => eapply logic_steer; typeclasses eauto : walk.
#[export] Hint Extern 1 (obeys _ ending) => eapply logic_ending; typeclasses eauto : walk.
#[export] Hint Extern 1 (obeys _ drainLast) => eapply logic_drainLast; typeclasses eauto : walk.
#[export] Hint Extern 1 (obeys _ quarantined) => eapply logic_quarantined; typeclasses eauto : walk.
#[export] Hint Extern 1 (obeys _ (attribute _ _)) => eapply logic_attribute; typeclasses eauto : walk.
#[export] Hint Extern 1 (obeys _ (applyQuarantine _)) => eapply logic_applyQuarantine; typeclasses eauto : walk.
#[export] Hint Extern 1 (obeys _ (hold _)) => eapply logic_hold; typeclasses eauto : walk.
#[export] Hint Extern 1 (obeys _ (holdAll _)) => eapply logic_holdAll; typeclasses eauto : walk.
#[export] Hint Extern 1 (obeys _ notesHeld) => eapply logic_notesHeld; typeclasses eauto : walk.
#[export] Hint Extern 1 (obeys _ (holdNotesOf _ _)) => eapply logic_holdNotesOf; typeclasses eauto : walk.
#[export] Hint Extern 1 (obeys _ holdStrays) => eapply logic_holdStrays; typeclasses eauto : walk.
#[export] Hint Extern 1 (obeys _ (newMessage _ _)) => eapply logic_newMessage; typeclasses eauto : walk.
#[export] Hint Extern 1 (obeys _ (answerNoteItem _ _)) => eapply logic_answerNoteItem; typeclasses eauto : walk.
#[export] Hint Extern 1 (obeys _ (snapshotItem _)) => eapply logic_snapshotItem; typeclasses eauto : walk.
#[export] Hint Extern 1 (obeys _ (decideCallID _ _)) => eapply logic_decideCallID; typeclasses eauto : walk.
#[export] Hint Extern 1 (obeys _ (withCallID _ _)) => eapply logic_withCallID; typeclasses eauto : walk.
#[export] Hint Extern 1 (obeys _ (openedAt _)) => eapply logic_openedAt; typeclasses eauto : walk.
#[export] Hint Extern 1 (obeys _ (atOpened _ _)) => eapply logic_atOpened; typeclasses eauto : walk.
#[export] Hint Extern 1 (obeys _ (lastOpened _)) => eapply logic_lastOpened; typeclasses eauto : walk.
#[export] Hint Extern 1 (obeys _ (appendHeld _)) => eapply logic_appendHeld; typeclasses eauto : walk.
#[export] Hint Extern 1 (obeys _ flushHeld) => eapply logic_flushHeld; typeclasses eauto : walk.
#[export] Hint Extern 1 (obeys _ (appendCompleted _ _)) => eapply logic_appendCompleted; typeclasses eauto : walk.
#[export] Hint Extern 1 (obeys _ (appendFromResponse _)) => eapply logic_appendFromResponse; typeclasses eauto : walk.
#[export] Hint Extern 1 (obeys _ (itemAdded _ _ _)) => eapply logic_itemAdded; typeclasses eauto : walk.
#[export] Hint Extern 1 (obeys _ (itemsBefore _ _)) => eapply logic_itemsBefore; typeclasses eauto : walk.
#[export] Hint Extern 1 (obeys _ (guarded _ _ _)) => eapply logic_guarded; typeclasses eauto : walk.
#[export] Hint Extern 1 (obeys _ (callDone _ _)) => eapply logic_callDone; typeclasses eauto : walk.
#[export] Hint Extern 1 (obeys _ (itemDone _ _ _ _)) => eapply logic_itemDone; typeclasses eauto : walk.
#[export] Hint Extern 1 (obeys _ (streamEvent _ _ _)) => eapply logic_streamEvent; typeclasses eauto : walk.
#[export] Hint Extern 1 (obeys _ (completedCall _ _ _)) => eapply logic_completedCall; typeclasses eauto : walk.
#[export] Hint Extern 1 (obeys _ (completeCalls _ _ _ _)) => eapply logic_completeCalls; typeclasses eauto : walk.
#[export] Hint Extern 1 (obeys _ (renameEach _ _ _ _)) => eapply logic_renameEach; typeclasses eauto : walk.
#[export] Hint Extern 1 (obeys _ (renameCalls _)) => eapply logic_renameCalls; typeclasses eauto : walk.
#[export] Hint Extern 1 (obeys _ (stream _)) => eapply logic_stream; typeclasses eauto : walk.
#[export] Hint Extern 1 (obeys _ (inputFor _ _ _)) => eapply logic_inputFor; typeclasses eauto : walk.
#[export] Hint Extern 1 (obeys _ (forModel _ _ _)) => eapply logic_forModel; typeclasses eauto : walk.
#[export] Hint Extern 1 (obeys _ (blockedCall _ _)) => eapply logic_blockedCall; typeclasses eauto : walk.
#[export] Hint Extern 1 (obeys _ (transformed _ _)) => eapply logic_transformed; typeclasses eauto : walk.
#[export] Hint Extern 1 (obeys _ (buildOnce _ _ _ _)) => eapply logic_buildOnce; typeclasses eauto : walk.
#[export] Hint Extern 1 (obeys _ (requestWith _ _ _)) => eapply logic_requestWith; typeclasses eauto : walk.
#[export] Hint Extern 1 (obeys _ (closeWithheld _)) => eapply logic_closeWithheld; typeclasses eauto : walk.
#[export] Hint Extern 1 (obeys _ (guardStopped _ _ _)) => eapply logic_guardStopped; typeclasses eauto : walk.
#[export] Hint Extern 1 (obeys _ (guardRefused _ _ _ _ _)) => eapply logic_guardRefused; typeclasses eauto : walk.
#[export] Hint Extern 1 (obeys _ (foldedRequest _ _ _)) => eapply logic_foldedRequest; typeclasses eauto : walk.
#[export] Hint Extern 1 (obeys _ (revise _ _ _ _)) => eapply logic_revise; typeclasses eauto : walk.
#[export] Hint Extern 1 (obeys _ (sleep _)) => eapply logic_sleep; typeclasses eauto : walk.
#[export] Hint Extern 1 (obeys _ (isCancellation _)) => eapply logic_isCancellation; typeclasses eauto : walk.
#[export] Hint Extern 1 (obeys _ (prepare _ _ _ _)) => eapply logic_prepare; typeclasses eauto : walk.
#[export] Hint Extern 1 (obeys _ (resolved _)) => eapply logic_resolved; typeclasses eauto : walk.
#[export] Hint Extern 1 (obeys _ (batchCall _)) => eapply logic_batchCall; typeclasses eauto : walk.
#[export] Hint Extern 1 (obeys _ (decide_ _ _)) => eapply logic_decide_; typeclasses eauto : walk.
#[export] Hint Extern 1 (obeys _ (askPolicy _ _ _)) => eapply logic_askPolicy; typeclasses eauto : walk.
#[export] Hint Extern 1 (obeys _ (toolOutput _)) => eapply logic_toolOutput; typeclasses eauto : walk.
#[export] Hint Extern 1 (obeys _ (finishedOutputs _)) => eapply logic_finishedOutputs; typeclasses eauto : walk.
#[export] Hint Extern 1 (obeys _ (holdBatch _)) => eapply logic_holdBatch; typeclasses eauto : walk.
#[export] Hint Extern 1 (obeys _ (appendFinished _)) => eapply logic_appendFinished; typeclasses eauto : walk.
#[export] Hint Extern 1 (obeys _ (bctxDone _)) => eapply logic_bctxDone; typeclasses eauto : walk.
#[export] Hint Extern 1 (obeys _ (fails _ _)) => eapply logic_fails; typeclasses eauto : walk.
#[export] Hint Extern 1 (obeys _ (markUndispatched _)) => eapply logic_markUndispatched; typeclasses eauto : walk.
#[export] Hint Extern 1 (obeys _ (onStart _ _)) => eapply logic_onStart; typeclasses eauto : walk.
#[export] Hint Extern 1 (obeys _ (markBatch _)) => eapply logic_markBatch; typeclasses eauto : walk.
#[export] Hint Extern 1 (obeys _ (batchOutputs _)) => eapply logic_batchOutputs; typeclasses eauto : walk.
#[export] Hint Extern 1 (obeys _ (collect _)) => eapply logic_collect; typeclasses eauto : walk.
#[export] Hint Extern 1 (obeys _ toolContext) => eapply logic_toolContext; typeclasses eauto : walk.
#[export] Hint Extern 1 (obeys _ (appendAnswers _ _)) => eapply logic_appendAnswers; typeclasses eauto : walk.
#[export] Hint Extern 1 (obeys _ beforeTurn) => eapply logic_beforeTurn; typeclasses eauto : walk.
#[export] Hint Extern 1 (obeys _ turnTools) => eapply logic_turnTools; typeclasses eauto : walk.
#[export] Hint Extern 1 (obeys _ (shouldStop _ _ _)) => eapply logic_shouldStop; typeclasses eauto : walk.
#[export] Hint Extern 1 (obeys _ (runEnd _)) => eapply logic_runEnd; typeclasses eauto : walk.

(** ** The calls of a batch *)
Section ToolLogic.
Context `{Externals} `{Tools} `{Accumulator} {W : Type} {env : Env W}.
Context (P : forall A, M W A -> Prop) `{HP : !RunLogic P, !ToolLogic P}.
Notation L m := (obeys P m).

Lemma logic_finish p : L (finish p).
Proof. unfold finish, toolEnd. walk. Qed.
#[local] Hint Resolve logic_finish : walk.
Lemma logic_settle p : L (settle p).
Proof. unfold settle. walk. Qed.
#[local] Hint Resolve logic_settle : walk.
Lemma logic_check p : L (check p).
Proof. unfold check. walk. Qed.
#[local] Hint Resolve logic_check : walk.
Lemma logic_startCall p d : L (startCall p d).
Proof. unfold startCall. walk. Qed.
#[local] Hint Resolve logic_startCall : walk.
Lemma logic_preflight tools c cs index : L (preflight tools c cs index).
Proof. unfold preflight. walk. Qed.
#[local] Hint Resolve logic_preflight : walk.
Lemma logic_finishCut cause p : L (finishCut cause p).
Proof. unfold finishCut. walk. Qed.
#[local] Hint Resolve logic_finishCut : walk.
Lemma logic_failCalls cause b : L (failCalls cause b).
Proof. induction b; cbn [failCalls]; walk. Qed.
#[local] Hint Resolve logic_failCalls : walk.
Lemma logic_failBatch {A} b cause : L (failBatch (A := A) b cause).
Proof. unfold failBatch. walk. Qed.
#[local] Hint Resolve logic_failBatch : walk.
Lemma logic_abortCalls cause first b : L (abortCalls cause first b).
Proof. revert first. induction b; intros; cbn [abortCalls]; unfold abortCall; walk. Qed.
#[local] Hint Resolve logic_abortCalls : walk.
Lemma logic_abortBatch {A} b cause : L (abortBatch (A := A) b cause).
Proof. unfold abortBatch. walk. Qed.
#[local] Hint Resolve logic_abortBatch : walk.
Lemma logic_preflightLoop tools cs sofar rest : L (preflightLoop tools cs sofar rest).
Proof. revert sofar. induction rest; intros; cbn [preflightLoop]; walk. Qed.
#[local] Hint Resolve logic_preflightLoop : walk.
Lemma logic_preflightAll tools cs : L (preflightAll tools cs).
Proof. unfold preflightAll. walk. Qed.
#[local] Hint Resolve logic_preflightAll : walk.
Lemma logic_step i p ev x : L (step i p ev x).
Proof. unfold step, drainEvent. walk. Qed.
#[local] Hint Resolve logic_step : walk.
Lemma logic_executeLoop at_ jobs t x :
  (forall f, executes t f -> asked (env := env) (fun h => (tt, f h))) -> L (executeLoop at_ jobs t x).
Proof.
  revert x. induction t as [|adv j rest IH|adv j ev rest IH]; intros x Ht; cbn [executeLoop]; [walk| |].
  - assert (asked (env := env) (fun h => (tt, adv h))) as Ha by apply Ht, executes_start.
    walk; apply IH; intros f Hf; by eapply Ht, executes_started.
  - assert (asked (env := env) (fun h => (tt, adv h))) as Ha by apply Ht, executes_event.
    walk; apply IH; intros f Hf; by eapply Ht, executes_later.
Qed.
Lemma logic_execute b : L (execute b).
Proof. unfold execute. walk. apply logic_executeLoop. intros f Hf. by eapply A_exec. Qed.
#[local] Hint Resolve logic_execute : walk.
Lemma logic_toolBatch tools cs : L (toolBatch tools cs).
Proof. unfold toolBatch. walk. Qed.
#[local] Hint Resolve logic_toolBatch : walk.
Lemma logic_approve tools cs index ap : L (approve tools cs index ap).
Proof. unfold approve, approvalNote, expect. walk. Qed.
#[local] Hint Resolve logic_approve : walk.
Lemma logic_approveLoop tools cs sofar rest : L (approveLoop tools cs sofar rest).
Proof. revert sofar. induction rest; intros; cbn [approveLoop]; walk. Qed.
#[local] Hint Resolve logic_approveLoop : walk.
Lemma logic_approvedBatch aps : L (approvedBatch aps).
Proof. unfold approvedBatch. walk. Qed.
#[local] Hint Resolve logic_approvedBatch : walk.
Lemma logic_begin_ prompts aps terminate : L (begin_ prompts aps terminate).
Proof. unfold begin_. walk. Qed.
#[local] Hint Resolve logic_begin_ : walk.

End ToolLogic.

#[export] Hint Extern 1 (obeys _ (finish _)) => eapply logic_finish; typeclasses eauto : walk.
#[export] Hint Extern 1 (obeys _ (settle _)) => eapply logic_settle; typeclasses eauto : walk.
#[export] Hint Extern 1 (obeys _ (check _)) => eapply logic_check; typeclasses eauto : walk.
#[export] Hint Extern 1 (obeys _ (startCall _ _)) => eapply logic_startCall; typeclasses eauto : walk.
#[export] Hint Extern 1 (obeys _ (preflight _ _ _ _)) => eapply logic_preflight; typeclasses eauto : walk.
#[export] Hint Extern 1 (obeys _ (finishCut _ _)) => eapply logic_finishCut; typeclasses eauto : walk.
#[export] Hint Extern 1 (obeys _ (failCalls _ _)) => eapply logic_failCalls; typeclasses eauto : walk.
#[export] Hint Extern 1 (obeys _ (failBatch _ _)) => eapply logic_failBatch; typeclasses eauto : walk.
#[export] Hint Extern 1 (obeys _ (abortCalls _ _ _)) => eapply logic_abortCalls; typeclasses eauto : walk.
#[export] Hint Extern 1 (obeys _ (abortBatch _ _)) => eapply logic_abortBatch; typeclasses eauto : walk.
#[export] Hint Extern 1 (obeys _ (preflightLoop _ _ _ _)) => eapply logic_preflightLoop; typeclasses eauto : walk.
#[export] Hint Extern 1 (obeys _ (preflightAll _ _)) => eapply logic_preflightAll; typeclasses eauto : walk.
#[export] Hint Extern 1 (obeys _ (step _ _ _ _)) => eapply logic_step; typeclasses eauto : walk.
#[export] Hint Extern 1 (obeys _ (execute _)) => eapply logic_execute; typeclasses eauto : walk.
#[export] Hint Extern 1 (obeys _ (toolBatch _ _)) => eapply logic_toolBatch; typeclasses eauto : walk.
#[export] Hint Extern 1 (obeys _ (approve _ _ _ _)) => eapply logic_approve; typeclasses eauto : walk.
#[export] Hint Extern 1 (obeys _ (approveLoop _ _ _ _)) => eapply logic_approveLoop; typeclasses eauto : walk.
#[export] Hint Extern 1 (obeys _ (approvedBatch _)) => eapply logic_approvedBatch; typeclasses eauto : walk.
#[export] Hint Extern 1 (obeys _ (begin_ _ _ _)) => eapply logic_begin_; typeclasses eauto : walk.

(** ** Turns *)
Section TurnLogic.
Context `{Externals} `{Tools} `{Accumulator} {W : Type} {env : Env W}.
Context (P : forall A, M W A -> Prop) `{!RunLogic P, !ToolLogic P, !RetryLogic P}.

Lemma logic_retry call delay err req : obeys P (retry call delay err req).
Proof. unfold retry. walk. apply L_modelRetry. sent. Qed.
#[local] Hint Resolve logic_retry : walk.

(** The attempts of a turn, for a property of a loop that gives out too. *)
Lemma logic_attempts fuel tools start call attempt folded revised req b :
  obeys P (stuck (A := Response)) ->
  obeys P (attempts fuel tools start call attempt folded revised req b).
Proof.
  intros Hs. revert call attempt folded revised req b.
  induction fuel; intros; cbn [attempts]; unfold abortedStop; [done|walk].
Qed.

Class TurnLogic := {
  L_turnStart : forall f, sends KTurnStart f -> obeys P (emit f);
  L_attempts : forall tools start req b,
    obeys P (attempts (Z.to_nat (MaxAttempts (cf_Retry (cfg env))) + 2) tools start 1 1 false false req b);
  L_nextTurn : obeys P (modify (fun r => r <| turn ::= Z.succ |>));
}.

Context `{!TurnLogic}.

Lemma logic_modelTurn tools : obeys P (modelTurn tools).
Proof.
  unfold modelTurn, request. walk; first [apply L_turnStart; sent|apply L_attempts].
Qed.

Lemma logic_oneTurn : obeys P oneTurn.
Proof.
  unfold oneTurn, afterTurn. walk; first [apply L_nextTurn|apply logic_modelTurn].
Qed.

Lemma logic_turns fuel : obeys P (stuck (A := unit)) -> obeys P (turns fuel).
Proof.
  intros Hs. induction fuel; cbn [turns]; [done|]. walk. apply logic_oneTurn.
Qed.

End TurnLogic.

#[export] Hint Extern 1 (obeys _ (retry _ _ _ _)) => eapply logic_retry; typeclasses eauto : walk.
