(* ===== verification/Trace.v ===== *)
(** * Trace: what a run's events say of it.

    [grows] relates two states of one run: between them the run sent events of its
    own, none of which starts or ends it, and its transcript and its items grew by
    exactly the items of the item_ends sent, in order. Every step of a run keeps it. *)

From S2P Require Export Logic.

Section Trace.
Context {W : Type}.

Definition grows (s s' : St W) : Prop :=
  runID (run_ s') = runID (run_ s) /\
  exists l, log s' = log s ++ l /\ Forall (inner (runID (run_ s))) l /\
    transcript (run_ s') = transcript (run_ s) ++ endedItems l /\
    added (run_ s') = added (run_ s) ++ endedItems l.

#[export] Instance grows_preorder : PreOrder grows.
Proof.
  split.
  - intros s. split; [done|]. exists []. rewrite !app_nil_r. by repeat split.
  - intros s1 s2 s3 (Hi & l & Hl & Hf & Ht & Ha) (Hi' & l' & Hl' & Hf' & Ht' & Ha').
    split; [congruence|]. exists (l ++ l'). unfold endedItems in *.
    rewrite Hl', Hl, Ht', Ht, Ha', Ha, omap_app, !app_assoc. split_and!; [done| |done..].
    apply Forall_app. split; [done|]. by rewrite <- Hi.
Qed.

Lemma grows_worldly : worldly grows.
Proof. intros s h. split; [done|]. exists []. cbn. by rewrite !app_nil_r. Qed.

Lemma grows_modify f : frames f -> keeps grows (modify f).
Proof.
  intros Hf. apply keeps_modify. intros s. destruct (Hf (run_ s)) as (H1 & H2 & H3 & _).
  split; [exact H1|]. exists []. change (transcript (run_ (s <| run_ ::= f |>))) with (transcript (f (run_ s))).
  change (added (run_ (s <| run_ ::= f |>))) with (added (f (run_ s))).
  rewrite H2, H3, !app_nil_r. by repeat split.
Qed.

Lemma grows_emit {env : Env W} k f : sends k f -> k <> KItemEnd -> keeps grows (emit f).
Proof.
  intros Hf Hk. apply keeps_emit; [typeclasses eauto|apply grows_worldly|]. intros s.
  destruct (Hf (run_ s)) as [Hi He]. split; [done|]. exists [f (run_ s)]. unfold endedItems. cbn [omap list_omap].
  assert (endedItem (f (run_ s)) = None) as -> by (destruct (f (run_ s)); simplify_eq/=; congruence).
  rewrite !app_nil_r. split; [reflexivity|]. split; [by constructor|done].
Qed.

Lemma grows_appendItem {env : Env W} i g f : frames g -> endsItem i f -> keeps grows (appendItem i g f).
Proof.
  intros Hg Hf. apply keeps_appendItem; [typeclasses eauto|apply grows_worldly|]. intros s. cbv zeta.
  destruct (Hg (run_ s)) as (H1 & H2 & H3 & _).
  match goal with |- grows _ (_ <| run_ := ?r |> <| log ::= _ |>) => set (r' := r) end.
  destruct (Hf r') as [H4 H5].
  assert (runID r' = runID (run_ s)) as H6 by (unfold r'; upd; exact H1).
  split; [exact H6|]. exists [EvItemEnd (f r')].
  split; [reflexivity|]. split; [|split].
  - constructor; [|constructor]. split; [|done]. cbn [eventRun]. by rewrite H4, H6.
  - unfold endedItems. cbn [omap list_omap endedItem]. rewrite H5. unfold r'. upd. by rewrite H2.
  - unfold endedItems. cbn [omap list_omap endedItem]. rewrite H5. unfold r'. upd. by rewrite H3.
Qed.

Lemma grows_nextTurn : keeps grows (modify (fun r => r <| turn ::= Z.succ |>)).
Proof. apply keeps_modify. intros s. split; [done|]. exists []. upd. rewrite !app_nil_r. by repeat split. Qed.

End Trace.

(** *** Every step grows the run *)
Section Grows.
Context `{Externals} `{Tools} `{Accumulator} {W : Type} {env : Env W}.
Abbreviation grow := (keeping (W := W) grows).

#[export] Instance grows_RunLogic : RunLogic grow.
Proof.
  apply keeps_RunLogic; [typeclasses eauto|apply worldly_asked, grows_worldly|apply grows_modify| |apply grows_appendItem].
  intros f Hf. by eapply grows_emit.
Qed.

#[export] Instance grows_ToolLogic : ToolLogic grow.
Proof. split; unfold obeys, keeping; intros; by eapply grows_emit. Qed.

#[export] Instance grows_RetryLogic : RetryLogic grow.
Proof. intros f Hf. by eapply grows_emit. Qed.

#[export] Instance grows_TurnLogic : TurnLogic grow.
Proof.
  split.
  - intros. by eapply grows_emit.
  - intros. apply (logic_attempts grow). unfold obeys, keeping. keeps.
  - apply grows_nextTurn.
Qed.

(** After the run_start, a loop only grows the run. *)
Lemma loop_grows fuel prompts aps terminate (s : St W) :
  exists l s', s' = (loop fuel prompts aps terminate s).2 /\
    runID (run_ s') = runID (run_ s) /\
    log s' = log s ++ runStart prompts aps (run_ s) :: l /\ Forall (inner (runID (run_ s))) l /\
    transcript (run_ s') = transcript (run_ s) ++ endedItems l /\
    added (run_ s') = added (run_ s) ++ endedItems l.
Proof.
  unfold loop, bind at 1, emit. destruct (send env _ _) as [e h]. destruct e as [e|].
  { exists []. eexists. split; [reflexivity|]. cbn [snd]. upd. rewrite !app_nil_r. by repeat split. }
  match goal with |- context [bind _ _ ?s] => set (s1 := s) end.
  assert (obeys grow (begin_ prompts aps terminate ;;
    if terminate then fail (EStop ReasonStopped StopRefused None false) else turns fuel)) as Hg.
  { walk. eapply logic_turns; try typeclasses eauto. unfold obeys, keeping. keeps. }
  destruct (Hg s1) as (Hi & l & Hl & Hf & Ht & Ha). exists l. eexists. split; [reflexivity|].
  rewrite Hi, Hl, Ht, Ha.
  unfold s1. upd. rewrite <- app_assoc. by split_and!.
Qed.

End Grows.

(** ** What a run's events say *)

Section Runs.
Context `{Externals} `{Tools} `{Accumulator} {W : Type} {env : Env W}.

Lemma startRun_run (s : St W) :
  exists s', startRun s = (Ok tt, s') /\ log s' = log s /\ transcript (run_ s') = transcript (run_ s) /\
    added (run_ s') = added (run_ s) /\ notes (run_ s') = notes (run_ s) /\ turn (run_ s') = turn (run_ s).
Proof.
  unfold startRun, bind at 1, get. case_bool_decide; unfold bind, ask, modify, ret.
  - destruct (NewID env _ _) as [id h]. eexists. split; [reflexivity|]. by upd.
  - eexists. split; [reflexivity|]. by upd.
Qed.

Lemma runEnd_run err (s : St W) :
  exists e s', runEnd err s = (Ok e, s') /\ log s' = log s /\ run_ s' = run_ s /\
    re_ID e = runID (run_ s) /\ re_Items e = added (run_ s) /\ re_Pending e = pending (run_ s) /\
    re_Notes e = (if bool_decide (pending (run_ s) = []) then notes (run_ s) else []).
Proof.
  assert (exists done h, (match err with
    | Some e => match asStop e with None => ctxDone | Some _ => ret None end
    | None => ret None end) s = (Ok done, s <| sh := h |>)) as (done & h & Hd).
  { destruct err as [e|]; [destruct (asStop e)|]; try (by exists None, (sh s); destruct s).
    unfold ctxDone, ask. destruct (ctxErr env (sh s)) as [d h]. by exists d, h. }
  unfold runEnd, bind at 1. rewrite Hd. unfold ending, quarantined, shares, bind, ask, get, ret.
  destruct (closing env) as [c|]; cbn [run_ sh log]; [destruct (c _)|]; eexists _, _; (split; [reflexivity|]); by upd.
Qed.

(** C2: a run's events tell all of it. A run returns its run_end or gives out, and
    when it returns its events are, in order: one run_start, then events of the run
    that start and end nothing, then that one run_end; and the items it returns are
    exactly those of its item_ends, in order, by which the transcript grew and by
    nothing else. *)
Theorem run_events fuel prompts aps terminate (s : St W) :
  let '(res, s') := run fuel prompts aps terminate s in
  match res with
  | Ok e =>
      exists rid start l, log s' = log s ++ EvRunStart start :: l ++ [EvRunEnd e] /\
        rs_RunID start = rid /\ re_ID e = rid /\ Forall (inner rid) l /\
        transcript (run_ s') = transcript (run_ s) ++ endedItems l /\
        re_Items e = added (run_ s) ++ endedItems l
  | Err _ => False
  | Panicked | OutOfFuel => True
  end.
Proof.
  unfold run, bind at 1. destruct (startRun_run s) as (s1 & -> & Hl1 & Ht1 & Ha1 & _ & _).
  unfold bind at 1, errOf. destruct (loop_grows fuel prompts aps terminate s1) as (l & s' & -> & Hi & Hl & Hf & Ht & Ha).
  destruct (loop fuel prompts aps terminate s1) as [[u|e| |] s2]; try done; cbn [snd] in *.
  - unfold bind at 1. destruct (runEnd_run None s2) as (e & s3 & -> & Hl3 & Hr3 & Hid & Hit & _).
    unfold bind, try, emit, ret. destruct (send env _ _) as [err h]. destruct err as [err|].
    all: exists (runID (run_ s1)); eexists; exists l; upd.
    all: unfold runStart in Hl.
    all: rewrite Hl3, Hl, Hl1, Hr3, Ht, Ht1, Hit, Ha, Ha1, Hid, Hi, <- app_assoc; (split; [reflexivity|]); by split_and!.
  - unfold bind at 1. destruct (runEnd_run (Some e) s2) as (e' & s3 & -> & Hl3 & Hr3 & Hid & Hit & _).
    unfold bind, try, emit, ret. destruct (send env _ _) as [err h]. destruct err as [err|].
    all: exists (runID (run_ s1)); eexists; exists l; upd.
    all: unfold runStart in Hl.
    all: rewrite Hl3, Hl, Hl1, Hr3, Ht, Ht1, Hit, Ha, Ha1, Hid, Hi, <- app_assoc; (split; [reflexivity|]); by split_and!.
Qed.

End Runs.
