(* ===== verification/Bounds.v ===== *)
(** * Bounds: a run makes no more turns, and a turn no more calls of the model, than
    its configuration allows, and both end. *)

From S2P Require Import Toy.
From S2P Require Export Trace.

(** ** A turn's attempts end *)
Section Attempts.
Context `{Externals} `{Tools} `{Accumulator} {W : Type} {env : Env W}.

(** A program that never runs out of the fuel it is given. *)
Definition ends (A : Type) (m : M W A) : Prop := forall s, (m s).1 <> OutOfFuel.


#[export] Instance ends_RunLogic : RunLogic ends.
Proof.
  split; unfold obeys, ends; intros; try done.
  - unfold bind. match goal with Hm : forall s, (m s).1 <> _ |- _ => specialize (Hm s) end.
    destruct (m s) as [[] ?]; simpl in *; auto.
  - unfold try. specialize (H2 s). by destruct (m s) as [[] ?].
  - unfold errOf. specialize (H2 s). by destruct (m s) as [[] ?].
  - by destruct a.
  - by destruct e.
  - unfold ask. by destruct (f (sh s)).
  - unfold call. by destruct (f (sh s)) as [[] ?].
  - unfold emit. by destruct (send env _ _) as [[] ?].
  - unfold appendItem, bind, modify, emit. by destruct (send env _ _) as [[] ?].
  - unfold flushNotes, bind, get.
    by destruct (flushLoop_run (length (notes (run_ s))) s) as (res & s' & k & -> & _ & _ & [[-> _]|[e ->]]).
Qed.

#[export] Instance ends_RetryLogic : RetryLogic ends.
Proof. intros f _ s. unfold emit. by destruct (send env _ _) as [[] ?]. Qed.

#[export] Instance ends_ToolLogic : ToolLogic ends.
Proof.
  split; unfold obeys, ends; intros; unfold emit; by destruct (send env _ _) as [[] ?].
Qed.

(** The calls of the model a turn may still make. *)
Definition callsLeft (attempt : Z) (folded : bool) : nat :=
  (Z.to_nat (MaxAttempts (cf_Retry (cfg env)) - attempt) + (if folded then 0 else 1))%nat.

Lemma attempts_ends fuel tools start call attempt folded revised req b :
  (callsLeft attempt folded < fuel)%nat ->
  obeys ends (attempts fuel tools start call attempt folded revised req b).
Proof.
  revert call attempt folded revised req b.
  induction fuel as [|fuel IH]; intros call attempt folded revised req b Hf; [lia|].
  cbn [attempts]. unfold abortedStop. walk; apply IH; unfold callsLeft in *.
  all: repeat match goal with
    | E : _ || _ = false |- _ => apply orb_false_iff in E as [? ?]
    | E : _ && _ = true |- _ => apply andb_true_iff in E as [? ?]
    | E : (_ <=? _) = false |- _ => apply Z.leb_gt in E
    | E : negb ?b = true |- _ => apply negb_true_iff in E
    end.
  all: repeat case_match; simplify_eq/=; lia.
Qed.

End Attempts.

(** ** The turns of a run *)
Section TurnEnds.
Context `{Externals} `{Tools} `{Accumulator} {W : Type} {env : Env W}.

#[export] Instance ends_TurnLogic : TurnLogic ends.
Proof.
  split.
  - intros f _ s. unfold emit. by destruct (send env _ _) as [[] ?].
  - intros. apply attempts_ends. unfold callsLeft. lia.
  - intros s. done.
Qed.

Lemma oneTurn_ends : forall s, (oneTurn s).1 <> OutOfFuel.
Proof. apply (logic_oneTurn ends). Qed.

End TurnEnds.

Section TurnCount.
Context `{Externals} `{Tools} `{Accumulator} {W : Type} {env : Env W}.

Definition isTurnStart (ev : event) : bool := match ev with EvTurnStart _ => true | _ => false end.
Definition turnStarts (l : list event) : nat := length (filter (fun ev => isTurnStart ev = true) l).

Lemma turnStarts_app l l' : turnStarts (l ++ l') = (turnStarts l + turnStarts l')%nat.
Proof. unfold turnStarts. by rewrite filter_app, length_app. Qed.

Lemma turnStarts_one ev : turnStarts [ev] = if isTurnStart ev then 1%nat else 0%nat.
Proof. by destruct ev. Qed.

(** A step that starts no turn and stays in the same one. *)
Definition sameTurn (s s' : St W) : Prop :=
  turn (run_ s') = turn (run_ s) /\ turnStarts (log s') = turnStarts (log s).

#[export] Instance sameTurn_preorder : PreOrder sameTurn.
Proof. split; [done|]. intros ??? [] []. split; congruence. Qed.

Abbreviation stays := (keeping (W := W) sameTurn).

Lemma sameTurn_worldly : worldly sameTurn.
Proof. by intros s h. Qed.

Lemma stays_modify f : frames f -> keeps sameTurn (modify f).
Proof. intros Hf. apply keeps_modify. intros s. destruct (Hf (run_ s)) as (_ & _ & _ & Ht). split; [exact Ht|done]. Qed.

Lemma stays_emit k f : sends k f -> k <> KTurnStart -> keeps sameTurn (emit f).
Proof.
  intros Hf Hk. apply keeps_emit; [typeclasses eauto|apply sameTurn_worldly|]. intros s. split; [done|]. upd.
  destruct (Hf (run_ s)) as [_ He]. rewrite turnStarts_app, turnStarts_one.
  destruct (f (run_ s)); simplify_eq/=; try lia; congruence.
Qed.

Lemma stays_appendItem i g f : frames g -> keeps sameTurn (appendItem i g f).
Proof.
  intros Hg. apply keeps_appendItem; [typeclasses eauto|apply sameTurn_worldly|]. intros s. cbv zeta.
  destruct (Hg (run_ s)) as (_ & _ & _ & Ht). split; [upd; exact Ht|]. upd.
  rewrite turnStarts_app, turnStarts_one. cbn [isTurnStart]. lia.
Qed.

#[export] Instance stays_RunLogic : RunLogic stays.
Proof.
  apply keeps_RunLogic; [typeclasses eauto|apply worldly_asked, sameTurn_worldly|apply stays_modify| |].
  - intros f Hf. by eapply stays_emit.
  - intros i g f Hg _. by apply stays_appendItem.
Qed.

#[export] Instance stays_RetryLogic : RetryLogic stays.
Proof. intros f Hf. by eapply stays_emit. Qed.

#[export] Instance stays_ToolLogic : ToolLogic stays.
Proof. split; unfold obeys, keeping; intros; by eapply stays_emit. Qed.

(** A state in turn [n], at most [k] turns started. *)
Definition inTurn (n : Z) (k : nat) (s : St W) : Prop := turn (run_ s) = n /\ (turnStarts (log s) <= k)%nat.
Definition started_ (k : nat) (s : St W) : Prop := (turnStarts (log s) <= k)%nat.

Lemma stays_triple {A} (m : M W A) n k : obeys stays m -> triple (inTurn n k) m (fun _ => inTurn n k) (started_ k).
Proof.
  intros Hm s [Ht Hk]. specialize (Hm s) as [Ht' Hk']. unfold inTurn, started_.
  destruct (m s) as [[a|e| |] s']; simpl in *; rewrite Hk', ?Ht'; done.
Qed.

Lemma modelTurn_triple tools n k :
  triple (inTurn n k) (modelTurn tools) (fun _ => inTurn n (S k)) (started_ (S k)).
Proof.
  assert (forall A (m : M W A), obeys stays m ->
    triple (inTurn n k) m (fun _ => inTurn n k) (started_ (S k))) as Hstay.
  { intros A m Hm. eapply triple_conseq; [by apply stays_triple|done|done|]. unfold started_. intros. lia. }
  unfold modelTurn. eapply triple_bind; [apply Hstay; unfold request; walk|]. intros [req b].
  eapply triple_bind; [apply Hstay; walk|]. intros q.
  eapply triple_bind with (Mid := fun _ => inTurn n (S k)).
  { intros s [Ht Hk]. unfold emit, inTurn, started_. destruct (send env _ _) as [[e|] h]; upd.
    all: rewrite turnStarts_app, turnStarts_one; cbn [isTurnStart]; repeat split; try done; lia. }
  intros ?. eapply triple_bind; [apply stays_triple; walk|]. intros r.
  apply stays_triple. eapply logic_attempts; try typeclasses eauto. unfold obeys, keeping. keeps.
Qed.

(** One turn of a run moves it to the next turn number, starts at most one, and
    is followed by another only below the configuration's MaxTurns. *)
Lemma oneTurn_triple n k :
  triple (inTurn n k) oneTurn
    (fun more s => inTurn (n + 1) (S k) s /\ (more = true -> 0 < cf_MaxTurns (cfg env) -> n + 1 < cf_MaxTurns (cfg env)))
    (started_ (S k)).
Proof.
  assert (forall A (m : M W A) n k, obeys stays m ->
    triple (inTurn n k) m (fun _ => inTurn n k) (started_ (S k))) as Hstay.
  { intros A m n' k' Hm. eapply triple_conseq; [by apply stays_triple|done|done|]. unfold started_. intros. lia. }
  unfold oneTurn. eapply triple_bind; [apply Hstay; walk|]. intros [[e cause]|].
  { apply triple_fail. unfold inTurn, started_. intros s [_ ?]. lia. }
  eapply triple_bind with (Mid := fun _ => inTurn (n + 1) k).
  { intros s [Ht Hk]. unfold modify, inTurn. upd. rewrite Ht. split; [lia|done]. }
  intros ?. eapply triple_bind; [apply Hstay; walk|]. intros ?.
  eapply triple_bind; [apply Hstay; walk|]. intros tools.
  eapply triple_bind; [apply modelTurn_triple|]. intros resp.
  eapply triple_bind; [apply stays_triple; walk|]. intros [results deferred].
  eapply triple_bind; [apply stays_triple; walk|]. intros ?.
  unfold afterTurn. destruct deferred as [|c deferred].
  2: { eapply triple_bind; [apply stays_triple; walk|]. intros ?. apply triple_fail. by intros s []. }
  eapply triple_bind; [apply stays_triple; walk|]. intros ?. destruct (terminates results) as [cause []].
  { eapply triple_bind; [apply stays_triple; walk|]. intros ?. apply triple_fail. by intros s []. }
  eapply triple_bind; [apply triple_get|]. intros r.
  assert (forall m : M W bool, obeys stays m -> turn r = n + 1 ->
    (forall s, (m s).1 = Ok true -> 0 < cf_MaxTurns (cfg env) -> n + 1 < cf_MaxTurns (cfg env)) ->
    triple (inTurn (n + 1) (S k)) m
      (fun more s => inTurn (n + 1) (S k) s /\
        (more = true -> 0 < cf_MaxTurns (cfg env) -> n + 1 < cf_MaxTurns (cfg env))) (started_ (S k))) as Hlast.
  { intros m Hm Hr Hb s Hs. pose proof (stays_triple m (n + 1) (S k) Hm s Hs) as Ht. specialize (Hb s).
    destruct (m s) as [[more|e| |] s']; try done. split; [done|]. intros ->. by apply Hb. }
  intros s [-> Hs]. eapply Hlast; [|by destruct Hs| |exact Hs].
  - walk.
  - intros s' Hmore Hmax. destruct Hs as [Ht _]. rewrite Ht in Hmore.
    destruct ((0 <? cf_MaxTurns (cfg env)) && (cf_MaxTurns (cfg env) <=? n + 1)) eqn:E.
    + exfalso. unfold bind in Hmore. destruct (ending s') as [[waiting|e| |] s'']; try done.
      by destruct (_ || _).
    + apply andb_false_iff in E as [E%Z.ltb_ge|E%Z.leb_gt]; lia.
Qed.

(** Turns from the start of turn [n + 1], with fuel for the turns the configuration
    allows. *)
Lemma turns_triple fuel n k :
  0 < cf_MaxTurns (cfg env) -> n < cf_MaxTurns (cfg env) ->
  (Z.to_nat (cf_MaxTurns (cfg env) - n) <= fuel)%nat ->
  let all := (k + Z.to_nat (cf_MaxTurns (cfg env) - n))%nat in
  triple (inTurn n k) (turns fuel) (fun _ => started_ all) (started_ all) /\
  (forall s, inTurn n k s -> (turns fuel s).1 <> OutOfFuel).
Proof.
  intros Hmax. revert n k. induction fuel as [|fuel IH]; intros n k Hn Hf; cbv zeta; [lia|].
  assert (forall s, inTurn n k s -> match turns (S fuel) s with
    | (Ok _, s') => started_ (k + Z.to_nat (cf_MaxTurns (cfg env) - n)) s'
    | (OutOfFuel, _) => False
    | (_, s') => started_ (k + Z.to_nat (cf_MaxTurns (cfg env) - n)) s' end) as Hall.
  2: { split; intros s Hs; specialize (Hall s Hs); by destruct (turns (S fuel) s) as [[] ?]. }
  intros s Hs. cbn [turns]. unfold bind. pose proof (oneTurn_triple n k s Hs) as Ht.
  pose proof (oneTurn_ends s) as He.
  destruct (oneTurn s) as [[more|e| |] s1]; try done; unfold started_ in *; try lia.
  destruct Ht as [Ht Hmore]. destruct more.
  - destruct (IH (n + 1) (S k)) as [IH1 IH2]; [by apply Hmore|specialize (Hmore eq_refl Hmax); lia|].
    specialize (IH1 s1 Ht). specialize (IH2 s1 Ht). specialize (Hmore eq_refl Hmax).
    replace (S k + Z.to_nat (cf_MaxTurns (cfg env) - (n + 1)))%nat
      with (k + Z.to_nat (cf_MaxTurns (cfg env) - n))%nat in IH1 by lia.
    destruct (turns fuel s1) as [[] ?]; try done.
  - unfold ret. destruct Ht as [_ Ht]. lia.
Qed.

(** A result that is not out of fuel, in a state with at most [k] turns started. *)
Definition within {A} (k : nat) (r : res A * St W) : Prop :=
  match r with (OutOfFuel, _) => False | (_, s') => started_ k s' end.

Lemma loop_within fuel prompts aps terminate s k :
  0 < cf_MaxTurns (cfg env) -> (Z.to_nat (cf_MaxTurns (cfg env)) <= fuel)%nat -> inTurn 0 k s ->
  within (k + Z.to_nat (cf_MaxTurns (cfg env))) (loop fuel prompts aps terminate s).
Proof.
  intros Hmax Hfuel [Ht Hk]. unfold loop, bind at 1, emit. destruct (send env _ _) as [e h].
  set (s1 := s <| sh := h |> <| log ::= fun l => l ++ [runStart prompts aps (run_ s)] |>).
  assert (inTurn 0 k s1) as Hs1.
  { split; [exact Ht|]. unfold s1. upd. rewrite turnStarts_app, turnStarts_one. cbn. lia. }
  destruct e as [e|]; [unfold within, started_; destruct Hs1; lia|].
  assert (obeys stays (begin_ prompts aps terminate)) as Hb by walk.
  assert (obeys ends (begin_ prompts aps terminate)) as He by walk.
  pose proof (stays_triple _ 0 k Hb s1 Hs1) as Hb1. specialize (He s1). unfold bind.
  destruct (begin_ prompts aps terminate s1) as [[u|e| |] s2]; try done; unfold within, started_ in *; try lia.
  destruct terminate; [destruct Hb1; cbn; lia|].
  destruct (turns_triple fuel 0 k Hmax Hmax) as [H1' H2']; [lia|]. specialize (H1' s2 Hb1). specialize (H2' s2 Hb1).
  rewrite Z.sub_0_r in H1'. by destruct (turns fuel s2) as [[] ?].
Qed.

(** C17: MaxTurns bounds a run and ends it. A run of a configuration with a positive
    MaxTurns, given fuel for that many turns, comes to its end, whatever the model,
    the tools, the hooks and the consumer do and however the calls of the model fail
    and are retried; and it starts at most that many turns. *)
Theorem run_bounded fuel prompts aps terminate s :
  0 < cf_MaxTurns (cfg env) -> turn (run_ s) = 0 -> (Z.to_nat (cf_MaxTurns (cfg env)) <= fuel)%nat ->
  (run fuel prompts aps terminate s).1 <> OutOfFuel /\
  (turnStarts (log (run fuel prompts aps terminate s).2) <=
   turnStarts (log s) + Z.to_nat (cf_MaxTurns (cfg env)))%nat.
Proof.
  intros Hmax Ht Hfuel. assert (within (turnStarts (log s) + Z.to_nat (cf_MaxTurns (cfg env)))
    (run fuel prompts aps terminate s)) as Hrun.
  2: { destruct (run fuel prompts aps terminate s) as [[] s']; try done. }
  unfold run, bind at 1. destruct (startRun_run s) as (s1 & -> & Hl1 & _ & _ & _ & Ht1).
  assert (inTurn 0 (turnStarts (log s)) s1) as Hs1 by (split; [congruence|rewrite Hl1; lia]).
  pose proof (loop_within fuel prompts aps terminate s1 _ Hmax Hfuel Hs1) as Hloop.
  assert (forall err s2, started_ (turnStarts (log s) + Z.to_nat (cf_MaxTurns (cfg env))) s2 ->
    within (turnStarts (log s) + Z.to_nat (cf_MaxTurns (cfg env)))
      ((let! e := runEnd err in let! _ := try (emit (fun _ => EvRunEnd e)) in ret e) s2)) as Hend.
  { intros err s2 Hs2. unfold bind at 1. destruct (runEnd_run err s2) as (e & s3 & -> & Hl3 & _).
    unfold bind, try, emit, ret, within, started_ in *. destruct (send env _ _) as [[e'|] h]; upd;
      rewrite turnStarts_app, turnStarts_one, Hl3; cbn; lia. }
  unfold bind at 1, errOf. destruct (loop fuel prompts aps terminate s1) as [[u|e| |] s2]; try done; by apply Hend.
Qed.

End TurnCount.

(** ** The retries of a turn *)
Section Retries.
Context `{Externals} `{Tools} `{Accumulator} {W : Type} {env : Env W}.

Definition retries (l : list event) : nat := length (filter (fun ev => kindOf ev = KModelRetry) l).

(** A step that retries nothing. *)
Definition sameRetries (s s' : St W) : Prop := retries (log s') = retries (log s).

#[export] Instance sameRetries_preorder : PreOrder sameRetries.
Proof. split; [done|]. unfold sameRetries. congruence. Qed.

Lemma retries_event (s : St W) ev :
  retries (log s ++ [ev]) = (retries (log s) + if bool_decide (kindOf ev = KModelRetry) then 1 else 0)%nat.
Proof.
  unfold retries. rewrite filter_app, length_app, filter_cons, filter_nil. by destruct ev.
Qed.

Lemma retries_other (s : St W) ev : kindOf ev <> KModelRetry -> retries (log s ++ [ev]) = retries (log s).
Proof. intros Hk. by rewrite retries_event, bool_decide_eq_false_2, Nat.add_0_r. Qed.

#[export] Instance sameRetries_RunLogic : RunLogic (keeping sameRetries).
Proof.
  apply keeps_RunLogic; [typeclasses eauto|apply worldly_asked; by intros s h| | |].
  - intros f _. by apply keeps_modify.
  - intros f Hf. apply keeps_emit; [typeclasses eauto|by intros s h|]. intros s. unfold sameRetries. upd.
    destruct (Hf (run_ s)) as [_ Hk]. apply retries_other. by rewrite Hk.
  - intros i g f _ _. apply keeps_appendItem; [typeclasses eauto|by intros s h|]. intros s. cbv zeta. unfold sameRetries. upd.
    by apply retries_other.
Qed.

(** A program that retries at most [k] times. *)
Definition costs {A} (k : nat) (m : M W A) : Prop := forall s, (retries (log (m s).2) <= retries (log s) + k)%nat.

Lemma costs_free {A} k (m : M W A) : obeys (keeping sameRetries) m -> costs k m.
Proof. intros Hm s. specialize (Hm s). unfold sameRetries in Hm. lia. Qed.

Lemma costs_bind {A B} k k' (m : M W A) (f : A -> M W B) :
  costs k m -> (forall a, costs k' (f a)) -> costs (k + k') (bind m f).
Proof.
  intros Hm Hf s. specialize (Hm s). unfold bind. destruct (m s) as [[a|e| |] s1]; cbn in *; try lia.
  specialize (Hf a s1). lia.
Qed.

Lemma costs_after {A B} k (m : M W A) (f : A -> M W B) :
  obeys (keeping sameRetries) m -> (forall a, costs k (f a)) -> costs k (bind m f).
Proof. intros Hm Hf. apply (costs_bind 0 k); [by apply costs_free|done]. Qed.

Lemma costs_retry call delay err req : costs 1 (retry call delay err req).
Proof.
  apply costs_after; [walk|]. intros q s. unfold emit. match goal with |- context [send env ?x _] => set (ev := x) end.
  destruct (send env ev _) as [[e|] h]; cbn [snd]; upd; rewrite retries_event, bool_decide_eq_true_2 by done; lia.
Qed.

(** How often a turn may still retry: the attempts the policy has left, and once for
    a fold when there is a transform to fold with. *)
Definition retriesLeft (attempt : Z) (folded : bool) : nat :=
  (Z.to_nat (MaxAttempts (cf_Retry (cfg env)) - attempt) +
   (if folded || negb (bool_decide (is_Some (cf_Transform (cfg env)))) then 0 else 1))%nat.

Lemma attempts_costs fuel tools start call attempt folded revised req b :
  costs (retriesLeft attempt folded) (attempts fuel tools start call attempt folded revised req b).
Proof.
  revert call attempt folded revised req b.
  induction fuel as [|fuel IH]; intros call attempt folded revised req b; cbn [attempts].
  { apply costs_free. by intros s. }
  apply costs_after; [walk|]. intros [[resp committed] err]. apply costs_after; [walk|]. intros _.
  destruct err as [err|]; [|destruct resp; apply costs_free; walk]. destruct (asStop err); [apply costs_free; walk|].
  apply costs_after; [walk|]. intros [[? cause]|]; [apply costs_free; walk|].
  destruct (errIs err ErrGuard); [apply costs_free; walk|]. cbv zeta.
  match goal with |- costs _ (if ?f then _ else _) => destruct f eqn:Ef end.
  - apply andb_true_iff in Ef as [[[Hc Hf]%andb_true_iff Ht]%andb_true_iff _]. apply negb_true_iff in Hf as ->.
    assert (retriesLeft attempt false = 1 + retriesLeft attempt true)%nat as Hl.
    { unfold retriesLeft. rewrite Ht. cbn. lia. }
    apply costs_after; [walk|]. intros [next nb]. destruct (sameItems _ _).
    + destruct (_ || _) eqn:Eg; [apply costs_free; walk|].
      apply orb_false_iff in Eg as [[_ Ea%Z.leb_gt]%orb_false_iff _].
      assert (retriesLeft attempt false = 1 + (1 + retriesLeft (attempt + 1) true))%nat as -> by (unfold retriesLeft in *; cbn in *; lia).
      apply costs_after; [walk|]. intros [[b' req'] moved]. apply costs_bind; [apply costs_retry|]. intros _.
      apply costs_after; [walk|]. intros [w|]; [apply costs_free; unfold abortedStop; walk|].
      intros s. specialize (IH (call + 1) (attempt + 1) (false || true) (revised || moved) req' b' s). cbn in IH |- *. lia.
    + rewrite Hl. apply costs_bind; [apply costs_retry|]. intros _. apply IH.
  - destruct (_ || _) eqn:Eg; [apply costs_free; walk|].
    apply orb_false_iff in Eg as [[_ Ea%Z.leb_gt]%orb_false_iff _].
    assert (retriesLeft attempt folded = 1 + retriesLeft (attempt + 1) folded)%nat as -> by (unfold retriesLeft; lia).
    apply costs_after; [walk|]. intros [[b' req'] moved]. apply costs_bind; [apply costs_retry|]. intros _.
    apply costs_after; [walk|]. intros [w|]; [apply costs_free; unfold abortedStop; walk|].
    rewrite orb_false_r. apply IH.
Qed.

(** C32: a turn retries no more than its policy says. Whatever the model answers, it is
    called again at most once for each attempt the policy has after the first, and
    once more for a fold, which needs a transform: with neither, a failure is final. *)
Theorem modelTurn_retries tools s :
  (retries (log (modelTurn tools s).2) <=
   retries (log s) + Z.to_nat (MaxAttempts (cf_Retry (cfg env)) - 1) +
   if bool_decide (is_Some (cf_Transform (cfg env))) then 1 else 0)%nat.
Proof.
  assert (costs (retriesLeft 1 false) (modelTurn tools)) as Hc.
  { unfold modelTurn, request. apply costs_after; [walk|]. intros [req b]. apply costs_after; [walk|]. intros q.
    apply costs_after.
    - apply keeps_emit; [typeclasses eauto|by intros s0 h|]. intros s0. unfold sameRetries. upd. by apply retries_other.
    - intros _. apply costs_after; [walk|]. intros r. apply attempts_costs. }
  specialize (Hc s). unfold retriesLeft in Hc. cbn [orb] in Hc. destruct (bool_decide _); cbn [negb] in Hc; lia.
Qed.

End Retries.

(** Two turns, each a call of the tool, and a third the configuration refuses. *)
Lemma run_bounded_witness :
  let s := Toy.state [] in
  let run := run (H := Toy.externals) (H0 := Toy.tools) (H1 := Toy.accumulator) (env := Toy.environment 5%nat) 2
    [Plain (Toy.message "hi")] [] false s in
  turn (run_ s) = 0 /\ run.1 <> OutOfFuel /\ (turnStarts (log run.2) <= 2)%nat /\
  turnStarts (log run.2) = 2%nat.
Proof.
  cbv zeta. split; [done|].
  destruct (run_bounded (H := Toy.externals) (H0 := Toy.tools) (H1 := Toy.accumulator) (env := Toy.environment 5%nat)
    2 [Plain (Toy.message "hi")] [] false (Toy.state [])) as [H1 H2]; [vm_compute; done|done|vm_compute; lia|].
  split; [exact H1|]. split; [exact H2|]. vm_compute. reflexivity.
Defined.
