(* ===== verification/Ends.v ===== *)
(** * Ends: how a run ends, and what it leaves pending. *)

From S2P Require Export Trace.


Section Pending.
Context `{Externals} `{Tools} {W : Type} {env : Env W}.

Lemma reasoned_frame r c : p_Call (reasoned r c) = Some c /\ p_Notes (reasoned r c) = [].
Proof.
  unfold reasoned. destruct (deferred r !! _); [by split|]. destruct (dispatched r !! _); [by split|].
  destruct (priorOf _) as [b|]; [|destruct (_ || _ : bool); by split].
  destruct (MayHaveRun b); destruct (_ : bool); by split.
Qed.

(** Notes are said of the last call alone. *)
Lemma alter_last_notes (l : list PendingCall) ns :
  l <> [] -> Forall (fun p => p_Notes p = []) l ->
  concat (map p_Notes (alter (fun p => p <| p_Notes := ns |>) (length l - 1)%nat l)) = ns.
Proof.
  intros Hne Hl. induction Hl as [|p l Hp Hl IH]; [done|]. destruct l as [|q l].
  - simpl. by rewrite app_nil_r.
  - replace (length (p :: q :: l) - 1)%nat with (S (length (q :: l) - 1)) by (simpl; lia).
    change (p_Notes p ++ concat (map p_Notes (alter (fun p => p <| p_Notes := ns |>) (length (q :: l) - 1)%nat (q :: l))) = ns).
    rewrite Hp. by apply IH.
Qed.

(** Whether the loop had the call in its own hands in this run. *)
Definition handled (r : runner) (c : callRef) : bool :=
  bool_decide (callID c ∈ undispatched r) || isMine r c || bool_decide (callID c ∈ approved r).

(** Why a call is pending, by what this run did with it and what was known of it. *)
Definition whyPending (r : runner) (c : callRef) (p : PendingCall) : Prop :=
  match deferred r !! callID c, dispatched r !! callID c, priorOf (callID c) with
  | Some held, _, _ => p_Reason p = PendingDeferred /\ p_Decision p = Some (hc_decision held)
  | None, Some h, _ => p_Reason p = PendingAborted /\ p_IdempotencyKey p = ho_key h
  | None, None, Some b =>
      if MayHaveRun b then
        MayHaveRun p = true /\ p_IdempotencyKey p = p_IdempotencyKey b /\ p_Args p = p_Args b
      else p_Reason p = if handled r c then PendingUndispatched else p_Reason b
  | None, None, None => p_Reason p = if handled r c then PendingUndispatched else PendingUnknown
  end.

Lemma reasoned_why r c : whyPending r c (reasoned r c).
Proof.
  unfold whyPending, reasoned, handled. destruct (deferred r !! _); [by split|]. destruct (dispatched r !! _); [by split|].
  destruct (priorOf _) as [b|]; [|by destruct (_ || _ : bool)].
  destruct (MayHaveRun b) eqn:Em; [|by destruct (_ || _ : bool)].
  destruct (bool_decide (p_Reason b = PendingDeferred) && _); split_and!; try done; exact Em.
Qed.

(** The notes waiting are those of the pending calls together. *)
Lemma pending_notes (r : runner) : pending r <> [] -> concat (map p_Notes (pending r)) = notes r.
Proof.
  intros Hne. unfold pending. apply alter_last_notes.
  - intros Hnil. apply Hne. unfold pending. by rewrite Hnil.
  - apply Forall_map, Forall_true. intros c. by apply (reasoned_frame r c).
Qed.

(** A run's pending list is exact: the calls it lists are those of the transcript
    without an output, in order; every note still waiting is on it, as many times as
    it waits; and each call says why as this run and the ones before left it: deferred
    with the decision that deferred it, handed over and then cut off with the key it
    was handed over with, never handed over, or as ambiguous as it was before, with
    the key it then had. *)
Theorem pending_spec (r : runner) :
  map p_Call (pending r) = map Some (unansweredCalls (transcript r)) /\
  (pending r <> [] -> concat (map p_Notes (pending r)) = notes r) /\
  (forall i c, unansweredCalls (transcript r) !! i = Some c ->
     exists p, pending r !! i = Some p /\ p_Call p = Some c /\ whyPending r c p).
Proof.
  assert (forall c, p_Call (pendingOne r c) = Some c) as Hc by (intros c; apply reasoned_frame).
  split_and!.
  - unfold pending. rewrite map_alter_other by done. rewrite map_map. apply map_ext. done.
  - apply pending_notes.
  - intros i c Hi. unfold pending. set (ps := map _ _).
    assert (ps !! i = Some (pendingOne r c)) as Hp.
    { change ps with (pendingOne r <$> unansweredCalls (transcript r)). rewrite list_lookup_fmap. by rewrite Hi. }
    destruct (decide (i = (length ps - 1)%nat)) as [->|Hn].
    + rewrite list_lookup_alter_eq, Hp. eexists. split; [done|]. split; [by upd|].
      exact (reasoned_why r c).
    + rewrite list_lookup_alter_ne by done. exists (pendingOne r c). split; [done|]. split; [done|exact (reasoned_why r c)].
Qed.

End Pending.

(** ** The conclusion of a run *)
Section Conclusion.
Context `{Externals} `{Tools} `{Accumulator} {W : Type} {env : Env W}.

(** What a run_end says of a loop that returned [err] while the context was [done]. *)
Definition concluded (err : option error) (done : option (error * error)) (e : RunEnd) : Prop :=
  match err with
  | None => re_Reason e = ReasonDone /\ re_Err e = None
  | Some f =>
      match asStop f, done with
      | Some (reason, cause, stopped, withheld), _ =>
          re_Reason e = reason /\ re_Cause e = cause /\ re_Err e = stopped /\ re_WithheldMsg e = withheld
      | None, Some (_, cause) =>
          re_Reason e = ReasonAborted /\
          exists told, re_Err e = Some told /\ isError told cause = true /\
            (isError f cause = true \/ isError told f = true /\ re_Failure e = Some f)
      | None, None => re_Reason e = ReasonError /\ re_Err e = Some f
      end
  end.

Lemma isError_refl e : isError e e = true.
Proof. destruct e; simpl; by rewrite bool_decide_eq_true_2. Qed.

Lemma isError_Join e f : isError (Join e f) e = true /\ isError (Join e f) f = true.
Proof. cbn [isError]. rewrite !isError_refl. split; by rewrite ?orb_true_l, ?orb_true_r. Qed.

Lemma runEnd_concluded err s e s' :
  runEnd err s = (Ok e, s') -> concluded err (ctxErr env (sh s)).1 e.
Proof.
  assert (forall s : St W, exists b s', ending s = (Ok b, s')) as Hend.
  { intros s0. unfold ending, ret, ask. destruct (closing env) as [c|]; [destruct (c (sh s0))|]; eauto. }
  unfold runEnd, concluded, bind at 1. destruct err as [f|].
  - destruct (asStop f) as [[[[reason cause] stopped] withheld]|] eqn:Es; unfold conclude; rewrite Es.
    + unfold ret, bind. destruct (Hend s) as (b & s1 & ->). cbn. intros [= <- <-]. by split_and!.
    + unfold ctxDone, ask, bind at 1. destruct (ctxErr env (sh s)) as [done h]. cbn [fst snd].
      destruct (Hend (s <| sh := h |>)) as (b & s1 & ->). destruct done as [[ctxE cause]|]; cbn.
      * destruct (isError f cause) eqn:Ei; intros [= <- <-]; (split; [done|]).
        -- exists cause. rewrite isError_refl. by eauto.
        -- exists (Join cause f). destruct (isError_Join cause f) as [-> ->]. by eauto.
      * intros [= <- <-]. by split.
  - unfold ret, bind. destruct (Hend s) as (b & s1 & ->). cbn. intros [= <- <-]. by split.
Qed.

(** C31: a run says truly how it ended. When the loop returns, the run_end is the one
    its return calls for: done when nothing failed; a stop's own reason, cause and
    error; an abort whenever the context was done, with its cause, and the failure
    beside it when it was another one; an error otherwise. Its pending list is that of
    the final state, and the notes still waiting are all on it: with the pending calls
    when there are any, else on the run_end. *)
Theorem run_concludes fuel prompts aps terminate s :
  match run fuel prompts aps terminate s with
  | (Ok e, s') =>
      exists err s2, errOf (loop fuel prompts aps terminate) (startRun s).2 = (Ok err, s2) /\
        run_ s' = run_ s2 /\ concluded err (ctxErr env (sh s2)).1 e /\
        re_Pending e = pending (run_ s') /\
        concat (map p_Notes (re_Pending e)) ++ re_Notes e = notes (run_ s')
  | _ => True
  end.
Proof.
  unfold run. destruct (startRun_run s) as (s1 & Hs & _). unfold bind at 1. rewrite Hs. cbn [snd].
  unfold bind at 1. destruct (errOf (loop fuel prompts aps terminate) s1) as [[err|e| |] s2] eqn:El; try done.
  unfold bind at 1. destruct (runEnd_run err s2) as (e & s3 & He & _ & Hr & _ & _ & Hp & Hn).
  rewrite He. unfold bind, try, emit, ret.
  assert (concat (map p_Notes (re_Pending e)) ++ re_Notes e = notes (run_ s2)) as Hnotes.
  { rewrite Hp, Hn. case_bool_decide as Hnil.
    - by rewrite Hnil.
    - rewrite app_nil_r. by apply pending_notes. }
  destruct (send env (EvRunEnd e) (sh s3)) as [[e'|] h]; cbn beta iota; exists err, s2; upd; rewrite Hr;
    (split_and!; [done|done|by eapply runEnd_concluded|done|done]).
Qed.

End Conclusion.
