(* ===== verification/Pairs.v ===== *)
(** * Pairs: the response of an attempt lists the calls the attempt completed.

    [renameCalls] pairs each call the response lists with one of the attempt's. Here:
    what its passes keep of a pairing, and that the response it returns holds exactly
    the attempt's completed calls, whichever of its two rewritings it makes. *)

From S2P Require Export Attempt.

(** ** The pairing *)

(** Each index paired is that of a call of the response, with a call of the attempt
    no other index is paired with, and the calls taken are those paired. *)
Record pairingOk (output : Items) (n : nat) (p : pairing) : Prop := {
  ok_index : forall i j, paired p !! i = Some j -> exists q c, output !! i = Some (ICall q c);
  ok_range : forall i j, paired p !! i = Some j -> (j < n)%nat;
  ok_inj : forall i i' j, paired p !! i = Some j -> paired p !! i' = Some j -> i = i';
  ok_taken : forall j, j ∈ taken p <-> exists i, paired p !! i = Some j;
}.

Lemma pairingOk_empty output n : pairingOk output n (Pairing ∅ ∅).
Proof.
  split; cbn; intros *; rewrite ?lookup_empty; try done. split; [set_solver|].
  intros [i Hi]. by rewrite lookup_empty in Hi.
Qed.

Lemma pairingOk_insert output n p i j q c :
  pairingOk output n p -> output !! i = Some (ICall q c) -> paired p !! i = None -> (j < n)%nat -> j ∉ taken p ->
  pairingOk output n (Pairing (<[i := j]> (paired p)) ({[ j ]} ∪ taken p)).
Proof.
  intros [Hi Hr Hj Ht] Hc Hn Hlt Hfree. split; cbn.
  - intros i' j' [[<- <-]|[Hne H]]%lookup_insert_Some; eauto.
  - intros i' j' [[<- <-]|[Hne H]]%lookup_insert_Some; eauto.
  - intros i1 i2 j' [[<- <-]|[Hne1 H1]]%lookup_insert_Some [[<- E]|[Hne2 H2]]%lookup_insert_Some; try done; eauto.
    + exfalso. apply Hfree, Ht. eauto.
    + exfalso. apply Hfree, Ht. exists i1. congruence.
  - intros j'. rewrite elem_of_union, elem_of_singleton, Ht. split.
    + intros [->|[i' Hi']]; [exists i; by rewrite lookup_insert_eq|]. exists i'.
      rewrite lookup_insert_ne; [done|]. intros ->. congruence.
    + intros [i' [[-> ->]|[Hne H]]%lookup_insert_Some]; [by left|right; eauto].
Qed.

(** The calls the pairing may use grow at the end. *)
Lemma pairingOk_weaken output n n' p : (n <= n')%nat -> pairingOk output n p -> pairingOk output n' p.
Proof. intros Hle [Hi Hr Hj Ht]. split; [done| |done..]. intros i j E. specialize (Hr i j E). lia. Qed.

Lemma firstFree_free ok tk cs n j :
  firstFree ok tk cs n = Some j -> (n <= j < n + length cs)%nat /\ j ∉ tk.
Proof.
  revert n. induction cs as [|o cs IH]; intros n; [done|]. cbn [firstFree length].
  destruct (negb (bool_decide (n ∈ tk)) && ok o) eqn:E.
  - intros [= <-]. apply andb_true_iff in E as [E _]. apply negb_true_iff, bool_decide_eq_false in E. split; [lia|done].
  - intros H. destruct (IH _ H). split; [lia|done].
Qed.

Lemma pair_ok output ok cs i p q c :
  output !! i = Some (ICall q c) -> pairingOk output (length cs) p -> pairingOk output (length cs) (pair_ ok cs i p).
Proof.
  intros Hc Hp. unfold pair_. destruct (paired p !! i) eqn:Ei; [done|].
  destruct (firstFree ok (taken p) cs 0) as [j|] eqn:Ej; [|done]. apply firstFree_free in Ej as [? ?].
  eapply pairingOk_insert; [done|done|done|lia|done].
Qed.

Lemma each_ok output pass n rest i p :
  (forall i q c p, output !! i = Some (ICall q c) -> pairingOk output n p -> pairingOk output n (pass i c p)) ->
  drop i output = rest -> pairingOk output n p -> pairingOk output n (each pass rest i p).
Proof.
  intros Hpass. revert i p. induction rest as [|x rest IH]; intros i p Hd Hp; [done|]. cbn [each].
  assert (output !! i = Some x) as Hi.
  { rewrite <- (Nat.add_0_r i), <- lookup_drop, Hd. done. }
  apply IH.
  - pose proof (drop_S _ _ _ Hi) as Hs. rewrite Hd in Hs. by injection Hs.
  - destruct x; try done. destruct (paired p !! i); [done|]. by eapply Hpass.
Qed.

Lemma pairUp_ok cs output : pairingOk output (length cs) (pairUp cs output).
Proof.
  unfold pairUp. repeat (apply each_ok; [|done|]); [..|apply pairingOk_empty]; intros i q c p Hi Hp.
  - by eapply pair_ok.
  - by eapply pair_ok.
  - unfold byCallID. case_bool_decide; [done|]. by eapply pair_ok.
  - by eapply pair_ok.
  - unfold byItemID. case_bool_decide; [done|]. by do 2 (eapply pair_ok; [done|]).
Qed.

(** ** Calls at positions *)

Lemma entries_all os : entries os (seq 0 (length os)) = os.
Proof.
  apply list_eq. intros i. unfold entries. change (map ?f ?l) with (f <$> l).
  rewrite list_lookup_fmap. destruct (os !! i) as [o|] eqn:Ei.
  - pose proof (lookup_lt_Some _ _ _ Ei). rewrite lookup_seq_lt by done. simpl. by rewrite Ei.
  - apply lookup_ge_None in Ei. by rewrite lookup_seq_ge.
Qed.

Lemma calls_done_none os : Forall (fun o => isCall (o_done o) = false) os -> calls (map o_done os) = [].
Proof.
  induction 1 as [|o os Ho _ IH]; [done|]. change (map o_done (o :: os)) with ([o_done o] ++ map o_done os).
  rewrite calls_app, IH. by destruct (o_done o).
Qed.

Lemma calls_perm t u : t ≡ₚ u -> calls t ≡ₚ calls u.
Proof. intros Hp. unfold calls. by rewrite Hp. Qed.

(** Positions that are each used once and reach every entry done with a call reach
    every call. *)
Lemma entries_calls os at_ :
  NoDup at_ -> (forall i, i ∈ at_ -> (i < length os)%nat) ->
  (forall i o, os !! i = Some o -> i ∉ at_ -> isCall (o_done o) = false) ->
  calls (map o_done (entries os at_)) ≡ₚ calls (map o_done os).
Proof.
  intros Hnd Hlt Hrest.
  assert (at_ ⊆+ seq 0 (length os)) as [rest Hp]%submseteq_Permutation.
  { apply NoDup_submseteq; [done|]. intros i Hi. apply elem_of_seq. specialize (Hlt i Hi). lia. }
  assert (calls (map o_done (entries os (at_ ++ rest))) ≡ₚ calls (map o_done os)) as <-.
  { rewrite <- (entries_all os) at 2. apply calls_perm. unfold entries. change (map ?f ?l) with (f <$> l).
    by rewrite Hp. }
  unfold entries. rewrite !map_app, calls_app. rewrite (calls_done_none (map _ rest)); [by rewrite app_nil_r|].
  apply Forall_forall. intros o Ho. change (map ?f ?l) with (f <$> l) in Ho.
  apply list_elem_of_fmap in Ho as (i & -> & Hi).
  assert (NoDup (at_ ++ rest)) as Hnd' by (rewrite <- Hp; apply NoDup_seq).
  assert (i < length os)%nat as Hi'.
  { assert (i ∈ seq 0 (length os)) as Hs by (rewrite Hp; set_solver). apply elem_of_seq in Hs. lia. }
  destruct (lookup_lt_is_Some_2 os i Hi') as [o Ho]. rewrite Ho. cbn.
  apply (Hrest i o Ho). intros Ha. apply NoDup_app in Hnd' as (_ & Hd & _). by apply (Hd i).
Qed.

Lemma calls_replaceCalls output held placed :
  calls (replaceCalls output held placed) = if placed then [] else calls held.
Proof.
  revert placed. induction output as [|i output IH]; intros placed; cbn [replaceCalls].
  - by destruct placed.
  - destruct (isCall i) eqn:Ei.
    + rewrite calls_app, IH, app_nil_r. by destruct placed.
    + change (i :: ?l) with ([i] ++ l). rewrite calls_app, IH. by destruct i.
Qed.

Lemma calls_transcriptCalls cs :
  Forall (fun o => completed o = true -> isCall (o_done o) = true) cs ->
  Forall (fun o => o_fromResponse o = true -> completed o = true) cs ->
  calls (transcriptCalls cs) ≡ₚ calls (map o_done cs).
Proof.
  intros Hc Hr. unfold transcriptCalls. rewrite calls_app.
  induction cs as [|o cs IH]; [done|]. apply Forall_cons in Hc as [Ho Hc], Hr as [Hor Hr].
  specialize (IH Hc Hr). rewrite !filter_cons. change (map o_done (o :: cs)) with ([o_done o] ++ map o_done cs).
  rewrite calls_app, <- IH. destruct (o_fromResponse o) eqn:Ef.
  - rewrite decide_False by naive_solver. rewrite decide_True by done.
    change (map o_done (o :: ?l)) with ([o_done o] ++ map o_done l). rewrite calls_app.
    by rewrite Permutation_app_swap_app.
  - rewrite (decide_False (P := false = true)) by done. destruct (completed o) eqn:Ec.
    + rewrite decide_True by done. change (map o_done (o :: ?l)) with ([o_done o] ++ map o_done l).
      by rewrite calls_app, <- app_assoc.
    + rewrite decide_False by naive_solver. unfold completed in Ec. by destruct (o_done o).
Qed.

(** ** The calls the response completes *)

(** The calls the stream itself completed. *)
Definition ownCalls (os : list openedItem) : list callRef :=
  calls (map o_done (filter (fun o => o_fromResponse o = false) os)).

Lemma ownCalls_app os os' : ownCalls (os ++ os') = ownCalls os ++ ownCalls os'.
Proof. unfold ownCalls. by rewrite filter_app, map_app, calls_app. Qed.

Lemma ownCalls_one o : ownCalls [o] = if o_fromResponse o then [] else calls [o_done o].
Proof.
  unfold ownCalls. rewrite filter_cons, filter_nil. by destruct (o_fromResponse o).
Qed.

Lemma ownCalls_alter f i o os :
  os !! i = Some o -> o_done o = Nil -> o_fromResponse (f o) = true -> ownCalls (alter f i os) = ownCalls os.
Proof.
  revert i. induction os as [|x os IH]; intros [|i] Hi Hn Hf; try done.
  - simplify_eq/=. change (ownCalls ([f o] ++ os) = ownCalls ([o] ++ os)). rewrite !ownCalls_app, !ownCalls_one, Hf, Hn.
    by destruct (o_fromResponse o).
  - change (ownCalls ([x] ++ alter f i os) = ownCalls ([x] ++ os)). rewrite !ownCalls_app. f_equal. by apply IH.
Qed.

(** While [completeCalls] goes through the response up to [index], the calls it
    tracks being at the positions [at_]. *)
Record completing (output : Items) (index : nat) (at_ : list nat) (p : pairing) (os : list openedItem) : Prop := {
  cg_pairs : pairingOk output (length at_) p;
  cg_nodup : NoDup at_;
  cg_range : forall i, i ∈ at_ -> (i < length os)%nat;
  cg_tracked : forall i o, i ∈ at_ -> os !! i = Some o -> isCall (o_done o) = true \/ o_done o = Nil;
  cg_rest : forall i o, os !! i = Some o -> i ∉ at_ -> isCall (o_done o) = false;
  cg_done : forall i q c, (i < index)%nat -> output !! i = Some (ICall q c) ->
    exists j pos o, paired p !! i = Some j /\ at_ !! j = Some pos /\ os !! pos = Some o /\ isCall (o_done o) = true;
  cg_response : forall i o, os !! i = Some o -> o_fromResponse o = true -> isCall (o_done o) = true;
}.

Lemma completing_skip output index at_ p os i :
  output !! index = Some i -> isCall i = false -> completing output index at_ p os -> completing output (S index) at_ p os.
Proof.
  intros Hi Hn [H1 H2 H3 H4 H5 H6 H7]. split; try done. intros k q c Hk Hc.
  destruct (decide (k = index)) as [->|]; [by simplify_eq/=|]. apply (H6 k q c); [lia|done].
Qed.

Lemma completing_paired output index at_ p os j pos o :
  paired p !! index = Some j -> at_ !! j = Some pos -> os !! pos = Some o -> isCall (o_done o) = true ->
  completing output index at_ p os -> completing output (S index) at_ p os.
Proof.
  intros Hj Hp Ho Hc [H1 H2 H3 H4 H5 H6 H7]. split; try done. intros k q c Hk Hout.
  destruct (decide (k = index)) as [->|]; [by exists j, pos, o|]. apply (H6 k q c); [lia|done].
Qed.

Lemma completing_fill output index at_ p os pos o f :
  os !! pos = Some o -> pos ∈ at_ -> isCall (o_done (f o)) = true ->
  completing output index at_ p os -> completing output index at_ p (alter f pos os).
Proof.
  intros Ho Hin Hf [H1 H2 H3 H4 H5 H6 H7].
  assert (forall i x, alter f pos os !! i = Some x -> i = pos /\ x = f o \/ i <> pos /\ os !! i = Some x) as Hl.
  { intros i x. destruct (decide (i = pos)) as [->|Hne].
    - rewrite list_lookup_alter_eq, Ho. intros [= <-]. by left.
    - rewrite list_lookup_alter_ne by done. by right. }
  split; try done.
  - intros i Hi. rewrite length_alter. by apply H3.
  - intros i x Hi [[-> ->]|[Hne Hx]]%Hl; [by left|by eapply H4].
  - intros i x [[-> ->]|[Hne Hx]]%Hl Hi; [done|by eapply H5].
  - intros i q c Hi Hc. destruct (H6 i q c Hi Hc) as (j & pos' & o' & Hj & Hp & Ho' & Hd).
    destruct (decide (pos' = pos)) as [->|Hne].
    + exists j, pos, (f o). by rewrite list_lookup_alter_eq, Ho.
    + exists j, pos', o'. by rewrite list_lookup_alter_ne.
  - intros i x [[-> ->]|[Hne Hx]]%Hl Hr; [done|by eapply H7].
Qed.

Lemma completing_new output index at_ p os q c o :
  output !! index = Some (ICall q c) -> paired p !! index = None -> isCall (o_done o) = true ->
  completing output index at_ p os ->
  completing output (S index) (at_ ++ [length os])
    (p <| paired ::= <[index := length at_]> |> <| taken ::= union {[ length at_ ]} |>) (os ++ [o]).
Proof.
  intros Hout Hn Ho [H1 H2 H3 H4 H5 H6 H7].
  assert (forall i x, (os ++ [o]) !! i = Some x -> os !! i = Some x \/ i = length os /\ x = o) as Hl.
  { intros i x [?|[Hge Hx]]%lookup_app_Some; [by left|right].
    apply list_lookup_singleton_Some in Hx as [? ->]. split; [lia|done]. }
  assert (length at_ ∉ taken p) as Hfree.
  { intros [i Hi]%(ok_taken _ _ _ H1). apply (ok_range _ _ _ H1) in Hi. lia. }
  split.
  - destruct p as [pr tk]. rewrite length_app. eapply (pairingOk_insert output _ (Pairing pr tk)); try done.
    + eapply pairingOk_weaken; [|done]. lia.
    + simpl. lia.
  - apply NoDup_app. split_and!; [done| |apply NoDup_singleton].
    intros x Hx ->%list_elem_of_singleton. apply H3 in Hx. lia.
  - intros i [Hi|Hi%list_elem_of_singleton]%elem_of_app; rewrite length_app; simpl; [apply H3 in Hi|]; lia.
  - intros i x Hi [Hx|[-> ->]]%Hl; [|by left]. apply elem_of_app in Hi as [Hi|Hi%list_elem_of_singleton]; [by eapply H4|].
    apply lookup_lt_Some in Hx. lia.
  - intros i x [Hx|[-> ->]]%Hl Hi; [eapply H5; [done|set_solver]|]. exfalso. set_solver.
  - intros i q' c' Hi Hc. destruct (decide (i = index)) as [->|Hne].
    + exists (length at_), (length os), o. upd. rewrite lookup_insert_eq.
      rewrite !lookup_app_r by lia. rewrite !Nat.sub_diag. done.
    + destruct (H6 i q' c') as (j & pos & o' & Hj & Hp & Ho' & Hd); [lia|done|]. exists j, pos, o'. upd.
      rewrite lookup_insert_ne by done. split_and!; [done| | |done]; by apply lookup_app_l_Some.
  - intros i x [Hx|[-> ->]]%Hl Hr; [by eapply H7|done].
Qed.

(** ** The response rewritten *)
Section Rename.
Context `{Externals} `{Accumulator} {W : Type} {env : Env W}.

(** Steps that send nothing and leave the transcript and what the attempt holds. *)
Definition quiet (s s' : St W) : Prop :=
  transcript (run_ s') = transcript (run_ s) /\ heldItems (run_ s') = heldItems (run_ s) /\ log s' = log s.

#[export] Instance quiet_preorder : PreOrder quiet.
Proof. split; [done|]. intros ??? (?&?&?) (?&?&?). repeat split; congruence. Qed.

Lemma quiet_ask {A} (f : shared W -> A * shared W) : keeps quiet (ask f).
Proof. apply keeps_ask. by intros s h. Qed.
Lemma quiet_modify f : (forall r, transcript (f r) = transcript r /\ heldItems (f r) = heldItems r) -> keeps quiet (modify f).
Proof. intros Hf. apply keeps_modify. intros s. by destruct (Hf (run_ s)). Qed.

#[local] Hint Extern 1 (keeps quiet (ask _)) => apply quiet_ask : keeps.
#[local] Hint Extern 1 (keeps quiet fresh) => apply quiet_ask : keeps.
#[local] Hint Extern 1 (keeps quiet (modify _)) => apply quiet_modify; intros ?; split; reflexivity : keeps.

Lemma quiet_decideCallID c index : keeps quiet (decideCallID c index).
Proof. unfold decideCallID, decideID. keeps. Qed.
Lemma quiet_withCallID i index : keeps quiet (withCallID i index).
Proof. unfold withCallID. keeps. Qed.
#[local] Hint Resolve quiet_decideCallID quiet_withCallID : keeps.
Lemma quiet_completeCalls output index at_ p : keeps quiet (completeCalls output index at_ p).
Proof.
  revert index at_ p. induction output as [|i output IH]; intros; cbn [completeCalls]; unfold completedCall, atOpened; keeps;
    by apply IH.
Qed.
Lemma quiet_renameEach cs p output index : keeps quiet (renameEach cs p output index).
Proof.
  revert index. induction output as [|i output IH]; intros; cbn [renameEach]; keeps.
Qed.
#[local] Hint Resolve quiet_completeCalls quiet_renameEach : keeps.
Lemma quiet_renameCalls resp : keeps quiet (renameCalls resp).
Proof. unfold renameCalls. keeps. Qed.

Lemma decideCallID_run c index s :
  exists s', decideCallID c index s = (Ok tt, s') /\ opened (run_ s') = opened (run_ s).
Proof.
  unfold decideCallID, decideID, bind, get, modify, ask, ret. destruct (callIDTaken _ _); [|eexists; split; [reflexivity|done]].
  destruct (NewID env _ _) as [id h]. eexists. split; [reflexivity|done].
Qed.

Lemma completedCall_run c id itemID (s : St W) :
  exists q c' (s' : St W), completedCall c id itemID s = (Ok (ICall q c'), s') /\ run_ s' = run_ s.
Proof. unfold completedCall, fresh, bind, ask, ret. by eexists _, _, _. Qed.

(** At the end of [completeCalls] every call of the response is paired with a call
    the attempt completed, and the stream's own are as they were. *)
Lemma completeCalls_triple output rest index at_ p (own : list callRef) :
  drop index output = rest ->
  triple (fun s => completing output index at_ p (opened (run_ s)) /\ ownCalls (opened (run_ s)) = own)
    (completeCalls rest index at_ p)
    (fun '(at_, p) s => completing output (length output) at_ p (opened (run_ s)) /\ ownCalls (opened (run_ s)) = own)
    (fun _ => False).
Proof.
  revert index at_ p. induction rest as [|i rest IH]; intros index at_ p Hd s [Hc Hk]; cbn [completeCalls].
  { split; [|done]. destruct Hc as [H1 H2 H3 H4 H5 H6 H7]. split; try done.
    intros k q c Hlt Ho. apply (H6 k q c); [|done].
    assert (length (drop index output) = 0%nat) as Hl by (by rewrite Hd). rewrite length_drop in Hl. lia. }
  assert (output !! index = Some i) as Hi by (rewrite <- (Nat.add_0_r index), <- lookup_drop, Hd; done).
  assert (drop (S index) output = rest) as Hd'.
  { pose proof (drop_S _ _ _ Hi) as Hs. rewrite Hd in Hs. by injection Hs. }
  destruct i as [|q m|q c|q o|q r|h t w];
    try (apply (IH (S index) at_ p Hd' s); split; [by eapply completing_skip|done]).
  destruct (paired p !! index) as [j|] eqn:Ej.
  - unfold bind at 1, get. destruct (lookup_lt_is_Some_2 at_ j (ok_range _ _ _ (cg_pairs _ _ _ _ _ Hc) _ _ Ej)) as [pos Hpos].
    rewrite Hpos. change (default 0%nat (Some pos)) with pos. pose proof (list_elem_of_lookup_2 _ _ _ Hpos) as Hin.
    destruct (lookup_lt_is_Some_2 (opened (run_ s)) pos (cg_range _ _ _ _ _ Hc _ Hin)) as [o Ho]. rewrite Ho. change (default (emptyOpened 0) (Some o)) with o.
    destruct (completed o) eqn:Eo.
    + unfold bind, ret. apply (IH (S index) at_ p Hd' s). split; [|done]. eapply completing_paired; try done.
      destruct (cg_tracked _ _ _ _ _ Hc pos o Hin Ho) as [|Hn]; [done|]. unfold completed in Eo. by rewrite Hn in Eo.
    + unfold bind at 1 2. destruct (completedCall_run c (o_callID o) (o_itemID o) s) as (q' & c' & s1 & -> & Hr1).
      unfold atOpened, modify. apply (IH (S index) at_ p Hd'). upd. rewrite Hr1.
      assert (o_done o = Nil) as Hnil by (unfold completed in Eo; by destruct (o_done o)).
      split; [|rewrite <- Hk; by eapply ownCalls_alter].
      eapply (completing_paired _ _ _ _ _ j pos); [done|done|rewrite list_lookup_alter_eq, Ho; reflexivity|done|].
      by eapply completing_fill.
  - unfold bind at 1. destruct (decideCallID_run c (Z.of_nat index) s) as (s1 & -> & Ho1). unfold bind at 1, get, bind at 1.
    match goal with |- context [completedCall c ?id ""] => destruct (completedCall_run c id "" s1) as (q' & c' & s2 & -> & Hr2) end.
    unfold bind at 1, modify. rewrite Ho1. apply (IH (S index) _ _ Hd'). upd. rewrite Hr2, Ho1. split.
    + by eapply completing_new.
    + rewrite ownCalls_app, ownCalls_one. by rewrite app_nil_r.
Qed.

Lemma leftOver_taken cs tk n i o :
  leftOver cs tk n = false -> cs !! i = Some o -> completed o = true -> (n + i)%nat ∈ tk.
Proof.
  revert n i. induction cs as [|x cs IH]; intros n i; [done|]. cbn [leftOver].
  intros [Hx Hl]%orb_false_iff Hi Ho. destruct i as [|i].
  - simplify_eq/=. rewrite Ho, andb_true_r in Hx. apply negb_false_iff, bool_decide_eq_true in Hx. by rewrite Nat.add_0_r.
  - replace (n + S i)%nat with (S n + i)%nat by lia. by apply IH.
Qed.

(** The positions of the attempt's calls the response's are paired with, from the
    index [index] on. *)
Definition pairedFrom (p : pairing) (index n : nat) : list nat := omap (fun i => paired p !! i) (seq index n).

Lemma renameEach_calls output cs p rest index (s s' : St W) out :
  renameEach cs p rest index s = (Ok out, s') -> drop index output = rest ->
  (forall i j, paired p !! i = Some j -> exists q c, output !! i = Some (ICall q c)) ->
  (forall i q c, output !! i = Some (ICall q c) ->
     exists j o, paired p !! i = Some j /\ cs !! j = Some o /\ isCall (o_done o) = true) ->
  run_ s' = run_ s /\ calls out = calls (map o_done (entries cs (pairedFrom p index (length rest)))).
Proof.
  intros Hrun Hd Hidx Hall. revert index s out Hrun Hd. induction rest as [|i rest IH]; intros index s out; cbn [renameEach].
  { intros [= <- <-] _. done. }
  intros Hrun Hd. assert (output !! index = Some i) as Hi by (rewrite <- (Nat.add_0_r index), <- lookup_drop, Hd; done).
  assert (drop (S index) output = rest) as Hd'.
  { pose proof (drop_S _ _ _ Hi) as Hs. rewrite Hd in Hs. by injection Hs. }
  unfold pairedFrom in *. cbn [length seq omap list_omap].
  assert (forall renamed : item, (orPanic (itemEq renamed i) ;;
      let! output := renameEach cs p rest (S index) in ret (renamed :: output)) s = (Ok out, s') ->
    run_ s' = run_ s /\ exists out', out = renamed :: out' /\
      calls out' = calls (map o_done (entries cs (omap (fun i => paired p !! i) (seq (S index) (length rest)))))) as Hstep.
  { intros renamed. unfold bind at 1. destruct (itemEq renamed i); [|done]. cbn [orPanic]. unfold ret at 1, bind at 1.
    destruct (renameEach cs p rest (S index) s) as [[out'|e| |] s1] eqn:Er; try done. intros [= <- <-].
    destruct (IH (S index) s out' Er Hd') as [Hr Hc]. split; [done|]. by exists out'. }
  destruct (isCall i) eqn:Eic.
  - destruct i as [|?|q c|?|?|?]; try done. destruct (Hall index q c Hi) as (j & o & Hj & Ho & Hoc).
    rewrite Hj in Hrun |- *. cbn in Hrun. rewrite Ho in Hrun. unfold completed in Hrun.
    destruct (o_done o) as [|?|q' c'|?|?|?] eqn:Edone; try done. cbn [isNil negb] in Hrun.
    unfold bind at 1, ret at 1 in Hrun.
    destruct (Hstep _ Hrun) as [Hr (out' & -> & Hc)]. split; [done|].
    unfold entries in *. cbn [map].
    assert (o_done (default (emptyOpened 0) (cs !! j)) = ICall q' c') as -> by (by rewrite Ho). change (?x :: ?l) with ([x] ++ l) at 1. change (?x :: ?l) with ([x] ++ l) at 2.
    by rewrite !calls_app, Hc.
  - assert (paired p !! index = None) as Hn.
    { destruct (paired p !! index) as [j|] eqn:Ej; [|done]. destruct (Hidx index j Ej) as (q & c & Hq).
      rewrite Hi in Hq. by injection Hq as ->. }
    rewrite Hn in Hrun |- *. cbn in Hrun.
    assert (withCallID i (Z.of_nat index) s = (Ok i, s)) as Hw by (by destruct i).
    unfold bind at 1 in Hrun. rewrite Hw in Hrun. destruct (Hstep i Hrun) as [Hr (out' & -> & Hc)]. split; [done|].
    change (i :: out') with ([i] ++ out'). rewrite calls_app, <- Hc. by destruct i.
Qed.

Lemma elem_of_pairedFrom p index n j :
  j ∈ pairedFrom p index n <-> exists i, (index <= i < index + n)%nat /\ paired p !! i = Some j.
Proof.
  unfold pairedFrom. rewrite list_elem_of_omap. split.
  - intros (i & Hi & Hj). apply elem_of_seq in Hi. eauto.
  - intros (i & Hi & Hj). exists i. rewrite elem_of_seq. eauto.
Qed.

Lemma NoDup_pairedFrom output n p index m : pairingOk output n p -> NoDup (pairedFrom p index m).
Proof.
  intros Hp. revert index. induction m as [|m IH]; intros index; [apply NoDup_nil_2|].
  unfold pairedFrom in *. cbn [seq omap list_omap]. destruct (paired p !! index) as [j|] eqn:Ej; [|apply IH].
  apply NoDup_cons. split; [|apply IH]. intros (i & Hi & Hj)%elem_of_pairedFrom.
  assert (i = index) by (by eapply (ok_inj _ _ _ Hp)). lia.
Qed.

Lemma elem_of_trackedAt complete os n i :
  i ∈ trackedAt complete os n <-> (n <= i)%nat /\ exists o, os !! (i - n)%nat = Some o /\ isTracked complete o = true.
Proof.
  revert n. induction os as [|x os IH]; intros n; cbn [trackedAt].
  { split; [intros Hi; by apply not_elem_of_nil in Hi|]. by intros (_ & o & Ho & _). }
  rewrite elem_of_app, IH. split.
  - intros [Hx|(Hle & o & Ho & Ht)].
    + destruct (isTracked complete x) eqn:E; [|by apply not_elem_of_nil in Hx].
      apply list_elem_of_singleton in Hx as ->. split; [lia|]. exists x. by rewrite Nat.sub_diag.
    + split; [lia|]. exists o. split; [|done]. by replace (i - n)%nat with (S (i - S n)) by lia.
  - intros (Hle & o & Ho & Ht). destruct (decide (i = n)) as [->|Hne].
    + left. rewrite Nat.sub_diag in Ho. simplify_eq/=. rewrite Ht. by left.
    + right. split; [lia|]. exists o. split; [|done]. by replace (i - n)%nat with (S (i - S n)) in Ho by lia.
Qed.

Lemma NoDup_trackedAt complete os n : NoDup (trackedAt complete os n).
Proof.
  revert n. induction os as [|x os IH]; intros n; cbn [trackedAt]; [apply NoDup_nil_2|].
  destruct (isTracked complete x); [|apply IH]. apply NoDup_cons. split; [|apply IH].
  intros [? _]%elem_of_trackedAt. lia.
Qed.

Lemma tracked_completing resp os :
  Forall (fun o => o_fromResponse o = false) os ->
  let at_ := trackedAt true os 0 in
  completing (rp_Output resp) 0 at_ (pairUp (entries os at_) (rp_Output resp)) os.
Proof.
  intros Hf at_. rewrite Forall_lookup in Hf. split.
  - unfold at_. replace (length (trackedAt true os 0)) with (length (entries os (trackedAt true os 0))).
    + apply pairUp_ok.
    + unfold entries. by rewrite length_map.
  - apply NoDup_trackedAt.
  - intros i (_ & o & Ho & _)%elem_of_trackedAt. rewrite Nat.sub_0_r in Ho. by eapply lookup_lt_Some.
  - intros i o (_ & o' & Ho' & Ht)%elem_of_trackedAt Ho. rewrite Nat.sub_0_r in Ho'. assert (o' = o) as -> by congruence.
    unfold isTracked in Ht. destruct (o_done o); naive_solver.
  - intros i o Ho Hi. destruct (isCall (o_done o)) eqn:E; [|done]. exfalso. apply Hi, elem_of_trackedAt.
    split; [lia|]. exists o. rewrite Nat.sub_0_r. split; [done|]. unfold isTracked. by rewrite E.
  - intros i q c Hi. lia.
  - intros i o Ho Hr. by rewrite (Hf i o Ho) in Hr.
Qed.

Lemma renameCalls_status resp (s s' : St W) resp' :
  renameCalls resp s = (Ok resp', s') -> rp_Status resp' = rp_Status resp.
Proof.
  unfold renameCalls, bind at 1, get, bind at 1.
  match goal with |- (let (_, _) := ?m s in _) = _ -> _ => destruct (m s) as [[[at_ p]|e| |] s1] end; try done.
  unfold bind at 1. match goal with |- (if ?b then _ else _) _ = _ -> _ => destruct b end; [by intros [= <- _]|].
  unfold bind. match goal with |- (let (_, _) := ?m in _) = _ -> _ => destruct m as [[out|e| |] s2] end; try done.
  by intros [= <- _].
Qed.

(** The response a turn acts on lists the calls the attempt completed. Whatever
    the stream opened, completed and left open, and whatever the response lists, the
    response as rewritten holds exactly the calls the stream completed and those only
    the response did, each once, under the IDs decided for them; the stream's own are
    unchanged, nothing is sent, and the transcript and the items held stay as they
    were. *)
Lemma renameCalls_calls resp (s s' : St W) resp' :
  renameCalls resp s = (Ok resp', s') -> rp_Status resp <> StatusFailed ->
  Forall (fun o => o_fromResponse o = false) (opened (run_ s)) ->
  calls (rp_Output resp') ≡ₚ calls (map o_done (opened (run_ s'))) /\
  ownCalls (opened (run_ s')) = ownCalls (opened (run_ s)) /\
  rp_Status resp' = rp_Status resp /\ quiet s s'.
Proof.
  intros Hrun Hs Hf. pose proof (quiet_renameCalls resp s) as Hq. rewrite Hrun in Hq. revert Hrun.
  unfold renameCalls. rewrite (bool_decide_eq_false_2 _ Hs). cbn [negb]. unfold bind at 1, get.
  unfold bind at 1.
  pose proof (completeCalls_triple (rp_Output resp) (rp_Output resp) 0 _ _ (ownCalls (opened (run_ s))) eq_refl s
    (conj (tracked_completing resp (opened (run_ s)) Hf) eq_refl)) as Hc.
  destruct (completeCalls _ _ _ _ s) as [[[at_ p]|e| |] s1]; try done. destruct Hc as [Hc Hk].
  unfold bind at 1. set (os := opened (run_ s1)) in *. set (cs := entries os at_).
  destruct Hc as [H1 H2 H3 H4 H5 H6 H7].
  assert (calls (map o_done cs) ≡ₚ calls (map o_done os)) as Hcs by by apply entries_calls.
  assert (forall j o, cs !! j = Some o -> exists pos, at_ !! j = Some pos /\ os !! pos = Some o) as Hat.
  { intros j o Hj. unfold cs, entries in Hj. change (map ?f ?l) with (f <$> l) in Hj.
    apply list_lookup_fmap_Some in Hj as (pos & -> & Hpos). exists pos. split; [done|].
    destruct (lookup_lt_is_Some_2 os pos) as [o Ho]; [by apply H3, (list_elem_of_lookup_2 _ j)|]. by rewrite Ho. }
  assert (forall j o, cs !! j = Some o -> completed o = true -> isCall (o_done o) = true) as Hcomp.
  { intros j o Hj Ho. destruct (Hat j o Hj) as (pos & Hpos & Hos).
    destruct (H4 pos o (list_elem_of_lookup_2 _ _ _ Hpos) Hos) as [|Hn]; [done|]. unfold completed in Ho. by rewrite Hn in Ho. }
  destruct (leftOver cs (taken p) 0 || _) eqn:El.
  - intros [= <- <-]. split_and!; [|done|done|done]. upd. rewrite calls_replaceCalls. change (opened (run_ s1)) with os. rewrite <- Hcs.
    apply calls_transcriptCalls; apply Forall_lookup; intros j o Hj Ho; [by eapply Hcomp|].
    destruct (Hat j o Hj) as (pos & _ & Hos). specialize (H7 pos o Hos Ho). unfold completed. by destruct (o_done o).
  - apply orb_false_iff in El as [El _]. unfold bind.
    destruct (renameEach cs p (rp_Output resp) 0 s1) as [[out|e| |] s2] eqn:Er; try done. intros [= <- <-].
    assert (forall i q c, rp_Output resp !! i = Some (ICall q c) ->
      exists j o, paired p !! i = Some j /\ cs !! j = Some o /\ isCall (o_done o) = true) as Hall.
    { intros i q c Hi. destruct (H6 i q c (lookup_lt_Some _ _ _ Hi) Hi) as (j & pos & o & Hj & Hpos & Ho & Hd).
      exists j, o. split_and!; [done| |done]. unfold cs, entries. change (map ?f ?l) with (f <$> l).
      rewrite list_lookup_fmap, Hpos. simpl. by rewrite Ho. }
    destruct (renameEach_calls _ _ _ _ _ _ _ _ Er eq_refl (ok_index _ _ _ H1) Hall) as [Hr2 Hcalls].
    upd. rewrite Hr2. split_and!; [|done|done|done]. change (opened (run_ s1)) with os. rewrite Hcalls, <- Hcs.
    apply entries_calls; [by eapply NoDup_pairedFrom| |].
    + intros j (i & _ & Hj)%elem_of_pairedFrom. unfold cs, entries. rewrite length_map. by eapply ok_range.
    + intros j o Hj Hn. destruct (isCall (o_done o)) eqn:E; [|done]. exfalso. apply Hn.
      assert (j ∈ taken p) as Ht.
      { apply (leftOver_taken cs (taken p) 0 j o El Hj). unfold completed. by destruct (o_done o). }
      apply (ok_taken _ _ _ H1) in Ht as [i Hi]. apply elem_of_pairedFrom. exists i. split; [|done].
      destruct (ok_index _ _ _ H1 i j Hi) as (q & c & Hqc). pose proof (lookup_lt_Some _ _ _ Hqc). simpl. lia.
Qed.

End Rename.
