(* ===== verification/Calls.v ===== *)
(** * Calls: the calls a turn acts on are those its transcript holds.

    Followed event by event through an attempt: what the stream completed is in the
    transcript or held for it, and an attempt that commits to nothing leaves the
    transcript as it was. *)

From S2P Require Export Pairs Turn.

Section Calls.
Context `{Externals} `{Accumulator} {W : Type} {env : Env W}.

(** Steps that leave the transcript, what the attempt holds and what it opened. *)
Definition still (s s' : St W) : Prop :=
  transcript (run_ s') = transcript (run_ s) /\ heldItems (run_ s') = heldItems (run_ s) /\
  opened (run_ s') = opened (run_ s).

#[export] Instance still_preorder : PreOrder still.
Proof. split; [done|]. intros ??? (?&?&?) (?&?&?). repeat split; congruence. Qed.

Lemma still_ask {A} (f : shared W -> A * shared W) : keeps still (ask f).
Proof. apply keeps_ask. by intros s h. Qed.
Lemma still_call {A} (f : shared W -> (A + error) * shared W) : keeps still (call f).
Proof. apply keeps_call. by intros s h. Qed.
Lemma still_emit f : keeps still (emit f).
Proof. apply keeps_emit; [typeclasses eauto|by intros s h|by intros s]. Qed.
Lemma still_modify f :
  (forall r, transcript (f r) = transcript r /\ heldItems (f r) = heldItems r /\ opened (f r) = opened r) ->
  keeps still (modify f).
Proof. intros Hf. apply keeps_modify. intros s. exact (Hf (run_ s)). Qed.

Lemma still_decideCallID c index : keeps still (decideCallID c index).
Proof. unfold decideCallID, decideID. keeps; try apply still_ask. by apply still_modify. Qed.
Lemma still_withCallID i index : keeps still (withCallID i index).
Proof. unfold withCallID. keeps. apply still_ask. Qed.
Lemma still_snapshotItem i : keeps still (snapshotItem i).
Proof. unfold snapshotItem. keeps. apply still_ask. Qed.
Lemma still_callDone c index : keeps still (callDone c index).
Proof. unfold callDone. keeps; first [apply still_decideCallID|by apply still_modify]. Qed.
Lemma still_itemsBefore acc os : keeps still (itemsBefore acc os).
Proof. induction os; cbn [itemsBefore]; keeps; try done; apply still_withCallID. Qed.
Lemma still_guarded acc self i : keeps still (guarded acc self i).
Proof. unfold guarded. keeps; first [apply still_itemsBefore|apply still_call]. Qed.

(** What a step that returns leaves. *)
Lemma still_of {A} (m : M W A) s r s' : keeps still m -> m s = (r, s') -> still s s'.
Proof. intros Hm E. specialize (Hm s). by rewrite E in Hm. Qed.

(** ** What the attempt has so far *)

Definition heldCalls (r : runner) : list callRef := calls (map hi_item (heldItems r)).
Definition doneCalls (r : runner) : list callRef := calls (map o_done (opened r)).

(** The transcript grew from [base], and not at all before the attempt commits. *)
Definition grew (base : Transcript) (committed : bool) (s : St W) : Prop :=
  exists new, transcript (run_ s) = base ++ new /\ (committed = false -> new = []).

(** And the calls it grew by, with those held, are those the stream completed. *)
Definition attempt (base : Transcript) (committed : bool) (s : St W) : Prop :=
  exists new, transcript (run_ s) = base ++ new /\ (committed = false -> new = []) /\
    calls new ++ heldCalls (run_ s) ≡ₚ doneCalls (run_ s) /\
    Forall (fun o => o_fromResponse o = false) (opened (run_ s)).

Lemma attempt_grew base committed s : attempt base committed s -> grew base committed s.
Proof. intros (new & Ht & Hc & _). by exists new. Qed.

Lemma attempt_still base committed s s' : still s s' -> attempt base committed s -> attempt base committed s'.
Proof.
  intros (Ht & Hh & Ho) (new & H1 & H2 & H3 & H4). exists new. unfold heldCalls, doneCalls in *.
  by rewrite Ht, Hh, Ho.
Qed.

Lemma grew_still base committed s s' : still s s' -> grew base committed s -> grew base committed s'.
Proof. intros (Ht & _) (new & H1 & H2). exists new. by rewrite Ht. Qed.

Lemma grew_commit base committed s : grew base committed s -> grew base true s.
Proof. intros (new & Ht & _). by exists new. Qed.

(** A change to what was opened that completes nothing. *)
Lemma attempt_opened base committed s f :
  (forall os, calls (map o_done (f os)) = calls (map o_done os)) ->
  (forall os, Forall (fun o => o_fromResponse o = false) os -> Forall (fun o => o_fromResponse o = false) (f os)) ->
  attempt base committed s -> attempt base committed (s <| run_ ::= fun r => r <| opened ::= f |> |>).
Proof.
  intros Hd Hf (new & H1 & H2 & H3 & H4). exists new. unfold heldCalls, doneCalls in *. upd. rewrite Hd. auto.
Qed.

Lemma Forall_alter_kept {A} (P : A -> Prop) g i (l : list A) : (forall x, P x -> P (g x)) -> Forall P l -> Forall P (alter g i l).
Proof.
  intros Hg Hl. apply Forall_lookup. rewrite Forall_lookup in Hl. intros j x Hx.
  destruct (decide (i = j)) as [->|Hne].
  - rewrite list_lookup_alter_eq in Hx. destruct (l !! j) as [y|] eqn:E; simplify_eq/=. eauto.
  - rewrite list_lookup_alter_ne in Hx by done. eauto.
Qed.

(** A field of an entry that is not what it was done with. *)
Lemma attempt_field base committed s g i :
  (forall o, o_done (g o) = o_done o /\ o_fromResponse (g o) = o_fromResponse o) ->
  attempt base committed s -> attempt base committed (s <| run_ ::= fun r => r <| opened ::= alter g i |> |>).
Proof.
  intros Hg. apply attempt_opened.
  - intros os. f_equal. apply map_alter_other. intros o. by destruct (Hg o).
  - intros os. apply Forall_alter_kept. intros o Ho. destruct (Hg o) as [_ ->]. done.
Qed.

(** The model's items appended in order, as far as the consumer takes them. *)
Lemma appendHeld_run held s :
  exists res s' k, appendHeld held s = (res, s') /\ opened (run_ s') = opened (run_ s) /\
    heldItems (run_ s') = heldItems (run_ s) /\
    transcript (run_ s') = transcript (run_ s) ++ map hi_item (take k held) /\
    ((res = Ok tt /\ k = length held) \/ exists e, res = Err e).
Proof.
  revert s. induction held as [|h held IH]; intros s; cbn [appendHeld].
  { exists (Ok tt), s, 0%nat. rewrite app_nil_r. auto 10. }
  unfold bind at 1, appendItem, bind at 1, modify, emit. destruct (send env _ _) as [[e|] h'].
  - eexists (Err e), _, 1%nat. split; [reflexivity|]. upd. split_and!; [done..|by eauto].
  - match goal with |- context [appendHeld held ?s1] => destruct (IH s1) as (res & s' & k & -> & Ho & Hh & Ht & Hr) end.
    exists res, s', (S k). rewrite Ho, Hh, Ht. upd. rewrite <- app_assoc. cbn [take map length].
    split_and!; try done. destruct Hr as [[-> ->]|[e ->]]; eauto.
Qed.

Lemma flushHeld_attempt base committed s :
  attempt base committed s ->
  exists res s', flushHeld s = (res, s') /\ opened (run_ s') = opened (run_ s) /\ grew base true s' /\
    (res = Ok tt -> attempt base true s') /\ (res = Ok tt \/ exists e, res = Err e).
Proof.
  intros (new & Ht & _ & Hp & Hf). unfold flushHeld, bind, get, modify.
  match goal with |- context [appendHeld _ ?s1] =>
    destruct (appendHeld_run (heldItems (run_ s)) s1) as (res & s' & k & -> & Ho & Hh & Ht' & Hr) end.
  exists res, s'. upd_in Ho. upd_in Hh. upd_in Ht'. rewrite Ht, <- app_assoc in Ht'.
  split_and!; [done|done|by eexists|intros ->|destruct Hr as [[-> _]|[e ->]]; eauto].
  destruct Hr as [[_ ->]|[e [=]]]. rewrite firstn_all in Ht'. eexists. split; [exact Ht'|]. split; [done|].
  unfold heldCalls, doneCalls in *. rewrite Ho, Hh. split; [|done]. rewrite calls_app, app_nil_r. exact Hp.
Qed.

Lemma openedAt_run base committed index s :
  attempt base committed s ->
  exists i s', openedAt index s = (Ok i, s') /\ attempt base committed s' /\
    exists o, opened (run_ s') !! i = Some o /\ o_done o = Nil.
Proof.
  intros Ha. unfold openedAt, bind, get.
  assert (forall os n i, lastOpen index os n = Some i -> (n <= i)%nat /\ exists o, os !! (i - n)%nat = Some o /\ o_done o = Nil)
    as Hlast.
  { induction os as [|x os IH]; intros n i; [done|]. cbn [lastOpen]. destruct (lastOpen index os (S n)) as [j|] eqn:E.
    - intros [= <-]. destruct (IH _ _ E) as (Hle & o & Ho & Hd). split; [lia|]. exists o. split; [|done].
      by replace (j - n)%nat with (S (j - S n)) by lia.
    - unfold isOpenAt. destruct (_ && _) eqn:Eo; [|done]. intros [= <-]. split; [lia|]. exists x. rewrite Nat.sub_diag.
      split; [done|]. apply andb_true_iff in Eo as [_ Eo]. by destruct (o_done x). }
  destruct (lastOpen index (opened (run_ s)) 0) as [i|] eqn:E.
  - destruct (Hlast _ _ _ E) as (_ & Ho). rewrite Nat.sub_0_r in Ho. by exists i, s.
  - unfold modify, ret. eexists _, _. split; [reflexivity|]. split.
    + apply attempt_opened; [| |done].
      * intros os. rewrite map_app, calls_app. by rewrite app_nil_r.
      * intros os Ho. apply Forall_app. split; [done|]. by constructor.
    + upd. rewrite lookup_app_r by lia. rewrite Nat.sub_diag. by eexists.
Qed.

(** One item completed: it takes the place of nothing. *)
Lemma doneCalls_fill i o f r :
  opened r !! i = Some o -> o_done o = Nil ->
  doneCalls (r <| opened ::= alter f i |>) ≡ₚ calls [o_done (f o)] ++ doneCalls r.
Proof.
  intros Ho Hn. unfold doneCalls. upd. revert i Ho. induction (opened r) as [|x os IH]; intros [|i] Ho; try done.
  - simplify_eq/=. change (calls ([o_done (f o)] ++ map o_done os) ≡ₚ calls [o_done (f o)] ++ calls ([o_done o] ++ map o_done os)).
    by rewrite !calls_app, Hn.
  - change (calls ([o_done x] ++ map o_done (alter f i os)) ≡ₚ
      calls [o_done (f o)] ++ calls ([o_done x] ++ map o_done os)).
    rewrite !calls_app, (IH i Ho). by rewrite Permutation_app_swap_app.
Qed.

(** What a step of the stream leaves: what the attempt has so far, unless the step
    fails it. *)
Definition kept_by (base : Transcript) (committed : bool) (r : res (bool * option error) * St W) : Prop :=
  match r with
  | (Ok (commits, err), s') =>
      grew base (committed || commits) s' /\ (err = None -> attempt base (committed || commits) s')
  | _ => True
  end.

Lemma kept_by_still base committed m s :
  keeps still m -> attempt base committed s ->
  kept_by base committed ((let! err := errOf m in ret (false, err)) s).
Proof.
  intros Hm Ha. unfold bind, errOf. destruct (m s) as [[a|e| |] s'] eqn:E; try done.
  all: pose proof (attempt_still _ _ _ _ (still_of _ _ _ _ Hm E) Ha) as Ha'; cbn; rewrite orb_false_r.
  all: split; [by apply attempt_grew|done].
Qed.

Lemma itemAdded_kept base committed acc index s :
  attempt base committed s -> kept_by base committed (itemAdded acc committed index s).
Proof.
  intros Ha. unfold itemAdded.
  erewrite (bind_ok (modify _) _ s tt (s <| run_ ::= fun r => r <| opened ::= fun os => os ++ [emptyOpened index] |> |>)) by done.
  match goal with |- kept_by _ _ (_ ?t) => assert (attempt base committed t) as Ha1; [|revert Ha1; generalize t] end.
  { apply attempt_opened; [| |done].
    - intros os. rewrite map_app, calls_app. by rewrite app_nil_r.
    - intros os Ho. apply Forall_app. split; [done|]. by constructor. }
  clear Ha. clear dependent s. intros s Ha. unfold bind at 1.
  match goal with |- kept_by _ _ (let (_, _) := ?m s in _) => assert (forall r s', m s = (r, s') -> attempt base committed s') as Hi end.
  { intros r s'. destruct (default Nil (accItemAt acc index)) as [|?|q c|?|?|?]; try (by intros [= <- <-]).
    unfold bind at 1. destruct (decideCallID c index s) as [[u|e| |] s1] eqn:E1.
    all: pose proof (attempt_still _ _ _ _ (still_of _ _ _ _ (still_decideCallID c index) E1) Ha) as Ha1;
      try (by intros [= <- <-]).
    unfold bind at 1, get, bind at 1, lastOpened, modify. intros E2.
    eapply attempt_still; [eapply still_of; [apply still_withCallID|exact E2]|].
    destruct Ha1 as (new & H1 & H2 & H3 & H4). exists new. unfold heldCalls, doneCalls in *. upd.
    rewrite map_alter_other by done. split_and!; try done. by apply Forall_alter_kept. }
  destruct (_ s) as [[i|e| |] s1]; try done. specialize (Hi _ _ eq_refl). cbv zeta.
  unfold bind at 1. destruct (negb committed && commitsAttempt i) eqn:Ec.
  - unfold errOf at 1. destruct (flushHeld_attempt _ _ _ Hi) as (res & s2 & -> & _ & Hg & Hok & Hr).
    destruct Hr as [->|[e ->]].
    + specialize (Hok eq_refl). unfold bind at 1. destruct (snapshotItem i s2) as [[snap|e| |] s3] eqn:E3; try done.
      pose proof (attempt_still _ _ _ _ (still_of _ _ _ _ (still_snapshotItem i) E3) Hok) as Ha3.
      unfold bind, errOf. match goal with |- context [emit ?f s3] => destruct (emit f s3) as [[u|e| |] s4] eqn:E4 end; try done.
      all: pose proof (attempt_still _ _ _ _ (still_of _ _ _ _ (still_emit _) E4) Ha3) as Ha4; cbn; rewrite orb_true_r.
      all: split; [by apply attempt_grew|done].
    + cbn. rewrite orb_true_r. by split.
  - unfold ret at 1, bind at 1. destruct (snapshotItem i s1) as [[snap|e| |] s3] eqn:E3; try done.
    apply kept_by_still; [apply still_emit|].
    by eapply attempt_still; [eapply still_of; [apply still_snapshotItem|exact E3]|].
Qed.

Lemma itemDone_kept base committed acc index done_ s :
  attempt base committed s -> kept_by base committed (itemDone acc committed index done_ s).
Proof.
  intros Ha. unfold itemDone, bind at 1.
  match goal with |- kept_by _ _ (let (_, _) := ?m s in _) => assert (keeps still m) as Hm end.
  { destruct done_; keeps; first [apply still_callDone|apply still_withCallID]. }
  match goal with |- kept_by _ _ (let (_, _) := ?m s in _) => destruct (m s) as [[[i modelCallID]|e| |] s1] eqn:E1 end; try done.
  apply (attempt_still _ _ _ _ (still_of _ _ _ _ Hm E1)) in Ha. clear E1 Hm s.
  destruct (openedAt_run _ _ index s1 Ha) as (self & s2 & E2 & Ha2 & Hself). rewrite (bind_ok _ _ _ _ _ E2). clear s1 E2 Ha.
  (* the fields of a call completed *)
  assert (exists s3, (match done_ with
      | ICall p c => atOpened self (fun o => o <| o_modelCallID := CallID c |>
          <| o_itemID ::= fun was => if bool_decide (ID c = "") then was else ID c |>)
      | _ => ret tt end) s2 = (Ok tt, s3) /\ attempt base committed s3 /\
      exists o, opened (run_ s3) !! self = Some o /\ o_done o = Nil) as (s3 & E3 & Ha3 & o3 & Ho3 & Hn3).
  { destruct done_ as [|?|p c|?|?|?]; try (by exists s2). unfold atOpened, modify. eexists. split; [reflexivity|]. split.
    - by apply attempt_field.
    - destruct Hself as (o & Ho & Hn). upd. rewrite list_lookup_alter_eq, Ho. eexists. split; [reflexivity|done]. }
  rewrite (bind_ok _ _ _ _ _ E3). clear s2 E3 Ha2 Hself. unfold bind at 1.
  destruct (guarded acc self i s3) as [[[kept_|e]|e| |] s4] eqn:E4; try done.
  all: pose proof (still_of _ _ _ _ (still_guarded acc self i) E4) as Hs4.
  2: { cbn. rewrite orb_true_r. split; [|done].
       eapply grew_commit, attempt_grew, attempt_still; [exact Hs4|exact Ha3]. }
  pose proof (attempt_still _ _ _ _ Hs4 Ha3) as (new & H1 & H2 & H3 & H4).
  assert (opened (run_ s4) !! self = Some o3) as Ho4 by (destruct Hs4 as (_ & _ & ->); done).
  unfold atOpened. rewrite (bind_ok (modify _) _ s4 tt (s4 <| run_ ::= fun r => r <| opened ::= alter (fun o => o <| o_done := kept_ |>) self |> |>) eq_refl).
  assert (Forall (fun o => o_fromResponse o = false) (alter (fun o => o <| o_done := kept_ |>) self (opened (run_ s4)))) as H5
    by (by apply Forall_alter_kept).
  pose proof (doneCalls_fill self o3 (fun o => o <| o_done := kept_ |>) (run_ s4) Ho4 Hn3) as H6.
  destruct (negb committed) eqn:Ec.
  - destruct committed; [done|]. rewrite (H2 eq_refl) in H1, H3. rewrite app_nil_r in H1. cbn.
    assert (attempt base false (s4 <| run_ ::= fun r => r <| opened ::= alter (fun o => o <| o_done := kept_ |>) self |>
      <| heldItems ::= fun l => l ++ [{| hi_item := kept_; hi_responseID := responseID acc; hi_modelCallID := modelCallID |}] |> |>)) as Hfin.
    { exists []. rewrite app_nil_r. upd. split_and!; [done|done| |done].
      change (heldCalls ((run_ s4) <| opened ::= alter (fun o => o <| o_done := kept_ |>) self |>
        <| heldItems ::= fun l => l ++ [{| hi_item := kept_; hi_responseID := responseID acc; hi_modelCallID := modelCallID |}] |>)
        ≡ₚ doneCalls ((run_ s4) <| opened ::= alter (fun o => o <| o_done := kept_ |>) self |>)).
      rewrite H6, <- H3. unfold heldCalls. upd. rewrite map_app, calls_app. by rewrite Permutation_app_comm. }
    split; [by apply attempt_grew|done].
  - destruct committed; [|done]. unfold bind, errOf, appendItem, bind, modify, emit.
    destruct (send env _ _) as [[e|] h]; cbn [kept_by].
    all: assert (exists new, transcript (run_ s4) ++ [kept_] = base ++ new /\ calls new ++ heldCalls (run_ s4) ≡ₚ
        doneCalls ((run_ s4) <| opened ::= alter (fun o => o <| o_done := kept_ |>) self |>)) as (new' & Hn1 & Hn2).
    1, 3: exists (new ++ [kept_]); rewrite H1, <- app_assoc; split; [done|]; rewrite calls_app, H6, <- app_assoc;
      rewrite (Permutation_app_swap_app (calls new)), <- H3; done.
    all: split; [by exists new'|]; intros ?; try done. by exists new'.
Qed.

Lemma streamEvent_kept base committed ev acc s :
  attempt base committed s -> kept_by base committed (streamEvent ev acc committed s).
Proof.
  intros Ha. destruct ev; cbn [streamEvent].
  - by apply itemAdded_kept.
  - by apply itemDone_kept.
  - cbn. rewrite orb_false_r. by split; [apply attempt_grew|].
  - cbn. rewrite orb_false_r. by split; [apply attempt_grew|].
  - unfold bind at 1. destruct (withCallID _ index s) as [[i|e| |] s1] eqn:E1; try done. unfold bind at 1.
    destruct (snapshotItem i s1) as [[snap|e| |] s2] eqn:E2; try done. apply kept_by_still; [apply still_emit|].
    eapply attempt_still; [eapply still_of; [apply still_snapshotItem|exact E2]|].
    by eapply attempt_still; [eapply still_of; [apply still_withCallID|exact E1]|].
  - cbn. rewrite orb_false_r. by split; [apply attempt_grew|].
Qed.

(** The stream read to its end. *)
Lemma streamLoop_kept base w acc halt resp committed s :
  (halt = None -> attempt base committed s) -> grew base committed s ->
  match streamLoop w acc halt resp committed s with
  | (Ok (Stopped _ committed _), s') => grew base committed s'
  | (Ok (Ended _ halt _ committed), s') => grew base committed s' /\ (halt = None -> attempt base committed s')
  | _ => True
  end.
Proof.
  revert acc halt resp committed s.
  induction w as [|advance x rest IH]; intros acc halt resp committed s Ha Hg; cbn [streamLoop]; [done|].
  rewrite (bind_ok (move advance) _ s tt (s <| sh := advance (sh s) |>) eq_refl).
  assert (still s (s <| sh := advance (sh s) |>)) as Hs by done. apply (grew_still _ _ _ _ Hs) in Hg.
  assert (halt = None -> attempt base committed (s <| sh := advance (sh s) |>)) as Ha'.
  { intros E. by eapply attempt_still, Ha. }
  revert Ha' Hg. generalize (s <| sh := advance (sh s) |>). clear Ha Hs s. intros s Ha Hg.
  destruct halt as [halt|], x as [ev|err].
  - unfold bind, shares, ask. cbv beta iota. by apply IH.
  - cbn. by split.
  - unfold bind at 1. pose proof (streamEvent_kept base committed ev (accAdd acc ev) s (Ha eq_refl)) as Hk.
    destruct (streamEvent ev (accAdd acc ev) committed s) as [[[commits err]|e| |] s1]; try done. destruct Hk as [Hg1 Ha1].
    destruct err as [err|].
    + destruct (withheldStop err); [unfold bind, shares, ask; cbv beta iota; by apply IH|].
      destruct (asWire err); cbn; [done|]. by eapply grew_commit.
    + unfold bind, shares, ask. cbv beta iota. by apply IH.
  - cbn. done.
Qed.

Lemma appendCompleted_run id os s :
  exists res s' l, appendCompleted id os s = (res, s') /\ opened (run_ s') = opened (run_ s) /\
    transcript (run_ s') = transcript (run_ s) ++ l /\
    ((res = Ok tt /\ l = map o_done (filter (fun o => o_fromResponse o = true) os)) \/ exists e, res = Err e).
Proof.
  revert s. induction os as [|o os IH]; intros s; cbn [appendCompleted].
  { exists (Ok tt), s, []. rewrite app_nil_r. auto 10. }
  rewrite filter_cons. destruct (o_fromResponse o) eqn:E.
  - rewrite decide_True by done. unfold bind at 1, appendItem, bind at 1, modify, emit.
    destruct (send env _ _) as [[e|] h'].
    + eexists (Err e), _, [o_done o]. split; [reflexivity|]. upd. split_and!; [done..|by eauto].
    + match goal with |- context [appendCompleted id os ?s1] => destruct (IH s1) as (res & s' & l & -> & Ho & Ht & Hr) end.
      exists res, s', (o_done o :: l). rewrite Ho, Ht. upd. rewrite <- app_assoc. split_and!; [done..|].
      destruct Hr as [[-> ->]|[e ->]]; eauto.
  - rewrite decide_False by done. unfold bind at 1, ret. apply IH.
Qed.

(** The calls the stream completed and those only the response did. *)
Lemma calls_kept os :
  ownCalls os ++ calls (map o_done (filter (fun o => o_fromResponse o = true) os)) ≡ₚ calls (map o_done os).
Proof.
  unfold ownCalls. induction os as [|o os IH]; [done|]. rewrite !filter_cons.
  change (map o_done (o :: os)) with ([o_done o] ++ map o_done os). rewrite calls_app, <- IH.
  destruct (o_fromResponse o); [rewrite decide_False, decide_True by done|rewrite decide_True, decide_False by done].
  - change (map o_done (o :: ?l)) with ([o_done o] ++ map o_done l). rewrite calls_app. by rewrite Permutation_app_swap_app.
  - change (map o_done (o :: ?l)) with ([o_done o] ++ map o_done l). by rewrite calls_app, <- app_assoc.
Qed.

Lemma kept_all os : Forall (fun o => o_fromResponse o = false) os -> ownCalls os = calls (map o_done os).
Proof. intros Hf. unfold ownCalls. by rewrite filter_all. Qed.

(** A response in full: the attempt's calls and the transcript's. *)
Definition delivered (base : Transcript) (r : option Response) (s : St W) : Prop :=
  exists resp new, r = Some resp /\ transcript (run_ s) = base ++ new /\ calls new ≡ₚ calls (rp_Output resp).

Definition attempted (base : Transcript) (r : res (option Response * bool * option error) * St W) : Prop :=
  match r with
  | (Ok (resp, committed, err), s') => grew base committed s' /\ (err = None -> committed = true /\ delivered base resp s')
  | _ => True
  end.

(** What the attempt held and what only the response completed, appended. *)
Lemma appendRest base committed id s s1 :
  attempt base committed s -> quiet s s1 -> ownCalls (opened (run_ s1)) = ownCalls (opened (run_ s)) ->
  exists err s2, errOf (flushHeld ;; appendFromResponse id) s1 = (Ok err, s2) /\ grew base true s2 /\
    (err = None -> exists new, transcript (run_ s2) = base ++ new /\ calls new ≡ₚ calls (map o_done (opened (run_ s1)))).
Proof.
  intros (new & Ht & _ & Hp & Hf) (Hqt & Hqh & _) Hk. unfold errOf, flushHeld, bind, get, modify.
  match goal with |- context [appendHeld _ ?s1] =>
    destruct (appendHeld_run (heldItems (run_ s)) s1) as (res & s2 & k & E2 & Ho2 & Hh2 & Ht2 & Hr2) end.
  rewrite Hqh, E2. upd_in Ho2. upd_in Ht2. rewrite Hqt, Ht, <- app_assoc in Ht2.
  destruct Hr2 as [[-> ->]|[e ->]]; [|exists (Some e), s2; split_and!; [done|by eexists|done]].
  rewrite firstn_all in Ht2. unfold appendFromResponse, bind, get.
  destruct (appendCompleted_run id (opened (run_ s2)) s2) as (res & s3 & l & -> & Ho3 & Ht3 & Hr3).
  rewrite Ht2, <- !app_assoc in Ht3.
  destruct Hr3 as [[-> ->]|[e ->]]; [|exists (Some e), s3; split_and!; [done|by eexists|done]].
  exists None, s3. split_and!; [done|by eexists|]. intros _. eexists. split; [exact Ht3|].
  rewrite !calls_app, Ho2, app_assoc. unfold heldCalls, doneCalls in Hp.
  rewrite Hp, <- (kept_all _ Hf), <- Hk. apply calls_kept.
Qed.

Lemma deliverResponse_attempted base committed resp s :
  attempt base committed s -> attempted base (deliverResponse resp s).
Proof.
  intros Ha. unfold deliverResponse, bind at 1. destruct (renameCalls resp s) as [[resp'|e| |] s1] eqn:E1; try done.
  pose proof (quiet_renameCalls resp s) as Hq. rewrite E1 in Hq. cbn [snd] in Hq.
  assert (grew base true s1) as Hg1.
  { destruct Ha as (new & Ht & _). destruct Hq as (Hqt & _). exists new. by rewrite Hqt. }
  pose proof (renameCalls_status _ _ _ _ E1) as Hst.
  assert (forall s err, grew base true s ->
    attempted base ((let! sent := errOf (emit (fun r => EvResponseEnd {| re_RunID := runID r; re_Turn := turn r;
        re_Response := resp'; re_Withheld := false |})) in
      match sent with Some e => ret (None, true, Some e) | None => ret (None, true, Some err) end) s)) as Hfailed.
  { intros s0 err Hg. unfold bind, errOf. match goal with |- context [emit ?f s0] => destruct (emit f s0) as [[u|e| |] s2] eqn:E end; try done.
    all: split; [eapply grew_still; [eapply still_of; [apply still_emit|exact E]|done]|done]. }
  rewrite Hst. destruct (decide (rp_Status resp = StatusFailed)) as [Hf|Hf].
  { rewrite (bool_decide_eq_true_2 _ Hf). unfold bind at 1, ret at 1. by apply Hfailed. }
  rewrite (bool_decide_eq_false_2 _ Hf).
  destruct (renameCalls_calls resp s s1 resp' E1 Hf) as (Hcalls & Hk & _); [by destruct Ha as (?&?&?&?&?)|].
  unfold bind at 1. destruct (appendRest base committed (rp_ID resp') s s1 Ha Hq Hk) as (err & s2 & -> & Hg2 & Hok).
  destruct err as [e|]; [cbn; by split|]. destruct (Hok eq_refl) as (new & Hn & Hp).
  unfold bind, errOf. match goal with |- context [emit ?f s2] => destruct (emit f s2) as [[u|e| |] s3] eqn:E end; try done.
  all: pose proof (still_of _ _ _ _ (still_emit _) E) as Hs3.
  all: split; [by eapply grew_still|]; intros ?; try done.
  split; [done|]. destruct Hs3 as (Ht3 & _). exists resp', new. rewrite Ht3. split_and!; [done|done|]. by rewrite Hp, Hcalls.
Qed.

Lemma stream_run req s : attempted (transcript (run_ s)) (stream req s).
Proof.
  unfold stream. rewrite (bind_ok (modify clearAttempt) _ s tt (s <| run_ ::= clearAttempt |>) eq_refl).
  assert (attempt (transcript (run_ s)) false (s <| run_ ::= clearAttempt |>)) as Ha.
  { exists []. rewrite app_nil_r. split_and!; try done. }
  revert Ha. generalize (s <| run_ ::= clearAttempt |>). intros s1 Ha.
  rewrite (bind_ok shares _ s1 (sh s1) s1) by (by destruct s1).
  pose proof (streamLoop_kept _ (Events env req (sh s1)) acc0 None None false s1 (fun _ => Ha) (attempt_grew _ _ _ Ha)) as Hl.
  unfold bind at 1.
  destruct (streamLoop _ _ _ _ _ _) as [[[resp committed err|acc [halt|] resp committed]|e| |] s2]; try done.
  - destruct Hl as [Hg _]. split; [by eapply grew_commit|done].
  - destruct Hl as [Hg Ha2]. destruct resp as [resp|]; [by eapply deliverResponse_attempted, Ha2|]. by split.
Qed.

(** C30: an attempt that commits to nothing leaves no trace, and one that succeeds is in
    the transcript. Whatever the stream carries, however it is cut, and whatever a
    guard or a consumer refuses: the transcript only grows; it is as it was when the
    attempt did not commit, so trying again repeats nothing; and when the attempt
    returns its response, the calls the response lists are the calls the transcript
    grew by, each as many times. *)
Theorem stream_attempted req s : attempted (transcript (run_ s)) (stream req s).
Proof. apply stream_run. Qed.

End Calls.

(** ** A turn *)
Section Turns.
Context `{Externals} `{Tools} `{Accumulator} {W : Type} {env : Env W}.

(** Steps that leave the transcript. *)
Definition sameTranscript (s s' : St W) : Prop := transcript (run_ s') = transcript (run_ s).

#[export] Instance sameTranscript_preorder : PreOrder sameTranscript.
Proof. split; [done|]. unfold sameTranscript. intros ??? H1' H2'. by rewrite H2'. Qed.

Lemma same_ask {A} (f : shared W -> A * shared W) : keeps sameTranscript (ask f).
Proof. apply keeps_ask. by intros s h. Qed.
Lemma same_call {A} (f : shared W -> (A + error) * shared W) : keeps sameTranscript (call f).
Proof. apply keeps_call. by intros s h. Qed.
Lemma same_emit f : keeps sameTranscript (emit f).
Proof. apply keeps_emit; [typeclasses eauto|by intros s h|by intros s]. Qed.
#[local] Hint Extern 1 (keeps sameTranscript (ask _)) => apply same_ask : keeps.
#[local] Hint Extern 1 (keeps sameTranscript (move _)) => apply same_ask : keeps.
#[local] Hint Extern 1 (keeps sameTranscript fresh) => apply same_ask : keeps.
#[local] Hint Extern 1 (keeps sameTranscript shares) => apply same_ask : keeps.
#[local] Hint Extern 1 (keeps sameTranscript ctxDone) => apply same_ask : keeps.
#[local] Hint Extern 1 (keeps sameTranscript (call _)) => apply same_call : keeps.
#[local] Hint Extern 1 (keeps sameTranscript (emit _)) => apply same_emit : keeps.

Lemma same_applyQuarantine items : keeps sameTranscript (applyQuarantine items).
Proof. unfold applyQuarantine. keeps. Qed.
#[local] Hint Resolve same_applyQuarantine : keeps.
Lemma same_inputFor model filtered at_ : keeps sameTranscript (inputFor model filtered at_).
Proof. unfold inputFor. keeps. Qed.
#[local] Hint Resolve same_inputFor : keeps.
Lemma same_forModel b prev req : keeps sameTranscript (forModel b prev req).
Proof. unfold forModel. keeps. Qed.
#[local] Hint Resolve same_forModel : keeps.
Lemma same_buildOnce tools settings fold rebuild :
  match rebuild with Some m => keeps sameTranscript m | None => True end ->
  keeps sameTranscript (buildOnce tools settings fold rebuild).
Proof.
  intros Hr. unfold buildOnce, transformed, blockedCall, quarantined. keeps.
  match goal with E : (if ?b then _ else _) = Some _ |- _ => by destruct b; simplify_eq end.
Qed.
Lemma same_requestWith tools settings fold : keeps sameTranscript (requestWith tools settings fold).
Proof. unfold requestWith. by repeat apply same_buildOnce. Qed.
#[local] Hint Resolve same_requestWith : keeps.
Lemma same_foldedRequest tools req revised : keeps sameTranscript (foldedRequest tools req revised).
Proof. unfold foldedRequest. keeps. Qed.
Lemma same_retry call delay err req : keeps sameTranscript (retry call delay err req).
Proof. unfold retry, quarantined. keeps. Qed.
Lemma same_sleep d : keeps sameTranscript (sleep d).
Proof. unfold sleep. keeps. Qed.
Lemma same_revise attempt err req b : keeps sameTranscript (revise attempt err req b).
Proof. unfold revise. keeps. Qed.
#[local] Hint Resolve same_foldedRequest same_retry same_sleep same_revise : keeps.

(** The state after a step that returns or not. *)
Lemma same_bind {A B} (m : M W A) (k : A -> M W B) (Q : res B * St W -> Prop) s :
  keeps sameTranscript m -> (forall e s', Q (Err e, s')) -> (forall s', Q (Panicked, s')) -> (forall s', Q (OutOfFuel, s')) ->
  (forall a s', transcript (run_ s') = transcript (run_ s) -> Q (k a s')) -> Q (bind m k s).
Proof.
  intros Hm He Hp Ho Hk. specialize (Hm s). unfold bind. destruct (m s) as [[a|e| |] s'] eqn:E; auto.
Qed.

(** The response of a turn lists the calls the transcript grew by since [base]. *)
Definition answers (base : Transcript) (r : res Response * St W) : Prop :=
  match r with (Ok resp, s') => delivered base (Some resp) s' | _ => True end.

Ltac same := apply same_bind; [keeps|done|done|done|].

Lemma attempts_answers fuel tools start call attempt folded revised req b s :
  answers (transcript (run_ s)) (attempts fuel tools start call attempt folded revised req b s).
Proof.
  revert call attempt folded revised req b s.
  induction fuel as [|fuel IH]; intros call attempt folded revised req b s; cbn [attempts]; [done|].
  unfold bind at 1. pose proof (stream_run req s) as Hs.
  destruct (stream req s) as [[[[resp committed] err]|e| |] s1]; try done. destruct Hs as [Hg Hok].
  rewrite (bind_ok (attribute _ _) _ s1 tt _ eq_refl).
  match goal with |- answers _ (_ ?t) => assert (transcript (run_ t) = transcript (run_ s1)) as Ht by done;
    revert Ht; generalize t end. intros s2 Ht.
  destruct err as [err|].
  2: { destruct (Hok eq_refl) as (_ & r & new & -> & Hn & Hp). cbn. exists r, new. upd. by rewrite Ht. }
  clear Hok. destruct (asStop err).
  { unfold guardStopped, bind. by repeat case_match. }
  same. intros done_ s3 Ht3. destruct done_ as [[? cause]|]; [done|]. destruct (errIs err ErrGuard).
  { unfold guardRefused, bind. by repeat case_match. }
  destruct committed.
  { cbn [negb andb]. done. }
  destruct Hg as (new & Hg & Hnil). rewrite (Hnil eq_refl), app_nil_r in Hg.
  assert (transcript (run_ s3) = transcript (run_ s)) as Hbase by congruence.
  cbv zeta. match goal with |- answers _ ((if ?f then _ else _) _) => set (fold := f) end.
  match goal with |- answers _ ((if _ then _ else ?a) _) => set (again := a) end.
  assert (forall s4, transcript (run_ s4) = transcript (run_ s) -> answers (transcript (run_ s)) (again s4)) as Hagain.
  { intros s4 H4. unfold again. destruct (_ || _); [done|]. same. intros [[b' req'] moved] s5 H5.
    same. intros _ s6 H6. same. intros woken s7 H7. destruct woken.
    - unfold abortedStop. same. intros. done.
    - replace (transcript (run_ s)) with (transcript (run_ s7)) by congruence. apply IH. }
  clearbody again. destruct fold; [|by apply Hagain]. same. intros [next nb] s4 H4. destruct (sameItems _ _); [apply Hagain; congruence|].
  same. intros _ s5 H5. replace (transcript (run_ s)) with (transcript (run_ s5)) by congruence. apply IH.
Qed.

(** C28: a turn acts on the calls it recorded. However many attempts a turn takes, and
    whatever the ones that failed had begun, a turn whose call of the model returns
    has grown the transcript by the items of that response alone, and the calls the
    response lists are exactly the calls among them, each as many times; so the batch
    runs no call the transcript does not hold and owes no call it does not run. *)
Theorem modelTurn_calls tools s : answers (transcript (run_ s)) (modelTurn tools s).
Proof.
  unfold modelTurn, request. same. intros [req b] s1 H1'. unfold quarantined. same. intros q s2 H2'.
  same. intros _ s3 H3'. same. intros r s4 H4'.
  replace (transcript (run_ s)) with (transcript (run_ s4)) by congruence. apply attempts_answers.
Qed.

End Turns.
