(* ===== verification/Ids.v ===== *)
(** * Ids: the call IDs the loop decides. *)

From S2P Require Export Stream.

Definition chars (s : string) : list ascii := list_ascii_of_string s.

Section Strings.

Lemma chars_substring n s : chars (String.substring 0 n s) = take n (chars s).
Proof.
  revert n. induction s as [|a s IH]; intros [|n]; try done. cbn. f_equal. exact (IH n).
Qed.

Lemma chars_length s : length (chars s) = String.length s.
Proof. induction s as [|a s IH]; [done|]. cbn. by rewrite <- IH. Qed.

Lemma chars_inj s t : chars s = chars t -> s = t.
Proof.
  intros E. by rewrite <- (string_of_list_ascii_of_string s), <- (string_of_list_ascii_of_string t); unfold chars in E; rewrite E.
Qed.

Lemma mapRunes_alphabet skip s : Forall (fun a => callIDChar a = true) (chars (mapRunes skip s)).
Proof.
  revert skip. induction s as [|a s IH]; intros skip; [constructor|]. cbn [mapRunes]. destruct skip as [|skip]; [|apply IH].
  constructor; [|apply IH]. by destruct (callIDChar a) eqn:E.
Qed.

(** A character of the alphabet is a rune of its own. *)
Lemma callIDChar_width a s : callIDChar a = true -> runeWidth (String.String a s) = 1%nat.
Proof.
  intros Ha. assert (byteIn 194 223 a = false /\ byteIn 224 239 a = false /\ byteIn 240 244 a = false) as (H1 & H2 & H3).
  { destruct a as [[] [] [] [] [] [] [] []]; vm_compute in Ha |- *; done. }
  cbn [runeWidth]. by rewrite H1, H2, H3.
Qed.

Lemma mapRunes_id s : Forall (fun a => callIDChar a = true) (chars s) -> mapRunes 0 s = s.
Proof.
  induction s as [|a s IH]; [done|]. intros [Ha Hs]%Forall_cons. cbn [mapRunes]. rewrite Ha, callIDChar_width by done.
  cbn [Nat.sub]. by rewrite IH.
Qed.

(** The first rune of a text that is not empty gives a character. *)
Lemma mapRunes_nonempty s : s <> "" -> mapRunes 0 s <> "".
Proof. by destruct s. Qed.

End Strings.

(** A call ID the loop makes its own starts with a prefix any provider takes:
    never empty, at most 39 characters, so that an underscore and 24 characters more
    make 64, and each a letter, a digit, an underscore or a hyphen, whatever bytes the
    model's ID holds; and the prefix is the model's own ID when that is such a text. *)
Theorem callIDPrefix_spec id :
  callIDPrefix id <> "" /\ (String.length (callIDPrefix id) <= 39)%nat /\
  Forall (fun a => callIDChar a = true) (chars (callIDPrefix id)) /\
  (callIDPrefix id = id <->
   id <> "" /\ (String.length id <= 39)%nat /\ Forall (fun a => callIDChar a = true) (chars id)) /\
  callIDPrefix (callIDPrefix id) = callIDPrefix id.
Proof.
  assert (forall id, callIDPrefix id <> "" /\ (String.length (callIDPrefix id) <= 39)%nat /\
    Forall (fun a => callIDChar a = true) (chars (callIDPrefix id))) as Hok.
  { clear id. intros id. unfold callIDPrefix. case_bool_decide as Hid; [split_and!; [done|simpl; lia|by repeat constructor]|].
    rewrite <- chars_length, chars_substring. split_and!.
    - pose proof (mapRunes_nonempty id Hid) as Hne. by destruct (mapRunes 0 id).
    - rewrite length_take. unfold maxCallIDPrefix. lia.
    - apply Forall_take, mapRunes_alphabet. }
  assert (forall id, id <> "" -> (String.length id <= 39)%nat -> Forall (fun a => callIDChar a = true) (chars id) ->
    callIDPrefix id = id) as Hid.
  { clear id. intros id Hne Hl Ha. unfold callIDPrefix. rewrite bool_decide_eq_false_2 by done. rewrite mapRunes_id by done.
    apply chars_inj. rewrite chars_substring. apply take_ge. rewrite chars_length. unfold maxCallIDPrefix. lia. }
  destruct (Hok id) as (H1 & H2 & H3). split_and!; try done.
  - split; [|intros (?&?&?); by apply Hid]. intros E. by rewrite E in H1, H2, H3.
  - by apply Hid.
Qed.

Section Decided.
Context `{Externals} `{Accumulator} {W : Type} {env : Env W}.

(** The loop keeps the model's call ID exactly when no other call has it. An ID
    the model gives is kept when it is not empty, no call of the transcript has it,
    no other call of the attempt took it, and neither the agent nor the context
    reserved it; any other call is given a new ID, made with the model's as prefix;
    and whichever it is given, the next call of the attempt cannot take. *)
Theorem decideCallID_spec call index (s : St W) :
  let r := run_ s in
  let own := CallID call <> "" /\ (forall c, callItem c ∈ transcript r -> callID c <> CallID call) /\
    CallID call ∉ decided r /\ CallID call ∉ reserved env /\ CallID call ∉ ctxReserved r in
  exists id s', decideCallID call index s = (Ok tt, s') /\
    callAt (run_ s') = <[index := {| cs_id := id; cs_itemID := ID call |}]> (callAt r) /\
    decided (run_ s') = {[ id ]} ∪ decided r /\
    (own -> id = CallID call) /\
    (~ own -> id = (NewID env (callIDPrefix (CallID call)) (sh s)).1) /\
    callIDTaken (run_ s') id = true.
Proof.
  intros r own.
  assert (callIDTaken r (CallID call) = false <-> own) as Htaken.
  { unfold callIDTaken, own. rewrite !orb_false_iff, !bool_decide_eq_false.
    assert (existsb (fun c => bool_decide (callID c = CallID call)) (calls (transcript r)) = false <->
      forall c, callItem c ∈ transcript r -> callID c <> CallID call) as ->; [|tauto].
    rewrite <- not_true_iff_false, existsb_exists. split.
    - intros Hn c Hc E. apply Hn. exists c. split; [by apply list_elem_of_In, elem_of_calls|by apply bool_decide_eq_true].
    - intros Hn (c & Hc & E%bool_decide_eq_true). apply list_elem_of_In, elem_of_calls in Hc. by apply (Hn c). }
  unfold decideCallID, decideID, bind, get, ask, modify, ret. fold r. destruct (callIDTaken r (CallID call)) eqn:E.
  - assert (~ own) as Hown by (intros Ho%Htaken; congruence).
    destruct (NewID env _ (sh s)) as [id h] eqn:En. exists id. eexists. split; [reflexivity|]. upd.
    split_and!; try done. unfold callIDTaken. upd. rewrite (bool_decide_eq_true_2 (id ∈ {[id]} ∪ _)) by set_solver.
    by rewrite orb_true_r.
  - pose proof (proj1 Htaken eq_refl) as Ho. exists (CallID call). eexists. split; [reflexivity|]. upd.
    split_and!; try done. unfold callIDTaken. upd. rewrite (bool_decide_eq_true_2 (CallID call ∈ {[_]} ∪ _)) by set_solver.
    by rewrite orb_true_r.
Qed.

End Decided.
