(* ===== verification/Batches.v ===== *)
(** * Batches: what a batch of calls does to the events and to the transcript. *)

From S2P Require Import Toy.
From S2P Require Export Logic Calls.

(** ** Counting the calls begun and ended *)

Definition isStart (id : string) (ev : event) : Prop := match ev with EvToolStart e => tst_CallID e = id | _ => False end.
Definition isEnd (id : string) (ev : event) : Prop := match ev with EvToolEnd e => te_CallID e = id | _ => False end.
#[export] Instance isStart_dec id ev : Decision (isStart id ev).
Proof. destruct ev; simpl; apply _. Defined.
#[export] Instance isEnd_dec id ev : Decision (isEnd id ev).
Proof. destruct ev; simpl; apply _. Defined.

(** The tool_starts and the tool_ends of the call [id]. *)
Definition starts (id : string) (l : list event) : nat := length (filter (isStart id) l).
Definition finishes (id : string) (l : list event) : nat := length (filter (isEnd id) l).

(** The tool_starts of [id] still without a tool_end. *)
Definition open_ (id : string) (l : list event) : Z := Z.of_nat (starts id l) - Z.of_nat (finishes id l).

Lemma open_app id l l' : open_ id (l ++ l') = open_ id l + open_ id l'.
Proof. unfold open_, starts, finishes. rewrite !filter_app, !length_app. lia. Qed.

Lemma open_one id ev :
  open_ id [ev] = if bool_decide (isStart id ev) then 1 else if bool_decide (isEnd id ev) then -1 else 0.
Proof.
  unfold open_, starts, finishes. rewrite !filter_cons, !filter_nil.
  destruct ev; repeat case_decide; repeat case_bool_decide; try done.
Qed.

(** The calls of a batch not ended. *)
Definition owes (id : string) (p : callState) : Z :=
  if bool_decide (callID (c_call p) = id) && negb (c_ended p) then 1 else 0.
Definition owed (id : string) (b : batch) : Z := foldr (fun p n => owes id p + n) 0 b.
Definition someOf (b : list (option callState)) : batch := omap (fun p => p) b.

Lemma owed_cons id p b : owed id (p :: b) = owes id p + owed id b.
Proof. done. Qed.
Lemma owed_nil id : owed id [] = 0.
Proof. done. Qed.

Lemma owed_app id b b' : owed id (b ++ b') = owed id b + owed id b'.
Proof. induction b as [|p b IH]; simpl; lia. Qed.

Lemma owed_insert id b i p p' : b !! i = Some p -> owed id (<[i := p']> b) = owed id b - owes id p + owes id p'.
Proof.
  revert i. induction b as [|q b IH]; intros [|i] Hi; simplify_eq/=; [lia|]. rewrite (IH i Hi). lia.
Qed.

Lemma owed_ended id b : Forall (fun p => c_ended p = true) b -> owed id b = 0.
Proof.
  induction 1 as [|p b Hp Hb IH]; simpl; [done|]. rewrite IH. unfold owes. rewrite Hp, andb_false_r. lia.
Qed.

Lemma someOf_all b : someOf (map Some b) = b.
Proof. induction b as [|p b IH]; [done|]. cbn. f_equal. exact IH. Qed.

Lemma someOf_none {A} (l : list A) : someOf (map (fun _ => None) l) = [].
Proof. by induction l. Qed.

Lemma someOf_app b b' : someOf (b ++ b') = someOf b ++ someOf b'.
Proof. apply omap_app. Qed.

Section Balance.
Context `{Externals} `{Tools} `{Accumulator} {W : Type} {env : Env W}.

(** A step that begins and ends no call. *)
Definition sameOpen (s s' : St W) : Prop := forall id, open_ id (log s') = open_ id (log s).

#[export] Instance sameOpen_preorder : PreOrder sameOpen.
Proof. split; [done|]. intros ??? H2 H3 id. by rewrite H3, H2. Qed.

Lemma sameOpen_event s ev : kindOf ev <> KToolStart -> kindOf ev <> KToolEnd ->
  sameOpen s (s <| log ::= fun l => l ++ [ev] |>).
Proof.
  intros H2 H3 id. upd. rewrite open_app, open_one. destruct ev; cbn in H2, H3; try done; cbn [isStart isEnd];
    rewrite !bool_decide_eq_false_2 by tauto; lia.
Qed.

#[export] Instance sameOpen_RunLogic : RunLogic (keeping sameOpen).
Proof.
  apply keeps_RunLogic; [typeclasses eauto|apply worldly_asked; by intros s h id| | |].
  - intros f _. by apply keeps_modify.
  - intros f Hf. apply keeps_emit; [typeclasses eauto|by intros s h id|]. intros s. destruct (Hf (run_ s)) as [_ Hk].
    apply sameOpen_event; rewrite Hk; done.
  - intros i g f _ _. apply keeps_appendItem; [typeclasses eauto|by intros s h id|]. intros s. cbv zeta. intros id. upd.
    rewrite open_app, open_one. cbn [isStart isEnd]. rewrite !bool_decide_eq_false_2 by tauto. lia.
Qed.

(** After a program that returns a value or an error, [f] of what it returns is what
    is open beyond [n]. *)
Definition opens {A} (f : A -> string -> Z) (n : string -> Z) (r : res A * St W) : Prop :=
  match r with
  | (Ok a, s') => forall id, open_ id (log s') = n id + f a id
  | (Err _, s') => forall id, open_ id (log s') = n id
  | _ => True
  end.

(** A step that begins and ends no call, first. *)
Lemma opens_bind {A B} (m : M W A) (k : A -> M W B) f n s :
  obeys (keeping sameOpen) m -> (forall id, open_ id (log s) = n id) ->
  (forall a s', (forall id, open_ id (log s') = n id) -> opens f n (k a s')) -> opens f n (bind m k s).
Proof.
  intros Hm Hs Hk. specialize (Hm s). unfold bind.
  destruct (m s) as [[a|e| |] s'] eqn:E; cbn [snd] in Hm; try done.
  - apply Hk. intros id. by rewrite Hm.
  - intros id. by rewrite Hm.
Qed.

(** One that never fails, whatever is open by then. *)
Lemma opens_after {A B} (m : M W A) (k : A -> M W B) f n s :
  obeys (keeping sameOpen) m -> (forall e s', m s <> (Err e, s')) ->
  (forall a s', (forall id, open_ id (log s') = open_ id (log s)) -> opens f n (k a s')) -> opens f n (bind m k s).
Proof.
  intros Hm He Hk. specialize (Hm s). unfold bind.
  destruct (m s) as [[a|e| |] s'] eqn:E; cbn [snd] in Hm; try done.
  - by apply Hk.
  - exfalso. by eapply He.
Qed.

(** ** A call ended *)
Lemma finish_run p s :
  exists err s', finish p s = (Ok (ended_ p, err), s') /\
    forall id, open_ id (log s') = open_ id (log s) - (if bool_decide (callID (c_call p) = id) then 1 else 0).
Proof.
  unfold finish, bind, errOf, ret, emit. destruct (send env _ _) as [[e|] h]; eexists _, _; (split; [reflexivity|]);
    intros id; upd; rewrite open_app, open_one; cbn [isStart isEnd toolEnd te_CallID];
    rewrite (bool_decide_eq_false_2 False) by tauto; change (c_call (ended_ p)) with (c_call p); repeat case_bool_decide; simplify_eq/=; try done; lia.
Qed.

Lemma ended_ended p : c_ended (ended_ p) = true.
Proof. done. Qed.
Lemma ended_call p : c_call (ended_ p) = c_call p.
Proof. done. Qed.

(** What [settle] and its callers make of a call: which call it is, whether it is
    deferred, and what it opened stay. *)
Definition carried (p p' : callState) : Prop := c_call p' = c_call p /\ c_deferred p' = c_deferred p.

Lemma owes_ended id p : c_ended p = true -> owes id p = 0.
Proof. intros Hp. unfold owes. by rewrite Hp, andb_false_r. Qed.
Lemma owes_open id p : c_ended p = false -> owes id p = if bool_decide (callID (c_call p) = id) then 1 else 0.
Proof. intros Hp. unfold owes. by rewrite Hp, andb_true_r. Qed.

Lemma isCancellation_run e (s : St W) : exists b h, isCancellation e s = (Ok b, s <| sh := h |>).
Proof.
  unfold isCancellation, ctxDone, bind, ask, ret. destruct (ctxErr env (sh s)) as [d h]. by eexists _, h.
Qed.

Lemma finish_transcript p s : transcript (run_ (finish p s).2) = transcript (run_ s).
Proof. unfold finish, bind, errOf, emit, ret. by destruct (send env _ _) as [[e|] h]. Qed.

Lemma settleEnd_run p (s : St W) :
  c_ended p = false ->
  exists p' err s', (let! cut := isCancellation (c_err p) in finish (p <| c_cut ::= orb cut |>)) s = (Ok (p', err), s') /\
    carried p p' /\ c_settled p' = c_settled p /\ c_ended p' = true /\
    (forall id, open_ id (log s') = open_ id (log s) - owes id p + owes id p') /\
    transcript (run_ s') = transcript (run_ s).
Proof.
  intros Hp. unfold bind at 1. destruct (isCancellation_run (c_err p) s) as (b & h & ->).
  set (q := p <| c_cut ::= orb b |>). pose proof (finish_transcript q (s <| sh := h |>)) as Ht.
  destruct (finish_run q (s <| sh := h |>)) as (err & s' & E & Ho). rewrite E in Ht |- *.
  exists (ended_ q), err, s'. split_and!; try done. intros id. rewrite Ho, (owes_ended id (ended_ q)) by done.
  rewrite (owes_open id p Hp). change (c_call q) with (c_call p). upd. lia.
Qed.

(** A call settled: ended, or left as it was by a hook that failed. *)
Lemma settle_run p (s : St W) :
  c_ended p = false ->
  exists p' err s', settle p s = (Ok (p', err), s') /\ carried p p' /\ c_settled p' = c_settled p /\
    (forall id, open_ id (log s') = open_ id (log s) - owes id p + owes id p') /\
    (c_ended p' = true \/ (exists e, err = Some e) /\ c_ended p' = false) /\ transcript (run_ s') = transcript (run_ s).
Proof.
  intros Hp.
  assert (forall q (s0 : St W), carried p q -> c_settled q = c_settled p -> c_ended q = false -> log s0 = log s ->
    transcript (run_ s0) = transcript (run_ s) ->
    exists p' err s', (let! cut := isCancellation (c_err q) in finish (q <| c_cut ::= orb cut |>)) s0 = (Ok (p', err), s') /\
      carried p p' /\ c_settled p' = c_settled p /\
      (forall id, open_ id (log s') = open_ id (log s) - owes id p + owes id p') /\
      (c_ended p' = true \/ (exists e, err = Some e) /\ c_ended p' = false) /\
      transcript (run_ s') = transcript (run_ s)) as Hend.
  { intros q s0 [Hc Hd] Hs Hq Hl Ht. destruct (settleEnd_run q s0 Hq) as (p' & err & s' & E & [Hc' Hd'] & Hs' & He & Ho & Ht').
    exists p', err, s'. split; [exact E|]. split; [split; congruence|]. split; [congruence|].
    split; [|split; [by left|congruence]].
    intros id. rewrite Ho, Hl, (owes_open id q Hq), (owes_open id p Hp), Hc. done. }
  unfold settle. destruct (cf_AfterToolCall (cfg env)) as [after|].
  2: { unfold bind at 1, ret at 1. by apply Hend. }
  destruct (c_blocked p); [unfold bind at 1, ret at 1; by apply Hend|].
  unfold bind at 1 2, get, bind at 1, try, call, ret at 1. destruct (after _ _) as [[[o|]|e] h]; cbv beta iota.
  - apply Hend; try done; by split.
  - by apply Hend.
  - unfold ret. exists p, (Some (Wrap "agentturn: after-tool-call hook" e)), (s <| sh := h |>).
    split_and!; try done; [intros id; upd; lia|right; eauto].
Qed.

(** A call before its tool_start, decided or not. *)
Definition unstarted (p : callState) : Prop :=
  c_ended p = false /\ c_settled p = false /\ (c_blocked p = true -> is_Some (c_err p)) /\
  (c_blocked p = false -> c_err p = None).

(** A call once preflight is done with it: settled and ended, or the executor's, and
    then one whose tool is known, whose arguments are an object and that nothing
    blocked, deferred or refused. *)
Definition ready (p : callState) : Prop :=
  if c_settled p then c_ended p = true
  else c_ended p = false /\ c_blocked p = false /\ c_deferred p = false /\ is_Some (c_tool p) /\
    validObject (c_args p) = true /\ c_err p = None.

Lemma check_run p (s : St W) :
  unstarted p -> c_deferred p = false ->
  exists p' err s', check p s = (Ok (p', err), s') /\ carried p p' /\
    (forall id, open_ id (log s') = open_ id (log s) - owes id p + owes id p') /\
    (err = None -> ready p') /\ transcript (run_ s') = transcript (run_ s).
Proof.
  intros (He & Hs & Hb & Hn) Hd. unfold check. cbv zeta. change (c_err (p <| c_err := refusal p |>)) with (refusal p).
  destruct (refusal p) as [e|] eqn:Er.
  - match goal with |- context [settle ?q s] => destruct (settle_run q s He) as (p' & err & s' & E & Hc & Hs' & Ho & Hend & Ht) end.
    exists p', err, s'. split; [exact E|]. split; [exact Hc|]. split; [exact Ho|]. split; [|exact Ht].
    intros ->. unfold ready. rewrite Hs'. upd. destruct Hend as [?|[[? [=]] _]]. done.
  - exists (p <| c_err := None |>), None, s. split; [done|]. split; [done|]. split; [intros id; unfold owes; upd; lia|].
    split; [|done]. intros _. unfold ready. upd. rewrite Hs. revert Er. unfold refusal.
    destruct (c_blocked p); [destruct (Hb eq_refl) as [? ->]; done|]. destruct (c_tool p); [|done].
    destruct (validObject (c_args p)); [|done]. intros _. by split_and!.
Qed.

(** The tool_start of a call, and all [startCall] makes of it. *)
Lemma startCall_run p d (s : St W) :
  unstarted p ->
  exists p' err s', startCall p d s = (Ok (p', err), s') /\ carried p p' /\
    (forall id, open_ id (log s') = open_ id (log s) + owes id p') /\
    (err = None -> ready p') /\ transcript (run_ s') = transcript (run_ s).
Proof.
  intros Hp. pose proof Hp as (He & Hs & _). unfold startCall, bind at 1, errOf at 1, emit at 1.
  match goal with |- context [send env ?x (sh s)] => set (ev := x); destruct (send env ev (sh s)) as [e h] end.
  set (s1 := s <| sh := h |> <| log ::= fun l => l ++ [ev] |>).
  assert (forall id, open_ id (log s1) = open_ id (log s) + owes id p) as Ho1.
  { intros id. unfold s1. upd. rewrite open_app, open_one, (owes_open id p He). unfold ev. cbn [isStart isEnd tst_CallID].
    rewrite (bool_decide_eq_false_2 False) by tauto. repeat case_bool_decide; simplify_eq/=; try done; lia. }
  destruct e as [e|]; [by exists p, (Some e), s1|]. destruct (c_deferred p) eqn:Hd.
  2: { destruct (check_run p s1 Hp Hd) as (p' & err & s' & E & Hc & Ho & Hr & Ht). exists p', err, s'.
    split; [exact E|]. split; [exact Hc|]. split; [intros id; rewrite Ho, Ho1; lia|]. split; [exact Hr|exact Ht]. }
  unfold bind at 1, errOf, emit. match goal with |- context [send env ?x (sh s1)] => set (ev' := x); destruct (send env ev' (sh s1)) as [e h'] end.
  assert (forall id (s2 : St W), log s2 = log s1 ++ [ev'] -> open_ id (log s2) = open_ id (log s) + owes id (p <| c_settled := true |> <| c_ended := true |>)) as Ho2.
  { intros id s2 Hl. rewrite Hl, open_app, Ho1, (owes_ended id (p <| c_settled := true |> <| c_ended := true |>)) by done.
    rewrite open_one, (owes_open id p He). unfold ev'. cbn [isStart isEnd te_CallID].
    change (c_call (p <| c_settled := true |> <| c_ended := true |>)) with (c_call p).
    rewrite (bool_decide_eq_false_2 False) by tauto. repeat case_bool_decide; simplify_eq/=; try done; lia. }
  destruct e as [e|]; eexists _, _, _; (split; [reflexivity|]); (split; [done|]); (split; [intros id; by apply Ho2|]);
    (split; [done|done]).
Qed.

(** A decision leaves the call unstarted, and where it is. *)
Lemma decide_run p d (s : St W) :
  unstarted p -> c_err p = None ->
  exists p' s', decide_ p d s = (Ok p', s') /\ unstarted p' /\ c_call p' = c_call p /\ log s' = log s /\
    transcript (run_ s') = transcript (run_ s).
Proof.
  intros (He & Hs & Hb & Hn) Herr.
  assert (c_blocked p = false) as Hbl by (destruct (c_blocked p); [by destruct (Hb eq_refl); congruence|done]).
  assert (exists note s1, (if negb (bool_decide (td_Note d = "")) && bool_decide (Action d = Allow)
    then newMessage RoleDeveloper (td_Note d) else ret Nil) s = (Ok note, s1) /\ log s1 = log s /\
    transcript (run_ s1) = transcript (run_ s)) as (note & s1 & E1 & Hl1 & Ht1).
  { destruct (_ && _); [|by exists Nil, s]. unfold newMessage, bind, fresh, ask, ret. by eexists _, _. }
  unfold decide_. rewrite (bind_ok _ _ _ _ _ E1).
  assert (unstarted (decided_ p d note) /\ c_call (decided_ p d note) = c_call p) as [Hu Hc].
  { unfold decided_, unstarted. destruct (td_Args d), (negb (bool_decide (td_Note d = "")) && bool_decide (Action d = Allow)),
      (Action d); upd; rewrite ?Hbl, ?Herr; split_and!; try done; try (by intros _; eexists). }
  clear E1. cbv zeta. unfold bind. destruct (bool_decide (Action d = Defer)); unfold modify, ret; eexists _, _; (split; [reflexivity|]); upd;
    split_and!; done.
Qed.

(** Steps that return, send nothing and leave the transcript. *)
Definition passes {A} (m : M W A) : Prop :=
  forall s, exists a s', m s = (Ok a, s') /\ log s' = log s /\ transcript (run_ s') = transcript (run_ s).

Lemma passes_resolved p : passes (resolved p).
Proof. intros s. unfold resolved, modify, ret. destruct (c_tool p); by eexists _, _. Qed.
Lemma passes_batchCall id : passes (batchCall id).
Proof. intros s. by eexists _, _. Qed.
Lemma passes_expect l : passes (expect l).
Proof. intros s. by eexists _, _. Qed.
Lemma passes_askPolicy p cs index : passes (askPolicy p cs index).
Proof.
  intros s. unfold askPolicy. destruct (cf_BeforeToolCall (cfg env)) as [before|]; [|by eexists _, _].
  unfold bind, get, try, call, ret. destruct (before _ _) as [[d|e] h]; by eexists _, _.
Qed.
Lemma passes_newMessage role text : passes (newMessage role text).
Proof. intros s. unfold newMessage, bind, fresh, ask, ret. by eexists _, _. Qed.
Lemma passes_approvalNote text i : passes i -> passes (approvalNote text i).
Proof.
  intros Hi s. unfold approvalNote, bind, ret. destruct (bool_decide (text = "")); [by eexists _, _|].
  destruct (Hi s) as (a & s' & -> & Hl & Ht). by eexists _, _.
Qed.

(** What a call is by its tool_start, and what follows it. *)
Definition begun (c : callRef) (s : St W) (r : res (option callState * option error) * St W) : Prop :=
  exists p err s', r = (Ok (p, err), s') /\ transcript (run_ s') = transcript (run_ s) /\
    match p with
    | Some p => c_call p = c /\ (forall id, open_ id (log s') = open_ id (log s) + owes id p) /\ (err = None -> ready p)
    | None => log s' = log s /\ exists e, err = Some e
    end.

Lemma begun_decided p (d : option ToolDecision + error) d' e c (s0 s : St W) :
  unstarted p -> c_err p = None -> c_call p = c -> log s = log s0 -> transcript (run_ s) = transcript (run_ s0) ->
  begun c s0 (match d with
    | inr _ => ret (None, Some e)
    | inl d =>
        let! p := match d with Some d => decide_ p d | None => ret p end in
        let! (p, err) := startCall p (d' d) in
        ret (Some p, err)
    end s).
Proof.
  intros Hp He Hc Hl Ht. destruct d as [d|e'].
  2: { exists None, (Some e), s. split_and!; [done|done|done|eauto]. }
  assert (exists p' s', match d with Some d => decide_ p d | None => ret p end s = (Ok p', s') /\ unstarted p' /\
    c_call p' = c_call p /\ log s' = log s /\ transcript (run_ s') = transcript (run_ s)) as (p' & s1 & E & Hp' & Hc' & Hl' & Ht').
  { destruct d as [d|]; [by apply decide_run|by exists p, s]. }
  rewrite (bind_ok _ _ _ _ _ E).
  destruct (startCall_run p' (d' d) s1 Hp') as (q & err & s2 & E2 & [Hcq _] & Ho & Hr & Ht2). rewrite (bind_ok _ _ _ _ _ E2).
  exists (Some q), err, s2. split_and!; [done|congruence|congruence| |done].
  intros id. by rewrite Ho, Hl', Hl.
Qed.

Lemma preflight_run tools c cs index s : begun c s (preflight tools c cs index s).
Proof.
  unfold preflight, bind at 1, get. unfold prepare, bind at 1, bind at 1, get, ret at 1.
  match goal with |- context [resolved ?q] => set (p := q) end.
  destruct (passes_resolved p s) as ([] & s1 & E1 & Hl1 & Ht1). rewrite (bind_ok _ _ _ _ _ E1).
  destruct (passes_batchCall (callID c) s1) as ([] & s2 & E2 & Hl2 & Ht2). rewrite (bind_ok _ _ _ _ _ E2).
  destruct (passes_askPolicy p cs index s2) as (d & s3 & E3 & Hl3 & Ht3). rewrite (bind_ok _ _ _ _ _ E3).
  destruct d as [d|e].
  - apply (begun_decided p (inl d) (fun d => d) (Errorf "") c s s3); try congruence; done.
  - exists None, (Some e), s3. split_and!; [done|congruence|congruence|eauto].
Qed.

Lemma approve_run tools cs index ap s : begun (ap_call ap) s (approve tools cs index ap s).
Proof.
  unfold approve, bind at 1, get. unfold prepare, bind at 1, bind at 1, get, ret at 1.
  match goal with |- context [resolved ?q] => set (p := q) end.
  destruct (passes_resolved p s) as ([] & s1 & E1 & Hl1 & Ht1). rewrite (bind_ok _ _ _ _ _ E1).
  destruct (passes_batchCall (callID (ap_call ap)) s1) as ([] & s2 & E2 & Hl2 & Ht2). rewrite (bind_ok _ _ _ _ _ E2).
  erewrite (bind_ok (modify _) _ s2) by reflexivity. cbv zeta.
  match goal with |- begun _ _ (_ ?t) => set (s3 := t) end.
  destruct (passes_expect (ap_nested ap) s3) as ([] & s4 & E4 & Hl4 & Ht4). rewrite (bind_ok _ _ _ _ _ E4).
  destruct (passes_approvalNote (ap_note ap) (answerNoteItem (ap_note ap) (ap_by ap))) with (s := s4)
    as (own & s5 & E5 & Hl5 & Ht5); [intros s0; unfold answerNoteItem, bind, fresh, ask, ret; by eexists _, _|].
  rewrite (bind_ok _ _ _ _ _ E5).
  destruct (passes_approvalNote (ap_held ap) (newMessage RoleDeveloper (ap_held ap)) (passes_newMessage _ _) s5)
    as (held & s6 & E6 & Hl6 & Ht6). rewrite (bind_ok _ _ _ _ _ E6).
  match goal with |- context [askPolicy ?q] => set (p' := q) end.
  assert (passes (if ap_decide ap then askPolicy p' cs index else ret (inl None))) as Hask.
  { destruct (ap_decide ap); [apply passes_askPolicy|]. intros s0. by eexists _, _. }
  destruct (Hask s6) as (d & s7 & E7 & Hl7 & Ht7). rewrite (bind_ok _ _ _ _ _ E7).
  assert (log s3 = log s /\ transcript (run_ s3) = transcript (run_ s)) as [Hl3 Ht3].
  { unfold s3. upd. split; congruence. }
  assert (unstarted p' /\ c_err p' = None /\ c_call p' = ap_call ap) as (Hu & He & Hc).
  { unfold p'. destruct (bool_decide (ap_key ap = "")); upd; split_and!; try done; split_and!; done. }
  destruct d as [d|e].
  - apply (begun_decided p' (inl d) (fun d => Some (default _ d)) (Errorf "") _ s s7); try congruence; done.
  - exists None, (Some e), s7. split_and!; [done|congruence|congruence|eauto].
Qed.

(** ** A batch ended early *)

Abbreviation allEnded b := (Forall (fun p => c_ended p = true) b).

Lemma someOf_cons p b : someOf (Some p :: b) = p :: someOf b.
Proof. done. Qed.
Lemma someOf_cons_none b : someOf (None :: b) = someOf b.
Proof. done. Qed.

(** A call of a batch ended early: [m] ends it unless it has ended. *)
Definition endsOne (m : M W callState) (p : callState) : Prop :=
  forall s, exists p' s', m s = (Ok p', s') /\ c_ended p' = true /\
    forall id, open_ id (log s') = open_ id (log s) - owes id p.

Lemma finishCut_ends cause p : c_ended p = false -> endsOne (finishCut cause p) p.
Proof.
  intros Hp s. unfold finishCut, bind. destruct (finish_run (cutWith cause p) s) as (err & s' & -> & Ho).
  eexists _, _. split; [reflexivity|]. split; [done|]. intros id. by rewrite Ho, owes_open.
Qed.

Lemma failCalls_run cause b s :
  exists b' s', failCalls cause b s = (Ok b', s') /\ forall id, open_ id (log s') = open_ id (log s) - owed id (someOf b).
Proof.
  revert s. induction b as [|[p|] b IH]; intros s; cbn [failCalls].
  - exists [], s. split; [done|]. intros id. cbn. lia.
  - assert (exists p' s', (if c_ended p then ret p else finishCut cause p) s = (Ok p', s') /\
      forall id, open_ id (log s') = open_ id (log s) - owes id p) as (p' & s1 & E & Ho).
    { destruct (c_ended p) eqn:Hp.
      - exists p, s. split; [done|]. intros id. rewrite owes_ended by done. lia.
      - destruct (finishCut_ends cause p Hp s) as (p' & s' & E & _ & Ho). eauto. }
    rewrite (bind_ok _ _ _ _ _ E). destruct (IH s1) as (b' & s2 & E2 & Ho2). rewrite (bind_ok _ _ _ _ _ E2).
    eexists _, s2. split; [reflexivity|]. intros id. rewrite someOf_cons, owed_cons, Ho2, Ho. lia.
  - destruct (IH s) as (b' & s2 & E2 & Ho2). rewrite (bind_ok _ _ _ _ _ E2). eexists _, s2. split; [reflexivity|].
    intros id. by rewrite someOf_cons_none.
Qed.

(** A program that does not return a value, and leaves [n] open. *)
Definition cuts {A} (n : string -> Z) (r : res A * St W) : Prop :=
  match r with
  | (Ok _, _) => False
  | (Err _, s') => forall id, open_ id (log s') = n id
  | _ => True
  end.

Lemma failBatch_cuts {A} b cause n s :
  (forall id, open_ id (log s) = n id + owed id (someOf b)) -> cuts n (failBatch (A := A) b cause s).
Proof.
  intros Hs. unfold failBatch. destruct (failCalls_run cause b s) as (b' & s1 & E & Ho). rewrite (bind_ok _ _ _ _ _ E).
  assert (obeys (keeping sameOpen) (appendFinished b')) as Hk by walk. specialize (Hk s1).
  unfold bind, try. destruct (appendFinished b' s1) as [[u|e| |] s2]; try done; cbn; intros id; cbn in Hk;
    rewrite Hk, Ho, Hs; lia.
Qed.

Lemma abortCall_run cause first p s :
  c_ended p = false ->
  exists p' first' s', abortCall cause first p s = (Ok (p', first'), s') /\
    forall id, open_ id (log s') = open_ id (log s) - owes id p.
Proof.
  intros Hp. unfold abortCall. cbv zeta. set (q := p <| c_settled := true |> <| c_cut := true |> <| c_err := Some cause |>).
  destruct first as [e|].
  { unfold bind. destruct (finish_run q s) as (err & s' & -> & Ho). eexists _, _, _. split; [reflexivity|].
    intros id. by rewrite Ho, owes_open. }
  destruct (settle_run q s Hp) as (q' & err & s1 & E & [Hc _] & _ & Ho & He & _). rewrite (bind_ok _ _ _ _ _ E).
  assert (forall id, owes id q = owes id p) as Hq by done.
  destruct err as [e|].
  - destruct (c_ended q') eqn:Eq'.
    + eexists _, _, _. split; [reflexivity|]. intros id. rewrite Ho, Hq, (owes_ended id q') by done. lia.
    + unfold bind. destruct (finish_run q' s1) as (err & s2 & -> & Ho2). eexists _, _, _. split; [reflexivity|].
      intros id. rewrite Ho2, Ho, Hq, (owes_open id q') by done. lia.
  - destruct He as [He|[[? [=]] _]]. eexists _, _, _. split; [reflexivity|].
    intros id. rewrite Ho, Hq, (owes_ended id q') by done. lia.
Qed.

Lemma abortCalls_run cause first b s :
  exists b' first' s', abortCalls cause first b s = (Ok (b', first'), s') /\
    forall id, open_ id (log s') = open_ id (log s) - owed id (someOf b).
Proof.
  revert first s. induction b as [|[p|] b IH]; intros first s; cbn [abortCalls].
  - exists [], first, s. split; [done|]. intros id. cbn. lia.
  - assert (exists p' first' s', (if c_ended p then ret (p, first) else abortCall cause first p) s = (Ok (p', first'), s') /\
      forall id, open_ id (log s') = open_ id (log s) - owes id p) as (p' & first' & s1 & E & Ho).
    { destruct (c_ended p) eqn:Hp; [|by apply abortCall_run].
      exists p, first, s. split; [done|]. intros id. rewrite owes_ended by done. lia. }
    rewrite (bind_ok _ _ _ _ _ E). destruct (IH first' s1) as (b' & first2 & s2 & E2 & Ho2). rewrite (bind_ok _ _ _ _ _ E2).
    eexists _, _, s2. split; [reflexivity|]. intros id. rewrite someOf_cons, owed_cons, Ho2, Ho. lia.
  - destruct (IH first s) as (b' & first2 & s2 & E2 & Ho2). rewrite (bind_ok _ _ _ _ _ E2).
    eexists _, _, s2. split; [reflexivity|]. intros id. by rewrite someOf_cons_none.
Qed.

Lemma abortBatch_cuts {A} b cause n s :
  (forall id, open_ id (log s) = n id + owed id (someOf b)) -> cuts n (abortBatch (A := A) b cause s).
Proof.
  intros Hs. unfold abortBatch. destruct (abortCalls_run cause None b s) as (b' & first & s1 & E & Ho).
  rewrite (bind_ok _ _ _ _ _ E).
  assert (obeys (keeping sameOpen) (appendFinished b')) as Hk by walk. specialize (Hk s1).
  assert (forall s2, sameOpen s1 s2 -> forall id, open_ id (log s2) = n id) as Hn.
  { intros s2 H2 id. rewrite H2, Ho, Hs. lia. }
  unfold bind, errOf. destruct (appendFinished b' s1) as [[u|e| |] s2]; try done; destruct first; cbn; by apply Hn.
Qed.

(** ** The calls of a batch before they run *)

(** The calls of [cs] brought to their tool_starts, from a state with [n] open and
    the transcript [t]. *)
Definition prepared (n : string -> Z) (t : Transcript) (cs : list callRef) (r : res batch * St W) : Prop :=
  match r with
  | (Ok b, s') => Forall ready b /\ map c_call b = cs /\ (forall id, open_ id (log s') = n id + owed id b) /\
      transcript (run_ s') = t
  | (Err _, s') => forall id, open_ id (log s') = n id
  | _ => True
  end.

(** One call more, then the rest. *)
Lemma prepared_next n t c cs (sofar : batch) {A} (rest : list A) (k : batch -> M W batch) m s :
  begun c s (m s) -> Forall ready sofar -> transcript (run_ s) = t ->
  (forall id, open_ id (log s) = n id + owed id sofar) ->
  (forall p s', Forall ready (sofar ++ [p]) -> c_call p = c -> transcript (run_ s') = t ->
     (forall id, open_ id (log s') = n id + owed id (sofar ++ [p])) -> prepared n t cs (k (sofar ++ [p]) s')) ->
  prepared n t cs ((let! (p, err) := m in
    match err with
    | Some e => failBatch (map Some sofar ++ p :: map (fun _ => None) rest) e
    | None => match p with Some p => k (sofar ++ [p]) | None => ret sofar end
    end) s).
Proof.
  intros (p & err & s1 & E & Ht1 & Hp) Hr Ht Ho Hk. rewrite (bind_ok _ _ _ _ _ E).
  destruct err as [e|].
  - match goal with |- prepared _ _ _ (failBatch ?b e s1) => assert (cuts n (failBatch (A := batch) b e s1)) as Hc end.
    { apply failBatch_cuts. intros id. rewrite someOf_app, someOf_all, owed_app. destruct p as [p|].
      - destruct Hp as (_ & Hp & _). rewrite someOf_cons, someOf_none, owed_cons, owed_nil, Hp, Ho. lia.
      - destruct Hp as [Hl _]. rewrite someOf_cons_none, someOf_none, owed_nil, Hl, Ho. lia. }
    destruct (failBatch _ e s1) as [[b|e'| |] s2]; done.
  - destruct p as [p|]; [|by destruct Hp as (_ & e & [=])]. destruct Hp as (Hc & Hp & Hready).
    apply Hk; [|done|congruence|].
    + apply Forall_app. split; [done|]. constructor; [by apply Hready|done].
    + intros id. rewrite Hp, Ho, owed_app, owed_cons, owed_nil. lia.
Qed.

Lemma preflightLoop_prepared tools cs sofar rest n t s :
  Forall ready sofar -> transcript (run_ s) = t -> (forall id, open_ id (log s) = n id + owed id sofar) ->
  prepared n t (map c_call sofar ++ rest) (preflightLoop tools cs sofar rest s).
Proof.
  revert sofar s. induction rest as [|c rest IH]; intros sofar s Hr Ht Ho; cbn [preflightLoop].
  { cbn. rewrite app_nil_r. by split_and!. }
  apply (prepared_next _ _ c _ _ _ (fun b => preflightLoop tools cs b rest)); try done; [apply preflight_run|].
  intros p s' Hr' Hc Ht' Ho'. specialize (IH (sofar ++ [p]) s' Hr' Ht' Ho').
  rewrite map_app, <- app_assoc in IH. cbn [map app] in IH. by rewrite Hc in IH.
Qed.

Lemma approveLoop_prepared tools cs sofar rest n t s :
  Forall ready sofar -> transcript (run_ s) = t -> (forall id, open_ id (log s) = n id + owed id sofar) ->
  prepared n t (map c_call sofar ++ map ap_call rest) (approveLoop tools cs sofar rest s).
Proof.
  revert sofar s. induction rest as [|ap rest IH]; intros sofar s Hr Ht Ho; cbn [approveLoop].
  { cbn. rewrite app_nil_r. by split_and!. }
  apply (prepared_next _ _ (ap_call ap) _ _ _ (fun b => approveLoop tools cs b rest)); try done; [apply approve_run|].
  intros p s' Hr' Hc Ht' Ho'. specialize (IH (sofar ++ [p]) s' Hr' Ht' Ho').
  rewrite map_app, <- app_assoc in IH. cbn [map app] in IH. by rewrite Hc in IH.
Qed.

End Balance.
