(* ===== verification/Executor.v ===== *)
(** * Executor: a batch run to its end by an executor that keeps its contract.

    [drains] is what the loop relies on of [agenttool.Executor]: the events it yields
    are of the jobs it was given, and each job has one last event before it is done. *)

From S2P Require Import Toy.
From S2P Require Export Batches.

Fixpoint drains {W} (left : gset nat) (t : exec W) : Prop :=
  match t with
  | XDrained => left = ∅
  | XStart _ _ rest => forall h st, drains left (rest h st)
  | XEvent _ j ev rest => j ∈ left /\ forall h failed, drains (if ev_Final ev then left ∖ {[ j ]} else left) (rest h failed)
  end.

Section Executor.
Context `{Externals} `{Tools} `{Accumulator} {W : Type} {env : Env W}.

(** ** What the executor's steps keep of a batch *)

Definition core (p : callState) : callRef * bool * bool := (c_call p, c_deferred p, c_ended p).

Lemma owed_core id b b' : map core b = map core b' -> owed id b = owed id b'.
Proof.
  revert b'. induction b as [|p b IH]; intros [|p' b'] Hb; try done. injection Hb as Hc Hd He Hb.
  rewrite !owed_cons, (IH _ Hb). unfold owes. by rewrite Hc, He.
Qed.

Lemma core_lookup b b' i p' : map core b = map core b' -> b' !! i = Some p' -> exists p, b !! i = Some p /\ core p = core p'.
Proof.
  intros Hb Hi. assert ((core <$> b) !! i = Some (core p')) as Hl.
  { change (core <$> b) with (map core b). rewrite Hb. change (map core b') with (core <$> b').
    rewrite list_lookup_fmap. by rewrite Hi. }
  apply list_lookup_fmap_Some in Hl as (p & ? & ?). by exists p.
Qed.

Lemma map_insert_same {A B} (f : A -> B) (l : list A) i x y : l !! i = Some x -> f y = f x -> map f (<[i := y]> l) = map f l.
Proof.
  revert i. induction l as [|z l IH]; intros [|i] Hi Hf; simplify_eq/=; [by rewrite Hf|]. f_equal. by apply IH.
Qed.

Lemma linkJobs_core at_ pre j b : map core (linkJobs at_ pre j b) = map core b.
Proof.
  assert (forall k b, map core (waitFor at_ j b k) = map core b) as Hw.
  { intros k b0. unfold waitFor. destruct (at_ !! j), (at_ !! k); try done. by rewrite !map_alter_other. }
  revert j b Hw. induction pre as [|ks pre IH]; intros j b Hw; cbn [linkJobs]; [done|].
  assert (forall ks b, map core (foldl (waitFor at_ j) b ks) = map core b) as Hks.
  { induction ks0 as [|k ks0 IHk]; intros b0; cbn [foldl]; [done|]. by rewrite IHk, Hw. }
  rewrite IH; [apply Hks|]. intros k b0. unfold waitFor. destruct (at_ !! _), (at_ !! k); try done.
  by rewrite !map_alter_other.
Qed.

(** ** Jobs and their calls *)
Lemma elem_of_unsettled b n i :
  i ∈ unsettled b n <-> (n <= i)%nat /\ exists p, b !! (i - n)%nat = Some p /\ c_settled p = false.
Proof.
  revert n. induction b as [|q b IH]; intros n; cbn [unsettled].
  { split; [intros Hi; by apply not_elem_of_nil in Hi|]. by intros (_ & p & Hp & _). }
  rewrite elem_of_app, IH. split.
  - intros [Hx|(Hle & p & Hp & Hs)].
    + destruct (c_settled q) eqn:E; [by apply not_elem_of_nil in Hx|]. apply list_elem_of_singleton in Hx as ->.
      split; [lia|]. exists q. by rewrite Nat.sub_diag.
    + split; [lia|]. exists p. split; [|done]. by replace (i - n)%nat with (S (i - S n)) by lia.
  - intros (Hle & p & Hp & Hs). destruct (decide (i = n)) as [->|Hne].
    + left. rewrite Nat.sub_diag in Hp. simplify_eq/=. rewrite Hs. by left.
    + right. split; [lia|]. exists p. split; [|done]. by replace (i - n)%nat with (S (i - S n)) in Hp by lia.
Qed.

Lemma NoDup_unsettled b n : NoDup (unsettled b n).
Proof.
  revert n. induction b as [|q b IH]; intros n; cbn [unsettled]; [apply NoDup_nil_2|].
  destruct (c_settled q); [apply IH|]. apply NoDup_cons. split; [|apply IH]. intros [? _]%elem_of_unsettled. lia.
Qed.

Lemma length_jobs b : length (map jobOf (omap (fun i => b !! i) (unsettled b 0))) = length (unsettled b 0).
Proof.
  rewrite length_map. assert (forall l, (forall i, i ∈ l -> is_Some (b !! i)) -> length (omap (fun i => b !! i) l) = length l) as Hl.
  { induction l as [|i l IH]; intros Hl; [done|]. destruct (Hl i) as [p Hp]; [left|]. cbn. rewrite Hp. cbn. f_equal.
    apply IH. intros k Hk. apply Hl. by right. }
  apply Hl. intros i (_ & p & Hp & _)%elem_of_unsettled. rewrite Nat.sub_0_r in Hp. eauto.
Qed.

(** ** The invariant

    From a batch [b0] and a state with [n] open and the transcript [t]: the calls
    still to have their last event, [left], are not ended, and while nothing failed
    they are the only ones. *)
Record going (b0 : batch) (at_ : list nat) (n : string -> Z) (t : Transcript) (left : gset nat) (x : running) (s : St W) :
    Prop := {
  go_calls : map c_call (x_batch x) = map c_call b0;
  go_deferred : map c_deferred (x_batch x) = map c_deferred b0;
  go_open : forall id, open_ id (log s) = n id + owed id (x_batch x);
  go_left : forall j, j ∈ left -> exists i p, at_ !! j = Some i /\ x_batch x !! i = Some p /\ c_ended p = false;
  go_done : x_failed x = None -> forall i p, x_batch x !! i = Some p -> c_ended p = false -> exists j, j ∈ left /\ at_ !! j = Some i;
  go_transcript : transcript (run_ s) = t;
}.

(** A state that differs in what is shared and in events that begin and end no call. *)
Lemma going_state b0 at_ n t left x s s' :
  sameOpen s s' -> transcript (run_ s') = transcript (run_ s) -> going b0 at_ n t left x s -> going b0 at_ n t left x s'.
Proof. intros Ho Ht [H1' H2 H3 H4 H5 H6]. split; try done; [intros id; by rewrite Ho|congruence]. Qed.

(** A batch that differs in what is not [core]. *)
Lemma going_core b0 at_ n t left x x' s :
  map core (x_batch x') = map core (x_batch x) -> (x_failed x' = None -> x_failed x = None) ->
  going b0 at_ n t left x s -> going b0 at_ n t left x' s.
Proof.
  intros Hc Hf [H1' H2 H3 H4 H5 H6].
  assert (map c_call (x_batch x') = map c_call (x_batch x)) as Hcall.
  { rewrite <- (map_map core (fun c => c.1.1)), Hc. by rewrite map_map. }
  assert (map c_deferred (x_batch x') = map c_deferred (x_batch x)) as Hdef.
  { rewrite <- (map_map core (fun c => c.1.2)), Hc. by rewrite map_map. }
  split; try congruence.
  - intros id. rewrite H3. f_equal. by apply owed_core.
  - intros j Hj. destruct (H4 j Hj) as (i & p & Hi & Hp & He). destruct (core_lookup _ _ _ _ Hc Hp) as (p' & Hp' & Hcp).
    exists i, p'. split_and!; [done|done|]. by injection Hcp as _ _ ->.
  - intros Hn i p' Hp' He. destruct (core_lookup _ _ _ _ (eq_sym Hc) Hp') as (p & Hp & Hcp).
    apply (H5 (Hf Hn) i p Hp). by injection Hcp as _ _ ->.
Qed.

(** The last event of the job [j], which ends its call or fails the batch. *)
Lemma going_last b0 at_ n t left x x' s s' j i p p' :
  NoDup at_ -> at_ !! j = Some i -> x_batch x !! i = Some p -> c_ended p = false -> carried p p' ->
  x_batch x' = <[i := p']> (x_batch x) ->
  (forall id, open_ id (log s') = open_ id (log s) - owes id p + owes id p') ->
  (x_failed x' = None -> x_failed x = None /\ c_ended p' = true) -> transcript (run_ s') = transcript (run_ s) ->
  going b0 at_ n t left x s -> going b0 at_ n t (left ∖ {[ j ]}) x' s'.
Proof.
  intros Hnd Hj Hp He [Hc Hd] Hx Ho Hf Ht [H1' H2 H3 H4 H5 H6]. split.
  - rewrite Hx, <- H1'. by eapply map_insert_same.
  - rewrite Hx, <- H2. by eapply map_insert_same.
  - intros id. rewrite Ho, H3, Hx, (owed_insert id _ i p p' Hp). lia.
  - intros k [Hk Hne]%elem_of_difference. destruct (H4 k Hk) as (i' & q & Hi' & Hq & Hqe). exists i', q.
    split_and!; [done| |done]. rewrite Hx, list_lookup_insert_ne; [done|]. intros ->.
    apply Hne, elem_of_singleton. by eapply NoDup_lookup.
  - intros Hn i' q Hq Hqe. destruct (Hf Hn) as [Hxf Hpe]. destruct (decide (i' = i)) as [->|Hne].
    + rewrite Hx, list_lookup_insert_eq in Hq by (by eapply lookup_lt_Some). congruence.
    + rewrite Hx, list_lookup_insert_ne in Hq by done. destruct (H5 Hxf i' q Hq Hqe) as (k & Hk & Hki). exists k.
      split; [|done]. apply elem_of_difference. split; [done|]. intros ->%elem_of_singleton. congruence.
  - congruence.
Qed.

(** An event of a job that is not its last. *)
Lemma going_event b0 at_ n t left x x' s s' i p p' :
  x_batch x !! i = Some p -> c_ended p = false -> carried p p' -> c_ended p' = false ->
  x_batch x' = <[i := p']> (x_batch x) ->
  (forall id, open_ id (log s') = open_ id (log s) - owes id p + owes id p') ->
  (x_failed x' = None -> x_failed x = None /\ c_ended p' = false) -> transcript (run_ s') = transcript (run_ s) ->
  going b0 at_ n t left x s -> going b0 at_ n t left x' s'.
Proof.
  intros Hp He [Hc Hd] He' Hx Ho Hf Ht. intros [H2 H3 H4 H5 H6 H7]. split.
  - rewrite Hx, <- H2. by eapply map_insert_same.
  - rewrite Hx, <- H3. by eapply map_insert_same.
  - intros id. rewrite Ho, H4, Hx, (owed_insert id _ i p p' Hp). lia.
  - intros k Hk. destruct (H5 k Hk) as (i' & q & Hi' & Hq & Hqe). rewrite Hx. destruct (decide (i' = i)) as [->|Hne].
    + exists i, p'. split_and!; [done| |done]. rewrite list_lookup_insert_eq; [done|by eapply lookup_lt_Some].
    + exists i', q. by rewrite list_lookup_insert_ne.
  - intros Hxf i' q Hq Hqe. destruct (Hf Hxf) as [Hxf0 _]. rewrite Hx in Hq. destruct (decide (i' = i)) as [->|Hne].
    + by eapply H6.
    + rewrite list_lookup_insert_ne in Hq by done. by eapply H6.
  - congruence.
Qed.

(** ** The steps *)

(** Steps that return, begin and end no call and leave the transcript. *)
Definition tells {A} (m : M W A) (Q : A -> Prop) : Prop :=
  forall s, exists a s', m s = (Ok a, s') /\ sameOpen s s' /\ transcript (run_ s') = transcript (run_ s) /\ Q a.

Lemma tells_emit f : sends KOther f -> tells (errOf (emit f)) (fun _ => True).
Proof.
  intros Hf s. destruct (Hf (run_ s)) as [_ Hk]. unfold errOf, emit. destruct (send env _ _) as [[e|] h].
  all: eexists _, _; split; [reflexivity|]; split; [|done].
  all: pose proof (sameOpen_event (MkSt (run_ s) h (log s)) (f (run_ s))) as Hs; rewrite Hk in Hs; by apply Hs.
Qed.

Lemma tells_ctxDone : tells ctxDone (fun _ => True).
Proof. intros s. unfold ctxDone, ask. destruct (ctxErr env (sh s)) as [d h]. by eexists _, _. Qed.

Lemma tells_bctxDone x : tells (bctxDone x) (fun _ => True).
Proof. intros s. unfold bctxDone. destruct (x_cancelled x); [by eexists _, _|apply tells_ctxDone]. Qed.

Lemma tells_fails err x :
  tells (fails err x) (fun x' => x_batch x' = x_batch x /\ x_failed x' = Some err).
Proof.
  intros s. unfold fails, cancelWith, bind. destruct (tells_ctxDone s) as (d & s' & -> & Ho & Ht & _).
  eexists _, _. split; [reflexivity|]. split_and!; try done; destruct x as [b [?|] hf [?|]], d; done.
Qed.

(** A step for the call [p] at [i]: what it makes of it, and whether the batch can
    still succeed. *)
Definition stepped (i : nat) (p : callState) (ev : jobEvent) (x : running) (s : St W) (r : res running * St W) : Prop :=
  exists p' x' s', r = (Ok x', s') /\ carried p p' /\ x_batch x' = <[i := p']> (x_batch x) /\
    (forall id, open_ id (log s') = open_ id (log s) - owes id p + owes id p') /\
    transcript (run_ s') = transcript (run_ s) /\
    (x_failed x' = None -> x_failed x = None /\ c_ended p' = ev_Final ev) /\
    (ev_Final ev = false -> c_ended p' = false).

Lemma stepped_same i p ev x x' (s s' : St W) :
  x_batch x !! i = Some p -> c_ended p = false -> x_batch x' = x_batch x -> sameOpen s s' ->
  transcript (run_ s') = transcript (run_ s) ->
  (x_failed x' = None -> x_failed x = None /\ ev_Final ev = false) -> stepped i p ev x s (Ok x', s').
Proof.
  intros Hp He Hb Ho Ht Hf. exists p, x', s'. split_and!; try done.
  - by rewrite Hb, list_insert_id.
  - intros id. rewrite Ho. lia.
  - intros Hn. destruct (Hf Hn) as [? ->]. done.
Qed.

Lemma markUndispatched_tells p : tells (markUndispatched p) (fun _ => True).
Proof. intros s. by eexists _, _. Qed.

Lemma drainEvent_run p ev x (s : St W) :
  c_ended p = false ->
  exists p' s', drainEvent p ev x s = (Ok p', s') /\ carried p p' /\
    (forall id, open_ id (log s') = open_ id (log s) - owes id p + owes id p') /\
    transcript (run_ s') = transcript (run_ s) /\ (ev_Final ev = false -> c_ended p' = false).
Proof.
  intros He. unfold drainEvent.
  assert (tells (if ev_Final ev && bool_decide (is_Some (c_dispatchErr p)) then markUndispatched p else ret tt) (fun _ => True)) as H2.
  { destruct (_ && _); [apply markUndispatched_tells|]. intros s0. by eexists _, _. }
  destruct (H2 s) as ([] & s1 & E1 & Ho1 & Ht1 & _). rewrite (bind_ok _ _ _ _ _ E1).
  destruct (tells_bctxDone x s1) as (done_ & s2 & E2 & Ho2 & Ht2 & _). rewrite (bind_ok _ _ _ _ _ E2).
  assert (forall id, open_ id (log s2) = open_ id (log s)) as Ho by (intros id; by rewrite Ho2, Ho1).
  match goal with |- context [if ?b then ret p else _] => destruct b eqn:Ef end.
  { exists p, s2. split_and!; try done; [|congruence]. intros id. rewrite Ho. lia. }
  apply orb_false_iff in Ef as [Ef _]. apply orb_false_iff in Ef as [Ef _]. apply orb_false_iff in Ef as [Ef%negb_false_iff _].
  cbv zeta. set (q := p <| c_result := ev_Result ev |> <| c_err := ev_Err ev |> <| c_settled := true |>).
  destruct (settle_run q s2 He) as (p' & err & s3 & E3 & Hc & _ & Ho3 & Hend & Ht3). rewrite (bind_ok _ _ _ _ _ E3).
  assert (forall id, open_ id (log s3) = open_ id (log s) - owes id p + owes id p') as Hopen.
  { intros id. rewrite Ho3, Ho. done. }
  assert (transcript (run_ s3) = transcript (run_ s)) as Htr by congruence.
  destruct err as [e|]; [|exists p', s3; split_and!; try done; congruence].
  destruct (c_ended p') eqn:Ee; [exists p', s3; split_and!; try done; congruence|].
  match goal with |- context [finish ?q'] => set (w := q') end.
  pose proof (finish_transcript w s3) as Htw. unfold bind. destruct (finish_run w s3) as (err & s4 & E4 & Ho4).
  rewrite E4 in Htw |- *. exists (ended_ w), s4. split; [done|]. split; [exact Hc|]. split.
  { intros id. rewrite Ho4, Hopen, (owes_open id p' Ee), (owes_ended id (ended_ w)) by done.
    change (c_call w) with (c_call p'). lia. }
  split; [cbn [snd] in Htw; congruence|congruence].
Qed.

Lemma step_run i p ev x (s : St W) :
  x_batch x !! i = Some p -> c_ended p = false -> stepped i p ev x s (step i p ev x s).
Proof.
  intros Hp He. unfold step. destruct (x_failed x) as [e|] eqn:Ex.
  { destruct (drainEvent_run p ev x s He) as (p' & s' & E & Hc & Ho & Ht & Hn). rewrite (bind_ok _ _ _ _ _ E).
    exists p', (setCall i p' x), s'. split_and!; try done; try (unfold setCall; upd; congruence). }
  destruct (ev_Final ev) eqn:Ef; cbn [negb].
  2: { match goal with |- context [errOf (emit ?f)] => destruct (tells_emit f) with (s := s) as (err & s1 & E1 & Ho1 & Ht1 & _) end; [sent|].
    rewrite (bind_ok _ _ _ _ _ E1). destruct err as [e|].
    - destruct (tells_fails e x s1) as (x' & s2 & E2 & Ho2 & Ht2 & Hb & Hf). rewrite E2.
      apply stepped_same; [done|done|done| |congruence|congruence]. intros id. by rewrite Ho2, Ho1.
    - by apply stepped_same. }
  destruct (c_dispatchErr p) as [e|].
  { destruct (markUndispatched_tells p s) as ([] & s1 & E1 & Ho1 & Ht1 & _). rewrite (bind_ok _ _ _ _ _ E1).
    destruct (tells_fails e x s1) as (x' & s2 & E2 & Ho2 & Ht2 & Hb & Hf). rewrite E2.
    apply stepped_same; [done|done|done| |congruence|congruence]. intros id. by rewrite Ho2, Ho1. }
  set (q := p <| c_result := ev_Result ev |> <| c_err := ev_Err ev |> <| c_settled := true |>).
  destruct (settle_run q s He) as (p' & err & s1 & E1 & Hc & _ & Ho1 & Hend & Ht1). rewrite (bind_ok _ _ _ _ _ E1).
  cbv zeta. destruct err as [e|].
  - destruct (tells_fails e ((setCall i p' x) <| x_hookFailed := negb (c_ended p') |>) s1) as (x' & s2 & E2 & Ho2 & Ht2 & Hb & Hf).
    rewrite E2. exists p', x', s2. split_and!; try done; try congruence; try apply Hc.
    intros id. by rewrite Ho2, Ho1.
  - exists p', (setCall i p' x), s1. split_and!; try done; try apply Hc; try congruence.
    intros _. split; [done|]. rewrite Ef. destruct Hend as [?|[[? [=]] _]]. done.
Qed.

(** ** The executor's events, to the last *)

Lemma onStart_tells i x :
  tells (onStart i x) (fun '(x', _) => map core (x_batch x') = map core (x_batch x) /\ x_failed x' = x_failed x).
Proof.
  intros s. unfold onStart. destruct (x_batch x !! i) as [p|] eqn:Hp; [|by eexists _, _].
  assert (tells (match c_after p with [] => ret None | _ => bctxDone x end) (fun _ => True)) as Hdone.
  { destruct (c_after p); [intros s0; by eexists _, _|apply tells_bctxDone]. }
  destruct (Hdone s) as (d & s1 & E1 & Ho1 & Ht1 & _). rewrite (bind_ok _ _ _ _ _ E1).
  destruct d as [[e cause]|]; [by eexists _, _|]. destruct (forallb _ _); [|by eexists _, _].
  match goal with |- context [errOf (emit ?f)] => destruct (tells_emit f) with (s := s1) as (err & s2 & E2 & Ho2 & Ht2 & _) end; [sent|].
  rewrite (bind_ok _ _ _ _ _ E2). eexists _, _. split; [reflexivity|]. split; [intros id; by rewrite Ho2, Ho1|].
  split; [congruence|]. cbn. split; [|done]. by apply (map_insert_same core _ _ p).
Qed.

Lemma executeLoop_going b0 at_ n t left jobs tree x (s : St W) :
  NoDup at_ -> drains left tree -> going b0 at_ n t left x s ->
  match executeLoop at_ jobs tree x s with
  | (Ok x', s') => going b0 at_ n t ∅ x' s'
  | (Err _, _) => False
  | _ => True
  end.
Proof.
  intros Hnd. revert left x s. induction tree as [|advance j rest IH|advance j ev rest IH]; intros left x s Hd Hg; cbn [executeLoop].
  - cbn in Hd. by subst left.
  - rewrite (bind_ok (move advance) _ s tt (s <| sh := advance (sh s) |>) eq_refl).
    apply (going_state _ _ _ _ _ _ _ (s <| sh := advance (sh s) |>)) in Hg; [|done|done].
    revert Hg. generalize (s <| sh := advance (sh s) |>). clear s. intros s Hg.
    assert (tells (match jobs !! j ≫= fun job => lastWithID (x_batch x) (call_ID (j_Call job)) at_ with
        | Some i => onStart i x | None => ret (x, StartOk) end)
      (fun '(x', _) => map core (x_batch x') = map core (x_batch x) /\ x_failed x' = x_failed x)) as Hs.
    { destruct (jobs !! j ≫= _); [apply onStart_tells|]. intros s0. by eexists _, _. }
    destruct (Hs s) as ([x' st] & s1 & E1 & Ho1 & Ht1 & Hc & Hf). rewrite (bind_ok _ _ _ _ _ E1).
    unfold bind, shares, ask. cbv beta iota. eapply IH; [apply Hd|].
    apply (going_core _ _ _ _ _ x); [done|congruence|]. by eapply going_state.
  - rewrite (bind_ok (move advance) _ s tt (s <| sh := advance (sh s) |>) eq_refl).
    apply (going_state _ _ _ _ _ _ _ (s <| sh := advance (sh s) |>)) in Hg; [|done|done].
    revert Hg. generalize (s <| sh := advance (sh s) |>). clear s. intros s Hg. destruct Hd as [Hj Hd].
    destruct (go_left _ _ _ _ _ _ _ Hg j Hj) as (i & p & Hi & Hp & He). rewrite Hi, Hp.
    destruct (step_run i p ev x s Hp He) as (p' & x' & s1 & E1 & Hc & Hb & Ho1 & Ht1 & Hf & Hn).
    assert ((let! x := step i p ev x in ret (closeDone ev i x)) s = (Ok (closeDone ev i x'), s1)) as E2.
    { by rewrite (bind_ok _ _ _ _ _ E1). }
    rewrite (bind_ok _ _ _ _ _ E2). unfold bind, shares, ask. cbv beta iota. eapply IH; [apply Hd|].
    assert (map core (x_batch (closeDone ev i x')) = map core (x_batch x') /\ x_failed (closeDone ev i x') = x_failed x') as [Hcd Hfd].
    { unfold closeDone. destruct (ev_Final ev); [|done]. split; [|done]. by apply map_alter_other. }
    apply (going_core _ _ _ _ _ x'); [done|congruence|]. destruct (ev_Final ev) eqn:Ef.
    + eapply going_last; try done.
    + eapply going_event; try done. by apply Hn.
Qed.

Lemma passes_markBatch b : passes (W := W) (markBatch b).
Proof.
  induction b as [|p b IH]; intros s; cbn [markBatch]; [by eexists _, _|]. unfold bind.
  destruct (c_dispatched p); unfold markDispatched, modify, ret.
  - destruct (IH (s <| run_ ::= fun r => r <| dispatched ::= <[callID (c_call p) := {| ho_key := c_key p; ho_args := c_args p |}]> |> |>))
      as (a & s' & -> & Hl & Ht). by eexists _, _.
  - apply IH.
Qed.

Definition contract : Prop := forall jobs h, drains (set_seq 0 (length jobs)) (Execute env jobs h).

(** A batch run, with what the executor owes. *)
Lemma execute_run b n t (s : St W) :
  contract -> Forall ready b -> (forall id, open_ id (log s) = n id + owed id b) -> transcript (run_ s) = t ->
  match execute b s with
  | (Ok b', s') => map c_call b' = map c_call b /\ map c_deferred b' = map c_deferred b /\
      (forall id, open_ id (log s') = n id) /\ transcript (run_ s') = t
  | (Err _, s') => forall id, open_ id (log s') = n id
  | _ => True
  end.
Proof.
  intros Hdrain Hr Ho Ht. unfold execute. set (at_ := unsettled b 0). set (jobs := map jobOf _).
  set (b1 := linkJobs at_ _ 0 b). rewrite (bind_ok shares _ s (sh s) s) by (by destruct s).
  assert (map core b1 = map core b) as Hcore by apply linkJobs_core.
  assert (going b at_ n t (set_seq 0 (length jobs))
    {| x_batch := b1; x_failed := None; x_hookFailed := false; x_cancelled := None |} s) as Hg.
  { eapply (going_core _ _ _ _ _ {| x_batch := b; x_failed := None; x_hookFailed := false; x_cancelled := None |}); [done|done|].
    rewrite Forall_lookup in Hr. split; cbn; try done.
    - intros j Hj%elem_of_set_seq. unfold jobs in Hj. rewrite length_jobs in Hj.
      destruct (lookup_lt_is_Some_2 at_ j) as [i Hi]; [unfold at_; lia|].
      destruct (proj1 (elem_of_unsettled b 0 i) (list_elem_of_lookup_2 _ _ _ Hi)) as (_ & p & Hp & Hs).
      rewrite Nat.sub_0_r in Hp. exists i, p. split_and!; [done|done|]. specialize (Hr i p Hp). unfold ready in Hr.
      rewrite Hs in Hr. by destruct Hr.
    - intros _ i p Hp He. specialize (Hr i p Hp). unfold ready in Hr. destruct (c_settled p) eqn:Hs; [congruence|].
      assert (i ∈ at_) as [j Hj]%list_elem_of_lookup.
      { apply elem_of_unsettled. split; [lia|]. exists p. by rewrite Nat.sub_0_r. }
      exists j. split; [|done]. apply elem_of_set_seq. unfold jobs. rewrite length_jobs.
      pose proof (lookup_lt_Some _ _ _ Hj). unfold at_ in *. lia. }
  pose proof (executeLoop_going _ _ _ _ _ jobs _ _ s (NoDup_unsettled b 0) (Hdrain jobs (sh s)) Hg) as Hloop.
  unfold bind at 1. fold at_ in Hloop. destruct (executeLoop at_ jobs _ _ s) as [[x|e| |] s1]; try done.
  pose proof (passes_markBatch (x_batch x)) as Hmark.
  destruct (Hmark s1) as ([] & s2 & E2 & Hl2 & Ht2). rewrite (bind_ok _ _ _ _ _ E2).
  destruct Hloop as [H2 H3 H4 H5 H6 H7]. destruct (x_failed x) as [e|] eqn:Ex.
  { match goal with |- context [failBatch ?b' e s2] => pose proof (failBatch_cuts (A := batch) b' e n s2) as Hcut end.
    rewrite someOf_all, Hl2 in Hcut. specialize (Hcut H4). destruct (failBatch _ e s2) as [[]]; done. }
  assert (forall id, open_ id (log s2) = n id) as Hn.
  { intros id. rewrite Hl2, H4, owed_ended; [lia|]. apply Forall_lookup. intros i p Hp.
    destruct (c_ended p) eqn:He; [done|]. destruct (H6 eq_refl i p Hp He) as (j & Hj & _). set_solver. }
  destruct (tells_ctxDone s2) as (d & s3 & E3 & Ho3 & Ht3 & _). rewrite (bind_ok _ _ _ _ _ E3).
  destruct d as [[e cause]|].
  - assert (obeys (keeping sameOpen) (appendFinished (map Some (x_batch x)))) as Hk by walk. specialize (Hk s3).
    unfold bind. destruct (appendFinished _ s3) as [[]]; cbn; intros; try done; by rewrite Hk, Ho3.
  - cbn. split_and!; [done|done| |congruence]. intros id. by rewrite Ho3.
Qed.

End Executor.
