(* ===== verification/Outputs.v ===== *)
(** * Outputs: what a turn's batch leaves in the transcript and in the events. *)

From S2P Require Import Toy.
From S2P Require Export Executor Ends.

(** ** Outputs appended *)
Section Outputs.
Context `{Externals} `{Tools} `{Accumulator} {W : Type} {env : Env W}.

(** The output of a call of a batch. *)
Definition answersCall (p : callState) (i : item) : Prop :=
  exists a, i = IOutput a {| OutID := ""; OutCallID := callID (c_call p); Output := res_Output (c_result p); OutStatus := "" |}.

(** The calls of a batch that are not deferred. *)
Definition undeferred (b : batch) : batch := filter (fun p => c_deferred p = false) b.

Lemma batchOutputs_run b (s : St W) :
  exists outs h, batchOutputs b s = (Ok (map Plain outs), s <| sh := h |>) /\ Forall2 answersCall (undeferred b) outs.
Proof.
  revert s. induction b as [|p b IH]; intros s; cbn [batchOutputs].
  - exists [], (sh s). split; [by destruct s|constructor].
  - unfold undeferred in *. rewrite filter_cons. destruct (c_deferred p) eqn:Ed.
    + rewrite decide_False by done. apply IH.
    + rewrite decide_True by done. set (s1 := s <| sh := (sh s) <| next ::= Pos.succ |> |>).
      destruct (IH s1) as (outs & h & E & Hf).
      assert (exists a, toolOutput p s = (Ok (Plain (IOutput a {| OutID := ""; OutCallID := callID (c_call p);
        Output := res_Output (c_result p); OutStatus := "" |})), s1)) as [a Ea] by (by eexists).
      rewrite (bind_ok _ _ _ _ _ Ea), (bind_ok _ _ _ _ _ E). eexists (_ :: outs), h. split; [reflexivity|].
      constructor; [by eexists|done].
Qed.

(** Items appended that the consumer takes. *)
Lemma appendItems_ok items mode (s s' : St W) :
  Forall (fun i => isNil i = false) items ->
  appendItems (map Plain items) mode s = (Ok tt, s') ->
  transcript (run_ s') = transcript (run_ s) ++ items /\ notes (run_ s') = notes (run_ s).
Proof.
  unfold appendItems. intros Hi. revert s. induction Hi as [|i items Hn Hi IH]; intros s; cbn [map appendWith].
  { intros [= <-]. by rewrite app_nil_r. }
  destruct (appendOne_run (Plain i) mode noTrigger noTrigger s) as (res & s1 & E & Hnt & _ & Ht); [by destruct i|].
  unfold bind. rewrite E. destruct Ht as [[Ht [->|[e ->]]]|[_ [e ->]]]; try done.
  intros E2. destruct (IH s1 E2) as [Ht2 Hn2]. rewrite Ht2, Ht, <- app_assoc. split; [done|congruence].
Qed.

(** Steps between that append nothing. *)
Lemma same_hold n : keeps (W := W) sameTranscript (hold n).
Proof. apply keeps_modify. by intros s. Qed.
Lemma same_holdAll ns : keeps (W := W) sameTranscript (holdAll ns).
Proof. induction ns; cbn [holdAll]; keeps. apply same_hold. Qed.
Lemma same_modify f : (forall r, transcript (f r) = transcript r) -> keeps (W := W) sameTranscript (modify f).
Proof. intros Hf. apply keeps_modify. intros s. exact (Hf (run_ s)). Qed.
Lemma same_holdBatch b : keeps (W := W) sameTranscript (holdBatch b).
Proof.
  induction b as [|[p|] b IH]; cbn [holdBatch]; unfold holdNotesOf; keeps;
    first [apply same_holdAll|by apply same_modify].
Qed.
Lemma same_holdStrays : keeps (W := W) sameTranscript holdStrays.
Proof. unfold holdStrays. keeps; first [apply same_holdAll|by apply same_modify]. Qed.
Lemma same_notesHeld : keeps (W := W) sameTranscript notesHeld.
Proof. unfold notesHeld. keeps; first [apply same_emit|by apply same_modify]. Qed.

(** What [collect] returns, and leaves. *)
Definition collected (b : batch) (t : Transcript) (r : res (list Result * list callRef) * St W) : Prop :=
  match r with
  | (Ok (results, deferred), s') =>
      results = map c_result b /\ deferred = deferredCalls b /\
      exists outs ns, transcript (run_ s') = t ++ outs ++ ns /\ Forall2 answersCall (undeferred b) outs /\
        match deferred with [] => notes (run_ s') = [] | _ => ns = [] end
  | _ => True
  end.

Lemma collect_run b (s : St W) : collected b (transcript (run_ s)) (collect b s).
Proof.
  unfold collect. destruct (batchOutputs_run b s) as (outs & h & E & Hf). rewrite (bind_ok _ _ _ _ _ E).
  assert (Forall (fun i => isNil i = false) outs) as Hn.
  { clear E. induction Hf as [|p i l l' [a ->] _ IH]; by constructor. }
  assert (forall s1 (k : M W (list Result * list callRef)) (m : M W unit), keeps sameTranscript m ->
    transcript (run_ s1) = transcript (run_ s) ->
    (forall s2, transcript (run_ s2) = transcript (run_ s) -> collected b (transcript (run_ s)) (k s2)) ->
    collected b (transcript (run_ s)) ((m ;; k) s1)) as Hstep.
  { intros s1 k m Hm Ht Hk. apply same_bind; try done. intros u s2 Ht2. apply Hk. congruence. }
  apply Hstep; [apply same_holdBatch|done|]. intros s1 H1'. apply Hstep; [apply same_holdStrays|done|]. intros s2 H2'.
  apply Hstep; [apply same_notesHeld|done|]. intros s3 H3'. clear Hstep.
  unfold bind at 1. destruct (appendItems (map Plain outs) InputTool s3) as [[[]|e| |] s4] eqn:E4; try done.
  destruct (appendItems_ok _ _ _ _ Hn E4) as [Ht4 _]. rewrite H3' in Ht4.
  unfold bind. destruct (deferredCalls b) as [|c cs] eqn:Ed.
  - unfold flushNotes, bind, get.
    destruct (flushLoop_run (length (notes (run_ s4))) s4 (le_n _)) as (res & s5 & k & -> & _ & Ht5 & [[-> Hn5]|[e ->]]); [|done].
    cbn. rewrite Ed. split_and!; try done. eexists outs, _. rewrite Ht5, Ht4, <- app_assoc. by split.
  - cbn. rewrite Ed. split_and!; try done. exists outs, []. by rewrite app_nil_r.
Qed.

(** ** A turn's batch *)

(** The results, the deferred calls and the outputs of a batch of the calls [cs]. *)
Definition batchResult (n : string -> Z) (cs : list callRef) (t : Transcript)
    (r : res (list Result * list callRef) * St W) : Prop :=
  match r with
  | (Ok (results, deferred), s') =>
      (forall id, open_ id (log s') = n id) /\
      exists b outs ns, map c_call b = cs /\ results = map c_result b /\ deferred = deferredCalls b /\
        transcript (run_ s') = t ++ outs ++ ns /\ Forall2 answersCall (undeferred b) outs /\
        match deferred with [] => notes (run_ s') = [] | _ => ns = [] end
  | (Err _, s') => forall id, open_ id (log s') = n id
  | _ => True
  end.

Lemma execute_collect cs b n t (s : St W) :
  contract (env := env) -> Forall ready b -> map c_call b = cs -> (forall id, open_ id (log s) = n id + owed id b) ->
  transcript (run_ s) = t -> batchResult n cs t ((let! b := execute b in collect b) s).
Proof.
  intros Hd Hr Hc Ho Ht. pose proof (execute_run b n t s Hd Hr Ho Ht) as He. unfold bind.
  destruct (execute b s) as [[b'|e| |] s1]; try done. destruct He as (Hc1 & _ & Ho1 & Ht1).
  pose proof (collect_run b' s1) as Hcol. rewrite Ht1 in Hcol.
  assert (obeys (keeping sameOpen) (collect b')) as Hk by walk. specialize (Hk s1).
  destruct (collect b' s1) as [[[results deferred]|e| |] s2]; try done; cbn in Hk |- *.
  - destruct Hcol as (-> & -> & outs & ns & Ht2 & Hf & Hn). split; [intros id; by rewrite Hk|].
    exists b', outs, ns. split_and!; try done. congruence.
  - intros id. by rewrite Hk.
Qed.

(** The calls prepared, then run unless the context is done. *)
Lemma prepared_batch cs n t (m : M W batch) (s : St W) :
  contract (env := env) -> prepared n t cs (m s) ->
  batchResult n cs t ((let! b := m in let! done := ctxDone in
    match done with
    | Some (_, cause) => abortBatch (map Some b) cause
    | None => let! b := execute b in collect b
    end) s).
Proof.
  intros Hd Hp. unfold bind at 1. destruct (m s) as [[b|e| |] s1]; try done. destruct Hp as (Hr & Hc & Ho & Ht).
  destruct (tells_ctxDone s1) as (d & s2 & E2 & Ho2 & Ht2 & _). rewrite (bind_ok _ _ _ _ _ E2).
  assert (forall id, open_ id (log s2) = n id + owed id b) as Ho' by (intros id; by rewrite Ho2).
  destruct d as [[e cause]|].
  - pose proof (abortBatch_cuts (A := list Result * list callRef) (map Some b) cause n s2) as Hcut.
    rewrite someOf_all in Hcut. specialize (Hcut Ho'). by destruct (abortBatch _ cause s2) as [[]].
  - apply execute_collect; try done. congruence.
Qed.

Lemma toolContext_open : obeys (keeping (W := W) sameOpen) toolContext.
Proof. walk. Qed.
Lemma toolContext_same : keeps (W := W) sameTranscript toolContext.
Proof. unfold toolContext. keeps. apply same_applyQuarantine. Qed.

(** A step that begins and ends no call and leaves the transcript, before a batch. *)
Lemma batchResult_after {A} n cs t (m : M W A) k (s : St W) :
  obeys (keeping sameOpen) m -> keeps sameTranscript m -> (forall id, open_ id (log s) = n id) -> transcript (run_ s) = t ->
  (forall a s', (forall id, open_ id (log s') = n id) -> transcript (run_ s') = t -> batchResult n cs t (k a s')) ->
  batchResult n cs t ((let! a := m in k a) s).
Proof.
  intros Hm Ht Ho Hs Hk. specialize (Hm s). specialize (Ht s). unfold bind.
  destruct (m s) as [[a|e| |] s']; try done; cbn in Hm, Ht.
  - apply Hk; [intros id; by rewrite Hm|]. unfold sameTranscript in Ht. congruence.
  - cbn. intros id. by rewrite Hm.
Qed.

Lemma preflightAll_prepared tools cs n (s : St W) :
  (forall id, open_ id (log s) = n id) -> prepared n (transcript (run_ s)) cs (preflightAll tools cs s).
Proof.
  intros Ho. unfold preflightAll.
  assert (prepared n (transcript (run_ s)) cs (preflightLoop tools cs [] cs s)) as Hpre.
  { apply (preflightLoop_prepared tools cs [] cs); [constructor|done|]. intros id. rewrite Ho, owed_nil. lia. }
  unfold bind at 1. destruct (preflightLoop tools cs [] cs s) as [[b|e| |] s1]; try done.
  destruct Hpre as (Hr & Hc & Ho1 & Ht).
  destruct (tells_ctxDone s1) as (d & s2 & E2 & Ho2 & Ht2 & _). rewrite (bind_ok _ _ _ _ _ E2).
  assert (forall id, open_ id (log s2) = n id + owed id b) as Ho' by (intros id; by rewrite Ho2).
  destruct d as [[e cause]|].
  - pose proof (abortBatch_cuts (A := batch) (map Some b) cause n s2) as Hcut.
    rewrite someOf_all in Hcut. specialize (Hcut Ho'). by destruct (abortBatch _ cause s2) as [[]].
  - cbn. split_and!; try done. congruence.
Qed.

(** Preflight admits nothing it should not. When it returns, it has a state for each
    call, in order, and the calls handed to the executor are those still owed a
    tool_end: none of them was blocked, deferred or refused, the tool of each is one the
    turn has, and its arguments are a JSON object; every other call has ended already. *)
Theorem preflight_admits tools cs (s : St W) :
  match preflightAll tools cs s with
  | (Ok b, _) =>
      map c_call b = cs /\
      forall i p, b !! i = Some p ->
        (i ∈ unsettled b 0 <-> c_ended p = false) /\
        (i ∈ unsettled b 0 ->
           c_blocked p = false /\ c_deferred p = false /\ c_err p = None /\ is_Some (c_tool p) /\
           validObject (c_args p) = true)
  | _ => True
  end.
Proof.
  pose proof (preflightAll_prepared tools cs _ s (fun id => eq_refl)) as Hp.
  destruct (preflightAll tools cs s) as [[b|e| |] s1]; try done. destruct Hp as (Hr & Hc & _ & _).
  split; [done|]. intros i p Hi. rewrite Forall_lookup in Hr. specialize (Hr i p Hi). unfold ready in Hr.
  assert (i ∈ unsettled b 0 <-> c_settled p = false) as Hu.
  { rewrite elem_of_unsettled, Nat.sub_0_r. split; [|intros; split; [lia|by exists p]].
    intros (_ & q & Hq & Hs). congruence. }
  rewrite Hu. destruct (c_settled p); [split; [split; congruence|done]|]. destruct Hr as (He & Hb & Hd & Ht & Ha & Hn).
  by split_and!.
Qed.

Lemma toolBatch_result tools cs n (s : St W) :
  contract (env := env) -> cs <> [] -> (forall id, open_ id (log s) = n id) ->
  batchResult n cs (transcript (run_ s)) (toolBatch tools cs s).
Proof.
  intros Hd Hne Ho. unfold toolBatch. destruct cs as [|c cs]; [done|]. set (all := c :: cs).
  apply batchResult_after; [apply toolContext_open|apply toolContext_same|done|done|]. intros _ s1 Ho1 Ht1.
  pose proof (preflightAll_prepared tools all n s1 Ho1) as Hp. rewrite Ht1 in Hp. unfold bind at 1.
  destruct (preflightAll tools all s1) as [[b|e| |] s2]; try done. destruct Hp as (Hr & Hc & Ho2 & Ht2).
  by apply execute_collect.
Qed.

Lemma approvedBatch_result aps n (s : St W) :
  contract (env := env) -> (forall id, open_ id (log s) = n id) ->
  batchResult n (map ap_call aps) (transcript (run_ s)) (approvedBatch aps s).
Proof.
  intros Hd Ho. unfold approvedBatch.
  apply batchResult_after; [walk|apply same_ask|done|done|]. intros tools s0 Ho0 Ht0.
  apply batchResult_after; [apply toolContext_open|apply toolContext_same|done|done|]. intros _ s1 Ho1 Ht1.
  apply (prepared_batch _ _ _ (approveLoop tools (map ap_call aps) [] aps)); [done|].
  apply (approveLoop_prepared tools (map ap_call aps) []); [constructor|done|]. intros id. rewrite Ho1, owed_nil. lia.
Qed.

(** C29: a turn's batch answers the calls it was given. When the batch returns: there
    is one result for each call, in the model's order; the calls deferred are among
    them, in order; the transcript grew by exactly one output for each of the others,
    in the model's order, with its own call's ID and its own result; then by the notes
    waiting, all of them, unless a call was deferred, for whose output they wait. *)
Theorem toolBatch_outputs tools cs (s : St W) :
  contract (env := env) ->
  match toolBatch tools cs s with
  | (Ok (results, deferred), s') =>
      exists b outs ns, map c_call b = cs /\ results = map c_result b /\ deferred = deferredCalls b /\
        transcript (run_ s') = transcript (run_ s) ++ outs ++ ns /\ Forall2 answersCall (undeferred b) outs /\
        (deferred <> [] -> ns = []) /\ (cs <> [] -> deferred = [] -> notes (run_ s') = [])
  | _ => True
  end.
Proof.
  intros Hd. destruct (decide (cs = [])) as [->|Hne].
  { cbn. exists [], [], []. rewrite app_nil_r. split_and!; try done. }
  pose proof (toolBatch_result tools cs _ s Hd Hne (fun id => eq_refl)) as Hr.
  destruct (toolBatch tools cs s) as [[[results deferred]|e| |] s']; try done.
  destruct Hr as (_ & b & outs & ns & Hc & Hres & Hdef & Ht & Hf & Hn). exists b, outs, ns.
  split_and!; try done; by destruct deferred.
Qed.

End Outputs.

(** ** Tool events over a run *)
Section Paired.
Context `{Externals} `{Tools} `{Accumulator} {W : Type} {env : Env W}.

(** As many tool_starts as tool_ends more, for every call, whether the program
    returns a value or an error. *)
Definition balances (A : Type) (m : M W A) : Prop :=
  forall s, match m s with (Ok _, s') | (Err _, s') => sameOpen s s' | _ => True end.

Lemma balances_keeps {A} (m : M W A) : keeps sameOpen m -> obeys balances m.
Proof. intros Hm s. specialize (Hm s). by destruct (m s) as [[]]. Qed.

#[export] Instance balances_RunLogic : RunLogic balances.
Proof.
  pose proof (sameOpen_RunLogic (W := W) (env := env)) as HR. split; intros.
  - apply balances_keeps, (L_ret (P := keeping sameOpen)).
  - apply balances_keeps, (L_fail (P := keeping sameOpen)).
  - intros s. unfold bind. specialize (H2 s). destruct (m s) as [[a|e| |] s1]; try done.
    specialize (H3 a s1). destruct (k a s1) as [[b|e| |] s2]; try done; by etransitivity.
  - intros s. unfold try. specialize (H2 s). by destruct (m s) as [[]].
  - intros s. unfold errOf. specialize (H2 s). by destruct (m s) as [[]].
  - apply balances_keeps, (L_get (P := keeping sameOpen)).
  - apply balances_keeps, (L_orPanic (P := keeping sameOpen)).
  - apply balances_keeps, (L_raise (P := keeping sameOpen)).
  - by apply balances_keeps, (L_ask (P := keeping sameOpen)).
  - by apply balances_keeps, (L_call (P := keeping sameOpen)).
  - by apply balances_keeps, (L_modify (P := keeping sameOpen)).
  - by apply balances_keeps, (L_emit (P := keeping sameOpen)).
  - by apply balances_keeps, (L_appendItem (P := keeping sameOpen)).
  - apply balances_keeps, (L_flushNotes (P := keeping sameOpen)).
Qed.

#[export] Instance balances_RetryLogic : RetryLogic balances.
Proof.
  intros f Hf. apply balances_keeps, keeps_emit; [typeclasses eauto|by intros s h|]. intros s.
  destruct (Hf (run_ s)) as [_ Hk]. by apply sameOpen_event; rewrite Hk.
Qed.

Lemma balances_batch n cs t (r : res (list Result * list callRef) * St W) :
  batchResult n cs t r -> match r with (Ok _, s') | (Err _, s') => forall id, open_ id (log s') = n id | _ => True end.
Proof. destruct r as [[[results deferred]|e| |] s']; try done. by intros []. Qed.

Lemma balances_toolBatch tools cs : contract (env := env) -> obeys balances (toolBatch tools cs).
Proof.
  intros Hd s. destruct (decide (cs = [])) as [->|Hne]; [done|].
  pose proof (balances_batch _ _ _ _ (toolBatch_result tools cs _ s Hd Hne (fun id => eq_refl))) as Hr.
  by destruct (toolBatch tools cs s) as [[]].
Qed.

Lemma balances_approvedBatch aps : contract (env := env) -> obeys balances (approvedBatch aps).
Proof.
  intros Hd s. pose proof (balances_batch _ _ _ _ (approvedBatch_result aps _ s Hd (fun id => eq_refl))) as Hr.
  by destruct (approvedBatch aps s) as [[]].
Qed.

Lemma balances_loop fuel prompts aps terminate : contract (env := env) -> obeys balances (loop fuel prompts aps terminate).
Proof.
  intros Hd.
  assert (forall fuel, obeys balances (turns fuel)) as Hturns.
  { induction fuel0 as [|fuel0 IH]; cbn [turns]; [by intros s|]. unfold oneTurn, afterTurn, modelTurn, request. walk; try done.
    - apply balances_keeps, keeps_emit; [typeclasses eauto|by intros s h|]. intros s. by apply sameOpen_event.
    - apply (logic_attempts balances). done.
    - by apply balances_toolBatch. }
  unfold loop, begin_. walk; try done; try (by apply balances_approvedBatch).
  apply balances_keeps, keeps_emit; [typeclasses eauto|by intros s h|]. intros s. by apply sameOpen_event.
Qed.

(** C24: every call of its own a run starts it ends: the calls of the model's responses and
    those approved on a resume. Given an executor that yields the last event of each job
    once, a run that returns has sent as many tool_ends for each call ID as tool_starts,
    whatever the policy decides, whichever hook or consumer fails and on which event, and
    whether the context is done before the batch, while it runs or never. The log is of the
    run's own events: the calls a tool makes through the run while it runs are the
    executor's here, and are told of as [Invocations.invocation_told] says, where a replayed
    call whose tool_start a consumer fails on has no tool_end. *)
Theorem tool_events_paired fuel prompts aps terminate s :
  contract (env := env) ->
  match run fuel prompts aps terminate s with
  | (Ok _, s') => forall id,
      (starts id (log s') + finishes id (log s) = starts id (log s) + finishes id (log s'))%nat
  | _ => True
  end.
Proof.
  intros Hd. assert (obeys balances (run fuel prompts aps terminate)) as Hb.
  { unfold run. apply L_bind; [|intros _].
    - intros s0. destruct (startRun_run s0) as (s1 & -> & Hl & _). intros id. by rewrite Hl.
    - apply L_bind; [apply L_errOf; by apply balances_loop|]. intros err. apply L_bind; [|intros e].
      + intros s0. destruct (runEnd_run err s0) as (e & s1 & -> & Hl & _). intros id. by rewrite Hl.
      + apply L_bind; [|intros u; apply L_ret]. apply L_try, balances_keeps, keeps_emit;
          [typeclasses eauto|by intros s0 h|]. intros s0. by apply sameOpen_event. }
  specialize (Hb s). destruct (run fuel prompts aps terminate s) as [[e|e| |] s']; try done.
  intros id. specialize (Hb id). unfold open_ in Hb. lia.
Qed.

End Paired.

(** ** A concrete executor *)
Lemma toy_drains n (jobs : list Job) : drains (W := nat) (set_seq n (length jobs)) (Toy.runJobs n jobs).
Proof.
  revert n. induction jobs as [|j jobs IH]; intros n; [done|]. cbn [Toy.runJobs drains length]. intros _ _.
  split; [apply elem_of_set_seq; lia|]. intros _ _. cbn [ev_Final].
  replace (set_seq n (S (length jobs)) ∖ {[n]} : gset nat) with (set_seq (S n) (length jobs) : gset nat); [apply IH|].
  apply set_eq. intros i. rewrite elem_of_difference, !elem_of_set_seq, elem_of_singleton. lia.
Qed.

Lemma toy_contract n : contract (env := Toy.environment n).
Proof. intros jobs h. apply (toy_drains 0 jobs). Qed.

#[local] Existing Instance Toy.externals.
#[local] Existing Instance Toy.tools.
#[local] Existing Instance Toy.accumulator.

(** A batch of one call, answered. *)
Lemma toolBatch_outputs_witness :
  let cs := [{| cr_ptr := 91; cr_call := Toy.call 91 "c" |}] in
  contract (env := Toy.environment 1%nat) /\
  match toolBatch (env := Toy.environment 1%nat) [70%positive] cs (Toy.state []) with
  | (Ok (results, deferred), s') => deferred = [] /\ length results = 1%nat /\ length (transcript (run_ s')) = 1%nat /\
      exists b outs ns, map c_call b = cs /\ transcript (run_ s') = outs ++ ns /\ Forall2 answersCall (undeferred b) outs
  | _ => False
  end.
Proof.
  cbv zeta. split; [apply toy_contract|].
  pose proof (toolBatch_outputs (env := Toy.environment 1%nat) [70%positive] [{| cr_ptr := 91; cr_call := Toy.call 91 "c" |}]
    (Toy.state []) (toy_contract 1)) as Hr.
  assert (match toolBatch (env := Toy.environment 1%nat) [70%positive] [{| cr_ptr := 91; cr_call := Toy.call 91 "c" |}]
    (Toy.state []) with
  | (Ok (results, deferred), s') => deferred = [] /\ length results = 1%nat /\ length (transcript (run_ s')) = 1%nat
  | _ => False end) as Hv by (vm_compute; auto).
  destruct (toolBatch _ _ _) as [[[results deferred]|e| |] s']; [|destruct Hv..].
  destruct Hv as (H1 & H2 & H3). destruct Hr as (b & outs & ns & Hc & _ & _ & Ht & Hf & _).
  split; [exact H1|]. split; [exact H2|]. split; [exact H3|]. exists b, outs, ns.
  split; [exact Hc|]. split; [exact Ht|exact Hf].
Defined.

(** A call of the tool, then an answer: the call has one tool_start and one tool_end. *)
Lemma tool_events_paired_witness :
  contract (env := Toy.environment 1%nat) /\
  match run (env := Toy.environment 1%nat) 2 [Plain (Toy.message "hi")] [] false (Toy.state []) with
  | (Ok _, s') => starts "c" (log s') = 1%nat /\ (starts "c" (log s') + 0 = 0 + finishes "c" (log s'))%nat
  | _ => False
  end.
Proof.
  split; [apply toy_contract|].
  pose proof (tool_events_paired (env := Toy.environment 1%nat) 2 [Plain (Toy.message "hi")] [] false (Toy.state [])
    (toy_contract 1)) as Hr.
  assert (match run (env := Toy.environment 1%nat) 2 [Plain (Toy.message "hi")] [] false (Toy.state []) with
  | (Ok _, s') => starts "c" (log s') = 1%nat | _ => False end) as Hv by (vm_compute; auto).
  destruct (run _ _ _ _ _) as [[e|e| |] s']; [|destruct Hv..]. split; [exact Hv|]. exact (Hr "c").
Defined.
