(* ===== verification/Answers.v ===== *)
(** * Answers: what a caller answers pending calls with, and the checks an answer
    passes before a run takes it ([Answer] and its builders, [Agent.Resume],
    [runAgain] of [agent.go]).

    [Resume] is modelled up to the run it starts: the answers it was given become a
    [resumption], or an error and no run. It asks for the tools of the moment, so it
    runs in what the loop shares with the world. *)

From S2P Require Import Toy.
From S2P Require Export Runner.

(** ** The answer and its builders

    [Answer]; [as_Output] is the [*openresponses.FunctionCallOutput] it points at. *)
Record Answer := {
  as_CallID : string;
  as_Output : option (ptr * FunctionCallOutput);
  as_Args : raw;
  as_Note : string;
  as_Terminate : bool;
  as_By : string;
  as_Reason : string;
  as_Origin : string;
  as_Failed : bool;
  as_IdempotencyKey : string;
  as_RunAgain : bool;
}.
#[export] Instance eta_Answer : Eta Answer := fun r =>
  Build_Answer (as_CallID r) (as_Output r) (as_Args r) (as_Note r) (as_Terminate r) (as_By r) (as_Reason r)
    (as_Origin r) (as_Failed r) (as_IdempotencyKey r) (as_RunAgain r).

(** [Approve] and [ApproveWith]. *)
Definition ApproveWith (callID : string) (args : raw) : Answer := {|
  as_CallID := callID; as_Output := None; as_Args := args; as_Note := ""; as_Terminate := false; as_By := "";
  as_Reason := ""; as_Origin := ""; as_Failed := false; as_IdempotencyKey := ""; as_RunAgain := false |}.
Definition Approve (callID : string) : Answer := ApproveWith callID None.

(** [Output]: the answer with an output, the zero one for nil. *)
Definition OutputAnswer (out : option (ptr * FunctionCallOutput)) : Answer :=
  match out with
  | None => Approve ""
  | Some o => (Approve (OutCallID o.2)) <| as_Output := out |>
  end.

Definition Refuse (out : option (ptr * FunctionCallOutput)) : Answer := (OutputAnswer out) <| as_Terminate := true |>.

Definition RunAgainReason : string := "run again: accepted by the caller".
Definition RunAgainSafeReason : string := "run again: safe".
Definition RunAgainKeyedReason : string := "run again: keyed".
Definition OutcomeUnknownReason : string := "not run again: outcome unknown".

Definition errOutcomeUnknown : error := Errorf
  "outcome unknown: the call was cut off after it was handed to its tool, and it may or may not have taken effect; check before calling it again".

(** [OutcomeUnknown], its output allocated at [p]. *)
Definition OutcomeUnknown `{Externals} (p : ptr) (callID : string) : Answer :=
  (OutputAnswer (Some (p, {| OutID := ""; OutCallID := callID; Output := res_Output (ErrorResult errOutcomeUnknown);
     OutStatus := "" |}))) <| as_Reason := OutcomeUnknownReason |> <| as_Failed := true |>.

Definition WithNote (a : Answer) (note : string) : Answer := a <| as_Note := note |>.
Definition WithBy (a : Answer) (by_ : string) : Answer := a <| as_By := by_ |>.
Definition WithReason (a : Answer) (reason : string) : Answer := a <| as_Reason := reason |>.
Definition WithOrigin (a : Answer) (origin : string) : Answer := a <| as_Origin := origin |>.
Definition WithFailed (a : Answer) : Answer := a <| as_Failed := true |>.
Definition WithIdempotencyKey (a : Answer) (key : string) : Answer := a <| as_IdempotencyKey := key |>.
Definition WithRunAgain (a : Answer) : Answer := a <| as_RunAgain := true |>.

(** [Answer.Item]: nil for an approval. *)
Definition Item (a : Answer) : input :=
  match as_Output a with
  | None => Plain Nil
  | Some (p, o) =>
      if bool_decide (as_By a = "") && bool_decide (as_Reason a = "") && bool_decide (as_Origin a = "") &&
         negb (as_Failed a)
      then Plain (IOutput p o)
      else Marked {| item_ := IOutput p o; hidden := false; copied := false; prov := None;
        answer := Some {| am_by := as_By a; am_reason := as_Reason a; am_origin := as_Origin a; am_failed := as_Failed a |} |}
  end.

(** ** Running a call again *)
Section Replay.
Context `{Externals}.

(** [runAgain]: the reason the call passes for, or [ErrAmbiguousCall]. *)
Definition runAgain (tool : Tool) (callID : string) (args : raw) (key : string) (prior : raw) (priorKey : string)
    : string + error :=
  let ambiguous := fun text => inr (Wrap text (Sentinel ErrAmbiguousCall)) in
  match ReplayOf tool {| call_ID := callID; call_Args := args; call_Key := key |} args with
  | ReplaySafe => inl RunAgainSafeReason
  | ReplayKeyed =>
      let same := sameArgs args prior in
      if bool_decide (key = "") then ambiguous "the key of the dispatch it repeats is not known"
      else if same && bool_decide (priorKey = "") then ambiguous "the key of the dispatch it repeats is not known"
      else if same && negb (bool_decide (key = priorKey)) then ambiguous "under another key"
      else if negb same && bool_decide (key = priorKey) then ambiguous "with other arguments"
      else inl RunAgainKeyedReason
  | ReplayUnknown => ambiguous callID
  end.

Context `{Tools} {W : Type}.
Implicit Types cfg : Config W.

(** The call of a pending call an agent holds. *)
Definition callOf (p : PendingCall) : callRef :=
  default {| cr_ptr := 1; cr_call := {| ID := ""; CallID := ""; Name := ""; Arguments := ""; CallStatus := "" |} |} (p_Call p).

(** [mayRunAgain]. *)
Definition mayRunAgain cfg (p : PendingCall) (args : raw) (key : string) (h : shared W) : (string + error) * shared W :=
  let c := cr_call (callOf p) in
  let '(ts, h) := ResolveTools cfg h in
  match Lookup ts (Name c) with
  | None => (inl "", h)
  | Some tool =>
      (runAgain tool (CallID c) (orEmpty args (Arguments c)) key (orEmpty (p_Args p) (Arguments c)) (p_IdempotencyKey p), h)
  end.

(** ** Resume *)

(** What [Resume] hands the run: the outputs, the answers' notes, the approvals, the
    maps on the run's context, and whether an answer ends the run. *)
Record resumption := {
  rm_outputs : Items;
  rm_notes : list answerNote;
  rm_approved : list approval;
  rm_context : AnswerContext;
  rm_terminate : bool;
}.
#[local] Instance eta_resumption : Eta resumption := fun r =>
  Build_resumption (rm_outputs r) (rm_notes r) (rm_approved r) (rm_context r) (rm_terminate r).

Definition noContext : AnswerContext := {| ac_deciders := ∅; ac_reasons := ∅; ac_origins := ∅; ac_failures := ∅ |}.
Definition noResumption : resumption :=
  {| rm_outputs := []; rm_notes := []; rm_approved := []; rm_context := noContext; rm_terminate := false |}.

(** [if v != "" { m[k] = v }]. *)
Definition setUnless (m : gmap string string) (k v : string) : gmap string string :=
  if bool_decide (v = "") then m else <[k := v]> m.

(** What an answer puts on the run's context. *)
Definition answerContext (cx : AnswerContext) (a : Answer) : AnswerContext :=
  let by_ := setUnless (ac_deciders cx) (as_CallID a) (as_By a) in
  match as_Output a with
  | None => {| ac_deciders := by_; ac_reasons := ac_reasons cx; ac_origins := ac_origins cx; ac_failures := ac_failures cx |}
  | Some _ => {|
      ac_deciders := by_;
      ac_reasons := setUnless (ac_reasons cx) (as_CallID a) (as_Reason a);
      ac_origins := setUnless (ac_origins cx) (as_CallID a) (as_Origin a);
      ac_failures := if as_Failed a then {[ as_CallID a ]} ∪ ac_failures cx else ac_failures cx |}
  end.

(** The note of an output answer, in its answerer's voice ([answerNoteItem]). *)
Definition outputNote (a : Answer) (h : shared W) : list answerNote * shared W :=
  if bool_decide (as_Note a = "") then ([], h)
  else
    let role := if bool_decide (as_By a = "") || bool_decide (as_By a = "human") then RoleUser else RoleDeveloper in
    ([{| an_callID := as_CallID a; an_item := IMessage (next h) {| Role_ := role; Content := textContent (as_Note a) |} |}],
     h <| next ::= Pos.succ |>).

(** Whether a record says the call is owed its output and nothing else. *)
Definition owedOutput (p : PendingCall) : bool :=
  bool_decide (p_Reason p = PendingAnswered) || bool_decide (p_Reason p = PendingRejected) ||
  bool_decide (p_Reason p = PendingReturned).

(** The key and the arguments an approval runs its call with. *)
Definition approvalKey (a : Answer) (p : PendingCall) : string :=
  if bool_decide (as_IdempotencyKey a = "") then p_IdempotencyKey p else as_IdempotencyKey a.
Definition approvalArgs (a : Answer) (p : PendingCall) : raw :=
  match as_Args a with None => p_Args p | Some _ => as_Args a end.

(** The note of the decision that held the call. *)
Definition heldNote (p : PendingCall) : string :=
  match p_Reason p, p_Decision p with PendingDeferred, Some d => td_Note d | _, _ => "" end.

(** What [Resume] makes of an approval. *)
Definition approvalOf cfg (a : Answer) (p : PendingCall) (h : shared W) : (approval + error) * shared W :=
  if owedOutput p then (inr (Wrap (as_CallID a) (Sentinel ErrCallAnswered)), h)
  else
    let key := approvalKey a p in
    let args := approvalArgs a p in
    let '(rule, h) :=
      if MayHaveRun p
      then if as_RunAgain a then (inl RunAgainReason, h) else mayRunAgain cfg p args key h
      else (inl "", h) in
    match rule with
    | inr e => (inr e, h)
    | inl rule =>
        (inl {| ap_call := callOf p; ap_args := args; ap_note := as_Note a; ap_held := heldNote p; ap_by := as_By a;
           ap_reason := if MayHaveRun p && bool_decide (as_Reason a = "") then rule else as_Reason a; ap_key := key;
           ap_decide := bool_decide (p_Reason p = PendingUndispatched); ap_nested := p_Nested p |}, h)
    end.

(** What one answer adds. *)
Definition resumeOne cfg (a : Answer) (p : PendingCall) (r : resumption) (h : shared W)
    : (resumption + error) * shared W :=
  let r := r <| rm_terminate ::= fun t => t || as_Terminate a |> <| rm_context ::= fun cx => answerContext cx a |> in
  match as_Output a with
  | Some (q, o) =>
      let '(ns, h) := outputNote a h in
      (inl (r <| rm_outputs ::= fun l => l ++ [IOutput q o] |> <| rm_notes ::= fun l => l ++ ns |>), h)
  | None =>
      match approvalOf cfg a p h with
      | (inl ap, h) => (inl (r <| rm_approved ::= fun l => l ++ [ap] |>), h)
      | (inr e, h) => (inr e, h)
      end
  end.

(** The loop of [Resume] over the answers, [byID] the pending calls not answered yet. *)
Fixpoint resumeLoop cfg (answers : list Answer) (byID : gmap string PendingCall) (r : resumption) (h : shared W)
    : (gmap string PendingCall * resumption + error) * shared W :=
  match answers with
  | [] => (inl (byID, r), h)
  | a :: answers =>
      match byID !! as_CallID a with
      | None => (inr (Wrap (as_CallID a) (Sentinel ErrNotPending)), h)
      | Some p =>
          match resumeOne cfg a p r h with
          | (inr e, h) => (inr e, h)
          | (inl r, h) => resumeLoop cfg answers (delete (as_CallID a) byID) r h
          end
      end
  end.

(** [byID]: the last pending call of each ID. *)
Definition pendingByID (pending : list PendingCall) : gmap string PendingCall :=
  foldl (fun m p => <[pendingID p := p]> m) ∅ pending.

(** [Agent.Resume], up to the run. *)
Definition Resume cfg (pending : list PendingCall) (answers : list Answer) (h : shared W)
    : (resumption + error) * shared W :=
  if bool_decide (pending = []) then (inr (Wrap "nothing is pending" (Sentinel ErrNotPending)), h)
  else
    match resumeLoop cfg answers (pendingByID pending) noResumption h with
    | (inr e, h) => (inr e, h)
    | (inl (byID, r), h) =>
        if bool_decide (byID = ∅) then (inl r, h)
        else (inr (Wrap "pending call(s) unanswered" (Sentinel ErrNotPending)), h)
    end.

End Replay.

(** ** What an answer must be *)

(** The answers name each pending call once, and nothing else. *)
Definition answersEach (pending : list PendingCall) (answers : list Answer) : Prop :=
  pending <> [] /\ NoDup (map as_CallID answers) /\
  (forall id, id ∈ map as_CallID answers <-> id ∈ map pendingID pending).

(** agenttool's rule for running a call that may have run again, under [key] with
    [args], given those of the hand-off it repeats. *)
Definition repeats `{Externals} (tool : Tool) (callID : string) (args : raw) (key : string) (prior : raw) (priorKey : string) : Prop :=
  match ReplayOf tool {| call_ID := callID; call_Args := args; call_Key := key |} args with
  | ReplaySafe => True
  | ReplayKeyed => key <> "" /\ (sameArgs args prior = true <-> key = priorKey)
  | ReplayUnknown => False
  end.

Section Spec.
Context `{Externals} `{Tools} {W : Type}.
Implicit Types cfg : Config W.

(** The rule, for the approval [a] of [p] among the tools [ts]: a call no tool has
    the name of runs nothing. *)
Definition mayRepeat (ts : list Tool) (a : Answer) (p : PendingCall) : Prop :=
  let c := cr_call (callOf p) in
  forall tool, Lookup ts (Name c) = Some tool ->
  repeats tool (CallID c) (orEmpty (approvalArgs a p) (Arguments c)) (approvalKey a p)
    (orEmpty (p_Args p) (Arguments c)) (p_IdempotencyKey p).

(** [ap] is the approval [a] makes of [p], which may run. *)
Definition approves cfg (a : Answer) (p : PendingCall) (ap : approval) : Prop :=
  owedOutput p = false /\
  (MayHaveRun p = true -> as_RunAgain a = true \/ exists h, mayRepeat (ResolveTools cfg h).1 a p) /\
  ap_call ap = callOf p /\ ap_args ap = approvalArgs a p /\ ap_key ap = approvalKey a p /\
  ap_note ap = as_Note a /\ ap_held ap = heldNote p /\ ap_by ap = as_By a /\ ap_nested ap = p_Nested p /\
  (ap_decide ap = true <-> p_Reason p = PendingUndispatched).

Definition isApproval (a : Answer) : Prop := as_Output a = None.
#[export] Instance isApproval_dec a : Decision (isApproval a).
Proof. unfold isApproval. solve_decision. Defined.

Definition outputItem (a : Answer) : option item := match as_Output a with Some (p, o) => Some (IOutput p o) | None => None end.

(** Why no run is started for the answers. *)
Definition refused cfg (pending : gmap string PendingCall) (answers : list Answer) (e : error) : Prop :=
  exists a p, a ∈ answers /\ as_Output a = None /\ pending !! as_CallID a = Some p /\
    ((errIs e ErrCallAnswered = true /\ owedOutput p = true) \/
     (errIs e ErrAmbiguousCall = true /\ MayHaveRun p = true /\ as_RunAgain a = false /\
      exists h, ~ mayRepeat (ResolveTools cfg h).1 a p)).

(** ** Lemmas *)

Lemma runAgain_iff tool id args key prior priorKey :
  match runAgain tool id args key prior priorKey with
  | inl _ => repeats tool id args key prior priorKey
  | inr e => errIs e ErrAmbiguousCall = true /\ ~ repeats tool id args key prior priorKey
  end.
Proof.
  unfold runAgain, repeats. cbv zeta. destruct (ReplayOf _ _ _); simpl; [naive_solver|done|].
  destruct (sameArgs args prior); simpl; repeat case_bool_decide; simpl; naive_solver.
Qed.

Lemma approvalOf_spec cfg a p h :
  match (approvalOf cfg a p h).1 with
  | inl ap => approves cfg a p ap
  | inr e => (errIs e ErrCallAnswered = true /\ owedOutput p = true) \/
      (errIs e ErrAmbiguousCall = true /\ MayHaveRun p = true /\ as_RunAgain a = false /\
       exists h, ~ mayRepeat (ResolveTools cfg h).1 a p)
  end.
Proof.
  unfold approvalOf. destruct (owedOutput p) eqn:Eo; [by left|]. cbv zeta.
  assert (forall h, (MayHaveRun p = true -> as_RunAgain a = true \/ mayRepeat (ResolveTools cfg h).1 a p) ->
    forall rule, approves cfg a p {| ap_call := callOf p; ap_args := approvalArgs a p; ap_note := as_Note a;
      ap_held := heldNote p; ap_by := as_By a; ap_reason := rule; ap_key := approvalKey a p;
      ap_decide := bool_decide (p_Reason p = PendingUndispatched); ap_nested := p_Nested p |}) as Hap.
  { intros h' Hr rule. split; [done|]. split; [intros Hm; destruct (Hr Hm); eauto|].
    repeat (split; [done|]). apply bool_decide_eq_true. }
  destruct (MayHaveRun p) eqn:Em; [destruct (as_RunAgain a) eqn:Ea|].
  - cbn [fst]. apply (Hap h). by left.
  - unfold mayRunAgain. destruct (ResolveTools cfg h) as [ts h'] eqn:Er. 
    assert ((ResolveTools cfg h).1 = ts) as Hts by (by rewrite Er).
    destruct (Lookup ts _) as [tool|] eqn:El.
    + pose proof (runAgain_iff tool (CallID (cr_call (callOf p))) (orEmpty (approvalArgs a p) (Arguments (cr_call (callOf p))))
        (approvalKey a p) (orEmpty (p_Args p) (Arguments (cr_call (callOf p)))) (p_IdempotencyKey p)) as Hr.
      destruct (runAgain _ _ _ _ _ _) as [rule|e]; cbn [fst].
      * apply (Hap h). intros _. right. rewrite Hts. intros t Ht. by simplify_eq.
      * right. destruct Hr as [He Hn]. split_and!; [done..|]. exists h. rewrite Hts. intros Hm. by apply Hn, Hm.
    + cbn [fst]. apply (Hap h). intros _. right. rewrite Hts. intros t Ht. congruence.
  - cbn [fst]. by apply (Hap h).
Qed.

Lemma refused_mono cfg m m' answers answers' e :
  m ⊆ m' -> (forall a, a ∈ answers -> a ∈ answers') -> refused cfg m answers e -> refused cfg m' answers' e.
Proof.
  intros Hm Ha (a & p & Hin & Ho & Hp & H'). exists a, p. split_and!; eauto using lookup_weaken.
Qed.

(** One answer: what it adds to what the run is handed. *)
Lemma resumeOne_spec cfg a p r h :
  match (resumeOne cfg a p r h).1 with
  | inl r' =>
      rm_outputs r' = rm_outputs r ++ omap outputItem [a] /\
      (exists aps, rm_approved r' = rm_approved r ++ aps /\
         Forall2 (fun a ap => approves cfg a p ap) (filter isApproval [a]) aps) /\
      rm_context r' = answerContext (rm_context r) a /\ rm_terminate r' = rm_terminate r || as_Terminate a
  | inr e => as_Output a = None /\
      ((errIs e ErrCallAnswered = true /\ owedOutput p = true) \/
       (errIs e ErrAmbiguousCall = true /\ MayHaveRun p = true /\ as_RunAgain a = false /\
        exists h, ~ mayRepeat (ResolveTools cfg h).1 a p))
  end.
Proof.
  unfold resumeOne. unfold outputItem. cbn [omap list_omap]. destruct (as_Output a) as [[q o]|] eqn:Eo.
  - destruct (outputNote a h) as [ns h']. cbn [fst]. upd. split_and!; [done| |done..].
    exists []. rewrite app_nil_r. split; [done|]. rewrite filter_cons_False by (unfold isApproval; congruence). constructor.
  - pose proof (approvalOf_spec cfg a p h) as Ha. destruct (approvalOf cfg a p h) as [[ap|e] h']; cbn [fst] in *; [|by split].
    upd. split_and!; [by rewrite app_nil_r| |done..]. exists [ap]. split; [done|].
    rewrite filter_cons_True, filter_nil by done. by apply Forall2_cons_2; [|apply Forall2_nil_2].
Qed.

Lemma resumeLoop_spec cfg answers m r h :
  match (resumeLoop cfg answers m r h).1 with
  | inl (m', r') =>
      NoDup (map as_CallID answers) /\ (forall id, id ∈ map as_CallID answers -> is_Some (m !! id)) /\
      (forall id, m' !! id = if bool_decide (id ∈ map as_CallID answers) then None else m !! id) /\
      rm_outputs r' = rm_outputs r ++ omap outputItem answers /\
      (exists aps, rm_approved r' = rm_approved r ++ aps /\
         Forall2 (fun a ap => exists p, m !! as_CallID a = Some p /\ approves cfg a p ap) (filter isApproval answers) aps) /\
      rm_context r' = foldl answerContext (rm_context r) answers /\
      rm_terminate r' = rm_terminate r || existsb as_Terminate answers
  | inr e =>
      (errIs e ErrNotPending = true /\
       ~ (NoDup (map as_CallID answers) /\ forall id, id ∈ map as_CallID answers -> is_Some (m !! id))) \/
      refused cfg m answers e
  end.
Proof.
  revert m r h. induction answers as [|a answers IH]; intros m r h; cbn [resumeLoop].
  { cbn. split_and!; [constructor|by intros id Hid%not_elem_of_nil|done|by rewrite app_nil_r| |done|by rewrite orb_false_r].
    exists []. by rewrite app_nil_r. }
  destruct (m !! as_CallID a) as [p|] eqn:Ep; cbn [fst].
  2: { left. split; [done|]. intros [_ Hs]. destruct (Hs (as_CallID a)) as [q Hq]; [left|congruence]. }
  pose proof (resumeOne_spec cfg a p r h) as Hone. destruct (resumeOne cfg a p r h) as [[r1|e] h1]; cbn [fst] in *.
  2: { right. destruct Hone as [Ho Hc]. exists a, p. split_and!; [left|done..]. }
  destruct Hone as (Ho & (aps & Hap & Hf) & Hcx & Ht).
  specialize (IH (delete (as_CallID a) m) r1 h1). destruct (resumeLoop cfg answers _ r1 h1) as [[[m' r']|e] h']; cbn [fst] in *.
  - destruct IH as (Hnd & Hs & Hm' & Ho' & (aps' & Hap' & Hf') & Hcx' & Ht'). cbn [map foldl existsb].
    assert (as_CallID a ∉ map as_CallID answers) as Hna.
    { intros Hin. destruct (Hs _ Hin) as [q Hq]. by rewrite lookup_delete_eq in Hq. }
    split_and!.
    + by constructor.
    + intros id [->|Hin]%elem_of_cons; [by eexists|]. destruct (Hs _ Hin) as [q Hq]. 
      apply lookup_delete_Some in Hq as [_ Hq]. by eexists.
    + intros id. rewrite Hm'. destruct (decide (id = as_CallID a)) as [->|Hne].
      * rewrite lookup_delete_eq, bool_decide_eq_false_2 by done. rewrite bool_decide_eq_true_2 by left. done.
      * rewrite lookup_delete_ne by done. case_bool_decide as H1; case_bool_decide as H2; try done; set_solver.
    + rewrite Ho', Ho. change (a :: answers) with ([a] ++ answers). by rewrite omap_app, app_assoc.
    + exists (aps ++ aps'). rewrite Hap', Hap, app_assoc. split; [done|].
      change (a :: answers) with ([a] ++ answers). rewrite filter_app. apply Forall2_app.
      * rewrite filter_cons, filter_nil in *. case_decide; inversion Hf as [|? ? ? ? Happ Hnil]; subst; [|constructor].
        inversion Hnil; subst. apply Forall2_cons_2; [eauto|apply Forall2_nil_2].
      * eapply Forall2_impl; [exact Hf'|]. intros b ap (q & Hq%lookup_delete_Some & Hb). naive_solver.
    + by rewrite Hcx', Hcx.
    + by rewrite Ht', Ht, orb_assoc.
  - destruct IH as [[He Hn]|Hr].
    + left. split; [done|]. intros [Hnd Hs]. apply Hn. cbn [map] in *. apply NoDup_cons in Hnd as [Hna Hnd].
      split; [done|]. intros id Hin. rewrite lookup_delete_ne by (intros <-; done). apply Hs. by right.
    + right. eapply refused_mono; [apply delete_subseteq|intros b Hb; by right|done].
Qed.

Lemma pendingByID_is_Some pending id : is_Some (pendingByID pending !! id) <-> id ∈ map pendingID pending.
Proof.
  unfold pendingByID.
  assert (forall m : gmap string PendingCall,
    is_Some (foldl (fun m p => <[pendingID p := p]> m) m pending !! id) <-> id ∈ map pendingID pending \/ is_Some (m !! id)) as Hm.
  { induction pending as [|p pending IH]; intros m; cbn [foldl map].
    - split; [by right|]. intros [Hin%not_elem_of_nil|]; done.
    - rewrite IH, elem_of_cons. destruct (decide (id = pendingID p)) as [->|Hne].
      + rewrite lookup_insert_eq. naive_solver.
      + rewrite lookup_insert_ne by done. naive_solver. }
  rewrite Hm, lookup_empty. split; [intros [?|[? ?]]; done|by left].
Qed.

Lemma pendingByID_elem pending id p : pendingByID pending !! id = Some p -> p ∈ pending /\ pendingID p = id.
Proof.
  unfold pendingByID.
  assert (forall m : gmap string PendingCall, foldl (fun m p => <[pendingID p := p]> m) m pending !! id = Some p ->
    (p ∈ pending /\ pendingID p = id) \/ m !! id = Some p) as Hm.
  { induction pending as [|q pending IH]; intros m Hp; cbn [foldl] in *; [by right|].
    destruct (IH _ Hp) as [[Hin Hid]|Hl]; [left; split; [by right|done]|].
    destruct (decide (id = pendingID q)) as [->|Hne].
    - rewrite lookup_insert_eq in Hl. simplify_eq. left. split; [left|done].
    - rewrite lookup_insert_ne in Hl by done. by right. }
  intros Hp. destruct (Hm ∅ Hp) as [?|Hl]; [done|]. by rewrite lookup_empty in Hl.
Qed.

(** What [Resume] makes of answers it takes, and why it takes none. *)
Definition resumesAs cfg pending answers (r : resumption) : Prop :=
  answersEach pending answers /\
  rm_outputs r = omap outputItem answers /\
  Forall2 (fun a ap => exists p, p ∈ pending /\ pendingID p = as_CallID a /\ approves cfg a p ap)
    (filter isApproval answers) (rm_approved r) /\
  rm_context r = foldl answerContext noContext answers /\
  rm_terminate r = existsb as_Terminate answers.
Definition resumesNot cfg pending answers (e : error) : Prop :=
  (errIs e ErrNotPending = true /\ ~ answersEach pending answers) \/ refused cfg (pendingByID pending) answers e.

Lemma Resume_result cfg pending answers (h : shared W) :
  match (Resume cfg pending answers h).1 with
  | inl r => resumesAs cfg pending answers r
  | inr e => resumesNot cfg pending answers e
  end.
Proof.
  unfold Resume, resumesAs, resumesNot. case_bool_decide as Hp; [left; split; [done|]; by intros [Hn _]|].
  pose proof (resumeLoop_spec cfg answers (pendingByID pending) noResumption h) as Hl.
  destruct (resumeLoop _ _ _ _ _) as [[[m r]|e] h']; cbn [fst] in *.
  - destruct Hl as (Hnd & Hs & Hm & Ho & (aps & Hap & Hf) & Hcx & Ht).
    assert (forall id, id ∈ map as_CallID answers -> id ∈ map pendingID pending) as Hin.
    { intros id Hid. apply pendingByID_is_Some. by apply Hs. }
    case_bool_decide as He; cbn [fst].
    + split_and!; [|done| |done..].
      * split_and!; [done..|]. intros id. split; [apply Hin|]. intros Hid%pendingByID_is_Some.
        destruct (decide (id ∈ map as_CallID answers)) as [?|Hna]; [done|]. specialize (Hm id).
        rewrite bool_decide_eq_false_2, He, lookup_empty in Hm by done. rewrite <- Hm in Hid. by destruct Hid.
      * rewrite Hap. eapply Forall2_impl; [exact Hf|]. intros a ap (p & Hp1 & Hp2). 
        apply pendingByID_elem in Hp1 as [??]. eauto.
    + left. split; [done|]. intros (_ & _ & Hall). apply He, map_eq. intros id. rewrite Hm, lookup_empty.
      case_bool_decide as Hid; [done|]. destruct (pendingByID pending !! id) eqn:E; [|done].
      destruct Hid. apply Hall, pendingByID_is_Some. by eexists.
  - destruct Hl as [[He Hn]|Hr]; [left|by right]. split; [done|]. intros (_ & Hnd & Hall). apply Hn.
    split; [done|]. intros id Hid. by apply pendingByID_is_Some, Hall.
Qed.

(** ** Properties *)

(** C22: [Resume] starts a run for the answers exactly when they name each pending call
    once and nothing else, no approval is of a call a record answered, and each
    approval of a call that may have run is accepted by the caller or passes
    agenttool's rule. The run then gets the outputs in the order given, one approval
    for each answer without an output, of the pending call it names, with the
    answer's key and arguments or else those of the hand-off it repeats, and ends
    after the answers exactly when one of them says so. Otherwise no run starts: the
    error is [ErrNotPending] when the answers do not match the pending calls, and
    else [ErrCallAnswered] or [ErrAmbiguousCall] for an answer that is so. *)
Theorem Resume_spec cfg pending answers (h : shared W) :
  match (Resume cfg pending answers h).1 with
  | inl r =>
      answersEach pending answers /\
      rm_outputs r = omap outputItem answers /\
      Forall2 (fun a ap => exists p, p ∈ pending /\ pendingID p = as_CallID a /\ approves cfg a p ap)
        (filter isApproval answers) (rm_approved r) /\
      rm_context r = foldl answerContext noContext answers /\
      rm_terminate r = existsb as_Terminate answers
  | inr e =>
      (errIs e ErrNotPending = true /\ ~ answersEach pending answers) \/
      refused cfg (pendingByID pending) answers e
  end.
Proof. exact (Resume_result cfg pending answers h). Qed.

(** C35: [runAgain] is agenttool's rule. A call that may have run passes exactly when
    its tool's replay, asked under the call it would run as, is safe, or is keyed and
    the key is known and is that of the hand-off it repeats just when the arguments
    are: so a keyed call never runs one operation under two keys, nor two operations
    under one. The reason names the rule, and any other call is refused as ambiguous. *)
Theorem runAgain_spec tool id args key prior priorKey :
  match runAgain tool id args key prior priorKey with
  | inl reason => repeats tool id args key prior priorKey /\
      reason = match ReplayOf tool {| call_ID := id; call_Args := args; call_Key := key |} args with
               | ReplaySafe => RunAgainSafeReason | _ => RunAgainKeyedReason end
  | inr e => errIs e ErrAmbiguousCall = true /\ ~ repeats tool id args key prior priorKey
  end.
Proof.
  pose proof (runAgain_iff tool id args key prior priorKey) as Hr.
  destruct (runAgain tool id args key prior priorKey) as [reason|e] eqn:E; [|done]. split; [done|].
  revert E. unfold runAgain. cbv zeta. destruct (ReplayOf _ _ _); simpl; [done|congruence|].
  destruct (sameArgs args prior); simpl; repeat case_bool_decide; simpl; congruence.
Qed.

(** ** Answers as a prompt *)

(** An answer built with [Output] or from one. *)
Definition ofOutput (a : Answer) : Prop := exists p o, as_Output a = Some (p, o) /\ OutCallID o = as_CallID a.

(** The context says nothing of the call. *)
Definition silent (cx : AnswerContext) (id : string) : Prop :=
  ac_deciders cx !! id = None /\ ac_reasons cx !! id = None /\ ac_origins cx !! id = None /\ id ∉ ac_failures cx.

Lemma setUnless_other m k v id : id <> k -> setUnless m k v !! id = m !! id.
Proof. intros Hne. unfold setUnless. case_bool_decide; [done|]. by rewrite lookup_insert_ne. Qed.

Lemma silent_answerContext cx a id : id <> as_CallID a -> silent cx id -> silent (answerContext cx a) id.
Proof.
  intros Hne (Hd & Hr & Ho & Hf). unfold silent, answerContext. destruct (as_Output a); cbn; rewrite !setUnless_other by done.
  - split_and!; [done..|]. destruct (as_Failed a); set_solver.
  - done.
Qed.

Lemma setOrClear_setUnless m k v : m !! k = None -> setOrClear m k v = setUnless m k v.
Proof. intros Hn. unfold setOrClear, setUnless. case_bool_decide; [by apply delete_id|done]. Qed.

(** The marks of an output answer's item are what [Resume] puts on the context. *)
Lemma withAnswerMarks_Item cx a items :
  ofOutput a -> silent cx (as_CallID a) -> withAnswerMarks cx (Item a :: items) = withAnswerMarks (answerContext cx a) items.
Proof.
  intros (p & o & Ho & Hid) (Hd & Hr & Hg & Hf). unfold Item, answerContext. rewrite Ho.
  destruct (bool_decide (as_By a = "") && bool_decide (as_Reason a = "") && bool_decide (as_Origin a = "") && negb (as_Failed a)) eqn:E.
  - apply andb_true_iff in E as [[[E1%bool_decide_eq_true E2%bool_decide_eq_true]%andb_true_iff E3%bool_decide_eq_true]%andb_true_iff E4].
    apply negb_true_iff in E4. rewrite E1, E2, E3, E4. unfold setUnless. simpl. by destruct cx.
  - simpl. unfold markAnswer. simpl. rewrite Hid, !setOrClear_setUnless by done. do 2 f_equal.
    destruct (as_Failed a); [done|]. apply set_eq. set_solver.
Qed.

Lemma withAnswerMarks_Items cx answers :
  Forall ofOutput answers -> NoDup (map as_CallID answers) -> Forall (silent cx) (map as_CallID answers) ->
  withAnswerMarks cx (map Item answers) = foldl answerContext cx answers.
Proof.
  revert cx. induction answers as [|a answers IH]; intros cx Ho Hnd Hs; [done|].
  cbn [map foldl] in *. apply Forall_cons in Ho as [Ha Ho]. apply NoDup_cons in Hnd as [Hna Hnd]. apply Forall_cons in Hs as [Hsa Hs].
  rewrite withAnswerMarks_Item by done. apply IH; [done..|].
  apply Forall_forall. intros id Hid. eapply Forall_forall in Hs; [|exact Hid].
  apply silent_answerContext; [|done]. by intros ->.
Qed.

Lemma unhideAll_Items answers :
  Forall ofOutput answers -> unhideAll (map Item answers) = omap outputItem answers /\
  map OutCallID (leadingOutputs (unhideAll (map Item answers))) = map as_CallID answers.
Proof.
  induction 1 as [|a answers (p & o & Ho & Hid) _ [IH1 IH2]]; [done|].
  assert ((Unhide (Item a)).1 = IOutput p o) as Hu.
  { unfold Item. rewrite Ho. by destruct (_ && _). }
  unfold unhideAll in *. cbn [map omap list_omap]. unfold outputItem at 1. rewrite Hu, Ho. split; [by rewrite IH1|].
  revert IH2. unfold leadingOutputs. cbn [span].
  match goal with |- context [span ?P ?l] => destruct (span P l) as [x y] end. cbn. intros ->. by rewrite Hid.
Qed.

Lemma answersPending_iff pending prompts :
  answersPending pending prompts = None <->
  let ids := map OutCallID (leadingOutputs (unhideAll prompts)) in
  NoDup ids /\ forall id, id ∈ ids <-> id ∈ map pendingID pending.
Proof.
  unfold answersPending. cbv zeta. destruct (answerWanted _ _) as [want|e] eqn:E.
  - apply answerWanted_ok in E as (Hnd & Hin & ->). case_bool_decide as He.
    + split; [|done]. intros _. split; [done|]. intros id. split; [intros Hid; apply Hin in Hid; set_solver|].
      intros Hid. destruct (decide (id ∈ map OutCallID (leadingOutputs (unhideAll prompts)))); [done|]. set_solver.
    + split; [done|]. intros [_ Hall]. destruct He. apply set_eq. intros id. specialize (Hall id). set_solver.
  - split; [done|]. intros [Hnd Hall].
    destruct (answerWanted (leadingOutputs (unhideAll prompts)) (list_to_set (map pendingID pending))) eqn:E'; [done|].
    assert (exists want, answerWanted (leadingOutputs (unhideAll prompts)) (list_to_set (map pendingID pending)) = inl want) as [? Hw].
    { eexists. apply answerWanted_ok. split_and!; [done| |reflexivity]. intros id Hid. apply Hall in Hid. set_solver. }
    congruence.
Qed.

(** Answers given as a prompt are a Resume of them: for outputs, the items of
    the answers open a prompt the agent takes exactly when [Resume] takes the
    answers, and the outputs the run begins with and what its context says of who
    decided, why, where from and what failed are the same. *)
Theorem Prompt_as_Resume cfg pending answers (h : shared W) :
  pending <> [] -> Forall ofOutput answers ->
  match (Resume cfg pending answers h).1 with
  | inl r =>
      answersPending pending (map Item answers) = None /\ unhideAll (map Item answers) = rm_outputs r /\
      withAnswerMarks noContext (map Item answers) = rm_context r /\ rm_approved r = []
  | inr _ => is_Some (answersPending pending (map Item answers))
  end.
Proof.
  intros Hp Hof. destruct (unhideAll_Items answers Hof) as [Hu Hids].
  pose proof (answersPending_iff pending (map Item answers)) as Hap. cbv zeta in Hap. rewrite Hids in Hap.
  pose proof (Resume_result cfg pending answers h) as Hr. destruct (Resume _ _ _ _) as [[r|e] h']; cbn [fst] in *.
  - destruct Hr as ((_ & Hnd & Hall) & Ho & Hf & Hcx & _). split_and!; [by apply Hap|congruence| |].
    + rewrite Hcx. apply withAnswerMarks_Items; [done..|]. apply Forall_forall. intros id _. unfold silent. cbn.
      rewrite !lookup_empty. set_solver.
    + assert (filter isApproval answers = []) as Hnil.
      { clear -Hof. induction Hof as [|a answers (p & o & Ho & _) _ IH]; [done|].
        rewrite filter_cons_False; [done|]. unfold isApproval. congruence. }
      rewrite Hnil in Hf. by inversion Hf.
  - destruct (answersPending pending (map Item answers)) as [e'|]; [by eexists|].
    destruct Hap as [Hap _]. destruct (Hap eq_refl) as [Hnd Hall].
    destruct Hr as [[_ Hn]|(a & p & Hin & Ho & _)]; [by destruct Hn|].
    eapply Forall_forall in Hof; [|exact Hin]. destruct Hof as (? & ? & ? & _). congruence.
Qed.

End Spec.

(** An output answer by a policy, for a call deferred to the caller. *)
Module AnswersToy.
Definition aCall : callRef := {| cr_ptr := 91; cr_call := Toy.call 91 "c" |}.
Definition waiting : list PendingCall := [newPending aCall PendingDeferred].
Definition out : FunctionCallOutput :=
  {| OutID := ""; OutCallID := "c"; Output := {| Text_ := "no"; Parts := [] |}; OutStatus := "" |}.
Definition answers : list Answer := [WithReason (WithBy (OutputAnswer (Some (92%positive, out))) "policy") "not allowed"].
End AnswersToy.

Lemma Prompt_as_Resume_witness :
  AnswersToy.waiting <> [] /\
  exists r h, Resume (H := Toy.externals) (H0 := Toy.tools) Toy.config AnswersToy.waiting AnswersToy.answers
      (sh (Toy.state [])) = (inl r, h) /\
    withAnswerMarks noContext (map Item AnswersToy.answers) = rm_context r /\ rm_outputs r <> [].
Proof.
  split; [done|]. eexists _, _. split; [vm_compute; reflexivity|].
  pose proof (@Prompt_as_Resume Toy.externals Toy.tools nat Toy.config AnswersToy.waiting AnswersToy.answers
    (sh (Toy.state []))) as Hw.
  split; [|done]. apply Hw; [done|]. constructor; [|constructor]. exists 92%positive, AnswersToy.out. by split.
Defined.
