(* ===== verification/Invoke.v ===== *)
(** * Invoke: a tool's call of another of the run's tools, from the invocation to the result
    it is given ([invoke], [replayNested], [endNested] of [run.go]).

    An invocation runs on a goroutine of its tool's. What it does is a program of the
    run's monad: its own steps in order, with the world moving in between; what other
    goroutines of the run do to the run's own state meanwhile is not in it. *)

From S2P Require Import Toy.
From S2P Require Export Ask Execute Answers.

(** What the loop relies on of [agenttool]'s [Executor.Results] for one job: the job is
    started once at most and has one last event. *)
Fixpoint oneJob {W} (left started_ : bool) (t : exec W) : Prop :=
  match t with
  | XDrained => left = false
  | XStart _ _ rest => started_ = false /\ forall h st, oneJob left true (rest h st)
  | XEvent _ _ ev rest => left = true /\ forall h b, oneJob (negb (ev_Final ev)) started_ (rest h b)
  end.

Section Invoke.
Context `{Externals} `{Tools} `{Accumulator} {W : Type} {env : Env W}.
(** [%q] and [error.Error]. *)
Context (quote : string -> string) (text : error -> string).

(** The elicitor of the run: [Config.ToolElicitor], or the one [toolContext] found. *)
Context (runAsk : option (option AskedCall -> string -> M W (elicited + error))).

(** An error as a result's: [result, err]. *)
Definition given : Type := (Result * option error)%type.

(** [endNested]. *)
Definition endNested (p : callState) (cause : error) : M W (callState * given) :=
  if c_ended p then ret (p, (noResult, Some cause))
  else
    let! (p, _) := finish (p <| c_settled := true |> <| c_cut := true |> <| c_err := Some cause |> <| c_result := noResult |>) in
    ret (p, (noResult, Some cause)).

(** [replayNested]; [errors.New] of the recorded text. *)
Definition replayNested (turn_ : Z) (c : callRef) (parent : string) (args : raw) (n : NestedRecord) : M W given :=
  let err := if bool_decide (nr_Err n = "") then None else Some (Errorf (nr_Err n)) in
  let ran := orEmpty (nr_DispatchArgs n) (bytesOf (nr_Args n)) in
  let! e := errOf (emit (fun r => EvToolStart {| tst_RunID := runID r; tst_Turn := turn_; tst_CallID := callID c;
    tst_Name := Name (cr_call c); tst_Args := ran; tst_Decision := None; tst_Parent := parent; tst_Invoked := args;
    tst_Replayed := true |})) in
  match e with
  | Some e => ret (noResult, Some e)
  | None =>
      recordNested parent n ;;
      let! e := errOf (emit (fun r => EvToolEnd {| te_RunID := runID r; te_Turn := turn_; te_CallID := callID c;
        te_Name := Name (cr_call c); te_Result := nr_Result n; te_Err := err; te_Blocked := nr_Blocked n; te_Deferred := false;
        te_Reason := nr_Reason n; te_Parent := parent; te_Withdrawn := false; te_Cut := false; te_Replayed := true |})) in
      match e with Some e => ret (noResult, Some e) | None => ret (nr_Result n, err) end
  end.

(** What the hook decides of a nested call, a deferral put to the run's elicitor. *)
Definition refuse (d : ToolDecision) (p : callState) : callState :=
  let reason := if bool_decide (td_Reason d = "") then "call blocked" else td_Reason d in
  let reason := if bool_decide (Action d = Defer) then "a nested call cannot be deferred to the caller: " +:+ reason else reason in
  p <| c_blocked := true |> <| c_err := Some (Errorf reason) |> <| c_reason := reason |>.

Definition settleVerdict (parent : string) (d : ToolDecision) (p : callState) : M W (callState * option ToolDecision) :=
  let p := match td_Args d with Some a => p <| c_args := Some a |> | None => p end in
  let! d := (if bool_decide (Action d = Defer)
    then
      let! a := Ask quote runAsk true parent {| ac_Parent := parent; ac_CallID := callID (c_call p);
        ac_Name := Name (cr_call (c_call p)); ac_Args := c_args p; ac_Decision := Some d; ac_Callee := "" |} in
      ret (default d a)
    else ret d) in
  match Action d with
  | Block | Defer => ret (refuse d p, Some d)
  | Allow =>
      (if bool_decide (td_Note d = "") then ret tt
       else let! i := newMessage RoleDeveloper (td_Note d) in sayUnder i [parent]) ;;
      ret (p, Some d)
  end.

Definition verdict (turn_ : Z) (parent : string) (p : callState) : M W (callState * option ToolDecision + error) :=
  match cf_BeforeToolCall (cfg env) with
  | None => ret (inl (p, None))
  | Some before =>
      let! r := get in
      let! out := try (call (fun h => before h {| tci_RunID := runID r; tci_Turn := turn_; tci_Call := c_call p;
        tci_Tool := c_tool p; tci_Args := c_args p; tci_Batch := [c_call p]; tci_Index := 0; tci_Parent := parent |})) in
      match out with
      | inr e => ret (inr (Wrap "agentturn: before-tool-call hook" e))
      | inl None => ret (inl (p, None))
      | inl (Some d) => let! x := settleVerdict parent d p in ret (inl x)
      end
  end.

(** A call handed to its tool before, which never ended: it runs again only as the rule
    allows. *)
Definition repeat_ (n : option NestedRecord) (p : callState) : callState :=
  match n, c_tool p with
  | Some n, Some tool =>
      if nr_Dispatched n && negb (c_blocked p) && validObject (c_args p) then
        match runAgain tool (callID (c_call p)) (c_args p) (c_key p)
                (orEmpty (nr_DispatchArgs n) (bytesOf (nr_Args n))) (nr_IdempotencyKey n) with
        | inl _ => p
        | inr _ => p <| c_err := Some errOutcomeUnknown |>
        end
      else p
  | _, _ => p
  end.

(** [Executor.Results] of the one job. *)
Fixpoint results (t : exec W) (x : running) (out : given) : M W (running * given) :=
  match t with
  | XDrained => ret (x, out)
  | XStart advance _ rest =>
      move advance ;;
      let! (x, st) := onStart 0 x in
      let! h := shares in
      results (rest h st) x out
  | XEvent advance _ ev rest =>
      move advance ;;
      let! h := shares in
      results (rest h false) x (if ev_Final ev then (ev_Result ev, ev_Err ev) else out)
  end.

(** The call handed to its tool, and its end. *)
Definition runNested (p : callState) : M W (callState * given) :=
  let! h := shares in
  let! (x, out) := results (Execute env [jobOf p] h)
    {| x_batch := [p]; x_failed := None; x_hookFailed := false; x_cancelled := None |} (noResult, None) in
  let p := default p (head (x_batch x)) in
  match c_dispatchErr p with
  | Some e => endNested p e
  | None =>
      let! (p, err) := settle (p <| c_result := out.1 |> <| c_err := out.2 |> <| c_settled := true |>) in
      match err with
      | Some e => endNested p e
      | None => ret (p, (c_result p, c_err p))
      end
  end.

(** A decided call, from its tool_start on. *)
Definition startNested (turn_ : Z) (parent : string) (args : raw) (d : option ToolDecision) (p : callState) :
    M W (callState * given) :=
  let! e := errOf (emit (fun r => EvToolStart {| tst_RunID := runID r; tst_Turn := turn_; tst_CallID := callID (c_call p);
    tst_Name := Name (cr_call (c_call p)); tst_Args := c_args p; tst_Decision := d; tst_Parent := parent;
    tst_Invoked := args; tst_Replayed := false |})) in
  match e with
  | Some e => endNested p e
  | None =>
      let! (p, e) := check p in
      match e with
      | Some e => endNested p e
      | None => if c_settled p then ret (p, (c_result p, c_err p)) else runNested p
      end
  end.

(** [invoke]. *)
Definition invokeCall (turn_ : Z) (parent : string) (args : raw) (n : option NestedRecord) (p : callState) :
    M W (callState * given) :=
  let! v := verdict turn_ parent p in
  match v with
  | inr e => ret (p, (noResult, Some e))
  | inl (p, d) => startNested turn_ parent args d (repeat_ n p)
  end.

Definition invoke (tools : list Tool) (turn_ : Z) (parent name : string) (args : raw) : M W given :=
  let! n := match_ parent name args in
  let! id := ask (NewID env "call") in
  let id := match n with Some n => nr_CallID n | None => id end in
  let! a := fresh in
  let c := {| cr_ptr := a; cr_call := {| ID := ""; CallID := id; Name := name; Arguments := bytesOf args; CallStatus := "" |} |} in
  adopt id parent ;;
  match n with
  | Some n =>
      if nr_Ended n then replayNested turn_ c parent args n
      else
        let! p := prepare tools turn_ c args in
        let p := p <| c_parent := parent |> in
        let p := if nr_Dispatched n then p <| c_key := nr_IdempotencyKey n |> else p in
        let! (p, out) := invokeCall turn_ parent args (Some n) p in
        ranNested text p args ;;
        ret out
  | None =>
      let! p := prepare tools turn_ c args in
      let! (p, out) := invokeCall turn_ parent args None (p <| c_parent := parent |>) in
      ranNested text p args ;;
      ret out
  end.

End Invoke.
