(* ===== verification/Invoked.v ===== *)
(** * Invoked: what an invocation reports, and when it hands a nested call to its tool. *)

From S2P Require Import Toy.
From S2P Require Export Invoke.

(** ** What a program sends

    [emits m Q]: [m] returns a value, having sent events that [Q] says of it. *)
Section Emits.
Context {W : Type}.

Definition emits {A} (m : M W A) (Q : A -> list event -> Prop) : Prop := forall s,
  match m s with
  | (Ok a, s') => exists evs, log s' = log s ++ evs /\ Q a evs
  | _ => False
  end.

Lemma emits_weaken {A} (m : M W A) (Q Q' : A -> list event -> Prop) :
  emits m Q -> (forall a evs, Q a evs -> Q' a evs) -> emits m Q'.
Proof.
  intros Hm HQ s. specialize (Hm s). destruct (m s) as [[a|e| |] s']; try done. destruct Hm as (evs & Hl & Hq). eauto.
Qed.

Lemma emits_ret {A} (a : A) (Q : A -> list event -> Prop) : Q a [] -> emits (ret a) Q.
Proof. intros HQ s. exists []. by rewrite app_nil_r. Qed.

Lemma emits_bind {A B} (m : M W A) (k : A -> M W B) (Q1 : A -> list event -> Prop) (Q : B -> list event -> Prop) :
  emits m Q1 -> (forall a evs, Q1 a evs -> emits (k a) (fun b evs' => Q b (evs ++ evs'))) -> emits (bind m k) Q.
Proof.
  intros Hm Hk s. specialize (Hm s). unfold bind. destruct (m s) as [[a|e| |] s1]; try done.
  destruct Hm as (evs & Hl & Hq). specialize (Hk a evs Hq s1). destruct (k a s1) as [[b|e| |] s2]; try done.
  destruct Hk as (evs' & Hl' & Hq'). exists (evs ++ evs'). by rewrite Hl', Hl, app_assoc.
Qed.

(** A program that sends nothing. *)
Definition mute {A} (m : M W A) : Prop := emits m (fun _ evs => evs = []).

Lemma emits_mute {A B} (m : M W A) (k : A -> M W B) (Q : B -> list event -> Prop) :
  mute m -> (forall a, emits (k a) Q) -> emits (bind m k) Q.
Proof. intros Hm Hk. eapply emits_bind; [done|]. intros a evs ->. apply Hk. Qed.

Lemma mute_ret {A} (a : A) : mute (ret a).
Proof. by apply emits_ret. Qed.
Lemma mute_bind {A B} (m : M W A) (k : A -> M W B) : mute m -> (forall a, mute (k a)) -> mute (bind m k).
Proof. intros. by apply emits_mute. Qed.
Lemma mute_get : mute get.
Proof. intros s. exists []. by rewrite app_nil_r. Qed.
Lemma mute_modify f : mute (modify f).
Proof. intros s. exists []. by rewrite app_nil_r. Qed.
Lemma mute_ask {A} (f : shared W -> A * shared W) : mute (ask f).
Proof. intros s. unfold ask. destruct (f (sh s)). exists []. by rewrite app_nil_r. Qed.
Lemma mute_try_call {A} (f : shared W -> (A + error) * shared W) : mute (try (call f)).
Proof. intros s. unfold try, call. destruct (f (sh s)) as [[a|e] h]; exists []; by rewrite app_nil_r. Qed.
Lemma mute_orPanic {A} (a : A) : mute (orPanic (Some a)).
Proof. intros s. exists []. by rewrite app_nil_r. Qed.

(** A consumer fails on the event with [e]. *)
Definition refused {env : Env W} (ev : event) (e : error) : Prop := exists h, (send env ev h).1 = Some e.

Lemma emits_errOf {env : Env W} f :
  emits (errOf (emit (env := env) f))
    (fun err evs => exists r, evs = [f r] /\ forall e, err = Some e -> refused (env := env) (f r) e).
Proof.
  intros s. unfold errOf, emit. destruct (send env (f (run_ s)) (sh s)) as [[e|] h] eqn:E; exists [f (run_ s)].
  - split; [done|]. exists (run_ s). split; [done|]. intros e' [= <-]. exists (sh s). by rewrite E.
  - split; [done|]. by exists (run_ s).
Qed.
End Emits.

Create HintDb mute.
#[export] Hint Resolve mute_ret mute_get mute_modify mute_ask mute_try_call mute_orPanic : mute.
Ltac mutes :=
  repeat match goal with
  | |- mute (bind _ _) => apply mute_bind; [|intros ?]
  | |- mute (match ?x with _ => _ end) => destruct x
  | |- mute _ => solve [eauto with mute]
  end.

Section Invoked.
Context `{Externals} `{Tools} `{Accumulator} {W : Type} {env : Env W}.
Context (quote : string -> string) (text : error -> string).

Lemma mute_newMessage role t : mute (W := W) (newMessage role t).
Proof. unfold newMessage, fresh. mutes. Qed.
Lemma mute_answerNoteItem note by_ : mute (W := W) (answerNoteItem note by_).
Proof. apply mute_newMessage. Qed.
Lemma mute_adopt id parent : mute (W := W) (adopt id parent).
Proof. unfold adopt. mutes. Qed.
Lemma mute_sayUnder i ids : mute (W := W) (sayUnder i ids).
Proof. unfold sayUnder. mutes. Qed.
Lemma mute_ctxDone : mute ctxDone.
Proof. unfold ctxDone. mutes. Qed.
Lemma mute_isCancellation err : mute (isCancellation err).
Proof. unfold isCancellation, ctxDone. mutes. Qed.
Lemma mute_match parent name args : mute (W := W) (match_ parent name args).
Proof. unfold match_. mutes. Qed.
Lemma mute_prepare tools turn_ c args : mute (W := W) (prepare tools turn_ c args).
Proof. unfold prepare. mutes. Qed.
Lemma mute_ranNested p args : mute (W := W) (ranNested text p args).
Proof. unfold ranNested, recordNested. mutes. Qed.
Hint Resolve mute_newMessage mute_answerNoteItem mute_adopt mute_sayUnder mute_ctxDone mute_isCancellation : mute.

Lemma mute_noteElicitor elicit mine asking asked q : mute (noteElicitor (W := W) elicit mine asking asked q).
Proof. unfold noteElicitor. mutes. Qed.

(** ** What asking decides *)

(** A decision is an accept's or a decline's: it allows or blocks, by a decider the format
    knows, and allows only if the answer accepted. *)
Definition answered (ans : elicited) (d d' : ToolDecision) : Prop :=
  td_By d' = (if bool_decide (el_By ans = "") then "human" else el_By ans) /\ td_By d' ∈ ["human"; "policy"; "agent"] /\
  match el_Action ans with
  | ActionAccept => Action d' = Allow /\ td_Reason d' <> "" /\ td_Args d' = td_Args d
  | ActionDecline => Action d' = Block /\ td_Reason d' <> ""
  | ActionOther => False
  end.

Lemma known_deciders by_ : knownDecider by_ = None -> (if bool_decide (by_ = "") then "human" else by_) ∈ ["human"; "policy"; "agent"].
Proof. unfold knownDecider. match goal with |- context [bool_decide ?P] => destruct (bool_decide P) eqn:E end; [|done]. intros _. apply bool_decide_eq_true in E.
  case_bool_decide; set_solver. Qed.

Lemma append_nonempty s t : s <> "" -> s +:+ t <> "".
Proof. by destruct s. Qed.

Lemma accepted_reason by_ d : td_Reason (accepted by_ d) <> "".
Proof. unfold accepted. upd. by case_bool_decide. Qed.

Lemma declined_reason by_ note d : td_Reason (declined by_ note d) <> "".
Proof.
  unfold declined. upd. repeat case_bool_decide; cbn [negb]; try done; try by apply append_nonempty.
Qed.

Definition decider (ans : elicited) : string := if bool_decide (el_By ans = "") then "human" else el_By ans.

Lemma answered_accept ans d note :
  knownDecider (el_By ans) = None -> el_Action ans = ActionAccept ->
  answered ans d (accepted (decider ans) d) /\ answered ans d (noted_ (decider ans) note (accepted (decider ans) d)).
Proof.
  intros Hk Ha. unfold answered. rewrite Ha. pose proof (accepted_reason (decider ans) d) as Hr. pose proof (known_deciders _ Hk).
  unfold noted_, accepted in *. by split_and!; upd.
Qed.

Lemma answered_decline ans d :
  knownDecider (el_By ans) = None -> el_Action ans = ActionDecline -> answered ans d (declined (decider ans) (el_Note ans) d).
Proof.
  intros Hk Ha. unfold answered. rewrite Ha. pose proof (declined_reason (decider ans) (el_Note ans) d). pose proof (known_deciders _ Hk).
  unfold declined in *. by split_and!; upd.
Qed.

(** Asking allows only on an accept. *)
Lemma Ask_answered (elicit : option AskedCall -> string -> M W (elicited + error)) sink asking c d s ans s1 :
  ac_Decision c = Some d -> elicit (Some c) (askMessage quote c d) s = (Ok (inl ans), s1) ->
  exists a s', Ask quote (Some elicit) sink asking c s = (Ok a, s') /\
    match a with
    | Some d' => answered ans d d'
    | None => knownDecider (el_By ans) <> None \/ el_Action ans = ActionOther
    end.
Proof.
  intros Hd He. unfold Ask. rewrite Hd. change (orPanic (Some d)) with (ret (W := W) d).
  rewrite (bind_ok (ret d) _ _ d _ eq_refl), (bind_ok _ _ _ _ _ He).
  destruct (knownDecider (el_By ans)) as [e|] eqn:Ek; [eexists None, _; split; [reflexivity|left; congruence]|]. fold (decider ans).
  destruct (el_Action ans) eqn:Ea.
  - destruct (answered_accept ans d (el_Note ans) Ek Ea) as [Hy Hn].
    case_bool_decide; [by eexists (Some _), _; split; [reflexivity|]|].
    destruct (sink && bool_decide (ac_Callee c = "")); [|by eexists (Some _), _; split; [reflexivity|]].
    unfold adopt. destruct (bool_decide (ac_Parent c = "")); by eexists (Some _), _; split; [reflexivity|].
  - eexists (Some _), _. split; [reflexivity|]. by apply answered_decline.
  - eexists None, _. split; [reflexivity|by right].
Qed.

(** The run's elicitor sends no event of the run's. *)
Context (runAsk : option (option AskedCall -> string -> M W (elicited + error))).
Context (quiet : forall elicit, runAsk = Some elicit -> forall a q, mute (elicit a q)).

Lemma mute_Ask sink asking c d : ac_Decision c = Some d -> mute (Ask quote runAsk sink asking c).
Proof.
  intros Hd. unfold Ask. rewrite Hd. destruct runAsk as [elicit|] eqn:E; [|mutes]. apply mute_bind; [mutes|]. intros d'.
  apply mute_bind; [by eapply quiet|]. intros ans. mutes.
Qed.

(** ** The pieces of an invocation *)

(** What no step changes of a call. *)
Definition same (p p' : callState) : Prop :=
  c_call p' = c_call p /\ c_parent p' = c_parent p /\ c_key p' = c_key p /\ c_tool p' = c_tool p /\ c_after p' = c_after p /\
  c_turn p' = c_turn p.

Lemma same_refl p : same p p.
Proof. done. Qed.
Lemma same_trans p q r : same p q -> same q r -> same p r.
Proof. unfold same. intros Hp Hq. destruct_and? Hp. destruct_and? Hq. split_and!; congruence. Qed.

(** The call's tool_end, and who fails on it. *)
Definition endSent (p : callState) (err : option error) (evs : list event) : Prop :=
  exists r, evs = [toolEnd p r] /\ forall e, err = Some e -> refused (env := env) (toolEnd p r) e.

Lemma emits_finish p : emits (finish p) (fun '(p', err) evs => p' = ended_ p /\ endSent p' err evs).
Proof.
  unfold finish. eapply emits_bind; [apply emits_errOf|]. intros err evs (r & -> & He). apply emits_ret. rewrite app_nil_r.
  split; [done|]. by exists r.
Qed.
Lemma same_ended p : same p (ended_ p) /\ c_settled (ended_ p) = c_settled p /\ c_ended (ended_ p) = true.
Proof. done. Qed.

(** A call whose hook failed is left to [endNested]. *)
Definition settledBy (p : callState) (x : callState * option error) (evs : list event) : Prop :=
  same p x.1 /\ ((c_ended x.1 = true /\ endSent x.1 x.2 evs) \/ (evs = [] /\ c_ended x.1 = c_ended p /\ x.2 <> None)).

Lemma emits_settle p : emits (settle p) (fun x evs => c_settled x.1 = c_settled p /\ settledBy p x evs).
Proof.
  unfold settle. eapply (emits_bind _ _ (fun x evs => evs = [] /\ match x with inl p' => same p p' /\ c_settled p' = c_settled p | inr _ => True end)).
  - destruct (cf_AfterToolCall (cfg env)); [|by apply emits_ret]. destruct (c_blocked p); [by apply emits_ret|].
    apply emits_mute; [eauto with mute|]. intros r. apply emits_mute; [eauto with mute|]. intros [[o|]|e]; by apply emits_ret.
  - intros [p'|e] evs [-> Hs]; [|apply emits_ret; split; [done|split; [done|right; by split_and!]]].
    destruct Hs as [Hs Hst].
    apply emits_mute; [eauto with mute|]. intros cut. eapply emits_weaken; [apply emits_finish|]. intros [p2 err] evs (-> & Hend).
    set (p3 := p' <| c_cut ::= _ |>) in *. destruct (same_ended p3) as (Hs2 & Hst2 & He).
    split; [cbn [fst]; rewrite Hst2; exact Hst|split; [eapply same_trans; [exact Hs|exact Hs2]|by left]].
Qed.

Lemma emits_endNested p cause :
  emits (endNested p cause) (fun '(p', out) evs => out = (noResult, Some cause) /\ c_ended p' = true /\ same p p' /\
    if c_ended p then p' = p /\ evs = [] else c_err p' = Some cause /\ c_cut p' = true /\ exists r, evs = [toolEnd p' r]).
Proof.
  unfold endNested. destruct (c_ended p) eqn:Ee; [by apply emits_ret|].
  eapply emits_bind; [apply emits_finish|]. intros [p' err] evs (-> & r & -> & _). apply emits_ret. rewrite app_nil_r.
  split_and!; try done. by exists r.
Qed.

(** A call ended: its tool_end, and what the tool is given, which is what tool_end
    reports, or no result and an error: the one the call was cut off by, as its tool_end
    reports, or the one a consumer failed on its tool_end with. *)
Definition concluded (p : callState) (x : callState * given) (evs : list event) : Prop :=
  exists p' r, same p p' /\ evs = [toolEnd p' r] /\ (x.2 = (c_result p', c_err p') \/
    exists cause, x.2 = (noResult, Some cause) /\
      (c_err p' = Some cause /\ c_cut p' = true \/ refused (env := env) (toolEnd p' r) cause)).

Lemma emits_end p cause : c_ended p = false -> emits (endNested p cause) (concluded p).
Proof.
  intros Hp. eapply emits_weaken; [apply emits_endNested|]. intros [p' out] evs (-> & He & Hs & Hev). rewrite Hp in Hev.
  destruct Hev as (He' & Hc & r & ->). exists p', r. split_and!; [done|done|right]. exists cause. split; [done|by left].
Qed.

(** What [settle] leaves, ended if it was not. *)
Lemma emits_settled p x evs k :
  c_ended p = false -> settledBy p x evs ->
  (c_ended x.1 = true -> x.2 = None -> k x.1 = ret (x.1, (c_result x.1, c_err x.1))) ->
  emits (match x.2 with Some e => endNested x.1 e | None => k x.1 end) (fun b evs' => concluded p b (evs ++ evs')).
Proof.
  destruct x as [p1 err]. cbn [fst snd]. intros Hp (Hs & Hset) Hk. cbn [fst snd] in *. destruct err as [e|].
  - eapply emits_weaken; [apply emits_endNested|]. intros [p' out] evs' (-> & He & Hs' & Hev).
    destruct Hset as [(He1 & r & -> & Href)|(-> & He1 & _)].
    + rewrite He1 in Hev. destruct Hev as [-> ->]. exists p1, r. split_and!; [done|done|right]. exists e. split; [done|]. right. by apply Href.
    + rewrite He1, Hp in Hev. destruct Hev as (He2 & Hc & r & ->). exists p', r. split_and!; [by eapply same_trans|done|right].
      exists e. split; [done|by left].
  - destruct Hset as [(He1 & r & -> & _)|(_ & _ & ?)]; [|done]. rewrite (Hk He1 eq_refl). apply emits_ret.
    exists p1, r. split_and!; [done|done|by left].
Qed.

(** [check]: a call refused is settled, and one that is not goes on without an error. *)
Lemma emits_check p :
  emits (check p) (fun x evs =>
    match refusal p with
    | None => x = (p <| c_err := None |>, None) /\ evs = []
    | Some _ => c_settled x.1 = true /\ settledBy p x evs
    end).
Proof.
  unfold check. cbv zeta. cbn [c_err set]. destruct (refusal p) as [e|] eqn:Er.
  - eapply emits_weaken; [apply emits_settle|]. intros x evs [Hst Hs]. split; [exact Hst|exact Hs].
  - by apply emits_ret.
Qed.

Definition dispatchOf (p : callState) (r : runner) : event := EvToolDispatch {|
  tdi_RunID := runID r; tdi_Turn := c_turn p; tdi_CallID := callID (c_call p); tdi_Name := Name (cr_call (c_call p)); tdi_Parent := c_parent p;
  tdi_IdempotencyKey := c_key p |}.

Lemma emits_onStart p x : x_batch x = [p] -> c_after p = [] ->
  emits (onStart 0 x) (fun '(x', _) evs =>
    (exists p', x_batch x' = [p'] /\ same p p' /\ c_ended p' = c_ended p) /\ exists r, evs = [dispatchOf p r]).
Proof.
  intros Hx Ha. unfold onStart. rewrite Hx. cbn [lookup list_lookup]. rewrite Ha. cbn [forallb].
  eapply (emits_bind _ _ (fun a evs => a = None /\ evs = [])); [by apply emits_ret|]. intros a evs [-> ->].
  eapply emits_bind; [apply emits_errOf|]. intros err evs (r & -> & _). apply emits_ret. rewrite app_nil_r. split; [|by eexists].
  unfold setCall. upd. rewrite Hx. by eexists.
Qed.

Lemma mute_move f : mute (W := W) (move f).
Proof. apply mute_ask. Qed.
Lemma mute_shares : mute (W := W) shares.
Proof. apply mute_ask. Qed.
Hint Resolve mute_move mute_shares : mute.

(** The executor's run of one job sends its tool_dispatch at most. *)
Lemma emits_results t : forall left started_ x out p, oneJob left started_ t -> x_batch x = [p] -> c_after p = [] ->
  emits (results t x out) (fun '(x', _) evs =>
    (exists p', x_batch x' = [p'] /\ same p p' /\ c_ended p' = c_ended p) /\
    (evs = [] \/ started_ = false /\ exists r, evs = [dispatchOf p r])).
Proof.
  induction t as [|adv j rest IH|adv j ev rest IH]; intros left started_ x out p Ht Hx Ha; cbn [results oneJob] in *.
  - apply emits_ret. split; [by eexists|by left].
  - destruct Ht as [-> Ht]. apply emits_mute; [apply mute_move|]. intros _.
    eapply emits_bind; [by apply emits_onStart|]. intros [x' st] evs [(p' & Hx' & Hs & He) [r ->]].
    apply emits_mute; [apply mute_shares|]. intros h.
    eapply emits_weaken; [eapply (IH h st left true x' out p'); [apply Ht|done|unfold same in Hs; destruct_and? Hs; congruence]|].
    intros [x2 out2] evs2 [(p2 & Hx2 & Hs2 & He2) [->|[? _]]]; [|done]. rewrite app_nil_r.
    split; [|by right; split; [done|eexists]]. exists p2. split_and!; [done|by eapply same_trans|congruence].
  - destruct Ht as [-> Ht]. apply emits_mute; [apply mute_move|]. intros _. apply emits_mute; [apply mute_shares|]. intros h.
    by eapply IH.
Qed.

(** The executor's contract. *)
Context (one : forall job h, oneJob true false (Execute env [job] h)).

Lemma emits_runNested p : c_after p = [] -> c_ended p = false ->
  emits (runNested p) (fun b evs => exists mid evs', evs = mid ++ evs' /\ concluded p b evs' /\
    (mid = [] \/ exists r, mid = [dispatchOf p r])).
Proof.
  intros Ha He. unfold runNested. apply emits_mute; [apply mute_shares|]. intros h.
  eapply emits_bind; [by eapply (emits_results _ true false _ _ p)|].
  intros [x out] mid [(p' & Hx & Hs & He') Hmid]. rewrite Hx. cbn [head default].
  eapply (emits_weaken _ (concluded p')).
  - change (id p') with p'. destruct (c_dispatchErr p') as [e|]; [apply emits_end; congruence|].
    set (p1 := p' <| c_result := _ |> <| c_err := _ |> <| c_settled := true |>).
    eapply emits_bind; [apply (emits_settle p1)|]. intros [p2 err] evs [_ Hset].
    assert (c_ended p1 = false) as He1 by (unfold p1; upd; congruence).
    exact (emits_settled p1 (p2, err) evs (fun p => ret (p, (c_result p, c_err p))) He1 Hset (fun _ _ => eq_refl)).
  - intros b evs (p2 & r & Hs2 & -> & Hb). exists mid, [toolEnd p2 r].
    split_and!; [done|exists p2, r; split_and!; [by eapply same_trans|done|done]|]. destruct Hmid as [->|[_ Hm]]; [by left|by right].
Qed.

(** ** What was decided *)

(** What the hook answers and the elicitor's answers satisfy. *)
Context (Judges : option ToolDecision -> Prop) (Says : elicited -> Prop).
Context (judged : forall before h i, cf_BeforeToolCall (cfg env) = Some before ->
  match (before h i).1 with inl d => Judges d | inr _ => True end).
Context (says : forall elicit, runAsk = Some elicit -> forall a q,
  emits (elicit a q) (fun ans _ => match ans with inl ans => Says ans | inr _ => True end)).

(** What lets a nested call run: no hook, a hook with nothing to say, a hook that allows
    it, or an accept of the question its deferral put. *)
Definition permitted (d : option ToolDecision) : Prop :=
  match d with
  | None => cf_BeforeToolCall (cfg env) = None \/ Judges None
  | Some d' => Action d' = Allow /\ exists d0, Judges (Some d0) /\
      (d' = d0 \/ Action d0 = Defer /\ exists ans, Says ans /\ el_Action ans = ActionAccept /\ answered ans d0 d')
  end.

Lemma emits_Ask sink asking c d : ac_Decision c = Some d ->
  emits (Ask quote runAsk sink asking c) (fun a evs => evs = [] /\
    match a with Some d' => exists ans, Says ans /\ answered ans d d' | None => True end).
Proof.
  intros Hd s. pose proof (mute_Ask sink asking c d Hd s) as Hm.
  revert Hm. destruct runAsk as [elicit|] eqn:E; intros Hm.
  - pose proof (says elicit eq_refl (Some c) (askMessage quote c d) s) as Hsay.
    destruct (elicit (Some c) (askMessage quote c d) s) as [[[ans|e]|e| |] s1] eqn:El; [| |done..].
    + destruct (Ask_answered elicit sink asking c d s ans s1 Hd El) as (a & s' & Ha & Hans). rewrite Ha in Hm |- *.
      destruct Hm as (evs & Hl & ->). destruct Hsay as (_ & _ & Hsay). exists []. split; [done|]. split; [done|].
      destruct a; [by eexists|done].
    + unfold Ask in *. rewrite Hd in *. change (orPanic (Some d)) with (ret (W := W) d) in *.
      rewrite (bind_ok (ret d) _ _ d _ eq_refl), (bind_ok _ _ _ _ _ El) in *. destruct Hm as (evs & Hl & ->). by exists [].
  - destruct Hm as (evs & Hl & ->). by exists [].
Qed.

(** A decided call: refused with an error, or permitted. *)
Definition decidedCall (p p' : callState) (d : option ToolDecision) : Prop :=
  same p p' /\ c_ended p' = c_ended p /\ c_settled p' = c_settled p /\ (c_err p' = None -> c_blocked p' = false /\ permitted d).

Lemma decided_allow p d0 d :
  c_blocked p = false -> Judges (Some d0) -> Action d = Allow ->
  (d = d0 \/ Action d0 = Defer /\ exists ans, Says ans /\ answered ans d0 d) -> decidedCall p p (Some d).
Proof.
  intros Hb Hj Ha Hd. split_and!; [done..|]. intros _. split; [done|]. split; [done|]. exists d0. split; [done|].
  destruct Hd as [->|(Hd & ans & Hs & Hans)]; [by left|right]. split; [done|]. exists ans. split_and!; [done| |done].
  destruct Hans as (_ & _ & Hans). destruct (el_Action ans); [done|destruct Hans; congruence|done].
Qed.

Lemma decided_refuse p d : decidedCall p (refuse d p) (Some d).
Proof. by split_and!. Qed.

Lemma decided_trans p q r d : same p q -> c_ended q = c_ended p -> c_settled q = c_settled p -> decidedCall q r d -> decidedCall p r d.
Proof. intros Hs He Hst (Hs' & He' & Hst' & H'). split_and!; [by eapply same_trans|congruence..|done]. Qed.

Lemma emits_settleVerdict parent d p : c_blocked p = false -> Judges (Some d) ->
  emits (settleVerdict quote runAsk parent d p) (fun '(p', d') evs => evs = [] /\ decidedCall p p' d').
Proof.
  intros Hb Hj. unfold settleVerdict. cbv zeta.
  set (p1 := match td_Args d with Some a => _ | None => p end).
  assert (same p p1 /\ c_ended p1 = c_ended p /\ c_settled p1 = c_settled p /\ c_blocked p1 = false) as (Hs & He & Hst & Hb1)
    by (unfold p1; by destruct (td_Args d)).
  eapply (emits_bind _ _ (fun d' evs => evs = [] /\ (d' = d \/ Action d = Defer /\ exists ans, Says ans /\ answered ans d d'))).
  - case_bool_decide as Hd; [|apply emits_ret; split; [done|by left]].
    eapply emits_bind; [by apply emits_Ask|]. intros a evs [-> Ha]. apply emits_ret. split; [done|].
    destruct a as [d'|]; [right; by split|by left].
  - intros d' evs [-> Hd']. cbn [app].
    enough (forall p2, (Action d' = Allow /\ p2 = p1) \/ p2 = refuse d' p1 -> decidedCall p p2 (Some d')) as Hdec.
    { destruct (Action d') eqn:Ea; [|apply emits_ret; split; [done|apply Hdec; by right]..].
      apply emits_mute; [|intros _; apply emits_ret; split; [done|apply Hdec; by left]].
      case_bool_decide; [apply mute_ret|]. apply mute_bind; [apply mute_newMessage|]. intros. apply mute_sayUnder. }
    intros p2 [[Ha ->]| ->]; (apply (decided_trans p p1); [done..|]); [by eapply decided_allow|apply decided_refuse].
Qed.

(** The error of a decision hook that fails. *)
Definition hookFails (cause : error) : Prop :=
  exists before h i e, cf_BeforeToolCall (cfg env) = Some before /\ (before h i).1 = inr e /\
    cause = Wrap "agentturn: before-tool-call hook" e.

Lemma emits_verdict turn_ parent p : c_blocked p = false ->
  emits (verdict quote runAsk turn_ parent p) (fun v evs => evs = [] /\
    match v with inr e => hookFails e | inl (p', d) => decidedCall p p' d end).
Proof.
  intros Hb. unfold verdict. destruct (cf_BeforeToolCall (cfg env)) as [before|] eqn:Eh.
  - apply emits_mute; [apply mute_get|]. intros r.
    eapply (emits_bind _ _ (fun out evs => evs = [] /\ match out with inl d => Judges d | inr e => hookFails (Wrap "agentturn: before-tool-call hook" e) end)).
    { intros s. unfold try, call. pose proof (judged before (sh s) {| tci_RunID := runID r; tci_Turn := turn_; tci_Call := c_call p;
        tci_Tool := c_tool p; tci_Args := c_args p; tci_Batch := [c_call p]; tci_Index := 0; tci_Parent := parent |} eq_refl) as Hj.
      destruct (before (sh s) _) as [[d|e] h] eqn:Ed; exists []; rewrite app_nil_r; split_and!; try done.
      eexists before, (sh s), _, e. split; [exact Eh|]. by rewrite Ed. }
    intros [[d|]|e] evs [-> Hj].
    + eapply emits_bind; [by apply emits_settleVerdict|]. intros [p' d'] evs [-> Hd]. by apply emits_ret.
    + apply emits_ret. split; [done|]. split_and!; [done..|]. intros _. split; [done|by right].
    + by apply emits_ret.
  - apply emits_ret. split; [done|]. split_and!; [done..|]. intros _. split; [done|by left].
Qed.

(** ** The whole invocation *)

Definition startOf (turn_ : Z) (parent : string) (args : raw) (d : option ToolDecision) (p : callState) (r : runner) : event :=
  EvToolStart {| tst_RunID := runID r; tst_Turn := turn_; tst_CallID := callID (c_call p); tst_Name := Name (cr_call (c_call p));
    tst_Args := c_args p; tst_Decision := d; tst_Parent := parent; tst_Invoked := args; tst_Replayed := false |}.

(** What an invocation whose call was decided sends. *)
Definition bracketed turn_ parent args d (ok : Prop) (p : callState) (b : callState * given) (evs : list event) : Prop :=
  exists r mid evs', evs = startOf turn_ parent args d p r :: mid ++ evs' /\ concluded p b evs' /\
    (mid = [] \/ ok /\ exists r, mid = [dispatchOf p r]).

Lemma emits_startNested turn_ parent args d p : c_after p = [] -> c_ended p = false -> c_settled p = false ->
  emits (startNested turn_ parent args d p) (bracketed turn_ parent args d (refusal p = None) p).
Proof.
  intros Ha He Hst. unfold startNested. eapply emits_bind; [apply emits_errOf|]. intros err evs (r & -> & _).
  assert (forall x : M W (callState * given), emits x (fun b evs => exists mid evs', evs = mid ++ evs' /\ concluded p b evs' /\
      (mid = [] \/ refusal p = None /\ exists r, mid = [dispatchOf p r])) ->
    emits x (fun b evs' => bracketed turn_ parent args d (refusal p = None) p b ([startOf turn_ parent args d p r] ++ evs'))) as Hx.
  { intros x Hx. eapply emits_weaken; [exact Hx|]. intros b evs (mid & evs' & -> & Hc & Hm). by exists r, mid, evs'. }
  destruct err as [e|]; apply Hx.
  - eapply emits_weaken; [by apply emits_end|]. intros b evs Hc. exists [], evs. by split_and!; [..|left].
  - pose proof (emits_check p) as Hc. eapply emits_bind; [exact Hc|]. intros x evs Hx'. destruct (refusal p) as [e0|] eqn:Er.
    + destruct Hx' as [Hs Hset]. destruct x as [p1 err].
      eapply (emits_weaken _ (fun b evs' => concluded p b (evs ++ evs'))).
      * refine (emits_settled p (p1, err) evs (fun p => if c_settled p then ret (p, (c_result p, c_err p)) else runNested p) He Hset _).
        cbn [fst snd] in *. by rewrite Hs.
      * intros b evs' Hcc. exists [], (evs ++ evs'). by split_and!; [..|left].
    + destruct Hx' as [-> ->]. cbn [c_settled set]. set (p1 := p <| c_err := None |>).
      change (c_settled p1) with (c_settled p). rewrite Hst.
      eapply emits_weaken; [by apply (emits_runNested p1)|].
      intros b evs (mid & evs' & -> & Hcc & Hm). exists mid, evs'. split_and!; [done|exact Hcc|]. destruct Hm as [Hm|Hm]; [by left|by right].
Qed.

(** What the call handed to its tool passed. *)
Definition cleared (n : option NestedRecord) (d : option ToolDecision) (p : callState) : Prop :=
  permitted d /\ validObject (c_args p) = true /\
  exists tool, c_tool p = Some tool /\ forall rec, n = Some rec -> nr_Dispatched rec = true -> exists rule,
    runAgain tool (callID (c_call p)) (c_args p) (c_key p) (orEmpty (nr_DispatchArgs rec) (bytesOf (nr_Args rec)))
      (nr_IdempotencyKey rec) = inl rule.

Lemma same_repeat n p : same p (repeat_ n p).
Proof.
  unfold repeat_. destruct n as [rec|]; [|done]. destruct (c_tool p); [|done]. destruct (_ && _); [|done]. by destruct (runAgain _ _ _ _ _ _).
Qed.

Lemma repeat_state n p : c_args (repeat_ n p) = c_args p /\ c_ended (repeat_ n p) = c_ended p /\
  c_settled (repeat_ n p) = c_settled p /\ c_blocked (repeat_ n p) = c_blocked p /\ (c_err (repeat_ n p) = None -> c_err p = None).
Proof.
  unfold repeat_. destruct n as [rec|]; [|done]. destruct (c_tool p); [|done]. destruct (_ && _); [|done]. by destruct (runAgain _ _ _ _ _ _).
Qed.

Lemma refusal_none p : refusal p = None -> c_err p = None /\ (c_blocked p = false -> validObject (c_args p) = true /\ exists tool, c_tool p = Some tool).
Proof. unfold refusal. intros Hr. destruct (c_blocked p), (c_tool p), (validObject (c_args p)); cbn in *; try done; by split; [|intros; split; [|eexists]]. Qed.

Lemma cleared_repeat p0 p n d : decidedCall p0 p d -> refusal (repeat_ n p) = None -> cleared n d (repeat_ n p).
Proof.
  intros (_ & _ & _ & Hd) Hr. destruct (refusal_none _ Hr) as [He Hok]. destruct (repeat_state n p) as (Ha & _ & _ & Hb & Herr).
  destruct (Hd (Herr He)) as [Hb' Hp]. rewrite Hb in Hok. destruct (Hok Hb') as [Hv [tool Ht]].
  split; [done|]. split; [done|]. exists tool. split; [done|]. intros rec -> Hdis.
  revert He Hv Ht. unfold repeat_. destruct (c_tool p) as [t|] eqn:Et; [|congruence]. rewrite Hdis, Hb'. cbn [negb andb].
  destruct (validObject (c_args p)) eqn:Ev; [|congruence].
  destruct (runAgain t _ _ _ _ _) as [rule|e] eqn:Era; [|done]. intros _ _ Ht. rewrite Et in Ht. injection Ht as <-. by exists rule.
Qed.

Lemma emits_invokeCall turn_ parent args n p : c_after p = [] -> c_ended p = false -> c_settled p = false -> c_blocked p = false ->
  emits (invokeCall quote runAsk turn_ parent args n p) (fun b evs =>
    evs = [] /\ (exists cause, b.2 = (noResult, Some cause) /\ hookFails cause) \/
    exists d p1, same p p1 /\ bracketed turn_ parent args d (cleared n d p1) p1 b evs).
Proof.
  intros Ha He Hst Hb. unfold invokeCall. eapply emits_bind; [by apply emits_verdict|]. intros [[p1 d]|e] evs [-> Hd]; cbn [app].
  - pose proof Hd as (Hs & He1 & Hst1 & _). destruct (repeat_state n p1) as (_ & He2 & Hst2 & _). pose proof (same_repeat n p1) as Hs2.
    assert (same p (repeat_ n p1)) as Hs3 by by eapply same_trans.
    eapply emits_weaken; [apply emits_startNested; [|congruence..]|].
    + unfold same in Hs3. destruct_and? Hs3. congruence.
    + intros b evs (r & mid & evs' & -> & Hc & Hm). right. exists d, (repeat_ n p1). split; [done|]. exists r, mid, evs'. split_and!; [done|done|].
      destruct Hm as [->|[Hr Hm]]; [by left|right]. split; [by eapply cleared_repeat|done].
  - apply emits_ret. left. split; [done|]. by exists e.
Qed.

End Invoked.
