(* ===== verification/Invocations.v ===== *)
(** * Invocations: what a nested call of a tool's sends, whatever its hook, its elicitor,
    its executor and its record are. *)

From S2P Require Import Toy.
From S2P Require Export Invoked.

Section Invocations.
Context `{Externals} `{Tools} `{Accumulator} {W : Type} {env : Env W}.
Context (quote : string -> string) (text : error -> string).
Context (runAsk : option (option AskedCall -> string -> M W (elicited + error))).

(** Whether a record has the call ended. *)
Definition replays (n : option NestedRecord) : bool := match n with Some rec => nr_Ended rec | None => false end.

(** The events of one call: under one ID, the matched record's if there is one. *)
Definition oneCall (parent name : string) (args : raw) (n : option NestedRecord) (st : ToolStart) : Prop :=
  tst_Name st = name /\ tst_Parent st = parent /\ tst_Invoked st = args /\ tst_Replayed st = replays n /\
  forall rec, n = Some rec -> tst_CallID st = nr_CallID rec.

(** A tool_end answers its tool_start, and the invoking tool is given what it reports; or
    no result and the error the tool_end reports that the call was cut off by, or that a
    consumer failed on the tool_end with. *)
Definition closes (st : ToolStart) (te : ToolEnd) (out : given) : Prop :=
  te_CallID te = tst_CallID st /\ te_Name te = tst_Name st /\ te_Parent te = tst_Parent st /\ te_Replayed te = tst_Replayed st /\
  (out = (te_Result te, te_Err te) \/
    exists cause, out = (noResult, Some cause) /\
      (te_Err te = Some cause /\ te_Cut te = true \/ refused (env := env) (EvToolEnd te) cause)).

(** The call handed to its tool: its decision lets it run, its arguments are an object,
    and one that may have run before runs under the key it ran under, as the replay rule
    allows. *)
Definition handed (Judges : option ToolDecision -> Prop) (Says : elicited -> Prop) (tools : list Tool) (n : option NestedRecord)
    (st : ToolStart) (di : ToolDispatch) : Prop :=
  tdi_CallID di = tst_CallID st /\ tdi_Name di = tst_Name st /\ tdi_Parent di = tst_Parent st /\
  permitted (env := env) Judges Says (tst_Decision st) /\ validObject (tst_Args st) = true /\
  exists tool, Lookup tools (tst_Name st) = Some tool /\ forall rec, n = Some rec -> nr_Dispatched rec = true ->
    tdi_IdempotencyKey di = nr_IdempotencyKey rec /\ exists rule,
    runAgain tool (tst_CallID st) (tst_Args st) (nr_IdempotencyKey rec) (orEmpty (nr_DispatchArgs rec) (bytesOf (nr_Args rec)))
      (nr_IdempotencyKey rec) = inl rule.

(** What an invocation sends, with what it gives the tool that made it. *)
Inductive told (Judges : option ToolDecision -> Prop) (Says : elicited -> Prop) (tools : list Tool) (parent name : string) (args : raw)
    (n : option NestedRecord) (out : given) : list event -> Prop :=
| T_hookFailed cause : replays n = false -> out = (noResult, Some cause) -> hookFails (env := env) cause -> told Judges Says tools parent name args n out []
| T_refused st te : replays n = false -> oneCall parent name args n st -> closes st te out ->
    told Judges Says tools parent name args n out [EvToolStart st; EvToolEnd te]
| T_ran st di te : replays n = false -> oneCall parent name args n st -> handed Judges Says tools n st di -> closes st te out ->
    told Judges Says tools parent name args n out [EvToolStart st; EvToolDispatch di; EvToolEnd te]
| T_replayed rec st te : n = Some rec -> nr_Ended rec = true -> oneCall parent name args n st -> closes st te out ->
    te_Result te = nr_Result rec -> te_Blocked te = nr_Blocked rec ->
    told Judges Says tools parent name args n out [EvToolStart st; EvToolEnd te]
| T_unreplayed st cause : replays n = true -> oneCall parent name args n st -> out = (noResult, Some cause) ->
    refused (env := env) (EvToolStart st) cause -> told Judges Says tools parent name args n out [EvToolStart st].

Context (quiet : forall elicit, runAsk = Some elicit -> forall a q, mute (elicit a q)).
Context (one : forall job h, oneJob true false (Execute env [job] h)).
Context (Judges : option ToolDecision -> Prop) (Says : elicited -> Prop).
Context (judged : forall before h i, cf_BeforeToolCall (cfg env) = Some before ->
  match (before h i).1 with inl d => Judges d | inr _ => True end).
Context (says : forall elicit, runAsk = Some elicit -> forall a q,
  emits (elicit a q) (fun ans _ => match ans with inl ans => Says ans | inr _ => True end)).

Lemma told_replay turn_ tools c parent args rec :
  nr_Ended rec = true -> callID c = nr_CallID rec ->
  emits (replayNested turn_ c parent args rec) (told Judges Says tools parent (Name (cr_call c)) args (Some rec)).
Proof.
  intros He Hid. unfold replayNested. cbv zeta. eapply emits_bind; [apply emits_errOf|]. intros err evs (r & -> & Href).
  destruct err as [e|].
  - apply emits_ret. eapply T_unreplayed; [done| |done|by apply Href]. split_and!; cbn; try done. by intros ? [= <-].
  - apply emits_mute; [apply mute_modify|]. intros _. eapply emits_bind; [apply emits_errOf|]. intros err evs (r' & -> & Href').
    destruct err as [e|]; apply emits_ret; (eapply T_replayed; [done|done| | |done|done]); cbn;
      split_and!; cbn; try done; try (by intros ? [= <-]); [right; exists e; split; [done|right; by apply Href']|by left].
Qed.

Lemma told_bracketed turn_ tools parent name args n d p p1 b evs :
  replays n = false -> same p p1 -> c_tool p = Lookup tools name -> Name (cr_call (c_call p)) = name -> c_parent p = parent ->
  (forall rec, n = Some rec -> callID (c_call p) = nr_CallID rec /\ (nr_Dispatched rec = true -> c_key p = nr_IdempotencyKey rec)) ->
  bracketed turn_ parent args d (cleared (env := env) Judges Says n d p1) p1 b evs ->
  told Judges Says tools parent name args n b.2 evs.
Proof.
  intros Hn Hs Ht Hname Hp Hrec (r & mid & evs' & -> & (p2 & r2 & Hs2 & -> & Hout) & Hmid).
  unfold same in Hs, Hs2. destruct_and? Hs. destruct_and? Hs2.
  set (st := {| tst_RunID := runID r; tst_Turn := turn_; tst_CallID := callID (c_call p1); tst_Name := Name (cr_call (c_call p1));
    tst_Args := c_args p1; tst_Decision := d; tst_Parent := parent; tst_Invoked := args; tst_Replayed := false |}).
  assert (oneCall parent name args n st) as Hone.
  { split_and!; cbn; [congruence|done..|]. intros rec Hr. destruct (Hrec rec Hr). congruence. }
  assert (forall te, EvToolEnd te = toolEnd p2 r2 -> closes st te b.2) as Hclose.
  { intros te Hte. injection Hte as ->. split_and!; cbn; try congruence.
    destruct Hout as [Ho|(cause & Ho & Hc)]; [by left|right]. by exists cause. }
  unfold toolEnd in *. destruct Hmid as [->|[Hc [r3 ->]]].
  - apply (T_refused _ _ _ _ _ _ _ _ st); [done|done|]. by apply Hclose.
  - apply (T_ran _ _ _ _ _ _ _ _ st); [done|done| |by apply Hclose].
    destruct Hc as (Hper & Hv & tool & Htool & Hrep). split_and!; cbn; try done; [congruence|].
    exists tool. split; [congruence|]. intros rec Hr Hdis. destruct (Hrec rec Hr) as [Hid Hkey]. specialize (Hkey Hdis).
    destruct (Hrep rec Hr Hdis) as [rule Hrule]. split; [congruence|]. exists rule. rewrite <-Hrule. f_equal; congruence.
Qed.

Lemma told_invokeCall turn_ tools parent name args n p :
  replays n = false -> c_tool p = Lookup tools name -> Name (cr_call (c_call p)) = name -> c_parent p = parent ->
  (forall rec, n = Some rec -> callID (c_call p) = nr_CallID rec /\ (nr_Dispatched rec = true -> c_key p = nr_IdempotencyKey rec)) ->
  c_after p = [] -> c_ended p = false -> c_settled p = false -> c_blocked p = false ->
  emits (let! (p, out) := invokeCall quote runAsk turn_ parent args n p in ranNested text p args ;; ret out)
    (told Judges Says tools parent name args n).
Proof.
  intros Hn Ht Hname Hp Hrec Ha He Hst Hb.
  eapply emits_bind; [by apply (emits_invokeCall quote runAsk quiet one Judges Says judged says turn_ parent args n p)|].
  intros [p' out] evs Hq. apply emits_mute; [apply mute_ranNested|]. intros _. apply emits_ret. rewrite app_nil_r.
  destruct Hq as [[-> (cause & Hc & Hh)]|(d & p1 & Hs & Hbr)]; [by eapply T_hookFailed|].
  by apply (told_bracketed turn_ tools parent name args n d p p1 (p', out) evs).
Qed.

Lemma emits_prepare {B} tools turn_ c args (k : callState -> M W B) Q :
  (forall p, c_call p = c -> c_tool p = Lookup tools (Name (cr_call c)) -> c_after p = [] -> c_ended p = false ->
    c_settled p = false -> c_blocked p = false -> emits (k p) Q) ->
  emits (bind (prepare tools turn_ c args) k) Q.
Proof.
  intros Hk. eapply (emits_bind _ _ (fun p evs => evs = [] /\ c_call p = c /\ c_tool p = Lookup tools (Name (cr_call c)) /\
    c_after p = [] /\ c_ended p = false /\ c_settled p = false /\ c_blocked p = false)).
  - unfold prepare. apply emits_mute; [apply mute_get|]. intros r. by apply emits_ret.
  - intros p evs (-> & ? & ? & ? & ? & ? & ?). cbn [app]. by apply Hk.
Qed.

(** The rest of an invocation, once the record was searched. *)
Lemma told_invoke tools turn_ parent name args s n s1 :
  match_ parent name args s = (Ok n, s1) ->
  match invoke quote text runAsk tools turn_ parent name args s with
  | (Ok out, s') => exists evs, log s' = log s ++ evs /\ told Judges Says tools parent name args n out evs
  | _ => False
  end.
Proof.
  intros Hm. pose proof (mute_match parent name args s) as Hl. rewrite Hm in Hl. destruct Hl as (evs & Hl & ->).
  rewrite app_nil_r in Hl. unfold invoke. rewrite (bind_ok _ _ _ _ _ Hm), <-Hl.
  match goal with |- match ?k s1 with _ => _ end => enough (emits k (told Judges Says tools parent name args n)) as Hk by exact (Hk s1) end.
  apply emits_mute; [apply mute_ask|]. intros id. apply emits_mute; [apply mute_ask|]. intros a.
  apply emits_mute; [apply mute_adopt|]. intros _. destruct n as [rec|]; [destruct (nr_Ended rec) eqn:He|].
  - by apply (told_replay turn_ tools {| cr_ptr := a; cr_call := {| ID := ""; CallID := nr_CallID rec; Name := name;
      Arguments := bytesOf args; CallStatus := "" |} |} parent args rec).
  - apply emits_prepare. intros p Hc Ht Ha Hed Hst Hb.
    match goal with |- context [invokeCall _ _ _ _ _ _ ?x] => set (p2 := x) end.
    assert (c_call p2 = c_call p /\ c_tool p2 = c_tool p /\ c_after p2 = c_after p /\ c_ended p2 = c_ended p /\
      c_settled p2 = c_settled p /\ c_blocked p2 = c_blocked p /\ c_parent p2 = parent /\
      (nr_Dispatched rec = true -> c_key p2 = nr_IdempotencyKey rec))
      as (Hc2 & Ht2 & Ha2 & He2 & Hst2 & Hb2 & Hp2 & Hk2) by (unfold p2; by destruct (nr_Dispatched rec)).
    apply told_invokeCall; try congruence; try done; [by rewrite Ht2, Ht|by rewrite Hc2, Hc|].
    intros rec' [= <-]. by rewrite Hc2, Hc.
  - apply emits_prepare. intros p Hc Ht Ha Hed Hst Hb.
    apply (told_invokeCall turn_ tools parent name args None (p <| c_parent := parent |>)); try done.
    change (Name (cr_call (c_call p)) = name). by rewrite Hc.
Qed.

End Invocations.

(** ** The properties *)
Section Properties.
Context `{Externals} `{Tools} `{Accumulator} {W : Type} {env : Env W}.

(** What the run's hook answered of some call, and the run's elicitor of some question. *)
Definition hookAnswers (d : option ToolDecision) : Prop :=
  exists before h i, cf_BeforeToolCall (cfg env) = Some before /\ (before h i).1 = inl d.
Definition elicitorAnswers (runAsk : option (option AskedCall -> string -> M W (elicited + error))) (ans : elicited) : Prop :=
  exists elicit a q s s', runAsk = Some elicit /\ elicit a q s = (Ok (inl ans), s').

(** C11: an invocation from inside a tool always returns, and reports one call. When the
    decision hook fails it reports nothing, and the hook's error is given. Otherwise it
    reports a tool_start and a tool_end under one ID, name and parent, but for a call the
    record has ended whose tool_start a subscriber fails on: that one has no tool_end.
    Between them at most one tool_dispatch is sent, and only
    for a call with an object of arguments, a tool, and a decision that no hook was there
    to make, that the hook made, or that an accept of the run's own elicitor made of the
    hook's deferral. A call the record has dispatched is handed over only under its
    recorded key, as the replay rule allows; one the record has ended is never handed
    over, and is given its recorded result. The tool that invoked it is given what
    tool_end reports; or no result and an error: the one tool_end says the call was cut
    off by, or the one a subscriber failed on the tool_end, or on that tool_start, with. *)
Theorem invocation_told quote text runAsk tools turn_ parent name args s :
  (forall elicit, runAsk = Some elicit -> forall a q, mute (elicit a q)) ->
  (forall job h, oneJob true false (Execute env [job] h)) ->
  exists n s1 out s' evs, match_ parent name args s = (Ok n, s1) /\
    invoke (env := env) quote text runAsk tools turn_ parent name args s = (Ok out, s') /\ log s' = log s ++ evs /\
    told (env := env) hookAnswers (elicitorAnswers runAsk) tools parent name args n out evs.
Proof.
  intros Hq Ho. pose proof (mute_match parent name args s) as Hm.
  destruct (match_ parent name args s) as [[n|e| |] s1] eqn:E; try done. exists n, s1.
  assert (forall before h i, cf_BeforeToolCall (cfg env) = Some before ->
    match (before h i).1 with inl d => hookAnswers d | inr _ => True end) as Hj.
  { intros before h i Hb. destruct (before h i).1 eqn:Ej; [|done]. by exists before, h, i. }
  assert (forall elicit, runAsk = Some elicit -> forall a q,
    emits (elicit a q) (fun ans _ => match ans with inl ans => elicitorAnswers runAsk ans | inr _ => True end)) as Hs.
  { intros elicit He a q s0. pose proof (Hq elicit He a q s0) as Hs.
    destruct (elicit a q s0) as [[[ans|e]|e| |] s2] eqn:Ee; try done; destruct Hs as (evs & Hl & ->); exists []; split; try done.
    by exists elicit, a, q, s0, s2. }
  pose proof (told_invoke quote text runAsk Hq Ho hookAnswers (elicitorAnswers runAsk) Hj Hs
    tools turn_ parent name args s n s1 E) as Ht.
  destruct (invoke quote text runAsk tools turn_ parent name args s) as [[out|e| |] s']; try done.
  destruct Ht as (evs & Hl & Ht). by exists out, s', evs.
Qed.

(** C12: a nested call whose hook always defers is handed to its tool only on an accept:
    if the run's elicitor never accepts, or there is none, no invocation sends a
    tool_dispatch, whatever the record, the other answers and the tools are. *)
Theorem nested_needs_accept quote text runAsk tools turn_ parent name args s :
  (forall elicit, runAsk = Some elicit -> forall a q,
    emits (elicit a q) (fun ans evs => evs = [] /\ match ans with inl ans => el_Action ans <> ActionAccept | inr _ => True end)) ->
  (forall job h, oneJob true false (Execute env [job] h)) ->
  cf_BeforeToolCall (cfg env) <> None ->
  (forall before h i, cf_BeforeToolCall (cfg env) = Some before ->
    match (before h i).1 with inl d => exists d0, d = Some d0 /\ Action d0 = Defer | inr _ => True end) ->
  exists out s' evs, invoke (env := env) quote text runAsk tools turn_ parent name args s = (Ok out, s') /\ log s' = log s ++ evs /\
    forall di, EvToolDispatch di ∉ evs.
Proof.
  intros Hq Ho Hn Hd. pose proof (mute_match parent name args s) as Hm.
  destruct (match_ parent name args s) as [[n|e| |] s1] eqn:E; try done.
  assert (forall elicit, runAsk = Some elicit -> forall a q, mute (elicit a q)) as Hmute.
  { intros elicit He a q. eapply emits_weaken; [by apply Hq|]. by intros ? ? []. }
  assert (forall elicit, runAsk = Some elicit -> forall a q,
    emits (elicit a q) (fun ans _ => match ans with inl ans => el_Action ans <> ActionAccept | inr _ => True end)) as Hs.
  { intros elicit He a q. eapply emits_weaken; [by apply Hq|]. by intros ? ? []. }
  pose proof (told_invoke quote text runAsk Hmute Ho (fun d => exists d0, d = Some d0 /\ Action d0 = Defer)
    (fun ans => el_Action ans <> ActionAccept) Hd Hs tools turn_ parent name args s n s1 E) as Ht.
  destruct (invoke quote text runAsk tools turn_ parent name args s) as [[out|e| |] s']; try done.
  destruct Ht as (evs & Hl & Ht). exists out, s', evs. split_and!; [done|done|].
  intros di. destruct Ht as [| |st di' te _ _ Hhand _| |]; try (rewrite ?not_elem_of_cons; by split_and?; [..|apply not_elem_of_nil]).
  exfalso. destruct Hhand as (_ & _ & _ & Hp & _). unfold permitted in Hp. destruct (tst_Decision st) as [d'|].
  - destruct Hp as (Ha & d0 & (d1 & Heq & Hdef) & Hp). injection Heq as <-.
    destruct Hp as [->|(_ & ans & Hans & Hacc & _)]; congruence.
  - destruct Hp as [?|(d0 & ? & _)]; congruence.
Qed.

End Properties.

(** ** A run whose policy defers every nested call *)
Module InvocationToy.

#[local] Existing Instances Toy.externals Toy.tools Toy.accumulator.

Definition deferral : ToolDecision := {| Action := Defer; td_Args := None; td_Note := ""; td_Reason := "needs a human";
  td_Terminate := false; td_DeclineText := ""; td_By := "policy"; td_Held := false; td_Subject := "" |}.

Definition env : Env nat := {|
  cfg := Toy.policied (Some (fun h _ => (inl (Some deferral), h))); send := fun _ h => (None, h); steer := None; followUp := None;
  last_ := None; closing := None; ctxErr := fun h => (None, h); timer := fun _ h => (true, h);
  NewID := fun prefix h => (prefix +:+ "_1", h);
  Events := fun _ _ => Toy.answering; Preceding := fun jobs => map (fun _ => []) jobs; Execute := fun jobs _ => Toy.runJobs 0 jobs;
  trigger := noTrigger; resuming := false; resumeNotes := []; prior := []; reserved := ∅; ctxReserved_ := ∅;
  isContextLengthExceeded := fun _ => false |}.

Definition quote (s : string) : string := s.
Definition text (_ : error) : string := "error".

Definition answers (a : elicitAction) : option (option AskedCall -> string -> M nat (elicited + error)) :=
  Some (fun _ _ => ret (inl {| el_Action := a; el_By := ""; el_Note := "" |})).

Definition kinds (evs : list event) : list string := map (fun ev => match ev with
  | EvToolStart _ => "tool_start" | EvToolDispatch _ => "tool_dispatch" | EvToolEnd _ => "tool_end" | _ => "other" end) evs.

Definition run (a : elicitAction) : list string :=
  kinds (log (invoke (env := env) quote text (answers a) [70%positive] 1 "parent" "tool" (Some "{}") (Toy.state [])).2).

Example accepted_runs : run ActionAccept = ["tool_start"; "tool_dispatch"; "tool_end"].
Proof. vm_compute. reflexivity. Qed.
Example declined_does_not : run ActionDecline = ["tool_start"; "tool_end"].
Proof. vm_compute. reflexivity. Qed.

Lemma answers_mute a elicit : answers a = Some elicit -> forall c q, mute (elicit c q).
Proof. intros [= <-] c q. apply mute_ret. Qed.

Lemma invocation_told_witness :
  run ActionAccept = ["tool_start"; "tool_dispatch"; "tool_end"] /\
  exists n s1 out s' evs, match_ "parent" "tool" (Some "{}") (Toy.state []) = (Ok n, s1) /\
    invoke (env := env) quote text (answers ActionAccept) [70%positive] 1 "parent" "tool" (Some "{}") (Toy.state []) = (Ok out, s') /\
    log s' = log (Toy.state []) ++ evs /\
    told (env := env) (hookAnswers (env := env)) (elicitorAnswers (answers ActionAccept)) [70%positive] "parent" "tool" (Some "{}") n out evs.
Proof.
  split; [vm_compute; reflexivity|].
  apply invocation_told; [apply answers_mute|]. intros job h. by split_and!.
Defined.

Lemma nested_needs_accept_witness :
  run ActionDecline = ["tool_start"; "tool_end"] /\
  exists out s' evs, invoke (env := env) quote text (answers ActionDecline) [70%positive] 1 "parent" "tool" (Some "{}") (Toy.state []) =
      (Ok out, s') /\ log s' = log (Toy.state []) ++ evs /\ forall di, EvToolDispatch di ∉ evs.
Proof.
  split; [vm_compute; reflexivity|].
  apply nested_needs_accept.
  - intros elicit [= <-] c q. by apply emits_ret.
  - intros job h. by split_and!.
  - done.
  - intros before h i [= <-]. by exists deferral.
Defined.

End InvocationToy.
