(* ===== verification/Agent.v ===== *)
(** * Agent: the state an agent keeps and the sections of its operations that run
    under its lock ([agent.go], and what [control.go], [persons.go], [reasoning.go] and
    [quarantine.go] hold of the agent).

    Every operation of an agent is made of steps taken with [a.mu] held; each is a
    function here of the whole [Agent] to the next, so that an execution of several
    goroutines is a sequence of them. A channel is what a waiter sees of it: whether
    [steered] and [idle] are closed, and how often [progress] was replaced. A
    subscriber is the number it was registered under. The configuration is a value of
    a type [C] the agent never looks into. *)

From S2P Require Export Answers.

(** [queuedItem]. *)
Record queuedItem := { q_item : input; q_mode : InputMode; q_trigger : Trigger }.

(** [Agent]. [lastEnd] holds the run_end and which of the agent's ends it is, by which
    two are told apart; [cancelled] is the cause the run's context was cancelled with;
    [events] says that the context events are delivered under is set. *)
Record Agent (C : Type) := MkAgent {
  a_cfg : C;
  a_transcript : Transcript;
  a_subs : list nat;
  a_nextSub : nat;
  a_steer : list queuedItem;
  a_followUp : list queuedItem;
  a_running : bool;
  a_runEnded : bool;
  a_quarantineOwed : list QuarantineAdded;
  a_held : bool;
  a_closing : bool;
  a_drains : nat;
  a_seen : nat;
  a_progress : nat;
  a_lastEnd : option (nat * RunEnd);
  a_ends : nat;
  a_aborts : nat;
  a_abortCause : option error;
  a_queued : list Queued;
  a_queuedOutside : nat;
  a_events : bool;
  a_queuedErr : option error;
  a_steered : bool;
  a_runID : string;
  a_turn : Z;
  a_cancel : bool;
  a_cancelled : option error;
  a_idle : bool;
  a_pending : list PendingCall;
  a_notes : list Note;
  a_seeded : list PendingCall;
  a_reserved : gset string;
  a_reasoning : ReasoningModels;
  a_persons : PersonMessages;
}.
Arguments a_cfg {C}. Arguments a_transcript {C}. Arguments a_subs {C}. Arguments a_nextSub {C}. Arguments a_steer {C}.
Arguments a_followUp {C}. Arguments a_running {C}. Arguments a_runEnded {C}. Arguments a_quarantineOwed {C}.
Arguments a_held {C}. Arguments a_closing {C}. Arguments a_drains {C}. Arguments a_seen {C}. Arguments a_progress {C}.
Arguments a_lastEnd {C}. Arguments a_ends {C}. Arguments a_aborts {C}. Arguments a_abortCause {C}. Arguments a_queued {C}.
Arguments a_queuedOutside {C}. Arguments a_events {C}. Arguments a_queuedErr {C}. Arguments a_steered {C}.
Arguments a_runID {C}. Arguments a_turn {C}. Arguments a_cancel {C}. Arguments a_cancelled {C}. Arguments a_idle {C}.
Arguments a_pending {C}. Arguments a_notes {C}. Arguments a_seeded {C}. Arguments a_reserved {C}.
Arguments a_reasoning {C}. Arguments a_persons {C}.
#[export] Instance eta_Agent {C} : Eta (Agent C) := fun a =>
  MkAgent C (a_cfg a) (a_transcript a) (a_subs a) (a_nextSub a) (a_steer a) (a_followUp a) (a_running a) (a_runEnded a)
    (a_quarantineOwed a) (a_held a) (a_closing a) (a_drains a) (a_seen a) (a_progress a) (a_lastEnd a) (a_ends a)
    (a_aborts a) (a_abortCause a) (a_queued a) (a_queuedOutside a) (a_events a) (a_queuedErr a) (a_steered a) (a_runID a)
    (a_turn a) (a_cancel a) (a_cancelled a) (a_idle a) (a_pending a) (a_notes a) (a_seeded a) (a_reserved a)
    (a_reasoning a) (a_persons a).

(** What an agent reads of a context: the trigger on it, the run of the agent it
    belongs to, whether the agent handed it to a subscriber, and what a host or an
    outer run put on it: what that run quarantined, reasoning and person messages it
    knows of, and reserved call IDs. *)
Record Ctx := { cx_trigger : Trigger; cx_inRun : option string; cx_subscriber : bool; cx_quarantined : Items;
  cx_reasoning : ReasoningModels; cx_persons : PersonMessages; cx_reserved : gset string }.

Section Agent.
Context {C : Type}.
Implicit Types a : Agent C.

(** ** Building an agent *)

(** An [Option]. *)
Inductive Option :=
| WithTranscript (t : Transcript)
| WithPending (pending : list PendingCall)
| WithReservedCallIDs (ids : list string)
| WithNotes (notes : list Note)
| WithReasoningModels (m : ReasoningModels)
| WithPersonMessages (m : PersonMessages).

(** [reserve]. *)
Definition reserve (ids : list string) a : Agent C := a <| a_reserved ::= fun s => list_to_set ids ∪ s |>.

Definition applyOption (o : Option) a : Agent C :=
  match o with
  | WithTranscript t =>
      a <| a_transcript := t |> <| a_pending := pendingCalls (unansweredCalls t) PendingUnknown |>
  | WithPending pending => a <| a_seeded := pending |>
  | WithReservedCallIDs ids => reserve ids a
  | WithNotes notes => a <| a_notes := liveNotes notes |>
  | WithReasoningModels m => a <| a_reasoning ::= fun r => Reasoning.merged r m |>
  | WithPersonMessages m => a <| a_persons ::= fun p => Persons.merged p m |>
  end.

(** [seedPending]. *)
Definition seedPending a : Agent C := a <| a_pending ::= fun p => mergePending p (a_seeded a) |> <| a_seeded := [] |>.

(** The agent [New] starts from: idle, with its channels made. *)
Definition newAgent (cfg : C) : Agent C := {|
  a_cfg := cfg; a_transcript := []; a_subs := []; a_nextSub := 0; a_steer := []; a_followUp := []; a_running := false;
  a_runEnded := false; a_quarantineOwed := []; a_held := false; a_closing := false; a_drains := 0; a_seen := 0;
  a_progress := 0; a_lastEnd := None; a_ends := 0; a_aborts := 0; a_abortCause := None; a_queued := [];
  a_queuedOutside := 0; a_events := false; a_queuedErr := None; a_steered := false; a_runID := ""; a_turn := 0;
  a_cancel := false; a_cancelled := None; a_idle := true; a_pending := []; a_notes := []; a_seeded := [];
  a_reserved := ∅; a_reasoning := ∅; a_persons := ∅ |}.

(** [New]. *)
Definition New (cfg : C) (opts : list Option) : Agent C :=
  seedPending (foldl (fun a o => applyOption o a) (newAgent cfg) opts).

(** ** What is refused while a run is active *)

Definition whenIdle (f : Agent C -> Agent C) a : option error * Agent C :=
  if a_running a then (Some (Sentinel ErrRunning), a) else (None, f a).

Definition SetConfig (cfg : C) : Agent C -> option error * Agent C := whenIdle (fun a => a <| a_cfg := cfg |>).

(** The call IDs [SetTranscript] reserves. *)
Definition transcriptCallIDs (t : Transcript) : list string :=
  filter (fun id => id <> "") (map (fun c => callID c) (calls t)).

Definition SetTranscript (t : Transcript) : Agent C -> option error * Agent C := whenIdle (fun a =>
  (reserve (transcriptCallIDs (a_transcript a)) a)
    <| a_transcript := t |>
    <| a_reasoning ::= fun m => Reasoning.retain m t |>
    <| a_persons ::= fun m => Persons.retain m t |>
    <| a_pending := keepNotes (mergePending (pendingCalls (unansweredCalls t) PendingUnknown) (a_pending a)) (a_pending a) |>
    <| a_notes ::= fun notes => keepOwed notes t |>).

Definition SetPending (pending : list PendingCall) : Agent C -> option error * Agent C :=
  whenIdle (fun a => a <| a_pending ::= fun p => mergePending p pending |>).

Definition ReserveCallIDs (ids : list string) : Agent C -> option error * Agent C := whenIdle (reserve ids).

Definition SetReasoningModels (m : ReasoningModels) : Agent C -> option error * Agent C :=
  whenIdle (fun a => a <| a_reasoning ::= fun r => Reasoning.merged r m |>).

Definition SetPersonMessages (m : PersonMessages) : Agent C -> option error * Agent C :=
  whenIdle (fun a => a <| a_persons ::= fun p => Persons.merged p m |>).

Definition SetNotes (notes : list Note) : Agent C -> option error * Agent C :=
  whenIdle (fun a => a <| a_notes := liveNotes notes |>).

(** [WhileIdle]: the hold before its function, and the release after. *)
Definition hold_ a : option error * Agent C :=
  if a_running a || a_held a then (Some (Sentinel ErrRunning), a) else (None, a <| a_held := true |>).
Definition release a : Agent C := a <| a_held := false |>.

(** ** Reading it *)

(** [queuedItems] and [inputsOf]. *)
Definition queuedItems (q : list queuedItem) : list input := map q_item q.
Definition inputsOf (q : list queuedItem) : list TurnInput :=
  map (fun e => {| ti_Item := q_item e; ti_Mode := q_mode e; ti_Trigger := q_trigger e |}) q.

(** [State]. *)
Record AgentState := { as_Transcript : Transcript; as_Running : bool; as_RunID : string; as_Turn : Z; as_Steering : nat;
  as_FollowUps : nat; as_Steered : list input; as_Queued : list input; as_Pending : list PendingCall; as_Held : bool;
  as_Notes : list Note }.
Definition State a : AgentState := {|
  as_Transcript := a_transcript a; as_Running := a_running a; as_RunID := a_runID a; as_Turn := a_turn a;
  as_Steering := length (a_steer a); as_FollowUps := length (a_followUp a); as_Steered := queuedItems (a_steer a);
  as_Queued := queuedItems (a_followUp a); as_Pending := a_pending a; as_Held := a_held a; as_Notes := a_notes a |}.

(** What a run on the agent begins from: its transcript and what is steered. *)
Definition ahead a : Transcript := a_transcript a ++ unhideAll (queuedItems (a_steer a)).

(** The check of [Continue]. *)
Definition continueCheck a : option error :=
  if negb (bool_decide (a_pending a = [])) then Some (Sentinel ErrInputRequired)
  else if CanContinue (ahead a) then None else Some (Sentinel ErrCannotContinue).

(** ** The queues *)

(** [signal]: whatever waits on [progress] is woken. *)
Definition signal a : Agent C := a <| a_progress ::= S |>.

(** One item of [queue]. *)
Definition queueOne (trigger : Trigger) (mode : QueueMode) (how : InputMode) (outside : bool) a (i : input) : Agent C :=
  if inputNil i then a
  else
    let '(base, hidden, copied) := marks i in
    let prov := provenance i in
    let itemTrigger := match prov with
      | Some p => if TriggerIsZero (PSource p) then trigger else PSource p
      | None => trigger
      end in
    let entry := {| q_item := i; q_mode := how; q_trigger := itemTrigger |} in
    let runID := if a_running a && negb (a_closing a) then a_runID a else "" in
    let report := {| qd_RunID := runID; qd_Item := base; qd_Mode := mode; qd_Input := how; qd_Hidden := hidden;
      qd_Copied := copied; qd_Trigger := itemTrigger; qd_Provenance := prov |} in
    let a := match mode with
      | QueueSteer => a <| a_steer ::= fun l => l ++ [entry] |> <| a_steered := true |>
      | QueueFollowUp => a <| a_followUp ::= fun l => l ++ [entry] |>
      end in
    a <| a_queued ::= fun l => l ++ [report] |> <| a_queuedOutside ::= fun n => if outside then S n else n |>.

(** [queue]. *)
Definition queue (trigger : Trigger) (mode : QueueMode) (how : InputMode) (outside : bool) (items : list input) a : Agent C :=
  foldl (queueOne trigger mode how outside) a items.

(** [enqueue], without the report it asks for. *)
Definition enqueue (cx : Ctx) (mode : QueueMode) (outside : bool) (items : list input) a : option error * Agent C :=
  match Validate (cx_trigger cx) with
  | Some e => (Some e, a)
  | None => (None, queue (cx_trigger cx) mode (match mode with QueueSteer => InputSteer | QueueFollowUp => InputFollowUp end)
                     outside items a)
  end.

(** A context that says nothing. *)
Definition Background : Ctx := {| cx_trigger := noTrigger; cx_inRun := None; cx_subscriber := false; cx_quarantined := [];
  cx_reasoning := ∅; cx_persons := ∅; cx_reserved := ∅ |}.

Definition outsider (cx : Ctx) : bool := negb (cx_subscriber cx).

(** [Steer], [FollowUp], [Queue] and [Redeliver]. *)
Definition Steer (items : list input) a : Agent C := (enqueue Background QueueSteer false items a).2.
Definition FollowUp (items : list input) a : Agent C := (enqueue Background QueueFollowUp false items a).2.
Definition Queue (cx : Ctx) (mode : QueueMode) (items : list input) a : option error * Agent C :=
  enqueue cx mode (outsider cx) items a.
Definition Redeliver (cx : Ctx) (items : list input) a : option error * Agent C :=
  match Validate (cx_trigger cx) with
  | Some e => (Some e, a)
  | None => (None, queue (cx_trigger cx) QueueSteer InputDeliver (outsider cx) items a)
  end.

(** [takeSteer], [drainSteer], [drainFollowUp] and [drainLast]. *)
Definition takeSteer a : list TurnInput * Agent C :=
  (inputsOf (a_steer a),
   match a_steer a with
   | [] => a
   | _ => a <| a_steer := [] |> <| a_steered := false |> <| a_drains ::= S |>
   end).
Definition drainSteer a : list TurnInput * Agent C := takeSteer a.
Definition drainFollowUp a : list TurnInput * Agent C := (inputsOf (a_followUp a), a <| a_followUp := [] |>).
Definition drainBoth a : list TurnInput * Agent C :=
  let '(steered, a') := takeSteer a in
  let items := steered ++ inputsOf (a_followUp a') in
  let a' := a' <| a_followUp := [] |> in
  (items, match items with [] => signal (a' <| a_closing := true |>) | _ => a' end).

(** [close]: whether an item is still queued. *)
Definition close a : bool * Agent C :=
  (negb (bool_decide (a_steer a = [])) || negb (bool_decide (a_followUp a = [])),
   if a_closing a then a else signal (a <| a_closing := true |>)).

(** ** Aborting *)

(** [AbortCause], [Canceled] for nil: the first cancellation of a context stands. *)
Definition AbortCause (cause : option error) a : Agent C :=
  let cause := default (Sentinel Canceled) cause in
  let a := a <| a_aborts ::= S |> <| a_abortCause := Some cause |> in
  if a_cancel a then a <| a_cancelled ::= fun c => match c with Some c => Some c | None => Some cause end |> else a.
Definition Abort : Agent C -> Agent C := AbortCause None.

(** ** Subscribing *)
Definition Subscribe a : nat * Agent C :=
  (a_nextSub a, a <| a_nextSub ::= S |> <| a_subs ::= fun l => l ++ [a_nextSub a] |>).
Definition unsubscribe (id : nat) a : Agent C := a <| a_subs ::= filter (fun s => s <> id) |>.

(** ** Events *)

(** What [dispatch] does to the state before it calls the subscribers, the event as
    they are given it: a run_end carries the agent's quarantine, [q]. *)
Definition record (q : Items) (ev : event) a : event * Agent C :=
  match ev with
  | EvRunStart e => (ev, a <| a_runID := rs_RunID e |> <| a_runEnded := false |>)
  | EvTurnStart e => (ev, a <| a_turn := ts_Turn e |>)
  | EvItemEnd e => (ev, a <| a_transcript ::= fun t => t ++ [ie_Item e] |>)
  | EvRunEnd e =>
      let e := match q with
        | [] => e
        | _ => {| re_ID := re_ID e; re_Items := re_Items e; re_Reason := re_Reason e; re_Cause := re_Cause e;
                  re_Err := re_Err e; re_Failure := re_Failure e; re_Pending := re_Pending e; re_Notes := re_Notes e;
                  re_Quarantined := q; re_WithheldMsg := re_WithheldMsg e |}
        end in
      (EvRunEnd e, a <| a_pending := re_Pending e |> <| a_notes := re_Notes e |>
        <| a_lastEnd := Some (a_ends a, e) |> <| a_ends ::= S |> <| a_runEnded := true |>)
  | _ => (ev, a)
  end.

(** What [dispatch] does after the subscribers of a turn_start have returned. *)
Definition sawTurnStart a : Agent C := signal (a <| a_seen := a_drains a |>).

(** [drainQueued] takes the reports owed. *)
Definition takeQueued a : list Queued * Agent C := (a_queued a, a <| a_queued := [] |> <| a_queuedOutside := 0%nat |>).

(** [queuedOwed]. *)
Definition queuedOwed a : bool :=
  a_running a && negb (a_runEnded a) && negb (bool_decide (a_queued a = [])) && bool_decide (a_queuedErr a = None) &&
  a_events a.

(** [flushQueued] keeps a subscriber's error for the run's next event, which takes it. *)
Definition failQueued (e : error) a : Agent C := a <| a_queuedErr := Some e |>.
Definition takeQueuedErr a : option error * Agent C := (a_queuedErr a, a <| a_queuedErr := None |>).

(** [flushQuarantine] takes the events owed. *)
Definition takeQuarantineOwed a : list QuarantineAdded * Agent C := (a_quarantineOwed a, a <| a_quarantineOwed := [] |>).

(** [Agent.Quarantine] under the lock, given the quarantine: what it holds next, and
    whether an event is owed. *)
Definition QuarantineItems (items : Items) (q : quarantine) a : (bool + error) * quarantine * Agent C :=
  match add q items with
  | (_, Some e) => (inr e, q, a)
  | (q', None) =>
      let report := negb (generation q' =? generation q) && (negb (a_running a) || a_runEnded a) in
      (inl report, q',
       if report
       then a <| a_quarantineOwed ::= fun l =>
              l ++ [{| qa_Items := filter (fun i => isNil i = false) items; qa_Quarantined := list_ q' |}] |>
       else a)
  end.

(** ** Runs *)

(** What [start] hands the run. *)
Record handed := { sd_transcript : Transcript; sd_prior : list PendingCall; sd_notes : list Note }.

(** The agent as a run starts on it: running, its pending calls and its notes handed to
    the run, under a new ID and a context not cancelled. *)
Definition begun (id : string) a : Agent C := {|
  a_cfg := a_cfg a; a_transcript := a_transcript a; a_subs := a_subs a; a_nextSub := a_nextSub a; a_steer :=
  a_steer a; a_followUp := a_followUp a; a_running := true; a_runEnded := a_runEnded a; a_quarantineOwed :=
  a_quarantineOwed a; a_held := a_held a; a_closing := false; a_drains := a_drains a; a_seen := a_seen a;
  a_progress := a_progress a; a_lastEnd := a_lastEnd a; a_ends := a_ends a; a_aborts := a_aborts a; a_abortCause
  := a_abortCause a; a_queued := a_queued a; a_queuedOutside := a_queuedOutside a; a_events := true; a_queuedErr
  := None; a_steered := a_steered a; a_runID := id; a_turn := 0; a_cancel := true; a_cancelled := None; a_idle
  := false; a_pending := []; a_notes := []; a_seeded := a_seeded a; a_reserved := a_reserved a; a_reasoning :=
  a_reasoning a; a_persons := a_persons a |}.

(** [start], given what [Config.validate] says and the ID the run is given. *)
Definition start (valid : option error) (cx : Ctx) (prompts : list input) (resuming : bool) (newID : string) a
    : (handed + error) * Agent C :=
  match valid with
  | Some e => (inr e, a)
  | None =>
      if a_running a || a_held a then (inr (Sentinel ErrRunning), a)
      else match Validate (cx_trigger cx) with
      | Some e => (inr e, a)
      | None =>
          match (if negb (bool_decide (a_pending a = [])) && negb resuming
                 then answersPending (a_pending a) prompts else None) with
          | Some e => (inr e, a)
          | None =>
              (inl {| sd_transcript := a_transcript a; sd_prior := a_pending a;
                 sd_notes := a_notes a ++ (a_pending a ≫= p_Notes) |},
               begun newID a)
          end
      end
  end.

(** What the run's goroutine does once the run has ended. *)
Definition finishRun (m : ReasoningModels) (p : PersonMessages) a : Agent C := {|
  a_cfg := a_cfg a; a_transcript := a_transcript a; a_subs := a_subs a; a_nextSub := a_nextSub a; a_steer :=
  a_steer a; a_followUp := a_followUp a; a_running := false; a_runEnded := a_runEnded a; a_quarantineOwed :=
  a_quarantineOwed a; a_held := a_held a; a_closing := false; a_drains := a_drains a; a_seen := a_seen a;
  a_progress := S (a_progress a); a_lastEnd := a_lastEnd a; a_ends := a_ends a; a_aborts := a_aborts a; a_abortCause
  := a_abortCause a; a_queued := a_queued a; a_queuedOutside := a_queuedOutside a; a_events := a_events a; a_queuedErr
  := a_queuedErr a; a_steered := a_steered a; a_runID := a_runID a; a_turn := a_turn a; a_cancel := false; a_cancelled :=
  a_cancelled a; a_idle := true; a_pending := a_pending a; a_notes := a_notes a; a_seeded := a_seeded a; a_reserved :=
  a_reserved a; a_reasoning := Reasoning.retain m (a_transcript a); a_persons := Persons.retain p (a_transcript a) |}.

(** ** Deliveries *)

(** [deliveryMark] and [deliveryOutcome]. *)
Record deliveryMark := { dm_drains : nat; dm_end : option nat; dm_aborts : nat }.
Record deliveryOutcome := { do_joined : bool; do_end : option RunEnd; do_err : option error }.

(** [ErrHeld]. *)
Definition ErrHeld : error := Wrap "it is held idle" (Sentinel ErrRunning).

(** [acceptDelivery]. *)
Definition acceptDelivery (cx : Ctx) (items : list input) a
    : (deliveryMark * option deliveryOutcome + error) * Agent C :=
  match Validate (cx_trigger cx) with
  | Some e => (inr e, a)
  | None =>
      if a_held a then (inr ErrHeld, a)
      else
        let mark := {| dm_drains := a_drains a; dm_end := fst <$> a_lastEnd a; dm_aborts := a_aborts a |} in
        let a' := queue (cx_trigger cx) QueueSteer InputDeliver (outsider cx) items a in
        if (length (a_steer a') =? length (a_steer a))%nat then (inr (Sentinel ErrNoPrompt), a')
        else if a_running a' && bool_decide (cx_inRun cx = Some (a_runID a'))
        then
          if a_closing a'
          then (inl (mark, Some {| do_joined := false; do_end := None; do_err := Some (Sentinel ErrRunning) |}), a')
          else (inl (mark, Some {| do_joined := true; do_end := None; do_err := None |}), a')
        else (inl (mark, None), a')
  end.

(** [aborted]. *)
Definition aborted (cause : option error) : error := Join (Sentinel ErrAborted) (default (Sentinel Canceled) cause).

(** What [settleDelivery] does when it looks: waits, is done, or starts a run. *)
Inductive settlement := SettleWait | Settled (o : deliveryOutcome) | SettleStart.

Definition settled (joined : bool) (e : option RunEnd) (err : option error) : settlement :=
  Settled {| do_joined := joined; do_end := e; do_err := err |}.

Definition settlementOf (mark : deliveryMark) a : settlement :=
  if (dm_drains mark <? a_seen a)%nat then settled true None None
  else if a_running a then SettleWait
  else if negb (a_drains a =? dm_drains mark)%nat
  then match a_lastEnd a with
       | Some (_, e) => settled false (Some e) (if bool_decide (re_Reason e = ReasonError) then re_Err e else None)
       | None => settled false None None
       end
  else
    let rest :=
      if negb (a_aborts a =? dm_aborts mark)%nat then settled false None (Some (aborted (a_abortCause a)))
      else if negb (bool_decide (a_pending a = [])) then settled false None (Some (Sentinel ErrInputRequired))
      else
        let tail := if CanContinue (ahead a) then SettleStart else settled false None (Some (Sentinel ErrCannotContinue)) in
        match a_lastEnd a with
        | Some (_, e) =>
            if bool_decide (re_Reason e = ReasonStopped) &&
               (bool_decide (re_Cause e = StopTerminate) || bool_decide (re_Cause e = StopPartialTerminate))
            then settled false (Some e) (Some (Sentinel ErrTerminated))
            else tail
        | None => tail
        end in
    match a_lastEnd a with
    | Some (n, e) =>
        if negb (bool_decide (dm_end mark = Some n)) && bool_decide (re_Reason e = ReasonAborted)
        then settled false (Some e) (Some (aborted (re_Err e)))
        else rest
    | None => rest
    end.

End Agent.
