(* ===== verification/Interleave.v ===== *)
(** * Interleave: an agent under its lock, as several goroutines use it.

    [agentStep] is one section of [Agent.v] taken with the lock held: a run's own, a host's
    or a subscriber's, or the report of what was queued. An execution is any sequence
    of them, and its trace says what went into the queues, what came out, and when a
    turn_start was delivered: so what holds of every execution holds however the
    goroutines are scheduled. *)

From S2P Require Import Toy.
From S2P Require Export Agent.

Section Interleave.
Context {C : Type}.
Implicit Types a : Agent C.

(** What was put into the queues, what a run's drains gave it, of the last one how many
    steers waited, and that a request went out. *)
Inductive lab :=
| LSteer (l : list queuedItem) | LFollow (l : list queuedItem)
| LTookSteer (l : list TurnInput) | LTookFollow (l : list TurnInput) | LTookLast (n : nat) (l : list TurnInput)
| LTurnStart.

Definition steeredIn (x : lab) : list TurnInput := match x with LSteer l => inputsOf l | _ => [] end.
Definition steeredOut (x : lab) : list TurnInput := match x with LTookSteer l => l | LTookLast n l => take n l | _ => [] end.
Definition followedIn (x : lab) : list TurnInput := match x with LFollow l => inputsOf l | _ => [] end.
Definition followedOut (x : lab) : list TurnInput := match x with LTookFollow l => l | LTookLast n l => drop n l | _ => [] end.

Lemma inputsOf_app l l' : inputsOf (l ++ l') = inputsOf l ++ inputsOf l'.
Proof. apply map_app. Qed.
Lemma inputsOf_inj l l' : inputsOf l = inputsOf l' -> l = l'.
Proof.
  revert l'. induction l as [|[] l IH]; intros [|[] l']; cbn; try done. intros [= -> -> -> H]. f_equal. by apply IH.
Qed.

(** The entries [queue] makes of items. *)
Definition entryOf (trigger : Trigger) (how : InputMode) (i : input) : option queuedItem :=
  if inputNil i then None
  else Some {| q_item := i; q_mode := how;
    q_trigger := match provenance i with Some p => if TriggerIsZero (PSource p) then trigger else PSource p | None => trigger end |}.
Definition entries (trigger : Trigger) (how : InputMode) (items : list input) : list queuedItem := omap (entryOf trigger how) items.

(** The sections of a host, of a subscriber, or of anything else that holds the agent. *)
Inductive hostStep : Agent C -> list lab -> Agent C -> Prop :=
| H_SetConfig cfg a : hostStep a [] (SetConfig cfg a).2
| H_SetTranscript t a : hostStep a [] (SetTranscript t a).2
| H_SetPending ps a : hostStep a [] (SetPending ps a).2
| H_ReserveCallIDs ids a : hostStep a [] (ReserveCallIDs ids a).2
| H_SetReasoningModels m a : hostStep a [] (SetReasoningModels m a).2
| H_SetPersonMessages m a : hostStep a [] (SetPersonMessages m a).2
| H_SetNotes ns a : hostStep a [] (SetNotes ns a).2
| H_hold a : hostStep a [] (hold_ a).2
| H_release a : hostStep a [] (release a)
| H_steer cx how outside items a :
    hostStep a [LSteer (entries (cx_trigger cx) how items)] (queue (cx_trigger cx) QueueSteer how outside items a)
| H_followUp cx how outside items a :
    hostStep a [LFollow (entries (cx_trigger cx) how items)] (queue (cx_trigger cx) QueueFollowUp how outside items a)
| H_AbortCause cause a : hostStep a [] (AbortCause cause a)
| H_Subscribe a : hostStep a [] (Subscribe a).2
| H_unsubscribe id a : hostStep a [] (unsubscribe id a)
| H_Quarantine items q a : hostStep a [] (QuarantineItems items q a).2.

(** The sections of the goroutine that reports what was queued. *)
Inductive reportStep : Agent C -> Agent C -> Prop :=
| R_takeQueued a : reportStep a (takeQueued a).2
| R_takeQuarantineOwed a : reportStep a (takeQuarantineOwed a).2
| R_failQueued e a : reportStep a (failQueued e a).

(** The sections of a run's goroutine, taken between its start and its end. *)
Inductive runStep : Agent C -> list lab -> Agent C -> Prop :=
| S_record q ev a : runStep a [] (record q ev a).2
| S_sawTurnStart a : runStep a [LTurnStart] (sawTurnStart a)
| S_takeQueuedErr a : runStep a [] (takeQueuedErr a).2
| S_drainSteer a : runStep a [LTookSteer (drainSteer a).1] (drainSteer a).2
| S_drainFollowUp a : runStep a [LTookFollow (drainFollowUp a).1] (drainFollowUp a).2
| S_drainBoth a : runStep a [LTookLast (length (a_steer a)) (drainBoth a).1] (drainBoth a).2
| S_close a : runStep a [] (close a).2
| S_finish m p a : runStep a [] (finishRun m p a).

Inductive agentStep : Agent C -> list lab -> Agent C -> Prop :=
| I_host a l a' : hostStep a l a' -> agentStep a l a'
| I_report a a' : reportStep a a' -> agentStep a [] a'
| I_start valid cx prompts resuming id a sd a' : start valid cx prompts resuming id a = (inl sd, a') -> agentStep a [] a'
| I_run a l a' : a_running a = true -> runStep a l a' -> agentStep a l a'.

(** An execution and its trace. *)
Inductive agentSteps : Agent C -> list lab -> Agent C -> Prop :=
| agentSteps_nil a : agentSteps a [] a
| agentSteps_snoc a l a' l' a'' : agentSteps a l a' -> agentStep a' l' a'' -> agentSteps a (l ++ l') a''.

Lemma agentSteps_trans a l a' l' a'' : agentSteps a l a' -> agentSteps a' l' a'' -> agentSteps a (l ++ l') a''.
Proof.
  intros H1 H2. induction H2; [by rewrite app_nil_r|]. rewrite app_assoc. econstructor; eauto.
Qed.

(** ** What each section changes *)

(** Queueing changes the queues and what is owed of them. *)
Definition requeued a a' : Prop :=
  a' = {|
    a_cfg := a_cfg a; a_transcript := a_transcript a; a_subs := a_subs a; a_nextSub := a_nextSub a; a_steer :=
    a_steer a'; a_followUp := a_followUp a'; a_running := a_running a; a_runEnded := a_runEnded a; a_quarantineOwed :=
    a_quarantineOwed a; a_held := a_held a; a_closing := a_closing a; a_drains := a_drains a; a_seen := a_seen a;
    a_progress := a_progress a; a_lastEnd := a_lastEnd a; a_ends := a_ends a; a_aborts := a_aborts a; a_abortCause
    := a_abortCause a; a_queued := a_queued a'; a_queuedOutside := a_queuedOutside a'; a_events := a_events a; a_queuedErr
    := a_queuedErr a; a_steered := a_steered a'; a_runID := a_runID a; a_turn := a_turn a; a_cancel := a_cancel a;
    a_cancelled := a_cancelled a; a_idle := a_idle a; a_pending := a_pending a; a_notes := a_notes a; a_seeded :=
    a_seeded a; a_reserved := a_reserved a; a_reasoning := a_reasoning a; a_persons := a_persons a |}.

Lemma queue_requeued trigger mode how outside items a : requeued a (queue trigger mode how outside items a).
Proof.
  unfold queue. revert a. induction items as [|i items IH]; intros a; cbn [foldl]; [by destruct a|].
  specialize (IH (queueOne trigger mode how outside a i)). revert IH. unfold requeued.
  generalize (foldl (queueOne trigger mode how outside) (queueOne trigger mode how outside a i) items). intros b ->.
  unfold queueOne. destruct (inputNil i); [by destruct a|]. destruct (marks i) as [[? ?] ?]. destruct mode; by destruct a.
Qed.

Lemma queue_queues trigger mode how outside items a :
  a_steer (queue trigger mode how outside items a) =
    a_steer a ++ (match mode with QueueSteer => entries trigger how items | QueueFollowUp => [] end) /\
  a_followUp (queue trigger mode how outside items a) =
    a_followUp a ++ (match mode with QueueSteer => [] | QueueFollowUp => entries trigger how items end) /\
  length (a_queued (queue trigger mode how outside items a)) = (length (a_queued a) + length (entries trigger how items))%nat /\
  (a_queuedOutside (queue trigger mode how outside items a) <= a_queuedOutside a + length (entries trigger how items))%nat /\
  a_steered (queue trigger mode how outside items a) =
    a_steered a || match mode with QueueSteer => negb (bool_decide (entries trigger how items = [])) | QueueFollowUp => false end.
Proof.
  unfold queue, entries. revert a. induction items as [|i items IH]; intros a; cbn [foldl omap list_omap].
  { destruct mode; cbn; rewrite !app_nil_r, orb_false_r; split_and!; (done || lia). }
  destruct (IH (queueOne trigger mode how outside a i)) as (H1 & H2 & H3 & H4 & H5). rewrite H1, H2, H3, H5.
  revert H4. unfold queueOne, entryOf. destruct (inputNil i); [by rewrite !Nat.add_0_r || done|].
  destruct (marks i) as [[base hid] cop]. destruct mode; upd; cbn [length]; rewrite <- ?app_assoc, ?length_app, ?orb_true_r, ?app_nil_r;
    cbn [length app]; intros H4; split_and!; try done; try (destruct outside; lia).
Qed.

Lemma takeSteer_cases a :
  (a_steer a = [] /\ takeSteer a = ([], a)) \/
  (a_steer a <> [] /\ takeSteer a = (inputsOf (a_steer a), a <| a_steer := [] |> <| a_steered := false |> <| a_drains ::= S |>)).
Proof. unfold takeSteer. destruct (a_steer a) eqn:E; [left|right]; by rewrite ?E. Qed.

Lemma start_ok valid cx prompts resuming id a sd a' :
  start valid cx prompts resuming id a = (inl sd, a') ->
  valid = None /\ a_running a = false /\ a_held a = false /\ Validate (cx_trigger cx) = None /\
  (a_pending a <> [] -> resuming = false -> answersPending (a_pending a) prompts = None) /\
  sd = {| sd_transcript := a_transcript a; sd_prior := a_pending a; sd_notes := a_notes a ++ (a_pending a ≫= p_Notes) |} /\
  a' = begun id a.
Proof.
  unfold start. destruct valid; [done|]. destruct (a_running a); [done|]. destruct (a_held a); [done|]. cbn [orb].
  destruct (Validate _); [done|]. case_bool_decide as Hp; cbn [negb andb].
  - intros [= <- <-]. by split_and!.
  - destruct resuming; cbn [negb]; [intros [= <- <-]; by split_and!|].
    destruct (answersPending _ _) eqn:E; [done|]. intros [= <- <-]. by split_and!.
Qed.

(** The last drain takes both queues, or marks the run past it. *)
Lemma drainBoth_cases a :
  (a_steer a = [] /\ a_followUp a = [] /\ (drainBoth a).2 = signal (a <| a_followUp := [] |> <| a_closing := true |>)) \/
  ((a_steer a <> [] \/ a_followUp a <> []) /\ (drainBoth a).2 = (takeSteer a).2 <| a_followUp := [] |>).
Proof.
  unfold drainBoth. destruct (takeSteer_cases a) as [[E ->]|[E ->]]; upd.
  - cbn [app]. destruct (a_followUp a) eqn:F; [left|right]; cbn; rewrite ?E; split_and!; (done || by right).
  - right. destruct (a_steer a) as [|x l] eqn:F; [done|]. split; [by left|done].
Qed.

Lemma drainBoth_gives a : (drainBoth a).1 = inputsOf (a_steer a) ++ inputsOf (a_followUp a).
Proof. unfold drainBoth. destruct (takeSteer_cases a) as [[E ->]|[E ->]]; cbn [fst]; [by rewrite E|done]. Qed.
Lemma drainSteer_gives a : (drainSteer a).1 = inputsOf (a_steer a).
Proof. done. Qed.
Lemma last_split a : take (length (a_steer a)) (drainBoth a).1 = inputsOf (a_steer a) /\
  drop (length (a_steer a)) (drainBoth a).1 = inputsOf (a_followUp a).
Proof.
  rewrite drainBoth_gives. assert (length (a_steer a) = length (inputsOf (a_steer a))) as -> by (unfold inputsOf; by rewrite length_map).
  by rewrite take_app_length, drop_app_length.
Qed.

(** ** What holds of every agent *)

(** The well-formed states of an agent. *)
Record wf a : Prop := {
  (** the channels and the cancellation follow the run *)
  wf_idle : a_idle a = negb (a_running a);
  wf_cancel : a_cancel a = a_running a;
  wf_closing : a_closing a = true -> a_running a = true;
  (** no run is active while the agent is held *)
  wf_held : a_held a = true -> a_running a = false;
  (** a tool hears a steer exactly while one waits *)
  wf_steered : a_steered a = negb (bool_decide (a_steer a = []));
  (** no request went out after a drain not made *)
  wf_seen : (a_seen a <= a_drains a)%nat;
  wf_outside : (a_queuedOutside a <= length (a_queued a))%nat;
  (** a subscriber is registered once, and under a number of its own *)
  wf_subs : NoDup (a_subs a) /\ forall s, s ∈ a_subs a -> (s < a_nextSub a)%nat;
  wf_lastEnd : forall n e, a_lastEnd a = Some (n, e) -> a_ends a = S n;
}.

Lemma wf_New cfg opts : wf (New cfg opts).
Proof.
  assert (wf (newAgent cfg)) as H0.
  { split; try done; cbn; try lia. split; [constructor|]. by intros s Hs%not_elem_of_nil. }
  unfold New. revert H0. generalize (newAgent cfg). induction opts as [|o opts IH]; intros a Ha; cbn [foldl].
  - by destruct Ha; split.
  - apply IH. destruct Ha, o; by split.
Qed.

Lemma wf_whenIdle f a : wf a -> (forall a, wf a -> wf (f a)) -> wf (whenIdle f a).2.
Proof. intros Ha Hf. unfold whenIdle. destruct (a_running a); [done|by apply Hf]. Qed.

Lemma wf_queue trigger mode how outside items a : wf a -> wf (queue trigger mode how outside items a).
Proof.
  intros []. pose proof (queue_requeued trigger mode how outside items a) as Hq.
  destruct (queue_queues trigger mode how outside items a) as (H1 & H2 & H3 & H4 & H5).
  revert Hq H1 H2 H3 H4 H5. generalize (queue trigger mode how outside items a). intros b Hq H1 H2 H3 H4 H5.
  unfold requeued in Hq. split; rewrite ?H1, ?H3, ?H5; try rewrite Hq; cbn; try done.
  - rewrite wf_steered0. destruct mode; rewrite ?app_nil_r, ?orb_false_r; [|done].
    repeat case_bool_decide; simpl; try done; destruct (a_steer a); naive_solver.
  - lia.
Qed.

Lemma wf_takeSteer a : wf a -> wf (takeSteer a).2.
Proof.
  intros Ha. destruct (takeSteer_cases a) as [[_ ->]|[_ ->]]; cbn [snd]; [done|].
  destruct Ha; split; upd; try done; lia.
Qed.

Lemma wf_hostStep a l a' : hostStep a l a' -> wf a -> wf a'.
Proof.
  destruct 1; intros Ha; try (apply wf_whenIdle; [done|]; by intros b []; split); try by apply wf_queue.
  - unfold hold_. destruct (a_running a) eqn:Er, (a_held a) eqn:Eh; cbn; try done. destruct Ha; split; upd; congruence || done.
  - destruct Ha; by split.
  - unfold AbortCause. destruct (a_cancel _); by destruct Ha; split.
  - unfold Subscribe. cbn [snd]. destruct Ha; split; upd; try done. destruct wf_subs0 as [Hn Hs]. split.
    + apply NoDup_app. split_and!; [done| |apply NoDup_singleton].
      intros s H1 ->%list_elem_of_singleton. specialize (Hs _ H1). lia.
    + intros s [H1| ->%list_elem_of_singleton]%elem_of_app; [specialize (Hs _ H1)|]; lia.
  - destruct Ha; split; upd; try done. destruct wf_subs0 as [Hn Hs]. split; [by apply NoDup_filter|].
    intros s [_ H1]%list_elem_of_filter. by apply Hs.
  - unfold QuarantineItems. destruct (add q items) as [q' [e|]]; [done|]. cbn. destruct (_ && _); [|done]. by destruct Ha; split.
Qed.

Lemma wf_step a l a' : agentStep a l a' -> wf a -> wf a'.
Proof.
  intros [b l' b' Hs|b b' Hs|valid cx prompts resuming id b sd b' Hs|b l' b' Hr Hs] Ha.
  - by eapply wf_hostStep.
  - destruct Hs; by destruct Ha; split; cbn; try lia.
  - apply start_ok in Hs as (_ & Hr & Hh & _ & _ & _ & ->). destruct Ha; split; try done. cbn. congruence.
  - destruct Hs as [q ev b|b|b|b|b|b|b|m p b].
    + destruct ev; try (by destruct Ha; split). destruct Ha; split; try done. upd. intros n e' [= <- _]. done.
    + destruct Ha; split; upd; try done. 
    + by destruct Ha; split.
    + by apply wf_takeSteer.
    + by destruct Ha; split.
    + destruct (drainBoth_cases b) as [(_ & _ & ->)|[_ ->]]; [by destruct Ha; split|].
      by destruct (wf_takeSteer b Ha); split.
    + unfold close. cbn [snd]. destruct (a_closing b); [done|]. by destruct Ha; split.
    + destruct Ha; split; upd; congruence || done.
Qed.

(** C21: however its goroutines are scheduled, an agent built with [New] stays
    well-formed: the channel a waiter for idleness waits on is closed exactly while no
    run is active, an abort has a run to cancel exactly then, a run is past its last
    drain only while it is active, none is active while the agent is held, the channel
    a tool hears a steer on is closed exactly while one waits, no request is counted
    after a drain not made, and each subscriber is registered once. *)
Theorem agent_wf cfg opts l a : agentSteps (New cfg opts) l a -> wf a.
Proof.
  intros Hs. assert (wf (New cfg opts)) as H0 by apply wf_New. revert H0. generalize (New cfg opts) Hs.
  clear. intros a0 Hs. induction Hs; eauto using wf_step.
Qed.

(** ** The queues *)

(** A trace of one section, computed. *)
Ltac trace := cbn [mbind list_bind steeredIn steeredOut followedIn followedOut app fst snd].

(** A section that changes neither the queues nor anything a delivery waits on. *)
Definition apart a a' : Prop :=
  a_steer a' = a_steer a /\ a_followUp a' = a_followUp a /\ a_drains a' = a_drains a /\
  a_seen a' = a_seen a /\ a_progress a' = a_progress a /\ a_running a' = a_running a.

Lemma whenIdle_apart f a : (forall a, apart a (f a)) -> apart a (whenIdle f a).2.
Proof. intros Hf. unfold whenIdle. destruct (a_running a); [done|apply Hf]. Qed.

(** What a host's section does: the queues grow, and nothing a delivery waits on changes. *)
Lemma hostStep_queues a l a' : hostStep a l a' ->
  inputsOf (a_steer a') = inputsOf (a_steer a) ++ (l ≫= steeredIn) /\
  inputsOf (a_followUp a') = inputsOf (a_followUp a) ++ (l ≫= followedIn) /\ l ≫= steeredOut = [] /\ l ≫= followedOut = [] /\ a_drains a' = a_drains a /\ a_seen a' = a_seen a /\
  a_progress a' = a_progress a /\ a_running a' = a_running a.
Proof.
  assert (forall b, requeued a b ->
    a_drains b = a_drains a /\ a_seen b = a_seen a /\ a_progress b = a_progress a /\ a_running b = a_running a) as Hq.
  { intros b ->. by upd. }
  assert (forall b, apart a b ->
    inputsOf (a_steer b) = inputsOf (a_steer a) ++ [] /\ inputsOf (a_followUp b) = inputsOf (a_followUp a) ++ [] /\
    [] = @nil TurnInput /\ [] = @nil TurnInput /\
    a_drains b = a_drains a /\ a_seen b = a_seen a /\ a_progress b = a_progress a /\ a_running b = a_running a) as Ha.
  { intros b (-> & -> & -> & -> & -> & ->). by rewrite !app_nil_r. }
  destruct 1; trace; try (apply Ha, whenIdle_apart; by intros).
  - apply Ha. unfold hold_. by destruct (_ || _).
  - by apply Ha.
  - destruct (queue_queues (cx_trigger cx) QueueSteer how outside items a) as (-> & -> & _). rewrite ?inputsOf_app, ?app_nil_r.
    destruct (Hq _ (queue_requeued (cx_trigger cx) QueueSteer how outside items a)) as (-> & -> & -> & ->). by split_and!.
  - destruct (queue_queues (cx_trigger cx) QueueFollowUp how outside items a) as (-> & -> & _). rewrite ?inputsOf_app, ?app_nil_r.
    destruct (Hq _ (queue_requeued (cx_trigger cx) QueueFollowUp how outside items a)) as (-> & -> & -> & ->). by split_and!.
  - apply Ha. unfold AbortCause. by destruct (a_cancel _).
  - by apply Ha.
  - by apply Ha.
  - apply Ha. unfold QuarantineItems. destruct (add q items) as [q' [e|]]; [done|]. cbn. by destruct (_ && _).
Qed.

(** What comes out of a queue and what is left in it is what was in it and what went in. *)
Lemma step_fifo a l a' : agentStep a l a' ->
  (l ≫= steeredOut) ++ inputsOf (a_steer a') = inputsOf (a_steer a) ++ (l ≫= steeredIn) /\
  (l ≫= followedOut) ++ inputsOf (a_followUp a') = inputsOf (a_followUp a) ++ (l ≫= followedIn).
Proof.
  intros [b l' b' Hs|b b' Hs|valid cx prompts resuming id b sd b' Hs|b l' b' _ Hs].
  - destruct (hostStep_queues _ _ _ Hs) as (-> & -> & -> & -> & _). done.
  - destruct Hs; cbn; by rewrite !app_nil_r.
  - apply start_ok in Hs as (_ & _ & _ & _ & _ & _ & ->). cbn. by rewrite !app_nil_r.
  - destruct Hs as [q ev b|b|b|b|b|b|b|m p b]; trace; rewrite ?app_nil_r; try done.
    + by destruct ev.
    + rewrite drainSteer_gives. unfold drainSteer. destruct (takeSteer_cases b) as [[E ->]|[E ->]]; trace; upd; by rewrite ?E, ?app_nil_r.
    + destruct (last_split b) as [-> ->]. destruct (drainBoth_cases b) as [(E & F & ->)|[_ ->]]; unfold signal; upd; [by rewrite E, F|].
      destruct (takeSteer_cases b) as [[E ->]|[E ->]]; trace; upd; by rewrite ?E, ?app_nil_r.
    + unfold close. destruct (a_closing b); done.
Qed.

(** The queue of steers is taken as a whole, and each time counted. *)
Lemma step_drains a l a' : agentStep a l a' ->
  (a_drains a' = a_drains a /\ l ≫= steeredOut = []) \/ (a_drains a' = S (a_drains a) /\ a_steer a' = []).
Proof.
  intros [b l' b' Hs|b b' Hs|valid cx prompts resuming id b sd b' Hs|b l' b' _ Hs].
  - destruct (hostStep_queues _ _ _ Hs) as (_ & _ & ? & _ & ? & _). by left.
  - destruct Hs; by left.
  - apply start_ok in Hs as (_ & _ & _ & _ & _ & _ & ->). by left.
  - destruct Hs as [q ev b|b|b|b|b|b|b|m p b]; trace; try (by left).
    + left. by destruct ev.
    + unfold drainSteer. destruct (takeSteer_cases b) as [[E ->]|[E ->]]; [left|right]; trace; upd; by rewrite ?E.
    + destruct (drainBoth_cases b) as [(E & F & ->)|[_ ->]]; unfold signal; upd; [left; by rewrite E|].
      destruct (takeSteer_cases b) as [[E ->]|[E ->]]; [left|right]; trace; upd; by rewrite ?E.
    + left. unfold close. by destruct (a_closing b).
Qed.

(** A request is counted as it goes out, a waiter is woken whenever what it waits for
    may have changed. *)
Lemma step_seen a l a' : agentStep a l a' ->
  (a_seen a' = a_seen a \/ (l = [LTurnStart] /\ a_seen a' = a_drains a /\ a_drains a' = a_drains a)) /\
  (a_progress a <= a_progress a')%nat /\
  (a_progress a' = a_progress a -> a_seen a' = a_seen a /\ (a_running a = true -> a_running a' = true)).
Proof.
  intros [b l' b' Hs|b b' Hs|valid cx prompts resuming id b sd b' Hs|b l' b' Hr Hs].
  - destruct (hostStep_queues _ _ _ Hs) as (_ & _ & _ & _ & _ & -> & -> & ->). split; [by left|]. split; [lia|done].
  - destruct Hs; (split; [by left|]; split; [apply le_n|done]).
  - apply start_ok in Hs as (_ & _ & _ & _ & _ & _ & ->). split; [by left|]. split; [apply le_n|done].
  - destruct Hs as [q ev b|b|b|b|b|b|b|m p b].
    + destruct ev; (split; [by left|]; split; [apply le_n|done]).
    + split; [by right|]. unfold sawTurnStart, signal. upd. split; lia.
    + split; [by left|]. split; [apply le_n|done].
    + unfold drainSteer. destruct (takeSteer_cases b) as [[E ->]|[E ->]]; (split; [by left|]; split; [apply le_n|done]).
    + split; [by left|]. split; [apply le_n|done].
    + destruct (drainBoth_cases b) as [(E & F & ->)|[_ ->]]; unfold signal; upd; [split; [by left|]; split; lia|].
      destruct (takeSteer_cases b) as [[E ->]|[E ->]]; (split; [by left|]; split; [apply le_n|done]).
    + unfold close, signal. trace. destruct (a_closing b); upd; (split; [by left|]; split; [lia|done || lia]).
    + split; [by left|]. cbn [finishRun a_progress]. split; lia.
Qed.

(** C20: nothing queued is lost, taken twice or taken out of order: in every execution
    what the drains gave the runs of a queue, followed by what still waits in it, is what
    waited at first followed by what was queued since, in the order it was queued. *)
Theorem queues_fifo a l a' : agentSteps a l a' ->
  (l ≫= steeredOut) ++ inputsOf (a_steer a') = inputsOf (a_steer a) ++ (l ≫= steeredIn) /\
  (l ≫= followedOut) ++ inputsOf (a_followUp a') = inputsOf (a_followUp a) ++ (l ≫= followedIn).
Proof.
  induction 1 as [a|a l a' l' a'' _ [IH1 IH2] Hs]; [by rewrite !app_nil_r|].
  apply step_fifo in Hs as [Hs1 Hs2]. rewrite !bind_app, <- !app_assoc, Hs1, Hs2, !app_assoc, IH1, IH2. done.
Qed.

(** ** Deliveries *)

Lemma acceptDelivery_ok cx items a mark o a' :
  acceptDelivery cx items a = (inl (mark, o), a') ->
  a' = queue (cx_trigger cx) QueueSteer InputDeliver (outsider cx) items a /\ a_held a = false /\
  entries (cx_trigger cx) InputDeliver items <> [] /\
  mark = {| dm_drains := a_drains a; dm_end := fst <$> a_lastEnd a; dm_aborts := a_aborts a |} /\
  match o with
  | None => ~ (a_running a' = true /\ cx_inRun cx = Some (a_runID a'))
  | Some o => a_running a' = true /\ cx_inRun cx = Some (a_runID a') /\
      o = if a_closing a then {| do_joined := false; do_end := None; do_err := Some (Sentinel ErrRunning) |}
          else {| do_joined := true; do_end := None; do_err := None |}
  end.
Proof.
  unfold acceptDelivery. destruct (Validate _); [done|]. destruct (a_held a); [done|].
  destruct (queue_queues (cx_trigger cx) QueueSteer InputDeliver (outsider cx) items a) as (Hs & _).
  pose proof (queue_requeued (cx_trigger cx) QueueSteer InputDeliver (outsider cx) items a) as Hq.
  set (a1 := queue _ _ _ _ _ a) in *. rewrite Hs, length_app.
  assert (a_closing a1 = a_closing a) as Hc by (rewrite Hq; by upd). destruct (Nat.eqb_spec (length (a_steer a) +
    length (entries (cx_trigger cx) InputDeliver items)) (length (a_steer a))) as [|Hne]; [done|].
  assert (entries (cx_trigger cx) InputDeliver items <> []) as He by (intros E; rewrite E in Hne; cbn in Hne; lia).
  destruct (a_running a1) eqn:Er; cbn [andb].
  - case_bool_decide as Hi.
    + rewrite Hc. destruct (a_closing a); intros [= <- <- <-]; by split_and!.
    + intros [= <- <- <-]. split_and!; [done..|]. by intros [_ ?].
  - intros [= <- <- <-]. split_and!; [done..|]. rewrite Er. by intros [? _].
Qed.

(** Where the items of a delivery are: still waiting, or taken, and then whether a
    request went out since. *)
Definition waiting (before es : list queuedItem) (d : nat) (l : list lab) a : Prop :=
  a_drains a = d /\ (a_seen a <= d)%nat /\ exists post, a_steer a = before ++ es ++ post.
Definition took (es : list queuedItem) (l : list lab) : Prop := inputsOf es `prefix_of` (l ≫= steeredOut).
Definition taken (before es : list queuedItem) (d : nat) (l : list lab) a : Prop :=
  (d < a_drains a)%nat /\ took (before ++ es) l /\
  ((a_seen a <= d)%nat \/ exists l1 l2, l = l1 ++ l2 /\ took (before ++ es) l1 /\ LTurnStart ∈ l2).

Lemma inputsOf_split l l1 r : inputsOf l = inputsOf l1 ++ r -> exists l2, l = l1 ++ l2.
Proof.
  intros E. apply fmap_app_inv in E as (k1 & k2 & E & _ & ->). apply inputsOf_inj in E as ->. by exists k2.
Qed.
Lemma took_app es l l' : took es l -> took es (l ++ l').
Proof. unfold took. rewrite bind_app. by apply prefix_app_r. Qed.

Lemma delivery_tracked before es d a l a' :
  a_drains a = d -> (a_seen a <= d)%nat -> a_steer a = before ++ es -> agentSteps a l a' ->
  waiting before es d l a' \/ taken before es d l a'.
Proof.
  intros Hd Hs Hq Hsteps.
  assert (forall l a', agentSteps a l a' ->
    (l ≫= steeredOut) ++ inputsOf (a_steer a') = inputsOf (before ++ es) ++ (l ≫= steeredIn)) as Hfifo.
  { intros l1 a1 H1. rewrite <- Hq. clear -H1. induction H1 as [a|a l a' l' a'' _ IH H]; [by rewrite app_nil_r|].
    apply step_fifo in H as [H _]. by rewrite !bind_app, <- !app_assoc, H, app_assoc, IH, app_assoc. }
  induction Hsteps as [a|a l a1 l' a2 H1 IH H2].
  { left. split_and!; [done..|]. exists []. by rewrite app_nil_r. }
  specialize (IH Hd Hs Hq Hfifo). pose proof (Hfifo _ _ (agentSteps_snoc _ _ _ _ _ H1 H2)) as F2.
  destruct (step_seen _ _ _ H2) as (Hseen & _). destruct (step_drains _ _ _ H2) as [[Hdr Hout]|[Hdr Hempty]].
  - destruct IH as [(Hw & Hw' & post & Hp)|(Ht & Hpre & Hc)].
    + left. split_and!; [by rewrite Hdr|destruct Hseen as [->|(_ & -> & _)]; lia|].
      destruct (step_fifo _ _ _ H2) as [F _]. rewrite Hout, Hp in F. cbn [app] in F.
      apply inputsOf_split in F as [post' ->]. exists (post ++ post'). by rewrite <- !app_assoc.
    + right. split_and!; [lia|by apply took_app|].
      destruct Hseen as [->|(-> & Hs' & _)].
      * destruct Hc as [?|(l1 & l2 & -> & Hp & Hin)]; [by left|right]. exists l1, (l2 ++ l'). rewrite app_assoc.
        split_and!; [done..|]. apply elem_of_app. by left.
      * right. exists l, [LTurnStart]. split_and!; [done..|left].
  - right. assert (took (before ++ es) (l ++ l')) as Hpre.
    { rewrite Hempty in F2. cbn [inputsOf map] in F2. rewrite app_nil_r in F2. unfold took. rewrite F2. by eexists. }
    split; [destruct IH as [[? _]|[? _]]; lia|]. split; [done|].
    destruct Hseen as [->|(-> & Hs' & Hdr')]; [|lia].
    destruct IH as [(_ & ? & _)|(_ & _ & [?|(l1 & l2 & -> & Hp & Hin)])]; [by left..|right].
    exists l1, (l2 ++ l'). rewrite app_assoc. split_and!; [done..|]. apply elem_of_app. by left.
Qed.

(** A delivery's items wait behind what was steered before them; what waits is what any
    next drain gives first, and the last one does not pass over. *)
Definition waits (before es : list queuedItem) a : Prop := exists post, a_steer a = before ++ es ++ post.
Definition nextTaken (es : list queuedItem) a : Prop :=
  inputsOf es `prefix_of` (drainSteer a).1 /\ inputsOf es `prefix_of` (drainBoth a).1 /\ a_closing (drainBoth a).2 = a_closing a.

Lemma waits_next before es a : es <> [] -> waits before es a -> nextTaken (before ++ es) a.
Proof.
  intros He [post Hp]. assert (inputsOf (before ++ es) `prefix_of` inputsOf (a_steer a)) as Hpre.
  { rewrite Hp, app_assoc, (inputsOf_app (before ++ es)). by eexists. }
  split_and!; [done|rewrite drainBoth_gives; by apply prefix_app_r|].
  destruct (drainBoth_cases a) as [(E & _)|[_ ->]].
  - rewrite Hp in E. apply app_eq_nil in E as [_ E]. by apply app_eq_nil in E as [-> _].
  - upd. by destruct (takeSteer_cases a) as [[_ ->]|[_ ->]].
Qed.

(** A request went out after a run took the items. *)
Definition joinedIt (es : list queuedItem) (l : list lab) : Prop :=
  exists l1 l2, l = l1 ++ l2 /\ took es l1 /\ LTurnStart ∈ l2.

(** What a delivery that waits is told, once it looks. *)
Definition toldTruly (before es : list queuedItem) (mark : deliveryMark) (l : list lab) a : Prop :=
  match settlementOf mark a with
  | SettleWait => a_running a = true
  | SettleStart => a_running a = false /\ a_pending a = [] /\ waits before es a
  | Settled o =>
      if do_joined o then joinedIt (before ++ es) l
      else a_running a = false /\
        (waits before es a /\ is_Some (do_err o) \/ took (before ++ es) l /\ do_end o = snd <$> a_lastEnd a)
  end.

Lemma told_truly before es d l (a : Agent C) e n :
  waiting before es d l a \/ taken before es d l a -> toldTruly before es {| dm_drains := d; dm_end := e; dm_aborts := n |} l a.
Proof.
  unfold toldTruly, settlementOf. cbn [dm_drains dm_end dm_aborts]. intros [(Hw & Hw' & Hpost)|(Ht & Hpre & Hc)].
  - rewrite Hw. destruct (Nat.ltb_spec d (a_seen a)); [lia|]. destruct (a_running a); [done|].
    rewrite Nat.eqb_refl. cbn [negb].
    assert (forall e err, match settled false e (Some err) with
      | SettleWait => false = true
      | SettleStart => false = false /\ a_pending a = [] /\ waits before es a
      | Settled o => if do_joined o then joinedIt (before ++ es) l
          else false = false /\ (waits before es a /\ is_Some (do_err o) \/
            took (before ++ es) l /\ do_end o = snd <$> a_lastEnd a)
      end) as Hrefused.
    { intros e0 err. cbn. split; [done|]. left. by split; [|eexists]. }
    destruct (a_lastEnd a) as [[k x]|] eqn:El; cbn [fst snd fmap option_fmap option_map] in *.
    + destruct (negb _ && _); [apply Hrefused|]. destruct (negb (_ =? _)%nat); [apply Hrefused|].
      case_bool_decide as Hp; cbn [negb]; [|apply Hrefused]. destruct (_ && _); [apply Hrefused|].
      destruct (CanContinue _); [by split_and!|apply Hrefused].
    + destruct (negb (_ =? _)%nat); [apply Hrefused|]. case_bool_decide as Hp; cbn [negb]; [|apply Hrefused].
      destruct (CanContinue _); [by split_and!|apply Hrefused].
  - destruct (Nat.ltb_spec d (a_seen a)) as [Hlt|Hge].
    + cbn. destruct Hc as [?|Hc]; [lia|done].
    + destruct (a_running a); [done|]. destruct (Nat.eqb_spec (a_drains a) d); [lia|]. cbn [negb].
      destruct (a_lastEnd a) as [[k x]|]; cbn; (split; [done|]; by right).
Qed.

(** C19: what a delivery is told is true. One that waits, accepted by an agent at any moment
    and settled after any execution, is told that it joined only once a run took its items
    and a request went out after that; a run is started for it only while no run is active
    and its items, and all that was steered before them, still wait; it is refused with an
    error only while they still wait, to be taken by the host's next run; and otherwise a
    run took them, and it gets the last run's end. One made from inside the run in flight,
    which does not wait, is told at once: that it joined exactly when that run has not made
    its last drain. After any execution its items were then taken by a run, behind all that
    was steered before them, or they still wait, and the next drain gives them, the last
    one too, which does not pass over them. *)
Theorem delivery_settled cx items a mark told a1 l a2 :
  wf a -> acceptDelivery cx items a = (inl (mark, told), a1) -> agentSteps a1 l a2 ->
  let before := a_steer a in
  let es := entries (cx_trigger cx) InputDeliver items in
  match told with
  | None => toldTruly before es mark l a2
  | Some o =>
      a_running a1 = true /\ cx_inRun cx = Some (a_runID a1) /\ do_end o = None /\
      (if a_closing a then do_joined o = false /\ do_err o = Some (Sentinel ErrRunning)
       else do_joined o = true /\ do_err o = None) /\
      (took (before ++ es) l \/ waits before es a2 /\ nextTaken (before ++ es) a2)
  end.
Proof.
  intros Hwf Hacc Hsteps before es. apply acceptDelivery_ok in Hacc as (-> & _ & Hes & -> & Htold).
  set (a1 := queue _ _ _ _ _ a) in *.
  assert (a_drains a1 = a_drains a /\ a_seen a1 = a_seen a) as [Hd Hs].
  { pose proof (queue_requeued (cx_trigger cx) QueueSteer InputDeliver (outsider cx) items a) as Hq. fold a1 in Hq.
    unfold requeued in Hq. rewrite Hq. by upd. }
  destruct (queue_queues (cx_trigger cx) QueueSteer InputDeliver (outsider cx) items a) as (Hq & _). fold a1 in Hq.
  pose proof (wf_seen _ Hwf) as Hseen.
  assert (waiting before es (a_drains a) l a2 \/ taken before es (a_drains a) l a2) as Htr
    by (apply (delivery_tracked _ _ _ a1); [done|by rewrite Hs|done|done]).
  destruct told as [o|]; [|by apply told_truly]. destruct Htold as (Hr & Hin & ->). split_and!; [done|done|by destruct (a_closing a)..|].
  destruct Htr as [(_ & _ & Hw)|(_ & Hpre & _)]; [right|by left]. split; [done|]. by apply waits_next.
Qed.

(** C23: a delivery that waits is always woken. No execution makes an end of its wait
    without replacing the channel it waits on; the end of the run in flight is the end
    of its wait at the latest, and a request that goes out once its items were taken
    settles it as joined. *)
Theorem delivery_woken mark a :
  settlementOf mark a = SettleWait ->
  (forall l a', agentSteps a l a' -> settlementOf mark a' <> SettleWait -> (a_progress a < a_progress a')%nat) /\
  (forall m p, settlementOf mark (finishRun m p a) <> SettleWait) /\
  ((dm_drains mark < a_drains a)%nat -> settlementOf mark (sawTurnStart a) = settled true None None).
Proof.
  assert (forall b : Agent C, settlementOf mark b = SettleWait <-> (a_seen b <= dm_drains mark)%nat /\ a_running b = true) as Hwait.
  { intros b. unfold settlementOf. destruct (Nat.ltb_spec (dm_drains mark) (a_seen b)); [split; [done|]; intros [? _]; lia|].
    destruct (a_running b); [done|]. split; [|by intros [_ ?]].
    destruct (a_lastEnd b) as [[k e]|]; cbv zeta; unfold settled; repeat case_match; done. }
  rewrite Hwait. intros [Hs Hr]. split_and!.
  - intros l a' Hsteps Hn. rewrite Hwait in Hn.
    assert ((a_progress a < a_progress a')%nat \/
      (a_progress a' = a_progress a /\ (a_seen a' <= dm_drains mark)%nat /\ a_running a' = true)) as [?|(_ & H)]; [|done|done].
    clear Hn. induction Hsteps as [a|a l a1 l' a2 _ IH H2]; [by right|].
    destruct (step_seen _ _ _ H2) as (_ & Hp & He). destruct (IH Hs Hr) as [?|(E & H3 & H4)]; [left; lia|].
    destruct (decide (a_progress a2 = a_progress a1)) as [E'|]; [|left; lia].
    right. destruct (He E') as [-> Hrun]. split_and!; [congruence|done|by apply Hrun].
  - intros m p Hw. apply Hwait in Hw as [_ Hw]. done.
  - intros Ht. unfold settlementOf, sawTurnStart, signal. upd. by rewrite (proj2 (Nat.ltb_lt _ _)).
Qed.

End Interleave.

(** ** An execution: a message delivered to an idle agent, taken by the run it starts. *)
Module InterleaveToy.
Definition idle : Agent nat := New 0%nat [].
Definition accepted := acceptDelivery Background [Plain (Toy.message "hello")] idle.
Definition queued : Agent nat := accepted.2.
Definition mark : deliveryMark := {| dm_drains := 0; dm_end := None; dm_aborts := 0 |}.
Definition entry : queuedItem := {| q_item := Plain (Toy.message "hello"); q_mode := InputDeliver; q_trigger := noTrigger |}.
Definition running : Agent nat := begun "run" queued.
Definition drained : Agent nat := (drainSteer running).2.
Definition asked : Agent nat := sawTurnStart drained.
Definition answering : list lab := [LTookSteer (inputsOf [entry]); LTurnStart].

Lemma accepts : agentSteps idle [LSteer [entry]] queued.
Proof. apply (agentSteps_snoc idle [] idle [LSteer [entry]]); [constructor|]. apply I_host, (H_steer Background InputDeliver true [Plain (Toy.message "hello")]). Qed.

Lemma runs : agentSteps queued [LTookSteer (inputsOf [entry])] drained.
Proof.
  apply (agentSteps_snoc queued [] running [LTookSteer (inputsOf [entry])]); [|by apply I_run; [|apply S_drainSteer]].
  apply (agentSteps_snoc queued [] queued []); [constructor|]. by eapply (I_start None Background [] false "run").
Qed.

Lemma answers : agentSteps queued answering asked.
Proof. apply (agentSteps_snoc queued [LTookSteer (inputsOf [entry])] drained [LTurnStart] _ runs). apply I_run; [done|constructor]. Qed.
End InterleaveToy.

Lemma agent_wf_witness : a_closing InterleaveToy.asked = false /\ wf InterleaveToy.asked.
Proof.
  split; [reflexivity|]. apply (agent_wf 0%nat [] ([LSteer [InterleaveToy.entry]] ++ InterleaveToy.answering)).
  eapply agentSteps_trans; [apply InterleaveToy.accepts|apply InterleaveToy.answers].
Defined.

Lemma queues_fifo_witness :
  ([LSteer [InterleaveToy.entry]] ++ InterleaveToy.answering) ≫= steeredOut = inputsOf [InterleaveToy.entry] /\
  inputsOf [InterleaveToy.entry] ++ inputsOf (a_steer InterleaveToy.asked) = inputsOf [InterleaveToy.entry].
Proof.
  split; [reflexivity|].
  apply (queues_fifo InterleaveToy.idle ([LSteer [InterleaveToy.entry]] ++ InterleaveToy.answering) InterleaveToy.asked).
  eapply agentSteps_trans; [apply InterleaveToy.accepts|apply InterleaveToy.answers].
Defined.

(** The delivery is told that it joined, and it did. *)
Lemma delivery_settled_witness :
  settlementOf InterleaveToy.mark InterleaveToy.asked = settled true None None /\
  joinedIt [InterleaveToy.entry] InterleaveToy.answering.
Proof.
  split; [reflexivity|].
  apply (delivery_settled Background [Plain (Toy.message "hello")] InterleaveToy.idle InterleaveToy.mark None
    InterleaveToy.queued InterleaveToy.answering InterleaveToy.asked).
  - apply wf_New.
  - reflexivity.
  - apply InterleaveToy.answers.
Defined.

Lemma delivery_woken_witness :
  settlementOf InterleaveToy.mark InterleaveToy.drained = SettleWait /\
  settlementOf InterleaveToy.mark (sawTurnStart InterleaveToy.drained) = settled true None None.
Proof. split; [reflexivity|]. apply (delivery_woken InterleaveToy.mark InterleaveToy.drained); [reflexivity|]. apply le_n. Defined.
