(* ===== verification/Questions.v ===== *)
(** * Questions: a call that asks the host while it runs, the host's answer, and the
    subscribers both are told to ([ask], [Reply], [WatchAnswerer] and [tellAnswerer] of
    [control.go]; [deliver], [dispatch], [takeReplays], [Subscribe], [flushReplay] and
    [flushQueued] of [agent.go]; [unlockEmit] of [quarantine.go]).

    Here the delivery barrier is what several goroutines contend for. A goroutine that
    asks, one that replies, one that subscribes, one that delivers an event of a run,
    the one that sends a new subscriber what it is owed: each is cut where it takes or
    lets go a lock, waits, or calls a subscriber, and [perform] does one such piece. An
    execution is any sequence of pieces ([step]), with the rest of the agent moving in
    between as [Interleave.agentStep] says. A question is named by its ID, which
    [openresponses.NewID] makes anew for each, and so is the goroutine that asks it. *)

From S2P Require Export Ask Interleave.

(** [Question] and [QuestionClosed]; [agenttool]'s elicitation and answer are values the
    agent never looks into. *)
Record Question (E : Type) := { qu_ID : string; qu_RunID : string; qu_CallID : string; qu_Call : option AskedCall;
  qu_Elicitation : E }.
Record QuestionClosed (A : Type) := { qc_ID : string; qc_RunID : string; qc_Answer : option A; qc_By : Trigger }.
Arguments qu_ID {E}. Arguments qu_RunID {E}. Arguments qu_CallID {E}. Arguments qu_Call {E}. Arguments qu_Elicitation {E}.
Arguments qc_ID {A}. Arguments qc_RunID {A}. Arguments qc_Answer {A}. Arguments qc_By {A}.

(** [replied]. *)
Record replied (A : Type) := { rp_answer : A; rp_by : Trigger }.
Arguments rp_answer {A}. Arguments rp_by {A}.

(** An event a subscriber is called with. *)
Inductive message (E A : Type) := MQuestion (q : Question E) | MClosed (c : QuestionClosed A) | MOther (ev : event).
Arguments MQuestion {E A}. Arguments MClosed {E A}. Arguments MOther {E A}.

(** How far a call of [ask] has come: before it looks at its context; registered, with
    the question to deliver; inside that delivery; at the select; told to give up by the
    delivery's error or its context's; waiting for the reply that won the race; with a
    reply to tell the watchers of; with it told, and the close to deliver; given up, and
    the close to deliver; inside that delivery; and returned. *)
Inductive place (A : Type) :=
| Start | Registered | Asking | Selecting | GivingUp (e : error) | Receiving
| Telling (r : replied A) | Told (r : replied A) | Withdrawn (e : error)
| Closing (o : replied A + error) | Returned (o : A + error).
Arguments Start {A}. Arguments Registered {A}. Arguments Asking {A}. Arguments Selecting {A}. Arguments GivingUp {A}.
Arguments Receiving {A}. Arguments Telling {A}. Arguments Told {A}. Arguments Withdrawn {A}. Arguments Closing {A}.
Arguments Returned {A}.

(** A call of [ask]: its question, its context's error, the watchers on its context from
    the innermost out, the channel its reply is sent on, and where it is. *)
Record asking (E A : Type) := MkAsking { as_q : Question E; as_ctx : option error; as_watch : list nat;
  as_reply : option (replied A); as_at : place A }.
Arguments MkAsking {E A}. Arguments as_q {E A}. Arguments as_ctx {E A}. Arguments as_watch {E A}.
Arguments as_reply {E A}. Arguments as_at {E A}.
#[export] Instance eta_asking {E A} : Eta (asking E A) := fun a =>
  MkAsking (as_q a) (as_ctx a) (as_watch a) (as_reply a) (as_at a).

(** What a goroutine that holds the barrier has still to do, each piece one section: take
    the error a queued report left, the reports owed, the quarantine's events owed or the
    questions a subscriber is owed; look whether reports are owed; dispatch an event; mark
    that a turn_start was seen. *)
Inductive op (E A : Type) :=
| TakeErr (last : bool) | TakeQueued | CheckQueued | TakeQuarantine | TakeReplay (s : nat) | Dispatch (m : message E A)
| SawTurn.
Arguments TakeErr {E A}. Arguments TakeQueued {E A}. Arguments CheckQueued {E A}. Arguments TakeQuarantine {E A}.
Arguments TakeReplay {E A}. Arguments Dispatch {E A}. Arguments SawTurn {E A}.

(** Who holds the barrier, and which part of its delivery this is: what it took the barrier
    for, or, as it lets it go, the quarantine's events ([unlockEmit], with the passes made
    and whether reports follow), or the reports. *)
Inductive owner := OAsk (id : string) | ORest.
Inductive part := Main | Again (passes : nat) (queued : bool) | Reports (passes : nat).
Record job (E A : Type) := MkJob { j_owner : owner; j_part : part; j_code : list (op E A);
  j_sends : list (nat * message E A); j_err : option error }.
Arguments MkJob {E A}. Arguments j_owner {E A}. Arguments j_part {E A}. Arguments j_code {E A}.
Arguments j_sends {E A}. Arguments j_err {E A}.

(** A goroutine letting the barrier go: the passes it made, the error it returns, and, once
    it has looked and found something owed, whether reports are. *)
Record leave := MkLeave { l_owner : owner; l_passes : nat; l_err : option error; l_look : option bool }.

(** The agent, [asks], [waiting], [replays], the calls of [ask], the barrier, the goroutines
    letting it go, those [Subscribe] started, and what each watcher was told. *)
Record plaza (C E A : Type) := MkPlaza { agent : Agent C; asks : gset string; waiting : list (Question E);
  replays : gmap nat (list (Question E)); askers : gmap string (asking E A); barrier : option (job E A);
  leaving : list leave; flushes : list nat; watched : gmap nat Trigger }.
Arguments MkPlaza {C E A}. Arguments agent {C E A}. Arguments asks {C E A}. Arguments waiting {C E A}.
Arguments replays {C E A}. Arguments askers {C E A}. Arguments barrier {C E A}. Arguments leaving {C E A}.
Arguments flushes {C E A}. Arguments watched {C E A}.
#[export] Instance eta_plaza {C E A} : Eta (plaza C E A) := fun p =>
  MkPlaza (agent p) (asks p) (waiting p) (replays p) (askers p) (barrier p) (leaving p) (flushes p) (watched p).

(** What an execution shows: a reply accepted, the watchers of a call told, with what each
    then holds, a subscriber called, and one that failed, a call of [ask] that returned, and
    a subscriber registered, with the questions it is owed. *)
Inductive mark (E A : Type) :=
| LReply (id : string) (r : replied A) | LTold (id : string) (held : list (nat * option Trigger)) | LSent (s : nat) (m : message E A)
| LFailed (s : nat) | LReturn (id : string) (o : A + error) | LSubscribe (s : nat) (owed : list (Question E)).
Arguments LReply {E A}. Arguments LTold {E A}. Arguments LSent {E A}. Arguments LFailed {E A}.
Arguments LReturn {E A}. Arguments LSubscribe {E A}.

Section Questions.
Context {C E A : Type}.
Implicit Types (p : plaza C E A) (a : asking E A) (j : job E A).
Abbreviation outcome := (list (mark E A) * plaza C E A)%type.

Definition onAgent {B} (f : Agent C -> B * Agent C) p : B * plaza C E A :=
  let '(x, g) := f (agent p) in (x, p <| agent := g |>).

(** The call [id] of [ask], moved. *)
Definition put (id : string) a p : plaza C E A := p <| askers ::= <[id := a]> |>.
Definition move (id : string) (pl : place A) a p : plaza C E A := put id (a <| as_at := pl |>) p.

(** ** Replying *)

(** [Reply]: the replier's context names [by_]; [inr tt] is a reply that waits, the
    question's channel being full. *)
Definition Reply (id : string) (answer : A) (by_ : Trigger) p : (option error + unit) * plaza C E A :=
  if bool_decide (id ∈ asks p) then
    let p := p <| asks ::= fun s => s ∖ {[id]} |> in
    match askers p !! id with
    | Some a =>
        match as_reply a with
        | None => (inl None, put id (a <| as_reply := Some {| rp_answer := answer; rp_by := by_ |} |>) p)
        | Some _ => (inr tt, p)
        end
    | None => (inr tt, p)
    end
  else (inl (Some (Errorf "agentturn: no such question is waiting")), p).

(** [tellAnswerer], on a context with these watchers. *)
Definition tellAnswerer (watch : list nat) (by_ : Trigger) (m : gmap nat Trigger) : gmap nat Trigger :=
  foldl (fun m h => <[h := by_]> m) m watch.

(** What the functions [WatchAnswerer] returned say, each asked who answered. *)
Definition holding_ (watch : list nat) (m : gmap nat Trigger) : list (nat * option Trigger) := map (fun w => (w, m !! w)) watch.

(** ** Asking, between deliveries *)

(** [ask] up to its delivery of the question. *)
Definition enter (id : string) a p : outcome :=
  match as_ctx a with
  | Some e => ([LReturn id (inr e)], move id (Returned (inr e)) a p)
  | None => ([], move id Registered a (p <| asks ::= fun s => {[id]} ∪ s |>))
  end.

(** The section that gives a question up. *)
Definition giveUp (id : string) (e : error) a p : plaza C E A :=
  if bool_decide (id ∈ asks p) then move id (Withdrawn e) a (p <| asks ::= fun s => s ∖ {[id]} |>)
  else move id Receiving a p.

(** The receive from the question's channel. *)
Definition receive (id : string) a p : option (plaza C E A) :=
  match as_reply a with
  | Some r => Some (move id (Telling r) (a <| as_reply := None |>) p)
  | None => None
  end.

(** The close that is delivered: of an answer, or of a question given up. *)
Definition closedBy (q : Question E) (o : replied A + error) : QuestionClosed A :=
  match o with
  | inl r => {| qc_ID := qu_ID q; qc_RunID := qu_RunID q; qc_Answer := Some (rp_answer r); qc_By := rp_by r |}
  | inr _ => {| qc_ID := qu_ID q; qc_RunID := qu_RunID q; qc_Answer := None; qc_By := noTrigger |}
  end.

(** What [ask] does when a delivery of its own returns. *)
Definition resumeAsk (id : string) (err : option error) p : outcome :=
  match askers p !! id with
  | Some a =>
      match as_at a with
      | Asking => ([], move id (match err with None => Selecting | Some e => GivingUp e end) a p)
      | Closing (inl r) => ([LReturn id (inl (rp_answer r))], move id (Returned (inl (rp_answer r))) a p)
      | Closing (inr e) => ([LReturn id (inr e)], move id (Returned (inr e)) a p)
      | _ => ([], p)
      end
  | None => ([], p)
  end.

Definition returns (o : owner) (err : option error) p : outcome :=
  match o with OAsk id => resumeAsk id err p | ORest => ([], p) end.

(** ** The barrier *)

Definition isLast (m : message E A) : bool := match m with MOther (EvRunEnd _) => true | _ => false end.
Definition isTurn (m : message E A) : bool := match m with MOther (EvTurnStart _) => true | _ => false end.

(** [deliver], with the barrier taken. *)
Definition deliver (o : owner) (m : message E A) : job E A :=
  MkJob o Main ([TakeErr (isLast m); TakeQueued; Dispatch m; TakeQuarantine] ++ (if isLast m then [TakeQueued] else [])) [] None.

(** [dispatch] up to its subscribers: the state the event makes, the event as it is sent,
    and what each subscriber is sent. *)
Definition noted (quar : Items) (m : message E A) p : message E A * plaza C E A :=
  match m with
  | MQuestion q => (m, p <| waiting ::= fun l => l ++ [q] |>)
  | MClosed c => (m, p <| waiting ::= filter (fun q => qu_ID q <> qc_ID c) |>)
  | MOther ev => let '(ev, p) := onAgent (record quar ev) p in (MOther ev, p)
  end.

(** [takeReplays]: the questions taken, and those left. *)
Definition takeOne (acc : gmap nat (list (Question E)) * gmap nat (list (Question E))) (s : nat) :=
  match acc.2 !! s with Some qs => (<[s := qs]> acc.1, delete s acc.2) | None => acc end.
Definition takeReplays (subs : list nat) (m : gmap nat (list (Question E))) := foldl takeOne (∅, m) subs.

Definition sendsOf (out : gmap nat (list (Question E))) (m : message E A) (subs : list nat) : list (nat * message E A) :=
  subs ≫= fun s => map (fun q => (s, MQuestion q)) (default [] (out !! s)) ++ [(s, m)].

Definition dispatchTo (quar : Items) (m : message E A) p : list (nat * message E A) * plaza C E A :=
  let '(m, p) := noted quar m p in
  let subs := a_subs (agent p) in
  let '(out, rest) := takeReplays subs (replays p) in
  (sendsOf out m subs, p <| replays := rest |>).

(** The barrier let go; [passes] of [unlockEmit] were made. *)
Definition unlock (o : owner) (passes : nat) (err : option error) p : plaza C E A :=
  p <| barrier := None |> <| leaving ::= fun l => l ++ [MkLeave o passes err None] |>.

(** What follows a subscriber's error, and what follows the last piece. *)
Definition failing (e : error) j p : outcome :=
  match j_part j with
  | Main => ([], unlock (j_owner j) 0 (Some e) p)
  | Again _ _ => returns (j_owner j) (Some (default e (j_err j))) (p <| barrier := None |>)
  | Reports passes => ([], unlock (j_owner j) passes (j_err j) (p <| agent ::= failQueued e |>))
  end.

Definition finished j p : outcome :=
  match j_part j with
  | Main => ([], unlock (j_owner j) 0 (j_err j) p)
  | Again passes true => ([], p <| barrier := Some (MkJob (j_owner j) (Reports (S passes)) [CheckQueued] [] (j_err j)) |>)
  | Again passes false | Reports passes => ([], unlock (j_owner j) passes (j_err j) p)
  end.

(** One piece of a job, of which [code] is left. *)
Definition runOp (quar : Items) (o : op E A) (code : list (op E A)) j p : outcome :=
  let go code sends p := ([], p <| barrier := Some (MkJob (j_owner j) (j_part j) code sends (j_err j)) |>) in
  match o with
  | TakeErr last =>
      let '(qerr, p) := onAgent takeQueuedErr p in
      match qerr with Some e => if last then go code [] p else failing e j p | None => go code [] p end
  | TakeQueued => let '(evs, p) := onAgent takeQueued p in go (map (fun e => Dispatch (MOther (EvQueued e))) evs ++ code) [] p
  | CheckQueued => go (if queuedOwed (agent p) then TakeQueued :: code else code) [] p
  | TakeQuarantine =>
      let '(evs, p) := onAgent takeQuarantineOwed p in
      go (map (fun e => Dispatch (MOther (EvQuarantineAdded e))) evs ++ code) [] p
  | TakeReplay s =>
      go code (map (fun q => (s, MQuestion q)) (default [] (replays p !! s))) (p <| replays ::= delete s |>)
  | Dispatch m =>
      let '(sends, p) := dispatchTo quar m p in go (if isTurn m then SawTurn :: code else code) sends p
  | SawTurn => go code [] (p <| agent ::= sawTurnStart |>)
  end.

(** The look [unlockEmit] takes with the barrier let go. *)
Definition maxQueuedPasses : nat := 4.
Definition look (l : leave) p : bool * bool :=
  (negb (bool_decide (a_quarantineOwed (agent p) = [])),
   queuedOwed (agent p) && (l_passes l <? maxQueuedPasses)%nat &&
     ((l_passes l =? 0)%nat || (0 <? a_queuedOutside (agent p))%nat)).

(** ** Subscribing *)

Definition SubscribeTo p : nat * plaza C E A :=
  let '(s, p) := onAgent Subscribe p in
  (s, match waiting p with
      | [] => p
      | w => p <| replays ::= <[s := w]> |> <| flushes ::= fun l => l ++ [s] |>
      end).

Definition unsubscribeFrom (s : nat) p : plaza C E A :=
  p <| agent ::= unsubscribe s |> <| replays ::= delete s |>.

(** ** Executions *)

(** A piece of some goroutine: a tool calls [ask]; a context ends; the pieces of [ask];
    a reply; an event of a run's, the report of what was queued ([reportQueued], whose pass
    looks again whether any is owed) and the quarantine's, when the barrier is free; a new subscriber's questions; the pieces of whoever holds the
    barrier, with what the subscriber called returns; and those of who lets it go. *)
Inductive act :=
| ACall (q : Question E) (ctx : option error) (watch : list nat)
| ACancel (id : string) (e : error)
| AEnter (id : string) | AAsk (id : string) | ASelect (id : string) | ADone (id : string) | AGiveUp (id : string)
| AReceive (id : string) | ATell (id : string) | AClose (id : string)
| AReply (id : string) (answer : A) (by_ : Trigger)
| ADeliver (ev : event) | AReport | AQuarantine | AFlush (s : nat)
| AOp (quar : Items) | ASend (result : option error) | AFinish
| ALook (n : nat) | ARetake (n : nat)
| ASubscribe | AUnsubscribe (s : nat).

Definition atPlace (id : string) (p : plaza C E A) (k : asking E A -> option outcome) : option outcome :=
  match askers p !! id with Some a => k a | None => None end.
Definition free p (j : job E A) : option outcome :=
  match barrier p with None => Some ([], p <| barrier := Some j |>) | Some _ => None end.
Definition close_ (id : string) (o : replied A + error) a p : option outcome :=
  free (move id (Closing o) a p) (deliver (OAsk id) (MClosed (closedBy (as_q a) o))).

Definition perform (x : act) p : option outcome :=
  match x with
  | ACall q ctx watch =>
      match askers p !! qu_ID q with
      | None => Some ([], put (qu_ID q) (MkAsking q ctx watch None Start) p)
      | Some _ => None
      end
  | ACancel id e => atPlace id p (fun a =>
      match as_ctx a with None => Some ([], put id (a <| as_ctx := Some e |>) p) | Some _ => None end)
  | AEnter id => atPlace id p (fun a => match as_at a with Start => Some (enter id a p) | _ => None end)
  | AAsk id => atPlace id p (fun a =>
      match as_at a with Registered => free (move id Asking a p) (deliver (OAsk id) (MQuestion (as_q a))) | _ => None end)
  | ASelect id => atPlace id p (fun a =>
      match as_at a with Selecting => option_map (fun p => ([], p)) (receive id a p) | _ => None end)
  | ADone id => atPlace id p (fun a =>
      match as_at a, as_ctx a with Selecting, Some e => Some ([], move id (GivingUp e) a p) | _, _ => None end)
  | AGiveUp id => atPlace id p (fun a => match as_at a with GivingUp e => Some ([], giveUp id e a p) | _ => None end)
  | AReceive id => atPlace id p (fun a =>
      match as_at a with Receiving => option_map (fun p => ([], p)) (receive id a p) | _ => None end)
  | ATell id => atPlace id p (fun a =>
      match as_at a with
      | Telling r =>
          let p := p <| watched ::= tellAnswerer (as_watch a) (rp_by r) |> in
          Some ([LTold id (holding_ (as_watch a) (watched p))], move id (Told r) a p)
      | _ => None
      end)
  | AClose id => atPlace id p (fun a =>
      match as_at a with Told r => close_ id (inl r) a p | Withdrawn e => close_ id (inr e) a p | _ => None end)
  | AReply id answer by_ =>
      match Reply id answer by_ p with
      | (inl None, p) => Some ([LReply id {| rp_answer := answer; rp_by := by_ |}], p)
      | (inl (Some _), p) => Some ([], p)
      | (inr _, _) => None
      end
  | ADeliver ev => free p (deliver ORest (MOther ev))
  | AReport => free p (MkJob ORest (Reports 0) [CheckQueued] [] None)
  | AQuarantine => free p (MkJob ORest Main [TakeQuarantine] [] None)
  | AFlush s =>
      if bool_decide (s ∈ flushes p)
      then free (p <| flushes ::= filter (fun s' => s' <> s) |>) (MkJob ORest Main [TakeReplay s] [] None) else None
  | AOp quar =>
      match barrier p with
      | Some j => match j_sends j, j_code j with [], o :: code => Some (runOp quar o code j p) | _, _ => None end
      | None => None
      end
  | ASend result =>
      match barrier p with
      | Some j =>
          match j_sends j with
          | (s, m) :: sends =>
              match result with
              | None => Some ([LSent s m], p <| barrier := Some (MkJob (j_owner j) (j_part j) (j_code j) sends (j_err j)) |>)
              | Some e => let '(tr, p) := failing e j p in Some ([LSent s m; LFailed s] ++ tr, p)
              end
          | [] => None
          end
      | None => None
      end
  | AFinish =>
      match barrier p with
      | Some j => match j_sends j, j_code j with [], [] => Some (finished j p) | _, _ => None end
      | None => None
      end
  | ALook n =>
      match leaving p !! n with
      | Some l =>
          match l_look l with
          | None =>
              let '(owed, queued) := look l p in
              if owed || queued
              then Some ([], p <| leaving ::= <[n := MkLeave (l_owner l) (l_passes l) (l_err l) (Some queued)]> |>)
              else Some (returns (l_owner l) (l_err l) (p <| leaving ::= delete n |>))
          | Some _ => None
          end
      | None => None
      end
  | ARetake n =>
      match leaving p !! n with
      | Some l =>
          match l_look l, barrier p with
          | Some queued, None =>
              Some ([], p <| leaving ::= delete n |>
                          <| barrier := Some (MkJob (l_owner l) (Again (l_passes l) queued) [TakeQuarantine] [] (l_err l)) |>)
          | Some _, Some _ => Some (returns (l_owner l) (l_err l) (p <| leaving ::= delete n |>))
          | None, _ => None
          end
      | None => None
      end
  | ASubscribe => let '(s, p') := SubscribeTo p in Some ([LSubscribe s (waiting p)], p')
  | AUnsubscribe s => Some ([], unsubscribeFrom s p)
  end.

(** An execution: its pieces, and between them whatever else the agent's operations do, a
    run's and a host's, but for subscribing and the reports' errors, which are pieces. *)
Inductive step : plaza C E A -> list (mark E A) -> plaza C E A -> Prop :=
| step_act x p tr p' : perform x p = Some (tr, p') -> step p tr p'
| step_agent p l g : agentStep (agent p) l g -> a_subs g = a_subs (agent p) -> a_nextSub g = a_nextSub (agent p) ->
    (a_queuedErr g = None \/ a_queuedErr g = a_queuedErr (agent p)) -> step p [] (p <| agent := g |>).

Definition opened (g : Agent C) : plaza C E A := MkPlaza g ∅ [] ∅ ∅ None [] [] ∅.

Inductive reaches (g : Agent C) : list (mark E A) -> plaza C E A -> Prop :=
| reaches_nil : reaches g [] (opened g)
| reaches_snoc tr p tr' p' : reaches g tr p -> step p tr' p' -> reaches g (tr ++ tr') p'.

(** The pieces of a script, done in turn. *)
Fixpoint script (xs : list act) p : option outcome :=
  match xs with
  | [] => Some ([], p)
  | x :: xs =>
      match perform x p with
      | Some (tr, p) => match script xs p with Some (tr', p) => Some (tr ++ tr', p) | None => None end
      | None => None
      end
  end.

Lemma reaches_script g xs tr p tr' p' :
  reaches g tr p -> script xs p = Some (tr', p') -> reaches g (tr ++ tr') p'.
Proof.
  revert tr p tr'. induction xs as [|x xs IH]; intros tr p tr' Hr; cbn [script].
  { intros [= <- <-]. by rewrite app_nil_r. }
  destruct (perform x p) as [[tr1 p1]|] eqn:E1; [|done].
  destruct (script xs p1) as [[tr2 p2]|] eqn:E2; [|done]. intros [= <- <-]. rewrite app_assoc.
  eapply IH; [|done]. eapply reaches_snoc; [done|by eapply step_act].
Qed.

(** What a subscriber was called with, and the part of a list of messages that is about one
    question. *)
Definition calledWith (s : nat) (x : mark E A) : option (message E A) :=
  match x with LSent s' m => if bool_decide (s' = s) then Some m else None | _ => None end.
Definition heard (s : nat) (tr : list (mark E A)) : list (message E A) := omap (calledWith s) tr.

Inductive kind := KAsked | KClosed.
Definition kindOf (id : string) (m : message E A) : option kind :=
  match m with
  | MQuestion q => if bool_decide (qu_ID q = id) then Some KAsked else None
  | MClosed c => if bool_decide (qc_ID c = id) then Some KClosed else None
  | MOther _ => None
  end.

End Questions.
