(* ===== verification/Asked.v ===== *)
(** * Asked: what is true of a question however its goroutines are scheduled: of the one
    reply it takes and what its call returns, and of what each subscriber is told of it.

    Every fact here is an invariant of [Questions.reaches], one record of which a step
    keeps each field; a field is a statement about one question's ID. *)

From S2P Require Import Toy.
From S2P Require Export Questions.

Section Asked.
Context {C E A : Type}.
Implicit Types (p : plaza C E A) (a : asking E A) (j : job E A) (m : message E A) (tr : list (mark E A)).

(** ** What a subscriber is told *)

(** What [s] is still to be sent of what has happened, and the events to be dispatched. *)
Definition sendTo (s : nat) (x : nat * message E A) : option (message E A) := if bool_decide (x.1 = s) then Some x.2 else None.
Definition sends p : list (nat * message E A) := match barrier p with Some j => j_sends j | None => [] end.
Definition dispatched (o : op E A) : option (message E A) := match o with Dispatch m => Some m | _ => None end.
Definition todo p : list (message E A) := match barrier p with Some j => omap dispatched (j_code j) | None => [] end.
Definition owed (s : nat) p : list (message E A) := map MQuestion (default [] (replays p !! s)).
Definition view (s : nat) tr p : list (message E A) := heard s tr ++ omap (sendTo s) (sends p) ++ owed s p.

(** What the call that asks [id] has yet to deliver. *)
Definition ahead (pl : place A) : list kind :=
  match pl with
  | Start | Registered => [KAsked; KClosed]
  | Asking | Selecting | GivingUp _ | Receiving | Telling _ | Told _ | Withdrawn _ => [KClosed]
  | Closing _ | Returned _ => []
  end.
Definition future (id : string) p : list kind := match askers p !! id with Some a => ahead (as_at a) | None => [KAsked; KClosed] end.

(** What becomes of [id], for one who has been told [l] of it. *)
Definition rest (id : string) p : list kind := omap (kindOf id) (todo p) ++ future id p.
Definition told (id : string) (l : list (message E A)) p : Prop := omap (kindOf id) l ++ rest id p `sublist_of` [KAsked; KClosed].

Record views tr p : Prop := {
  v_waiting : forall id, told id (map MQuestion (waiting p)) p;
  v_told : forall id s, told id (view s tr p) p;
  v_nodup : NoDup (a_subs (agent p));
  v_subs : forall s, s ∈ a_subs (agent p) -> (s < a_nextSub (agent p))%nat;
  v_later : forall s, (a_nextSub (agent p) <= s)%nat -> view s tr p = [];
}.

Lemma heard_app s tr tr' : heard s (tr ++ tr') = heard s tr ++ heard s tr'.
Proof. apply omap_app. Qed.

Lemma omap_sublist {B D} (f : B -> option D) l l' : l' `sublist_of` l -> omap f l' `sublist_of` omap f l.
Proof. induction 1; cbn [omap list_omap]; [done| |]; destruct (f _); try done; by constructor. Qed.

Lemma told_le id l l' p p' :
  l' `sublist_of` l -> rest id p' `sublist_of` rest id p -> told id l p -> told id l' p'.
Proof. unfold told. intros Hl Hr <-. apply sublist_app; [by apply omap_sublist|done]. Qed.

(** The subscribers an execution registered. *)
Definition subscribed (x : mark E A) : option (nat * list (Question E)) := match x with LSubscribe s ws => Some (s, ws) | _ => None end.

(** A step that takes nothing new to anybody, [R] between what becomes of what was on its
    way to a subscriber and what was. *)
Record calm (R : relation (list (message E A))) p tr p' : Prop := {
  k_rest : forall id, rest id p' `sublist_of` rest id p;
  k_waiting : waiting p' = waiting p;
  k_subs : a_subs (agent p') `sublist_of` a_subs (agent p);
  k_next : a_nextSub (agent p') = a_nextSub (agent p);
  k_new : omap subscribed tr = [];
  k_view : forall s, R (heard s tr ++ omap (sendTo s) (sends p') ++ owed s p') (omap (sendTo s) (sends p) ++ owed s p);
}.

Lemma calm_weaken p tr p' : calm eq p tr p' -> calm sublist p tr p'.
Proof. intros [Hr Hw Hs Hn Hx Hv]. split; try done. intros s. by rewrite Hv. Qed.

Lemma calm_view s tr p tr' p' : calm sublist p tr' p' -> view s (tr ++ tr') p' `sublist_of` view s tr p.
Proof. intros []. unfold view. rewrite heard_app, <- app_assoc. by apply sublist_app. Qed.

Lemma views_calm tr p tr' p' : views tr p -> calm sublist p tr' p' -> views (tr ++ tr') p'.
Proof.
  intros [Hw Ht Hn Hs Hl] Hk. pose proof (fun s => calm_view s tr _ _ _ Hk) as Hv. destruct Hk as [Hr Hwt Hsub Hnx _ _]. split.
  - intros id. rewrite Hwt. by eapply told_le, Hw.
  - intros id s. by eapply told_le, Ht.
  - by eapply sublist_NoDup.
  - intros s Hin. rewrite Hnx. apply Hs. by eapply elem_of_sublist.
  - intros s Hle. rewrite Hnx in Hle. specialize (Hv s). rewrite (Hl s Hle) in Hv. by apply sublist_nil_r in Hv.
Qed.

Lemma future_put id a p p' :
  askers p' = <[id := a]> (askers p) -> ahead (as_at a) `sublist_of` future id p ->
  forall id', future id' p' `sublist_of` future id' p.
Proof.
  intros Ha Hle id'. unfold future at 1. rewrite Ha. destruct (decide (id = id')) as [->|Hne].
  - by rewrite lookup_insert_eq.
  - by rewrite lookup_insert_ne.
Qed.

Lemma calm_refl p : calm eq p [] p.
Proof. done. Qed.

(** Pieces that only move a call of [ask] on. *)
Lemma calm_put id a p tr p' :
  askers p' = <[id := a]> (askers p) -> ahead (as_at a) `sublist_of` future id p ->
  barrier p' = barrier p -> waiting p' = waiting p -> replays p' = replays p -> agent p' = agent p ->
  (forall s, heard s tr = []) -> omap subscribed tr = [] -> calm eq p tr p'.
Proof.
  intros Ha Hle Hb Hw Hr Hg Ht Hx. split; unfold rest, todo, sends, owed; try (intros; by rewrite ?Hb, ?Hw, ?Hg).
  - intros id'. rewrite Hb. apply sublist_app; [done|]. by eapply future_put.
  - intros s. by rewrite Ht, Hb, Hr.
Qed.

Lemma calm_resumeAsk id err p : calm eq p (resumeAsk id err p).1 (resumeAsk id err p).2.
Proof.
  unfold resumeAsk. destruct (askers p !! id) as [a|] eqn:Ea; [|done].
  destruct (as_at a) as [| | | | | | | | |[r|e]|] eqn:Ep; try done; eapply calm_put; try done;
    unfold future; rewrite Ea, Ep; cbn [as_at ahead]; try done; by destruct err.
Qed.

Lemma calm_returns o err p : calm eq p (returns o err p).1 (returns o err p).2.
Proof. destruct o; [apply calm_resumeAsk|apply calm_refl]. Qed.

Lemma calm_then p p1 tr p2 : calm eq p [] p1 -> calm eq p1 tr p2 -> calm eq p tr p2.
Proof.
  intros [Hr1 Hw1 Hs1 Hn1 _ Hv1] [Hr2 Hw2 Hs2 Hn2 Hx2 Hv2]. split; try congruence; try intros x.
  - etrans; [apply Hr2|apply Hr1].
  - etrans; [apply Hs2|apply Hs1].
  - etrans; [apply Hv2|]. apply (Hv1 x).
Qed.

(** Letting the barrier go, at the end of a job or on a subscriber's error. *)
Lemma calm_dropped p p' :
  askers p' = askers p -> waiting p' = waiting p -> replays p' = replays p -> a_subs (agent p') = a_subs (agent p) ->
  a_nextSub (agent p') = a_nextSub (agent p) ->
  (forall id, omap (kindOf id) (todo p') = []) -> sends p = [] -> sends p' = [] -> calm eq p [] p'.
Proof.
  intros Ha Hw Hr Hg Hn Ht Hs0 Hs. split; try (done || by rewrite Hg).
  - intros id. unfold rest, future. rewrite Ht, Ha. by apply sublist_inserts_l.
  - intros s. unfold owed. by rewrite Hs, Hs0, Hr.
Qed.

Lemma calm_unlock o n err p : sends p = [] -> calm eq p [] (unlock o n err p).
Proof. intros Hs. by apply calm_dropped. Qed.

Lemma calm_failing e j p : sends p = [] -> calm eq p (failing e j p).1 (failing e j p).2.
Proof.
  intros Hs. unfold failing. destruct (j_part j).
  - by apply calm_unlock.
  - eapply calm_then; [|apply calm_returns]. by apply calm_dropped.
  - by apply calm_dropped.
Qed.

Lemma calm_finished j p : sends p = [] -> calm eq p (finished j p).1 (finished j p).2.
Proof. intros Hs. unfold finished. destruct (j_part j) as [|n [|]|]; by apply calm_dropped. Qed.

(** A piece of a job that dispatches nothing. *)
Lemma calm_op p p' j code l sends' :
  barrier p = Some j -> j_sends j = [] ->
  barrier p' = Some (MkJob (j_owner j) (j_part j) code sends' (j_err j)) ->
  askers p' = askers p -> waiting p' = waiting p -> a_subs (agent p') = a_subs (agent p) ->
  a_nextSub (agent p') = a_nextSub (agent p) ->
  (forall id, omap (kindOf id) (omap dispatched code) = omap (kindOf id) (omap dispatched l)) -> l `sublist_of` j_code j ->
  (forall s, omap (sendTo s) sends' ++ owed s p' = owed s p) -> calm eq p [] p'.
Proof.
  intros Hb Hs Hb' Ha Hw Hg Hn Hk Hl Ho. split; try (done || by rewrite Hg).
  - intros id. unfold rest, future, todo. rewrite Ha, Hb, Hb'. cbn [j_code]. rewrite Hk.
    apply sublist_app; [|done]. by apply omap_sublist, omap_sublist.
  - intros s. unfold sends. rewrite Hb, Hb', Hs. cbn [j_sends]. by rewrite Ho.
Qed.

Lemma kinds_app id (l1 l2 : list (op E A)) :
  omap (kindOf id) (omap dispatched (l1 ++ l2)) = omap (kindOf id) (omap dispatched l1) ++ omap (kindOf id) (omap dispatched l2).
Proof. by rewrite !omap_app. Qed.

Lemma kinds_others {B} id (f : B -> event) l :
  omap (kindOf id) (omap dispatched (map (fun e => Dispatch (MOther (f e))) l)) = [] :> list kind.
Proof. by induction l. Qed.

Lemma sendTo_replay s s' (qs : list (Question E)) :
  omap (sendTo s') (map (fun q => (s, MQuestion q)) qs) = (if bool_decide (s = s') then map MQuestion qs else []) :> list (message E A).
Proof.
  induction qs as [|q qs IH]; cbn [map omap list_omap]; [by case_bool_decide|].
  unfold sendTo at 1. cbn [fst snd]. rewrite IH. by case_bool_decide.
Qed.

Lemma calm_runOp quar o code j p :
  barrier p = Some j -> j_sends j = [] -> j_code j = o :: code -> dispatched o = None ->
  calm eq p (runOp quar o code j p).1 (runOp quar o code j p).2.
Proof.
  intros Hb Hs Hc Hd. assert (code `sublist_of` j_code j) as Hle by (rewrite Hc; by apply sublist_cons).
  destruct o as [last| | | |s|m|]; unfold runOp, onAgent; cbn [takeQueuedErr takeQueued takeQuarantineOwed fst snd]; [| | | | |done|].
  - destruct (a_queuedErr (agent p)) as [e|]; [destruct last|].
    + by eapply (calm_op _ _ j code code []).
    + eapply calm_then; [|apply calm_failing; unfold sends; upd; by rewrite Hb]. done.
    + by eapply (calm_op _ _ j code code []).
  - eapply (calm_op _ _ j _ code []); try done. intros id. by rewrite kinds_app, kinds_others.
  - eapply (calm_op _ _ j _ code []); try done. intros id. by destruct (queuedOwed _).
  - eapply (calm_op _ _ j _ code []); try done. intros id. by rewrite kinds_app, kinds_others.
  - eapply (calm_op _ _ j _ code); try done. intros s'. rewrite sendTo_replay. unfold owed. cbn [replays fst snd]. upd.
    case_bool_decide as Hss.
    + subst. by rewrite lookup_delete_eq, app_nil_r.
    + by rewrite lookup_delete_ne.
  - by eapply (calm_op _ _ j _ code []).
Qed.

(** ** Dispatching *)

Lemma takeReplays_lookup subs (m0 : gmap nat (list (Question E))) s :
  default [] ((takeReplays (E := E) subs m0).1 !! s) = (if bool_decide (s ∈ subs) then default [] (m0 !! s) else []) /\
  default [] ((takeReplays (E := E) subs m0).2 !! s) = (if bool_decide (s ∈ subs) then [] else default [] (m0 !! s)).
Proof.
  unfold takeReplays.
  enough (forall out, default [] (out !! s) = [] \/ m0 !! s = None ->
    default [] ((foldl takeOne (out, m0) subs).1 !! s) =
      default [] (out !! s) ++ (if bool_decide (s ∈ subs) then default [] (m0 !! s) else []) /\
    default [] ((foldl takeOne (out, m0) subs).2 !! s) = (if bool_decide (s ∈ subs) then [] else default [] (m0 !! s))) as Hx
    by (apply Hx; by left).
  revert m0. induction subs as [|s' subs IH]; intros m0 out Ho; cbn [foldl].
  { rewrite (bool_decide_eq_false_2 (s ∈ [])) by apply not_elem_of_nil. by rewrite app_nil_r. }
  unfold takeOne at 2 4. cbn [fst snd]. destruct (decide (s' = s)) as [->|Hne].
  - rewrite (bool_decide_eq_true_2 (s ∈ s :: subs)) by left. destruct (m0 !! s) as [qs|] eqn:Em.
    + destruct Ho as [Ho|]; [|done]. destruct (IH (delete s m0) (<[s := qs]> out)) as [-> ->].
      { right. apply lookup_delete_eq. }
      rewrite lookup_insert_eq, lookup_delete_eq, Ho. cbn. by destruct (bool_decide _); rewrite ?app_nil_r.
    + destruct (IH m0 out) as [-> ->]; [by right|]. rewrite Em. by destruct (bool_decide _).
  - rewrite (bool_decide_ext (s ∈ s' :: subs) (s ∈ subs)) by (rewrite elem_of_cons; naive_solver).
    destruct (m0 !! s') as [qs|]; [|by apply IH].
    destruct (IH (delete s' m0) (<[s' := qs]> out)) as [-> ->].
    { by rewrite lookup_insert_ne, lookup_delete_ne. }
    by rewrite lookup_insert_ne, lookup_delete_ne.
Qed.

Lemma sendsOf_to out m subs s :
  NoDup subs ->
  omap (sendTo s) (sendsOf out m subs) =
    (if bool_decide (s ∈ subs) then map MQuestion (default [] (out !! s)) ++ [m] else []) :> list (message E A).
Proof.
  unfold sendsOf. induction 1 as [|s' subs Hni Hnd IH]; [done|].
  rewrite bind_cons, omap_app, IH, omap_app, sendTo_replay. cbn [omap list_omap]. unfold sendTo at 1. cbn [fst snd].
  destruct (decide (s' = s)) as [->|Hne].
  - rewrite !(bool_decide_eq_true_2 (s = s)), (bool_decide_eq_true_2 (s ∈ s :: subs)), bool_decide_eq_false_2 by (done || left).
    by rewrite app_nil_r.
  - rewrite !(bool_decide_eq_false_2 (s' = s)) by done. cbn [app].
    by rewrite (bool_decide_ext (s ∈ s' :: subs) (s ∈ subs)) by (rewrite elem_of_cons; naive_solver).
Qed.

Lemma noted_keeps quar m p :
  let m' := (noted quar m p).1 in let p' := (noted quar m p).2 in
  (forall id, kindOf id m' = kindOf id m) /\ a_subs (agent p') = a_subs (agent p) /\
  a_nextSub (agent p') = a_nextSub (agent p) /\ replays p' = replays p /\ askers p' = askers p /\
  barrier p' = barrier p /\ flushes p' = flushes p /\ leaving p' = leaving p /\
  a_queuedErr (agent p') = a_queuedErr (agent p) /\
  waiting p' = match m with
    | MQuestion q => waiting p ++ [q] | MClosed c => filter (fun q => qu_ID q <> qc_ID c) (waiting p) | MOther _ => waiting p end.
Proof. destruct m as [q|c|ev]; [done..|]. unfold noted, onAgent. by destruct ev as [| | | | | | | | | | | | |[? ? ? ? ? ? ? ? [|] ?]| | |]. Qed.

(** A dispatch: whoever subscribes is sent the event, after what it is owed. *)
Lemma dispatch_view tr quar m code j p :
  NoDup (a_subs (agent p)) -> barrier p = Some j -> j_sends j = [] -> j_code j = Dispatch m :: code ->
  let p' := (runOp quar (Dispatch m) code j p).2 in
  exists m', (forall id, kindOf id m' = kindOf id m) /\
  (forall s, view s tr p' = view s tr p ++ (if bool_decide (s ∈ a_subs (agent p)) then [m'] else [])) /\
  (forall id, omap (kindOf id) (todo p) = omap (kindOf id) [m] ++ omap (kindOf id) (todo p')) /\
  (forall id, future id p' = future id p) /\
  a_subs (agent p') = a_subs (agent p) /\ a_nextSub (agent p') = a_nextSub (agent p) /\
  waiting p' = match m with
    | MQuestion q => waiting p ++ [q] | MClosed c => filter (fun q => qu_ID q <> qc_ID c) (waiting p) | MOther _ => waiting p end.
Proof.
  intros Hn Hb Hs Hc. cbn zeta. pose proof (noted_keeps quar m p) as Hf. cbn zeta in Hf.
  unfold runOp, dispatchTo. destruct (noted quar m p) as [m' p1]. cbn [fst snd] in Hf.
  destruct Hf as (Hk & Hsb & Hnx & Hr & Ha & _ & _ & _ & _ & Hw).
  pose proof (takeReplays_lookup (a_subs (agent p1)) (replays p1)) as Ht.
  destruct (takeReplays (a_subs (agent p1)) (replays p1)) as [out rest0]. cbn [fst snd] in *.
  exists m'. split; [done|]. split; [|split].
  - intros s. unfold view, sends, owed. rewrite Hb, Hs. cbn [barrier replays j_sends]. upd. cbn [j_sends].
    destruct (Ht s) as [Ho Hre]. rewrite Hre, sendsOf_to by (by rewrite Hsb). rewrite Ho, Hsb, Hr. cbn [omap list_omap app].
    destruct (bool_decide (s ∈ a_subs (agent p))); cbn [map app]; by rewrite !app_nil_r, <- ?app_assoc.
  - intros id. unfold todo. rewrite Hb, Hc. cbn [barrier]. upd. cbn [j_code]. rewrite <- omap_app. by destruct (isTurn m).
  - split_and!; upd; try done. intros id. unfold future. upd. by rewrite Ha.
Qed.

Lemma views_dispatch tr quar m code j p :
  views tr p -> barrier p = Some j -> j_sends j = [] -> j_code j = Dispatch m :: code ->
  views (tr ++ (runOp quar (Dispatch m) code j p).1) (runOp quar (Dispatch m) code j p).2.
Proof.
  intros [Hw Ht Hn Hs Hl] Hb Hse Hc.
  assert ((runOp quar (Dispatch m) code j p).1 = []) as ->.
  { unfold runOp. by destruct (dispatchTo quar m p). }
  rewrite app_nil_r. destruct (dispatch_view tr quar m code j p) as (m' & Hk & Hv & Htd & Hf & Hsb & Hnx & Hwt); try done.
  revert Hv Htd Hf Hsb Hnx Hwt. generalize (runOp quar (Dispatch m) code j p).2. intros p' Hv Htd Hf Hsb Hnx Hwt.
  assert (forall id l, told id l p -> told id (l ++ [m']) p') as Hstep.
  { unfold told, rest. intros id l. rewrite omap_app, Htd, Hf, <- !app_assoc. cbn [omap list_omap]. by rewrite Hk. }
  assert (forall id l, told id l p -> told id l p') as Hskip.
  { intros id l Hx. eapply told_le; [by apply sublist_inserts_r|done|]. by apply Hstep. }
  split.
  - intros id. rewrite Hwt. destruct m as [q|c|]; [| |by apply Hskip].
    + rewrite map_app. specialize (Hstep id _ (Hw id)). unfold told in *. rewrite omap_app in *. cbn [map omap list_omap] in *.
      by rewrite Hk in Hstep.
    + eapply told_le; [|done|apply Hskip, Hw]. apply fmap_sublist, sublist_filter.
  - intros id s. rewrite Hv. case_bool_decide; [by apply Hstep|]. rewrite app_nil_r. by apply Hskip.
  - by rewrite Hsb.
  - by rewrite Hsb, Hnx.
  - intros s Hle. rewrite Hnx in Hle. rewrite Hv, (Hl s Hle), bool_decide_eq_false_2; [done|].
    intros Hin%Hs. lia.
Qed.

(** ** The whole of an execution *)

Lemma SubscribeTo_fields p :
  let p' := (SubscribeTo p).2 in
  (SubscribeTo p).1 = a_nextSub (agent p) /\ barrier p' = barrier p /\ askers p' = askers p /\ waiting p' = waiting p /\
  a_subs (agent p') = a_subs (agent p) ++ [a_nextSub (agent p)] /\ a_nextSub (agent p') = S (a_nextSub (agent p)) /\
  a_queuedErr (agent p') = a_queuedErr (agent p) /\ leaving p' = leaving p /\ asks p' = asks p /\
  (forall s, owed s p' = if bool_decide (s = a_nextSub (agent p) /\ waiting p <> []) then map MQuestion (waiting p) else owed s p).
Proof.
  unfold SubscribeTo, onAgent, Subscribe. cbn [fst snd]. upd. destruct (waiting p) as [|q w] eqn:Ew; upd; split_and!; try done; intros s.
  - rewrite bool_decide_eq_false_2 by naive_solver. done.
  - unfold owed. upd. case_bool_decide as Hc.
    + destruct Hc as [-> _]. by rewrite lookup_insert_eq.
    + rewrite lookup_insert_ne by naive_solver. done.
Qed.

(** A new subscriber is owed the questions waiting, and nothing else changes. *)
Lemma subscribe_view tr p s :
  view (a_nextSub (agent p)) tr p = [] ->
  view s (tr ++ [LSubscribe (SubscribeTo p).1 (waiting p)]) (SubscribeTo p).2 =
    if bool_decide (s = a_nextSub (agent p)) then map MQuestion (waiting p) else view s tr p.
Proof.
  intros Hnil. destruct (SubscribeTo_fields p) as (_ & Hb & _ & _ & _ & _ & _ & _ & _ & Ho).
  unfold view in *. rewrite heard_app. unfold sends in *. rewrite Hb, Ho. cbn [heard omap list_omap calledWith]. rewrite app_nil_r.
  destruct (decide (s = a_nextSub (agent p))) as [->|Hs];
    [rewrite (bool_decide_eq_true_2 (a_nextSub (agent p) = _)) by done|rewrite (bool_decide_eq_false_2 (s = _)) by done].
  - apply app_nil in Hnil as [-> Hnil]. apply app_nil in Hnil as [-> Hnil]. cbn [app].
    destruct (waiting p) as [|q w]; [by rewrite bool_decide_eq_false_2 by naive_solver|]. by rewrite bool_decide_eq_true_2.
  - by rewrite bool_decide_eq_false_2 by naive_solver.
Qed.

Lemma views_Subscribe tr p :
  views tr p -> views (tr ++ [LSubscribe (SubscribeTo p).1 (waiting p)]) (SubscribeTo p).2.
Proof.
  intros [Hw Ht Hn Hs Hl]. pose proof (fun s => subscribe_view tr p s (Hl _ ltac:(done))) as Hv.
  destruct (SubscribeTo_fields p) as (_ & Hb & Ha & Hwt & Hsb & Hnx & _). revert Hv Hb Ha Hwt Hsb Hnx.
  generalize (SubscribeTo p). intros [n p']. cbn [fst snd]. intros Hv Hb Ha Hwt Hsb Hnx. assert (forall id, rest id p' = rest id p) as Hr.
  { intros id. unfold rest, todo, future. by rewrite Hb, Ha. }
  split.
  - intros id. unfold told. rewrite Hr, Hwt. apply Hw.
  - intros id s. unfold told. rewrite Hv, Hr. case_bool_decide; [apply Hw|apply Ht].
  - rewrite Hsb. apply NoDup_app. split_and!; [done| |apply NoDup_singleton].
    intros s Hin ->%list_elem_of_singleton. apply Hs in Hin. lia.
  - intros s. rewrite Hsb, Hnx, elem_of_app, list_elem_of_singleton. intros [Hin| ->]; [|lia]. apply Hs in Hin. lia.
  - intros s Hle. rewrite Hnx in Hle. rewrite Hv, bool_decide_eq_false_2 by lia. apply Hl. lia.
Qed.

(** Taking the barrier, to deliver what is ahead or an event of another kind. *)
Lemma calm_begin p p' o (m : message E A) :
  barrier p = None -> barrier p' = Some (deliver o m) -> waiting p' = waiting p -> replays p' = replays p ->
  agent p' = agent p -> (forall id, omap (kindOf id) [m] ++ future id p' `sublist_of` future id p) -> calm eq p [] p'.
Proof.
  intros Hb Hb' Hw Hr Hg Hf. split; try by rewrite ?Hw, ?Hg.
  - intros id. unfold rest, todo. rewrite Hb, Hb'. unfold deliver. cbn [j_code]. by destruct (isLast m).
  - intros s. unfold sends, owed. by rewrite Hb, Hb', Hr.
Qed.

Lemma calm_take p p' o part_ code err :
  barrier p = None -> barrier p' = Some (MkJob o part_ code [] err) ->
  askers p' = askers p -> waiting p' = waiting p -> replays p' = replays p -> agent p' = agent p ->
  omap dispatched code = [] -> calm eq p [] p'.
Proof.
  intros Hb He Ha Hw Hr Hg Hc. split; try by rewrite ?Hw, ?Hg.
  - intros id. unfold rest, todo, future. rewrite Hb, He, Ha. cbn [j_code]. by rewrite Hc.
  - intros s. unfold sends, owed. by rewrite Hb, He, Hr.
Qed.

Lemma future_at id a p : askers p !! id = Some a -> future id p = ahead (as_at a).
Proof. unfold future. by intros ->. Qed.

(** A call of [ask] that takes the barrier for the event it is about to deliver. *)
Lemma calm_ask id a pl (m : message E A) p tr p' :
  askers p !! id = Some a -> ahead (as_at a) = omap (kindOf id) [m] ++ ahead pl ->
  (forall id', id' <> id -> kindOf id' m = None) ->
  free (move id pl a p) (deliver (OAsk id) m) = Some (tr, p') -> calm eq p tr p'.
Proof.
  intros Ha Hk Hm. unfold free, move, put. upd. destruct (barrier p) eqn:Eb; [done|]. intros [= <- <-].
  eapply calm_begin; try done. intros id'. unfold future at 1. upd. destruct (decide (id = id')) as [->|Hne].
  - rewrite lookup_insert_eq, (future_at _ _ _ Ha), Hk. done.
  - rewrite lookup_insert_ne by done. cbn [omap list_omap]. by rewrite Hm.
Qed.

(** The piece of a subscriber called. *)
Lemma calm_sent p j s m l :
  barrier p = Some j -> j_sends j = (s, m) :: l ->
  calm eq p [LSent s m] (p <| barrier := Some (MkJob (j_owner j) (j_part j) (j_code j) l (j_err j)) |>).
Proof.
  intros Hb Hs. split; try done.
  - intros id. unfold rest, todo, future. upd. by rewrite Hb.
  - intros s'. unfold sends, owed, heard. upd. rewrite Hb, Hs. cbn [j_sends omap list_omap calledWith]. unfold sendTo at 2. cbn [fst snd].
    by case_bool_decide.
Qed.

(** A subscriber that fails: the rest of what the job had to send is lost. *)
Lemma calm_failed e p j s m l :
  barrier p = Some j -> j_sends j = (s, m) :: l ->
  calm sublist p ([LSent s m; LFailed s] ++ (failing e j p).1) (failing e j p).2.
Proof.
  intros Hb Hs. set (b := Some (MkJob (j_owner j) (j_part j) (j_code j) [] (j_err j))).
  destruct (calm_failing e j (p <| barrier := b |>)) as [Hr Hw Hg Hn Hne Hv]; [done|].
  assert (failing e j (p <| barrier := b |>) = failing e j p) as Hf.
  { unfold failing, returns, resumeAsk. destruct (j_part j), (j_owner j); done. }
  rewrite Hf in *. split; try done.
  - intros id. etrans; [apply Hr|]. unfold rest, todo, future, b. upd. by rewrite Hb.
  - intros s'. specialize (Hv s'). rewrite heard_app, <- app_assoc, Hv. unfold sends, owed, b. upd. rewrite Hb, Hs.
    unfold heard. cbn [j_sends omap list_omap app calledWith].
    change (sendTo s' (s, m)) with (if bool_decide (s = s') then Some m else None).
    case_bool_decide; cbn [app]; [apply sublist_skip|]; by apply sublist_inserts_l.
Qed.

Lemma calm_unsubscribe s p : calm sublist p [] (unsubscribeFrom s p).
Proof.
  split; try done.
  - apply sublist_filter.
  - intros s'. change (heard s' []) with (@nil (message E A)). rewrite app_nil_l.
    unfold owed, unsubscribeFrom, sends. upd. apply sublist_app; [done|]. destruct (decide (s = s')) as [->|Hne].
    + rewrite lookup_delete_eq. apply sublist_nil_l.
    + by rewrite lookup_delete_ne.
Qed.

(** Pieces of [ask] between its deliveries. *)
Lemma calm_enter id a p : askers p !! id = Some a -> as_at a = Start -> calm eq p (enter id a p).1 (enter id a p).2.
Proof.
  intros Ha Hp. unfold enter. destruct (as_ctx a); eapply calm_put; try done; rewrite (future_at _ _ _ Ha), Hp; upd; cbn [ahead];
    (done || apply sublist_nil_l).
Qed.

Lemma calm_move id pl a p p' :
  askers p !! id = Some a -> ahead pl `sublist_of` ahead (as_at a) ->
  (exists a', as_at a' = pl /\ askers p' = <[id := a']> (askers p)) ->
  barrier p' = barrier p -> waiting p' = waiting p -> replays p' = replays p -> agent p' = agent p -> calm eq p [] p'.
Proof. intros Ha Hle (a' & <- & Hi) ? ? ? ?. eapply calm_put; try done. by rewrite (future_at _ _ _ Ha). Qed.

(** The place and the call it is the place of are what differ. *)
Ltac moved := eapply calm_move; [eassumption| |eexists; split; [|reflexivity]; reflexivity|reflexivity..].

Lemma calm_mark p x tr p' : (forall s, heard s [x] = []) -> subscribed x = None -> calm eq p tr p' -> calm eq p (x :: tr) p'.
Proof.
  intros Hx Hsx [Hr Hw Hg Hn Hne Hv]. split; try done; [cbn; by rewrite Hsx|]. intros s. change (x :: tr) with ([x] ++ tr). rewrite heard_app, Hx. apply Hv.
Qed.

Lemma calm_receive id a p p' :
  askers p !! id = Some a -> as_at a = Selecting \/ as_at a = Receiving -> receive id a p = Some p' -> calm eq p [] p'.
Proof.
  intros Ha Hp. unfold receive. destruct (as_reply a); [|done]. intros [= <-].
  moved. by destruct Hp as [-> | ->].
Qed.

Lemma calm_Reply id answer by_ p : calm eq p [] (Reply id answer by_ p).2.
Proof.
  unfold Reply. case_bool_decide; [|done]. upd. destruct (askers p !! id) as [a|] eqn:Ea; [|done].
  destruct (as_reply a); [done|]. eapply calm_put; try done. by rewrite (future_at _ _ _ Ea).
Qed.

(** The question a call of [ask] asks is the one it is named by. *)
Definition named p : Prop := forall id a, askers p !! id = Some a -> qu_ID (as_q a) = id.

Lemma kindOf_other id id' (q : Question E) (c : QuestionClosed A) :
  id' <> id -> (qu_ID q = id -> kindOf id' (MQuestion (A := A) q) = None) /\ (qc_ID c = id -> kindOf id' (MClosed (E := E) c) = None).
Proof. intros Hne. cbn. split; intros ->; by rewrite bool_decide_eq_false_2 by congruence. Qed.

Lemma calm_close id a pl o p tr p' :
  named p -> askers p !! id = Some a -> as_at a = pl -> ahead pl = [KClosed] -> close_ id o a p = Some (tr, p') -> calm eq p tr p'.
Proof.
  intros Hn Ha <- Hp Hc. eapply (calm_ask id a (Closing o)); try done.
  - rewrite Hp. assert (qc_ID (closedBy (as_q a) o) = id) as Hid by (destruct o; by apply Hn).
    cbn [omap list_omap kindOf ahead]. by rewrite bool_decide_eq_true_2.
  - intros id' Hne. eapply (kindOf_other id id' (as_q a)); [done|]. destruct o; by apply Hn.
Qed.

Lemma calm_act x p tr p' :
  named p -> perform x p = Some (tr, p') -> x <> ASubscribe -> (forall s, x <> AUnsubscribe s) ->
  (forall e, x <> ASend (Some e)) ->
  (forall quar j o code, x = AOp quar -> barrier p = Some j -> j_code j = o :: code -> dispatched o = None) -> calm eq p tr p'.
Proof.
  intros Hnm Hx Hns Hnu Hne Hop.
  destruct x as [q ctx watch|id e|id|id|id|id|id|id|id|id|id ans by_|ev| | |s|quar|res| |n|n| |s]; cbn [perform atPlace] in Hx;
    unfold atPlace in Hx; try (destruct (askers p !! id) as [a|] eqn:Ea; [|done]); try done.
  - destruct (askers p !! _) eqn:Ea; [done|]. injection Hx as <- <-. eapply calm_put; try done. unfold future. by rewrite Ea.
  - destruct (as_ctx a) eqn:Ec; [done|]. injection Hx as <- <-. eapply calm_put; try done. by rewrite (future_at _ _ _ Ea).
  - destruct (as_at a) eqn:Ep; try done. injection Hx as Hx. pose proof (calm_enter id a p Ea Ep) as Hk.
    by rewrite Hx in Hk.
  - destruct (as_at a) eqn:Ep; try done. eapply (calm_ask id a Asking); try done.
    + rewrite Ep. cbn. rewrite bool_decide_eq_true_2; [done|by apply Hnm].
    + intros id' Hdiff. eapply (kindOf_other id id' _ {| qc_ID := ""; qc_RunID := ""; qc_Answer := None; qc_By := noTrigger |}); [done|].
      by apply Hnm.
  - destruct (as_at a) eqn:Ep; try done. destruct (receive id a p) eqn:Er; [|done]. injection Hx as <- <-. eapply calm_receive; eauto.
  - destruct (as_at a) eqn:Ep; try done. destruct (as_ctx a) as [e|] eqn:Ec; [|done]. injection Hx as <- <-.
    moved. by rewrite Ep.
  - destruct (as_at a) eqn:Ep; try done. injection Hx as <- <-. unfold giveUp.
    case_bool_decide; (moved; by rewrite Ep).
  - destruct (as_at a) eqn:Ep; try done. destruct (receive id a p) eqn:Er; [|done]. injection Hx as <- <-. eapply calm_receive; eauto.
  - destruct (as_at a) eqn:Ep; try done. injection Hx as <- <-. apply calm_mark; [done..|].
    moved. by rewrite Ep.
  - destruct (as_at a) eqn:Ep; try done; by eapply calm_close.
  - pose proof (calm_Reply id ans by_ p) as Hk. destruct (Reply id ans by_ p) as [[[e|]|[]] p1]; [| |done]; injection Hx as <- <-; [done|].
    by apply calm_mark.
  - unfold free in Hx. destruct (barrier p) eqn:Eb; [done|]. injection Hx as <- <-. by eapply calm_begin.
  - unfold free in Hx. destruct (barrier p) eqn:Eb; [done|]. injection Hx as <- <-. by eapply calm_take.
  - unfold free in Hx. destruct (barrier p) eqn:Eb; [done|]. injection Hx as <- <-. by eapply calm_take.
  - unfold free in Hx. revert Hx. upd. case_bool_decide; [|done]. destruct (barrier p) eqn:Eb; [done|]. intros [= <- <-]. by eapply calm_take.
  - destruct (barrier p) as [j|] eqn:Eb; [|done]. destruct (j_sends j) eqn:Es; [|done]. destruct (j_code j) as [|o code] eqn:Ec; [done|].
    injection Hx as Hx. pose proof (calm_runOp quar o code j p Eb Es Ec ltac:(by eapply Hop)) as Hk. by rewrite Hx in Hk.
  - destruct (barrier p) as [j|] eqn:Eb; [|done]. destruct (j_sends j) as [|[s m] l] eqn:Es; [done|]. destruct res as [e|].
    + by destruct (Hne e).
    + injection Hx as <- <-. by eapply calm_sent.
  - destruct (barrier p) as [j|] eqn:Eb; [|done]. destruct (j_sends j) eqn:Es; [|done]. destruct (j_code j) eqn:Ec; [|done].
    injection Hx as Hx. pose proof (calm_finished j p ltac:(unfold sends; by rewrite Eb)) as Hk. by rewrite Hx in Hk.
  - destruct (leaving p !! n) as [l|]; [|done]. destruct (l_look l); [done|]. destruct (look l p) as [o q]. destruct (o || q).
    + by injection Hx as <- <-.
    + injection Hx as Hx. eapply (calm_then p (p <| leaving ::= delete n |>)); [done|].
      pose proof (calm_returns (l_owner l) (l_err l) (p <| leaving ::= delete n |>)) as Hk. by rewrite Hx in Hk.
  - destruct (leaving p !! n) as [l|]; [|done]. destruct (l_look l) as [q|]; [|done]. destruct (barrier p) as [j|] eqn:Eb.
    + injection Hx as Hx. eapply (calm_then p (p <| leaving ::= delete n |>)); [done|].
      pose proof (calm_returns (l_owner l) (l_err l) (p <| leaving ::= delete n |>)) as Hk. by rewrite Hx in Hk.
    + injection Hx as <- <-. by eapply calm_take.
  - by destruct (Hnu s).
Qed.

Lemma named_put id a a' p p' :
  named p -> askers p !! id = Some a -> as_q a' = as_q a -> askers p' = <[id := a']> (askers p) -> named p'.
Proof.
  intros Hn Ha Hq Hi id' b. rewrite Hi, lookup_insert_Some. intros [[<- <-]|[_ Hb]]; [rewrite Hq|]; by apply Hn.
Qed.

Lemma named_same p p' : named p -> askers p' = askers p -> named p'.
Proof. unfold named. by intros Hn ->. Qed.

(** A step that moves one call on, or none. *)
Ltac renamed :=
  first [ eapply named_same; [eassumption|reflexivity]
        | eapply named_put; [eassumption|eassumption| |reflexivity]; reflexivity ].

Lemma named_resumeAsk id err p : named p -> named (resumeAsk id err p).2.
Proof.
  intros Hn. unfold resumeAsk. destruct (askers p !! id) as [a|] eqn:Ea; [|done].
  destruct (as_at a) as [| | | | | | | | |[r|e]|]; try done; renamed.
Qed.

Lemma named_returns o err p : named p -> named (returns o err p).2.
Proof. destruct o; [apply named_resumeAsk|done]. Qed.

Lemma named_failing e j p : named p -> named (failing e j p).2.
Proof.
  intros Hn. unfold failing. destruct (j_part j); [renamed| |renamed].
  apply named_returns. renamed.
Qed.

Lemma named_runOp quar o code j p : named p -> named (runOp quar o code j p).2.
Proof.
  intros Hn. destruct o as [last| | | |s|m|]; unfold runOp, onAgent; cbn [takeQueuedErr takeQueued takeQuarantineOwed];
    try renamed.
  - destruct (a_queuedErr (agent p)) as [e|]; [destruct last|]; try renamed.
    apply named_failing. renamed.
  - unfold dispatchTo. pose proof (noted_keeps quar m p) as Hf. cbn zeta in Hf. destruct (noted quar m p) as [m' p1].
    cbn [fst snd] in Hf. destruct (takeReplays _ _). destruct Hf as (_ & _ & _ & _ & Ha & _).
    by apply (named_same p).
Qed.

Lemma named_act x p tr p' : named p -> perform x p = Some (tr, p') -> named p'.
Proof.
  intros Hn Hx. assert (forall o : list (mark E A) * plaza C E A, Some o = Some (tr, p') -> named o.2 -> named p') as Hout.
  { by intros o [= ->]. }
  destruct x as [q ctx watch|id e|id|id|id|id|id|id|id|id|id ans by_|ev| | |s|quar|res| |n|n| |s]; cbn [perform] in Hx;
    unfold atPlace, close_, free, receive, option_map in Hx; try (destruct (askers p !! id) as [a|] eqn:Ea; [|done]); upd_in Hx;
    try (repeat (case_match; simplify_eq/=); renamed; fail).
  - destruct (askers p !! _) eqn:Ea; [done|]. injection Hx as <- <-. intros id b. cbn [askers put]. unfold put. upd.
    rewrite lookup_insert_Some. intros [[<- <-]|[_ Hb]]; [done|by apply Hn].
  - destruct (as_at a); try done. eapply Hout; [done|]. unfold enter. destruct (as_ctx a); renamed.
  - destruct (as_at a); try done. injection Hx as <- <-. unfold giveUp. case_bool_decide; renamed.
  - unfold Reply in Hx. case_bool_decide; simplify_eq; [|done]. upd_in Hx. destruct (askers p !! id) as [a|] eqn:Ea; [|done].
    destruct (as_reply a); [done|]. injection Hx as <- <-. renamed.
  - destruct (barrier p) as [j|]; [|done]. destruct (j_sends j); [|done]. destruct (j_code j); [done|].
    eapply Hout; [done|]. by apply named_runOp.
  - destruct (barrier p) as [j|]; [|done]. destruct (j_sends j) as [|[s m] l]; [done|]. destruct res as [e|].
    + pose proof (named_failing e j p Hn) as Hk. destruct (failing e j p). by injection Hx as <- <-.
    + injection Hx as <- <-. renamed.
  - destruct (barrier p) as [j|]; [|done]. destruct (j_sends j); [|done]. destruct (j_code j); [|done].
    eapply Hout; [done|]. unfold finished. destruct (j_part j) as [|? [|]|]; renamed.
  - destruct (leaving p !! n) as [l|]; [|done]. destruct (l_look l); [done|]. destruct (look l p) as [o q]. destruct (o || q).
    + injection Hx as <- <-. renamed.
    + eapply Hout; [done|]. apply named_returns. renamed.
  - destruct (leaving p !! n) as [l|]; [|done]. destruct (l_look l); [|done]. destruct (barrier p).
    + eapply Hout; [done|]. apply named_returns. renamed.
    + injection Hx as <- <-. renamed.
  - unfold SubscribeTo, onAgent, Subscribe in Hx. upd_in Hx. destruct (waiting p); injection Hx as <- <-; renamed.
  - injection Hx as <- <-. renamed.
Qed.

(** How a piece changes what subscribers are told: it may be a dispatch, or a new
    subscriber, or lose something of what was to be sent; any other is calm. *)
Lemma act_cases x p tr p' :
  named p -> perform x p = Some (tr, p') ->
  calm eq p tr p' \/
  (x = ASubscribe /\ tr = [LSubscribe (SubscribeTo p).1 (waiting p)] /\ p' = (SubscribeTo p).2) \/
  (exists s, x = AUnsubscribe s /\ tr = [] /\ p' = unsubscribeFrom s p) \/
  (exists quar j m code, x = AOp quar /\ barrier p = Some j /\ j_sends j = [] /\ j_code j = Dispatch m :: code /\
     (tr, p') = runOp quar (Dispatch m) code j p) \/
  (exists e s, x = ASend (Some e) /\ LFailed s ∈ tr /\ calm sublist p tr p').
Proof.
  intros Hn Hx.
  destruct x as [q ctx watch|id e|id|id|id|id|id|id|id|id|id ans by_|ev| | |s|quar|[e|]| |n|n| |s]; try (left; by eapply calm_act).
  - destruct (barrier p) as [j|] eqn:Eb; [destruct (j_code j) as [|o code] eqn:Ec; [|destruct (dispatched o) as [m|] eqn:Ed]|].
    2: { destruct o as [| | | | |m'|]; try done. right; right; right; left. cbn [perform] in Hx. rewrite Eb, Ec in Hx.
      destruct (j_sends j) eqn:Es; [|done]. exists quar, j, m', code. split_and!; try done. congruence. }
    all: left; eapply calm_act; try done; intros; congruence.
  - right; right; right; right. cbn [perform] in Hx. destruct (barrier p) as [j|] eqn:Eb; [|done].
    destruct (j_sends j) as [|[s m] l] eqn:Es; [done|]. exists e, s. pose proof (calm_failed e p j s m l Eb Es) as Hk.
    destruct (failing e j p). injection Hx as <- <-. split_and!; try done. right. left.
  - right; left. cbn [perform] in Hx. destruct (SubscribeTo p). by injection Hx as <- <-.
  - right; right; left. injection Hx as <- <-. eauto.
Qed.

Lemma calm_agent p g :
  a_subs g = a_subs (agent p) -> a_nextSub g = a_nextSub (agent p) -> calm eq p [] (p <| agent := g |>).
Proof. intros Hs Hn. split; try done. upd. by rewrite Hs. Qed.

Lemma views_step tr p tr' p' : named p -> views tr p -> step p tr' p' -> views (tr ++ tr') p'.
Proof.
  intros Hn Hv Hstep. destruct Hstep as [x p tr' p' Hx|p l g _ Hs Hnx _].
  2: { by eapply views_calm, calm_weaken, calm_agent. }
  destruct (act_cases x p tr' p' Hn Hx)
    as [Hk|[(_ & -> & ->)|[(s & _ & -> & ->)|[(quar & j & m & code & _ & Eb & Es & Ec & Hop)|(e & s & _ & _ & Hk)]]]].
  - by eapply views_calm, calm_weaken.
  - by apply views_Subscribe.
  - eapply views_calm, calm_unsubscribe. done.
  - pose proof (views_dispatch tr quar m code j p Hv Eb Es Ec) as Hv'. by rewrite <- Hop in Hv'.
  - by eapply views_calm.
Qed.

Lemma reaches_named (g : Agent C) tr p : reaches g tr p -> named p.
Proof.
  induction 1 as [|tr p tr' p' Hr Hn Hstep].
  - intros id a. cbn. by rewrite lookup_empty.
  - destruct Hstep as [x p tr' p' Hx|]; [by eapply named_act|done].
Qed.

Lemma reaches_views (g : Agent C) tr p : a_subs g = [] -> reaches g tr p -> views tr p.
Proof.
  intros Hg. induction 1 as [|tr p tr' p' Hr Hv Hstep].
  - assert (forall id, rest id (opened g) = [KAsked; KClosed]) as Hrest.
    { intros id. unfold rest, future. cbn. by rewrite lookup_empty. }
    assert (forall s, view s [] (opened g) = []) as Hview.
    { intros s. unfold view, owed. cbn. by rewrite lookup_empty. }
    split; unfold told.
    + intros id. by rewrite Hrest.
    + intros id s. by rewrite Hview, Hrest.
    + cbn. rewrite Hg. constructor.
    + cbn. rewrite Hg. intros s Hin. by apply not_elem_of_nil in Hin.
    + intros s _. apply Hview.
  - eapply views_step; [by eapply reaches_named|done..].
Qed.

(** ** What a new subscriber is sent first *)

(** [l] and [l'] agree as far as the shorter goes. *)
Definition agree {B} (l l' : list B) : Prop := l `prefix_of` l' \/ l' `prefix_of` l.

(** [s], which subscribed while [ws] waited, and what it is told. *)
Definition firstTold (s : nat) (ws : list (Question E)) tr p : Prop :=
  (s < a_nextSub (agent p))%nat /\
  (map MQuestion ws `prefix_of` view s tr p \/ (view s tr p `prefix_of` map MQuestion ws /\ s ∉ a_subs (agent p))).

Lemma view_calm s tr p tr' p' : calm eq p tr' p' -> view s (tr ++ tr') p' = view s tr p.
Proof. intros []. unfold view. rewrite heard_app, <- app_assoc. by f_equal. Qed.

Lemma view_unsubscribe s s' tr p :
  view s' tr (unsubscribeFrom s p) = if bool_decide (s = s') then heard s' tr ++ omap (sendTo s') (sends p) else view s' tr p.
Proof.
  unfold view, owed, unsubscribeFrom. upd. case_bool_decide as Hs.
  - subst. rewrite lookup_delete_eq. cbn. by rewrite app_nil_r.
  - by rewrite lookup_delete_ne.
Qed.

Lemma firstTold_same s ws tr p tr' p' :
  firstTold s ws tr p -> a_subs (agent p') `sublist_of` a_subs (agent p) -> (a_nextSub (agent p) <= a_nextSub (agent p'))%nat ->
  view s tr' p' = view s tr p -> firstTold s ws tr' p'.
Proof.
  intros [Hn Hf] Hs Hle Hv. split; [lia|]. rewrite Hv. destruct Hf as [Hf|[Hf Hni]]; [by left|right]. split; [done|].
  intros Hin. by apply Hni, (elem_of_sublist _ _ _ Hin).
Qed.

Lemma firstTold_step s ws tr p tr' p' :
  named p -> views tr p -> step p tr' p' -> (forall s', LFailed s' ∉ tr') -> firstTold s ws tr p -> firstTold s ws (tr ++ tr') p'.
Proof.
  intros Hnm Hv Hstep Hnf Hf. destruct Hstep as [x p tr' p' Hx|p l g _ Hs Hnx _].
  2: { eapply firstTold_same; [done|upd; by rewrite Hs|upd; by rewrite Hnx|]. by eapply view_calm, calm_agent. }
  destruct (act_cases x p tr' p' Hnm Hx)
    as [Hk|[(_ & -> & ->)|[(s' & _ & -> & ->)|[(quar & j & m & code & _ & Eb & Es & Ec & Hop)|(e & s' & _ & Hin & Hk)]]]].
  - eapply firstTold_same; [done|apply Hk|by rewrite (k_next _ _ _ _ Hk)|by apply view_calm].
  - destruct (SubscribeTo_fields p) as (_ & _ & _ & _ & Hsb & Hnx & _). destruct Hf as [Hlt Hf]. split; [lia|].
    rewrite subscribe_view by (by apply Hv). rewrite bool_decide_eq_false_2 by lia. destruct Hf as [Hf|[Hf Hni]]; [by left|right].
    split; [done|]. rewrite Hsb, elem_of_app, list_elem_of_singleton. intros [Hin|Hin]; [done|lia].
  - rewrite app_nil_r. destruct Hf as [Hlt Hf]. split; [done|]. rewrite view_unsubscribe. case_bool_decide as Hs.
    + subst s'. assert (heard s tr ++ omap (sendTo s) (sends p) `prefix_of` view s tr p) as Hp.
      { unfold view. rewrite app_assoc. by eexists. }
      assert (s ∉ a_subs (agent (unsubscribeFrom s p))) as Hni.
      { unfold unsubscribeFrom, unsubscribe. upd. rewrite list_elem_of_filter. naive_solver. }
      destruct Hf as [Hf|[Hf _]]; [|right; split; [by etrans|done]].
      destruct (prefix_weak_total _ _ _ Hf Hp); [by left|by right].
    + destruct Hf as [Hf|[Hf Hni]]; [by left|right]. split; [done|].
      unfold unsubscribeFrom, unsubscribe. upd. rewrite list_elem_of_filter. by intros [_ Hin].
  - destruct (dispatch_view tr quar m code j p) as (m' & _ & Hv' & _ & _ & Hsb & Hnx & _); try done; [by apply Hv|].
    assert (tr' = []) as ->. { unfold runOp in Hop. destruct (dispatchTo quar m p). by injection Hop. }
    rewrite <- Hop in *. cbn [snd] in *. rewrite app_nil_r. destruct Hf as [Hlt Hf]. split; [lia|]. rewrite Hv', Hsb.
    destruct Hf as [Hf|[Hf Hni]]; [left; by apply prefix_app_r|right]. rewrite bool_decide_eq_false_2 by done. by rewrite app_nil_r.
  - by destruct (Hnf s').
Qed.

Lemma reaches_firstTold (g : Agent C) tr p s ws :
  a_subs g = [] -> reaches g tr p -> (forall s', LFailed s' ∉ tr) -> LSubscribe s ws ∈ tr -> firstTold s ws tr p.
Proof.
  intros Hg. induction 1 as [|tr p tr' p' Hr IH Hstep]; intros Hnf Hin; [by apply not_elem_of_nil in Hin|].
  pose proof (reaches_named _ _ _ Hr) as Hnm. pose proof (reaches_views _ _ _ Hg Hr) as Hv.
  apply elem_of_app in Hin as [Hin|Hin].
  { eapply firstTold_step; try done; [|apply IH; [|done]]; intros s' Hs; apply (Hnf s'), elem_of_app; auto. }
  destruct Hstep as [x p tr' p' Hx|]; [|by apply not_elem_of_nil in Hin].
  assert ((s, ws) ∈ omap subscribed tr') as Hsub by (apply list_elem_of_omap; eauto).
  destruct (act_cases x p tr' p' Hnm Hx)
    as [Hk|[(_ & -> & ->)|[(s' & _ & -> & ->)|[(quar & j & m & code & _ & Eb & Es & Ec & Hop)|(e & s' & _ & _ & Hk)]]]].
  1, 5: rewrite (k_new _ _ _ _ Hk) in Hsub; by apply not_elem_of_nil in Hsub.
  2: by apply not_elem_of_nil in Hin.
  2: { unfold runOp in Hop. destruct (dispatchTo quar m p). injection Hop as -> _. by apply not_elem_of_nil in Hin. }
  apply list_elem_of_singleton in Hin as [= -> ->].
  destruct (SubscribeTo_fields p) as (Hn & _ & _ & _ & _ & Hnx & _). split; [lia|].
  left. rewrite subscribe_view by (by apply Hv). by rewrite bool_decide_eq_true_2.
Qed.

(** C7: a subscriber is told of a question at most once, and of its close at most once,
    and never of the question after its close: however the goroutines of the agent are
    scheduled, whoever fails, and whenever the subscriber came, by an event of its own or by
    the questions it was owed when it subscribed. *)
Theorem question_told_once (g : Agent C) tr p id s :
  a_subs g = [] -> reaches g tr p -> omap (kindOf id) (heard s tr) `sublist_of` [KAsked; KClosed].
Proof.
  intros Hg Hr. pose proof (v_told _ _ (reaches_views _ _ _ Hg Hr) id s) as Ht. etrans; [|exact Ht].
  unfold view. rewrite omap_app, <- app_assoc. by apply sublist_inserts_r.
Qed.

(** A subscriber that comes while questions wait is told of them first, in the order
    they were asked, before any other event, as long as no subscriber fails; by then it may
    have been told of some of them only. *)
Theorem waiting_told_first (g : Agent C) tr p s ws :
  a_subs g = [] -> reaches g tr p -> (forall s', LFailed s' ∉ tr) -> LSubscribe s ws ∈ tr ->
  agree (heard s tr) (map MQuestion ws).
Proof.
  intros Hg Hr Hnf Hin. destruct (reaches_firstTold _ _ _ _ _ Hg Hr Hnf Hin) as [_ Hf].
  assert (heard s tr `prefix_of` view s tr p) as Hp by by eexists. destruct Hf as [Hf|[Hf _]].
  - by eapply prefix_weak_total.
  - left. by etrans.
Qed.

End Asked.
