(* ===== verification/Replies.v ===== *)
(** * Replies: the one reply a question takes, what its call returns and its close carries;
    and that no goroutine of a question is left waiting for what cannot come. *)

From S2P Require Import Toy.
From S2P Require Export Asked.

Section Replies.
Context {C E A : Type}.
Implicit Types (p : plaza C E A) (a : asking E A) (j : job E A) (tr : list (mark E A)).

(** ** One reply *)

(** The replies accepted for [id], what its watchers held once told, and what its call
    returned. *)
Definition repliedTo (id : string) (x : mark E A) : option (replied A) :=
  match x with LReply i r => if bool_decide (i = id) then Some r else None | _ => None end.
Definition toldOf (id : string) (x : mark E A) : option (list (nat * option Trigger)) :=
  match x with LTold i held => if bool_decide (i = id) then Some held else None | _ => None end.
Definition returnOf (id : string) (x : mark E A) : option (A + error) :=
  match x with LReturn i o => if bool_decide (i = id) then Some o else None | _ => None end.
Definition replies (id : string) tr := omap (repliedTo id) tr.
Definition tolds (id : string) tr := omap (toldOf id) tr.
Definition returned (id : string) tr := omap (returnOf id) tr.

(** Every watcher of [watch] holds [by_]. *)
Definition toldAll (watch : list nat) (by_ : Trigger) : list (nat * option Trigger) := map (fun w => (w, Some by_)) watch.

Lemma tellAnswerer_toldAll watch by_ m : holding_ watch (tellAnswerer watch by_ m) = toldAll watch by_.
Proof.
  unfold holding_, toldAll. apply map_ext_in. intros w Hin%list_elem_of_In. f_equal. unfold tellAnswerer.
  assert (forall l (m : gmap nat Trigger), w ∈ l \/ m !! w = Some by_ -> foldl (fun m h => <[h := by_]> m) m l !! w = Some by_) as Hx; [|by auto].
  clear. induction l as [|v l IH]; intros m Hm; cbn [foldl]; [by destruct Hm as [?%not_elem_of_nil|]|]. apply IH.
  destruct (decide (v = w)) as [->|Hne]; [right; apply lookup_insert_eq|]. rewrite lookup_insert_ne by done.
  destruct Hm as [[->|Hm]%elem_of_cons|Hm]; [done|by left|by right].
Qed.

(** Either the question can still be answered, or its one reply is on its channel. *)
Definition awaits (reg : bool) (reps : list (replied A)) (reply : option (replied A)) : Prop :=
  (reg = true /\ reps = [] /\ reply = None) \/ (reg = false /\ exists r, reps = [r] /\ reply = Some r).

Definition stage (reg : bool) (reps : list (replied A)) (ts : list (list (nat * option Trigger))) (rets : list (A + error)) a : Prop :=
  match as_at a with
  | Start => reg = false /\ reps = [] /\ ts = [] /\ rets = [] /\ as_reply a = None
  | Registered | Asking | Selecting | GivingUp _ => ts = [] /\ rets = [] /\ awaits reg reps (as_reply a)
  | Receiving => reg = false /\ ts = [] /\ rets = [] /\ exists r, reps = [r] /\ as_reply a = Some r
  | Telling r => reg = false /\ reps = [r] /\ ts = [] /\ rets = [] /\ as_reply a = None
  | Told r | Closing (inl r) => reg = false /\ reps = [r] /\ ts = [toldAll (as_watch a) (rp_by r)] /\ rets = [] /\ as_reply a = None
  | Withdrawn _ | Closing (inr _) => reg = false /\ reps = [] /\ ts = [] /\ rets = [] /\ as_reply a = None
  | Returned (inl ans) => reg = false /\ as_reply a = None /\ rets = [inl ans] /\
      exists by_, reps = [{| rp_answer := ans; rp_by := by_ |}] /\ ts = [toldAll (as_watch a) by_]
  | Returned (inr e) => reg = false /\ reps = [] /\ ts = [] /\ rets = [inr e] /\ as_reply a = None
  end.

Definition fate (id : string) tr p : Prop :=
  match askers p !! id with
  | None => id ∉ asks p /\ replies id tr = [] /\ tolds id tr = [] /\ returned id tr = []
  | Some a => stage (bool_decide (id ∈ asks p)) (replies id tr) (tolds id tr) (returned id tr) a
  end.

(** Nothing in [tr] is about [id]. *)
Definition silent (id : string) tr : Prop := replies id tr = [] /\ tolds id tr = [] /\ returned id tr = [].

Lemma about_app id tr tr' :
  replies id (tr ++ tr') = replies id tr ++ replies id tr' /\ tolds id (tr ++ tr') = tolds id tr ++ tolds id tr' /\
  returned id (tr ++ tr') = returned id tr ++ returned id tr'.
Proof. unfold replies, tolds, returned. by rewrite !omap_app. Qed.

Lemma fate_other id tr p tr' p' :
  fate id tr p -> askers p' !! id = askers p !! id -> (id ∈ asks p' <-> id ∈ asks p) -> silent id tr' -> fate id (tr ++ tr') p'.
Proof.
  unfold fate. intros Hf Ha Hs (H1 & H2 & H3). destruct (about_app id tr tr') as (-> & -> & ->). rewrite Ha, H1, H2, H3, !app_nil_r.
  destruct (askers p !! id); [|naive_solver]. by rewrite (bool_decide_ext _ _ Hs).
Qed.

(** One call moved, with what it shows of itself. *)
Lemma fate_put id a a' tr p tr' p' :
  (forall id', fate id' tr p) -> askers p !! id = Some a -> askers p' = <[id := a']> (askers p) ->
  (forall id', id' <> id -> (id' ∈ asks p' <-> id' ∈ asks p) /\ silent id' tr') ->
  (stage (bool_decide (id ∈ asks p)) (replies id tr) (tolds id tr) (returned id tr) a ->
   stage (bool_decide (id ∈ asks p')) (replies id tr ++ replies id tr') (tolds id tr ++ tolds id tr')
     (returned id tr ++ returned id tr') a') ->
  forall id', fate id' (tr ++ tr') p'.
Proof.
  intros Hf Ha Hi Ho Hs id'. destruct (decide (id' = id)) as [->|Hne].
  - specialize (Hf id). unfold fate in *. rewrite Ha in Hf. rewrite Hi, lookup_insert_eq.
    destruct (about_app id tr tr') as (-> & -> & ->). by apply Hs.
  - destruct (Ho id' Hne). eapply fate_other; [done| |done..]. by rewrite Hi, lookup_insert_ne.
Qed.

Lemma fate_same tr p tr' p' :
  (forall id, fate id tr p) -> askers p' = askers p -> asks p' = asks p -> (forall id, silent id tr') -> forall id, fate id (tr ++ tr') p'.
Proof. intros Hf Ha Hs Ht id. eapply fate_other; [done|by rewrite Ha|by rewrite Hs|done]. Qed.

Lemma silent_one id id' (x : mark E A) :
  id' <> id -> match x with LReply i _ | LTold i _ | LReturn i _ => i = id | _ => True end -> silent id' [x].
Proof. intros Hne. destruct x; cbn; intros H; subst; unfold silent; cbn; by rewrite ?bool_decide_eq_false_2 by congruence. Qed.

(** At most one thing shown, and of [id]. *)
Definition ownMark (id : string) tr : Prop :=
  match tr with [] => True | [x] => match x with LReply i _ | LTold i _ | LReturn i _ => i = id | _ => False end | _ => False end.

Lemma ownMark_silent id tr id' : ownMark id tr -> id' <> id -> silent id' tr.
Proof.
  destruct tr as [|x [|y l]]; [done| |done]. intros Hx Hne. apply (silent_one id); [done|]. by destruct x.
Qed.

(** A call that moves, its question's registration as it was. *)
Lemma fate_move id a a' tr p tr' p' :
  (forall id', fate id' tr p) -> askers p !! id = Some a -> askers p' = <[id := a']> (askers p) -> asks p' = asks p ->
  ownMark id tr' ->
  (stage (bool_decide (id ∈ asks p)) (replies id tr) (tolds id tr) (returned id tr) a ->
   stage (bool_decide (id ∈ asks p)) (replies id tr ++ replies id tr') (tolds id tr ++ tolds id tr')
     (returned id tr ++ returned id tr') a') ->
  forall id', fate id' (tr ++ tr') p'.
Proof.
  intros Hf Ha Hi Hs Ht Hst. eapply fate_put; [done..| |by rewrite Hs]. intros id' Hne. split; [by rewrite Hs|by apply (ownMark_silent id)].
Qed.

Lemma fate_quiet tr p p' : (forall id, fate id tr p) -> askers p' = askers p -> asks p' = asks p -> forall id, fate id tr p'.
Proof. intros Hf Ha Hs id. rewrite <- (app_nil_r tr). by apply (fate_same tr p). Qed.

(** A call that moves and shows nothing of it. *)
Lemma fate_step id a a' tr p p' :
  (forall id', fate id' tr p) -> askers p !! id = Some a -> askers p' = <[id := a']> (askers p) -> asks p' = asks p ->
  (forall reg reps ts rets, stage reg reps ts rets a -> stage reg reps ts rets a') -> forall id', fate id' (tr ++ []) p'.
Proof.
  intros Hf Ha Hi Hs Hst. eapply fate_move; try done. unfold replies, tolds, returned. cbn [omap list_omap]. rewrite !app_nil_r. auto.
Qed.

Lemma fate_resumeAsk id err tr p :
  (forall id', fate id' tr p) -> forall id', fate id' (tr ++ (resumeAsk id err p).1) (resumeAsk id err p).2.
Proof.
  intros Hf. unfold resumeAsk. destruct (askers p !! id) as [a|] eqn:Ea; [|by intros; rewrite app_nil_r].
  destruct (as_at a) as [| | | | | | | | |[r|e]|] eqn:Ep; try (by intros; rewrite app_nil_r); cbn [fst snd].
  - eapply fate_step; [eassumption|eassumption|reflexivity|reflexivity|]. unfold stage. intros reg reps ts rets. upd. rewrite Ep. by destruct err.
  - eapply fate_move; [eassumption|eassumption|reflexivity|reflexivity|done|]. unfold stage. upd. rewrite Ep. cbn.
    rewrite (bool_decide_eq_true_2 (id = id)), !app_nil_r by done.
    intros (-> & -> & -> & -> & ->). split_and!; try done. exists (rp_by r). by destruct r.
  - eapply fate_move; [eassumption|eassumption|reflexivity|reflexivity|done|]. unfold stage. upd. rewrite Ep. cbn.
    rewrite (bool_decide_eq_true_2 (id = id)), !app_nil_r by done.
    by intros (-> & -> & -> & -> & ->).
Qed.

Lemma fate_returns o err tr p : (forall id, fate id tr p) -> forall id, fate id (tr ++ (returns o err p).1) (returns o err p).2.
Proof. destruct o; [apply fate_resumeAsk|]. intros Hf id. by rewrite app_nil_r. Qed.

Lemma fate_failing e j tr p : (forall id, fate id tr p) -> forall id, fate id (tr ++ (failing e j p).1) (failing e j p).2.
Proof.
  intros Hf. unfold failing. destruct (j_part j); [|apply fate_returns; by apply (fate_quiet tr p)|]; by apply (fate_same tr p).
Qed.

Lemma fate_finished j tr p : (forall id, fate id tr p) -> forall id, fate id (tr ++ (finished j p).1) (finished j p).2.
Proof. intros Hf. unfold finished. destruct (j_part j) as [|n [|]|]; by apply (fate_same tr p). Qed.

Lemma fate_runOp quar o code j tr p :
  (forall id, fate id tr p) -> forall id, fate id (tr ++ (runOp quar o code j p).1) (runOp quar o code j p).2.
Proof.
  intros Hf. destruct o as [last| | | |s|m|]; unfold runOp, onAgent; cbn [takeQueuedErr takeQueued takeQuarantineOwed];
    try by apply (fate_same tr p).
  - destruct (a_queuedErr (agent p)) as [e|]; [destruct last|]; try by apply (fate_same tr p).
    apply fate_failing. by apply (fate_quiet tr p).
  - unfold dispatchTo. pose proof (noted_keeps quar m p) as Hn. cbn zeta in Hn. destruct (noted quar m p) as [m' p1] eqn:En.
    cbn [fst snd] in Hn. destruct (takeReplays _ _). apply (fate_same tr p); try done; [apply Hn|]. upd.
    clear Hn. unfold noted, onAgent in En. destruct m as [| |ev]; [by injection En as <- <-..|].
    destruct (record quar ev (agent p)). by injection En as <- <-.
Qed.

(** A call moved to a place its stage is enough for. *)
Ltac staged Ep :=
  cbn [fst snd]; eapply fate_step; [eassumption|eassumption|reflexivity|reflexivity|];
  unfold stage, awaits; intros reg reps ts rets; upd; rewrite Ep; naive_solver.

Lemma fate_enter id a tr p :
  (forall id', fate id' tr p) -> askers p !! id = Some a -> as_at a = Start ->
  forall id', fate id' (tr ++ (enter id a p).1) (enter id a p).2.
Proof.
  intros Hf Ha Hp. unfold enter. destruct (as_ctx a) as [e|]; cbn [fst snd].
  - eapply fate_move; [eassumption|eassumption|reflexivity|reflexivity|done|]. unfold stage. upd. rewrite Hp. cbn.
    rewrite (bool_decide_eq_true_2 (id = id)), !app_nil_r by done. by intros (-> & -> & -> & -> & ->).
  - eapply fate_put; [eassumption|eassumption|reflexivity| |].
    + intros id' Hne. unfold move, put. upd. split; [set_solver|done].
    + unfold stage, awaits, move, put. upd. rewrite Hp. cbn. rewrite !app_nil_r. rewrite (bool_decide_eq_true_2 (id ∈ {[id]} ∪ _)) by set_solver.
      intros (_ & -> & -> & -> & ->). naive_solver.
Qed.

Lemma fate_giveUp id e a tr p :
  (forall id', fate id' tr p) -> askers p !! id = Some a -> as_at a = GivingUp e -> forall id', fate id' (tr ++ []) (giveUp id e a p).
Proof.
  intros Hf Ha Hp. unfold giveUp. case_bool_decide as Hin.
  - eapply fate_put; [eassumption|eassumption|reflexivity| |].
    + intros id' Hne. unfold move, put. upd. split; [set_solver|done].
    + unfold stage, awaits, move, put. upd. rewrite Hp. cbn. rewrite !app_nil_r, (bool_decide_eq_true_2 (id ∈ asks p)) by done.
      rewrite (bool_decide_eq_false_2 (id ∈ _ ∖ _)) by set_solver. naive_solver.
  - eapply fate_move; [eassumption|eassumption|reflexivity|reflexivity|done|]. unfold stage, awaits. upd. rewrite Hp. cbn.
    rewrite !app_nil_r, (bool_decide_eq_false_2 (id ∈ asks p)) by done. naive_solver.
Qed.

Lemma fate_receive id a tr p p' :
  (forall id', fate id' tr p) -> askers p !! id = Some a -> as_at a = Selecting \/ as_at a = Receiving ->
  receive id a p = Some p' -> forall id', fate id' (tr ++ []) p'.
Proof.
  intros Hf Ha Hp. unfold receive. destruct (as_reply a) as [r|] eqn:Er; [|done]. intros [= <-].
  cbn [fst snd]; eapply fate_step; [eassumption|eassumption|reflexivity|reflexivity|].
  unfold stage, awaits; intros reg reps ts rets; upd. rewrite Er. destruct Hp as [-> | ->]; naive_solver.
Qed.

(** A reply is never kept waiting, and is accepted when the question still waits. *)
Lemma Reply_cases id answer by_ tr p :
  (forall id', fate id' tr p) ->
  (exists a, id ∈ asks p /\ askers p !! id = Some a /\ as_reply a = None /\
    Reply id answer by_ p = (inl None, put id (a <| as_reply := Some {| rp_answer := answer; rp_by := by_ |} |>)
                                         (p <| asks ::= fun s => s ∖ {[id]} |>))) \/
  (id ∉ asks p /\ Reply id answer by_ p = (inl (Some (Errorf "agentturn: no such question is waiting")), p)).
Proof.
  intros Hf. specialize (Hf id). unfold Reply, fate in *. case_bool_decide as Hin; [left|by right]. upd.
  destruct (askers p !! id) as [a|] eqn:Ea; [|naive_solver]. destruct (as_reply a) as [r|] eqn:Er; [exfalso|by exists a].
  unfold stage, awaits in Hf. rewrite Er in Hf. destruct (as_at a) as [| | | | | | | | |[|]|[|]]; naive_solver.
Qed.

Lemma fate_Reply id answer by_ tr p p' tr' :
  (forall id', fate id' tr p) -> perform (AReply id answer by_) p = Some (tr', p') -> forall id', fate id' (tr ++ tr') p'.
Proof.
  intros Hf. cbn [perform]. destruct (Reply_cases id answer by_ tr p Hf) as [(a & Hin & Ha & Hr & ->)|[Hni ->]]; intros [= <- <-].
  - eapply fate_put; [eassumption|eassumption|reflexivity| |].
    + intros id' Hne. unfold put. upd. split; [set_solver|]. by apply (silent_one id).
    + unfold stage, awaits, put. upd. rewrite Hr. cbn. rewrite (bool_decide_eq_true_2 (id = id)), !app_nil_r by done.
      rewrite (bool_decide_eq_false_2 (id ∈ _ ∖ _)), (bool_decide_eq_true_2 (id ∈ asks p)) by set_solver.
      destruct (as_at a) as [| | | | | | | | |[|]|[|]];
        first [ intros (-> & -> & [(_ & -> & _)|(? & _)]); [split_and!; [done..|right; split; [done|by eexists]]|done]
              | by intros [? _] ].
  - by apply (fate_same tr p).
Qed.

Lemma fate_act x tr p tr' p' :
  (forall id, fate id tr p) -> perform x p = Some (tr', p') -> forall id, fate id (tr ++ tr') p'.
Proof.
  intros Hf Hx. assert (forall o : list (mark E A) * plaza C E A, Some o = Some (tr', p') ->
    (forall id, fate id (tr ++ o.1) o.2) -> forall id, fate id (tr ++ tr') p') as Hout by by intros o [= ->].
  destruct x as [q ctx watch|id e|id|id|id|id|id|id|id|id|id ans by_|ev| | |s|quar|res| |n|n| |s]; cbn [perform] in Hx;
    unfold atPlace, close_, free, option_map in Hx; try (destruct (askers p !! id) as [a|] eqn:Ea; [|done]); upd_in Hx;
    try (destruct (as_at a) eqn:Ep; try done; []).
  - destruct (askers p !! qu_ID q) eqn:Ea; [done|]. injection Hx as <- <-. intros id. destruct (decide (id = qu_ID q)) as [->|Hne].
    + specialize (Hf (qu_ID q)). unfold fate in *. rewrite Ea in Hf. destruct Hf as (Hni & Hs1 & Hs2 & Hs3).
      unfold put. upd. rewrite lookup_insert_eq, app_nil_r, Hs1, Hs2, Hs3. cbn. by rewrite bool_decide_eq_false_2.
    + eapply fate_other; [done| |done..]. unfold put. upd. by rewrite lookup_insert_ne.
  - destruct (as_ctx a); [done|]. injection Hx as <- <-.
    eapply fate_step; [eassumption|eassumption|reflexivity|reflexivity|]. unfold stage. upd. done.
  - eapply Hout; [done|]. by apply fate_enter.
  - change (barrier (move id Asking a p)) with (barrier p) in Hx. destruct (barrier p); [done|]. injection Hx as <- <-. staged Ep.
  - destruct (receive id a p) eqn:Er; [|done]. injection Hx as <- <-. eapply fate_receive; eauto.
  - destruct (as_ctx a); [|done]. injection Hx as <- <-. staged Ep.
  - injection Hx as <- <-. by apply (fate_giveUp id e).
  - destruct (receive id a p) eqn:Er; [|done]. injection Hx as <- <-. eapply fate_receive; eauto.
  - injection Hx as <- <-. eapply fate_move; [eassumption|eassumption|reflexivity|reflexivity|done|]. unfold stage. upd. rewrite Ep. cbn.
    rewrite (bool_decide_eq_true_2 (id = id)), !app_nil_r by done. unfold move, put. upd. rewrite tellAnswerer_toldAll.
    by intros (-> & -> & -> & -> & ->).
  - destruct (as_at a) eqn:Ep; try done; unfold move, put in Hx; upd_in Hx;
      (destruct (barrier p); [done|]); injection Hx as <- <-; staged Ep.
  - by eapply fate_Reply.
  - destruct (barrier p); [done|]. injection Hx as <- <-. by apply (fate_same tr p).
  - destruct (barrier p); [done|]. injection Hx as <- <-. by apply (fate_same tr p).
  - destruct (barrier p); [done|]. injection Hx as <- <-. by apply (fate_same tr p).
  - case_bool_decide; [|done]. destruct (barrier p); [done|]. injection Hx as <- <-. by apply (fate_same tr p).
  - destruct (barrier p) as [j|]; [|done]. destruct (j_sends j); [|done]. destruct (j_code j); [done|].
    eapply Hout; [done|]. by apply fate_runOp.
  - destruct (barrier p) as [j|]; [|done]. destruct (j_sends j) as [|[s m] l]; [done|]. destruct res as [e|].
    + pose proof (fate_failing e j (tr ++ [LSent s m; LFailed s]) p) as Hk. destruct (failing e j p). injection Hx as <- <-.
      cbn [fst snd] in Hk. assert (forall id, fate id (tr ++ [LSent s m; LFailed s]) p) as Hf' by by apply (fate_same tr p).
      intros id. specialize (Hk Hf' id). by rewrite <- app_assoc in Hk.
    + injection Hx as <- <-. by apply (fate_same tr p).
  - destruct (barrier p) as [j|]; [|done]. destruct (j_sends j); [|done]. destruct (j_code j); [|done].
    eapply Hout; [done|]. by apply fate_finished.
  - destruct (leaving p !! n) as [l|]; [|done]. destruct (l_look l); [done|]. destruct (look l p) as [o q]. destruct (o || q).
    + injection Hx as <- <-. by apply (fate_same tr p).
    + eapply Hout; [done|]. apply fate_returns. by apply (fate_quiet tr p).
  - destruct (leaving p !! n) as [l|]; [|done]. destruct (l_look l); [|done]. destruct (barrier p).
    + eapply Hout; [done|]. apply fate_returns. by apply (fate_quiet tr p).
    + injection Hx as <- <-. by apply (fate_same tr p).
  - destruct (SubscribeTo_fields p) as (_ & _ & Ha & _ & _ & _ & _ & _ & Hs & _). destruct (SubscribeTo p). injection Hx as <- <-.
    by apply (fate_same tr p).
  - injection Hx as <- <-. by apply (fate_same tr p).
Qed.

Lemma reaches_fate (g : Agent C) tr p : reaches g tr p -> forall id, fate id tr p.
Proof.
  induction 1 as [|tr p tr' p' Hr IH Hstep].
  - intros id. unfold fate. cbn. rewrite lookup_empty. split; [set_solver|done].
  - destruct Hstep as [x p tr' p' Hx|]; [by eapply fate_act|by apply (fate_same tr p)].
Qed.

(** ** What a close carries *)

(** Whether a call past its question was answered. *)
Definition ending (pl : place A) : option bool :=
  match pl with
  | Closing (inl _) | Returned (inl _) => Some true
  | Closing (inr _) | Returned (inr _) => Some false
  | _ => None
  end.

(** A call keeps its question and its watchers, and once past the question how it ended. *)
Definition keeps p p' : Prop := forall id a, askers p !! id = Some a ->
  exists a', askers p' !! id = Some a' /\ as_q a' = as_q a /\ as_watch a' = as_watch a /\ (forall b, ending (as_at a) = Some b -> ending (as_at a') = Some b).

Lemma keeps_same p p' : askers p' = askers p -> keeps p p'.
Proof. intros He id a Ha. rewrite He. by exists a. Qed.

Lemma keeps_put id a a' p p' :
  askers p !! id = Some a -> askers p' = <[id := a']> (askers p) -> as_q a' = as_q a -> as_watch a' = as_watch a ->
  (forall b, ending (as_at a) = Some b -> ending (as_at a') = Some b) -> keeps p p'.
Proof.
  intros Ha Hi Hq Hw Hp i b Hb. rewrite Hi. destruct (decide (i = id)) as [->|Hne].
  - rewrite lookup_insert_eq. exists a'. rewrite Ha in Hb. by injection Hb as <-.
  - rewrite lookup_insert_ne by done. by exists b.
Qed.

Lemma keeps_trans p p1 p2 : keeps p p1 -> keeps p1 p2 -> keeps p p2.
Proof.
  intros H1 H2 id a Ha. destruct (H1 id a Ha) as (a1 & Ha1 & Hq1 & Hw1 & Hp1). destruct (H2 id a1 Ha1) as (a2 & ? & ? & ? & ?).
  exists a2. split_and!; [done|congruence|congruence|auto].
Qed.

(** A step that moves one call on, or none. *)
Ltac kept :=
  first [ eapply keeps_same; reflexivity
        | eapply keeps_put; [eassumption|reflexivity|reflexivity|reflexivity|upd;
            repeat match goal with H : as_at _ = _ |- _ => rewrite H end; done] ].

Lemma keeps_returns o err p : keeps p (returns o err p).2.
Proof.
  destruct o as [id|]; [|kept]. unfold returns, resumeAsk. destruct (askers p !! id) as [a|] eqn:Ea; [|kept].
  destruct (as_at a) as [| | | | | | | | |[r|e]|] eqn:Ep; kept.
Qed.

Lemma keeps_failing e j p : keeps p (failing e j p).2.
Proof.
  unfold failing. destruct (j_part j); [kept| |kept].
  eapply keeps_trans; [|apply keeps_returns]. kept.
Qed.

Lemma keeps_runOp quar o code j p : keeps p (runOp quar o code j p).2.
Proof.
  destruct o as [last| | | |s|m|]; unfold runOp, onAgent; cbn [takeQueuedErr takeQueued takeQuarantineOwed]; try kept.
  - destruct (a_queuedErr (agent p)) as [e|]; [destruct last|]; try kept.
    eapply keeps_trans; [|apply keeps_failing]. kept.
  - unfold dispatchTo. pose proof (noted_keeps quar m p) as Hf. cbn zeta in Hf. destruct (noted quar m p) as [m' p1].
    cbn [fst snd] in Hf. destruct (takeReplays _ _). apply keeps_same, Hf.
Qed.

Lemma keeps_act x p tr p' : perform x p = Some (tr, p') -> keeps p p'.
Proof.
  intros Hx. assert (forall o : list (mark E A) * plaza C E A, Some o = Some (tr, p') -> keeps p o.2 -> keeps p p') as Hout
    by by intros o [= ->].
  destruct x as [q ctx watch|id e|id|id|id|id|id|id|id|id|id ans by_|ev| | |s|quar|res| |n|n| |s]; cbn [perform] in Hx;
    unfold atPlace, close_, free, receive, option_map in Hx; try (destruct (askers p !! id) as [a|] eqn:Ea; [|done]); upd_in Hx;
    try (repeat (case_match; simplify_eq/=); kept; fail).
  - destruct (askers p !! _) eqn:Ea; [done|]. injection Hx as <- <-. intros id b Hb. unfold put. upd. exists b.
    rewrite lookup_insert_ne by congruence. done.
  - destruct (as_at a) eqn:Ep; try done. eapply Hout; [done|]. unfold enter. destruct (as_ctx a); kept.
  - destruct (as_at a) eqn:Ep; try done. injection Hx as <- <-. unfold giveUp. case_bool_decide; kept.
  - unfold Reply in Hx. case_bool_decide; simplify_eq; [|kept]. upd_in Hx. destruct (askers p !! id) as [a|] eqn:Ea; [|done].
    destruct (as_reply a); [done|]. injection Hx as <- <-. kept.
  - destruct (barrier p) as [j|]; [|done]. destruct (j_sends j); [|done]. destruct (j_code j); [done|].
    eapply Hout; [done|]. by apply keeps_runOp.
  - destruct (barrier p) as [j|]; [|done]. destruct (j_sends j) as [|[s m] l]; [done|]. destruct res as [e|].
    + pose proof (keeps_failing e j p) as Hk. destruct (failing e j p). by injection Hx as <- <-.
    + injection Hx as <- <-. kept.
  - destruct (barrier p) as [j|]; [|done]. destruct (j_sends j); [|done]. destruct (j_code j); [|done].
    eapply Hout; [done|]. unfold finished. destruct (j_part j) as [|? [|]|]; kept.
  - destruct (leaving p !! n) as [l|]; [|done]. destruct (l_look l); [done|]. destruct (look l p) as [o q]. destruct (o || q).
    + injection Hx as <- <-. kept.
    + eapply Hout; [done|]. eapply keeps_trans; [|apply keeps_returns]. kept.
  - destruct (leaving p !! n) as [l|]; [|done]. destruct (l_look l); [|done]. destruct (barrier p).
    + eapply Hout; [done|]. eapply keeps_trans; [|apply keeps_returns]. kept.
    + injection Hx as <- <-. kept.
  - unfold SubscribeTo, onAgent, Subscribe in Hx. upd_in Hx. destruct (waiting p); injection Hx as <- <-; kept.
  - injection Hx as <- <-. kept.
Qed.

(** What subscribers were called with, and what whoever holds the barrier is to send or to
    dispatch. *)
Definition shown (x : mark E A) : option (message E A) := match x with LSent _ m => Some m | _ => None end.
Definition onTheWay p : list (message E A) := todo p ++ map snd (sends p).

(** The close of [q], of which the replies [rs] were accepted. *)
Definition closeOf (q : Question E) (rs : list (replied A)) : QuestionClosed A :=
  {| qc_ID := qu_ID q; qc_RunID := qu_RunID q; qc_Answer := rp_answer <$> head rs; qc_By := default noTrigger (rp_by <$> head rs) |}.

Definition closeOk tr p (c : QuestionClosed A) : Prop := exists a, askers p !! qc_ID c = Some a /\ is_Some (ending (as_at a)) /\
  c = closeOf (as_q a) (replies (qc_ID c) tr).
Definition closesOk tr p : Prop := forall c, MClosed c ∈ omap shown tr ++ onTheWay p -> closeOk tr p c.

(** A call past its question was accepted one reply, or none, as it ended. *)
Lemma ended_replies reg reps ts rets a b :
  stage reg reps ts rets a -> ending (as_at a) = Some b -> length reps = if b then 1%nat else 0%nat.
Proof.
  unfold stage. destruct (as_at a) as [| | | | | | | | |[|]|[|]]; try done; intros Hs [= <-].
  - by destruct Hs as (_ & -> & _).
  - by destruct Hs as (_ & -> & _).
  - by destruct Hs as (_ & _ & _ & by_ & -> & _).
  - by destruct Hs as (_ & -> & _).
Qed.

Lemma closeOk_later c tr p tr' p' :
  (forall id, fate id tr p) -> (forall id, fate id (tr ++ tr') p') -> keeps p p' -> closeOk tr p c -> closeOk (tr ++ tr') p' c.
Proof.
  intros Hf Hf' Hk (a & Ha & [b He] & Hc). destruct (Hk _ _ Ha) as (a' & Ha' & Hq & _ & He'). specialize (He' b He).
  assert (replies (qc_ID c) (tr ++ tr') = replies (qc_ID c) tr) as Hrep; [|exists a'; rewrite Hrep, Hq; split_and!; [done|by eexists|done]].
  specialize (Hf (qc_ID c)). specialize (Hf' (qc_ID c)). unfold fate in *. rewrite Ha in Hf. rewrite Ha' in Hf'.
  pose proof (ended_replies _ _ _ _ _ _ Hf He) as Hl. pose proof (ended_replies _ _ _ _ _ _ Hf' He') as Hl'.
  destruct (about_app (qc_ID c) tr tr') as [Hr _]. rewrite Hr in *. rewrite length_app in Hl'.
  destruct (replies (qc_ID c) tr'); [by rewrite app_nil_r|]. cbn in Hl'. lia.
Qed.

(** A piece puts no close on its way that is not on it, but the piece that begins one. *)
Definition begun p p' (c : QuestionClosed A) : Prop := exists id a o,
  askers p !! id = Some a /\ askers p' !! id = Some (a <| as_at := Closing o |>) /\ c = closedBy (as_q a) o.
Definition brings tr p p' : Prop := forall c, MClosed c ∈ omap shown tr ++ onTheWay p' -> MClosed c ∈ onTheWay p \/ begun p p' c.

Lemma brings_less p p' : onTheWay p' `sublist_of` onTheWay p -> brings [] p p'.
Proof. intros Hs c Hc. left. by eapply elem_of_sublist. Qed.

Lemma onTheWay_resume id err p : omap shown (resumeAsk id err p).1 ++ onTheWay (resumeAsk id err p).2 = onTheWay p.
Proof.
  unfold resumeAsk. destruct (askers p !! id) as [a|]; [|done]. by destruct (as_at a) as [| | | | | | | | |[r|e]|].
Qed.

Lemma brings_returns o err p p1 : onTheWay p1 `sublist_of` onTheWay p -> brings (returns o err p1).1 p (returns o err p1).2.
Proof.
  intros Hs c. destruct o as [id|]; cbn [returns]; [rewrite onTheWay_resume|]; intros Hc; left; by eapply elem_of_sublist.
Qed.

Lemma brings_failing e j p p1 : brings (failing e j p1).1 p (failing e j p1).2.
Proof.
  unfold failing. destruct (j_part j); [|apply brings_returns|]; [intros c Hc; by apply not_elem_of_nil in Hc| |intros c Hc; by apply not_elem_of_nil in Hc].
  apply sublist_nil_l.
Qed.

Lemma brings_finished j p : brings (finished j p).1 p (finished j p).2.
Proof. unfold finished. destruct (j_part j) as [|n [|]|]; intros c Hc; by apply not_elem_of_nil in Hc. Qed.

Lemma closed_others {B} c (f : B -> event) l (code : list (op E A)) :
  MClosed c ∈ omap dispatched (map (fun e => Dispatch (MOther (f e))) l ++ code) -> MClosed c ∈ omap dispatched code.
Proof. rewrite omap_app, elem_of_app. intros [Hin|]; [|done]. exfalso. induction l as [|e l IH]; [by apply not_elem_of_nil in Hin|]. by apply elem_of_cons in Hin as [|]. Qed.

Lemma closed_sends c out m subs : MClosed c ∈ map snd (sendsOf (E := E) (A := A) out m subs) -> m = MClosed c.
Proof.
  intros (x & Hc & Hx)%list_elem_of_fmap. unfold sendsOf in Hx. apply list_elem_of_bind in Hx as (s & Hx & _).
  apply elem_of_app in Hx as [Hx|Hx]; [|apply list_elem_of_singleton in Hx; by subst].
  apply list_elem_of_fmap in Hx as (q & -> & _). done.
Qed.

Ltac wayed := unfold onTheWay, todo, sends; cbn [fst snd]; upd; cbn [omap list_omap app map j_code j_sends dispatched]; rewrite ?app_nil_r.

Lemma brings_runOp quar o code j p : barrier p = Some j -> j_sends j = [] -> j_code j = o :: code ->
  brings (runOp quar o code j p).1 p (runOp quar o code j p).2.
Proof.
  intros Hj Hs Hcode. assert (onTheWay p = omap dispatched (o :: code)) as Hp.
  { unfold onTheWay, todo, sends. by rewrite Hj, Hs, Hcode, app_nil_r. }
  unfold brings. rewrite Hp. destruct o as [last| | | |s|m|]; unfold runOp, onAgent; cbn [takeQueuedErr takeQueued takeQuarantineOwed].
  - destruct (a_queuedErr (agent p)) as [e|]; [destruct last|].
    + intros c. wayed. by left.
    + intros c Hc. destruct (brings_failing e j p _ c Hc) as [Hc'|Hc']; [left; by rewrite Hp in Hc'|by right].
    + intros c. wayed. by left.
  - intros c. wayed. intros Hc%closed_others. by left.
  - intros c. wayed. destruct (queuedOwed _); by left.
  - intros c. wayed. intros Hc%closed_others. by left.
  - intros c. wayed. rewrite elem_of_app. intros [Hc|Hc]; [by left|]. apply list_elem_of_fmap in Hc as ([s' m'] & Hm & Hx).
    by apply list_elem_of_fmap in Hx as (q & [= -> ->] & _).
  - unfold dispatchTo. destruct (noted quar m p) as [m' p1] eqn:En. destruct (takeReplays _ _) as [out rest0]. intros c. wayed.
    rewrite elem_of_app. intros [Hc|Hc%closed_sends]; left; apply elem_of_cons; [right; by destruct (isTurn m)|left].
    unfold noted, onAgent in En. destruct m as [q|c'|ev]; [congruence..|]. destruct (record quar ev (agent p)). congruence.
  - intros c. wayed. by left.
Qed.

(** A call that takes the barrier brings what it takes it for. *)
Lemma brings_free p j p1 tr p' : free p1 j = Some (tr, p') -> onTheWay p' = omap dispatched (j_code j) ++ map snd (j_sends j) /\ tr = [] /\ askers p' = askers p1.
Proof. unfold free. destruct (barrier p1); [done|]. by intros [= <- <-]. Qed.

Lemma brings_act x tr p p' : perform x p = Some (tr, p') -> brings tr p p'.
Proof.
  intros Hx. assert (forall o : list (mark E A) * plaza C E A, Some o = Some (tr, p') -> brings o.1 p o.2 -> brings tr p p') as Hout
    by by intros o [= ->].
  destruct x as [q ctx watch|id e|id|id|id|id|id|id|id|id|id ans by_|ev| | |s|quar|res| |n|n| |s]; cbn [perform] in Hx;
    unfold atPlace, receive, option_map in Hx; try (destruct (askers p !! id) as [a|] eqn:Ea; [|done]);
    try (repeat (case_match; simplify_eq/=); by apply brings_less).
  - destruct (as_at a); try done. eapply Hout; [done|]. unfold enter. destruct (as_ctx a); by apply brings_less.
  - destruct (as_at a); try done. apply (brings_free p) in Hx as (Hw & -> & _). intros c Hc. cbn [omap list_omap app] in Hc. rewrite Hw in Hc.
    by apply elem_of_cons in Hc as [|[]%not_elem_of_nil].
  - destruct (as_at a); try done. injection Hx as <- <-. unfold giveUp. case_bool_decide; by apply brings_less.
  - assert (forall o, close_ id o a p = Some (tr, p') -> brings tr p p') as Hc.
    { intros o (Hw & -> & Hi)%(brings_free p). intros c Hc. cbn [omap list_omap app] in Hc. rewrite Hw in Hc.
      apply elem_of_cons in Hc as [[= ->]|[]%not_elem_of_nil]. right. exists id, a, o. split_and!; [done| |done].
      rewrite Hi. unfold move, put. upd. apply lookup_insert_eq. }
    destruct (as_at a); try done; by eapply Hc.
  - unfold Reply in Hx. case_bool_decide; simplify_eq; [|by apply brings_less]. upd_in Hx.
    repeat (case_match; simplify_eq/=); by apply brings_less.
  - apply (brings_free p) in Hx as (Hw & -> & _). intros c Hc. cbn [omap list_omap app] in Hc. rewrite Hw in Hc. unfold deliver in Hc.
    destruct (isLast _); by apply elem_of_cons in Hc as [|[]%not_elem_of_nil].
  - apply (brings_free p) in Hx as (Hw & -> & _). apply brings_less. rewrite Hw. apply sublist_nil_l.
  - apply (brings_free p) in Hx as (Hw & -> & _). apply brings_less. rewrite Hw. apply sublist_nil_l.
  - case_bool_decide; [|done]. apply (brings_free p) in Hx as (Hw & -> & _). apply brings_less. rewrite Hw. apply sublist_nil_l.
  - destruct (barrier p) as [j|] eqn:Ej; [|done]. destruct (j_sends j) eqn:Es; [|done]. destruct (j_code j) eqn:Ec; [done|].
    eapply Hout; [done|]. by apply brings_runOp.
  - destruct (barrier p) as [j|] eqn:Ej; [|done]. destruct (j_sends j) as [|[s m] l] eqn:Es; [done|].
    assert (onTheWay p = omap dispatched (j_code j) ++ m :: map snd l) as Hp by (unfold onTheWay, todo, sends; by rewrite Ej, Es).
    destruct res as [e|].
    + pose proof (brings_failing e j p p) as Hk. destruct (failing e j p) as [tr1 p1]. injection Hx as <- <-. intros c Hc.
      apply elem_of_cons in Hc as [[= ->]|Hc]; [left; rewrite Hp; set_solver|by apply Hk].
    + injection Hx as <- <-. intros c Hc. left. rewrite Hp. revert Hc. wayed. set_solver.
  - destruct (barrier p) as [j|]; [|done]. destruct (j_sends j); [|done]. destruct (j_code j); [|done].
    eapply Hout; [done|]. apply brings_finished.
  - destruct (leaving p !! n) as [l|]; [|done]. destruct (l_look l); [done|]. destruct (look l p) as [o q]. destruct (o || q).
    + injection Hx as <- <-. by apply brings_less.
    + eapply Hout; [done|]. by apply brings_returns.
  - destruct (leaving p !! n) as [l|]; [|done]. destruct (l_look l); [|done]. destruct (barrier p).
    + eapply Hout; [done|]. by apply brings_returns.
    + injection Hx as <- <-. apply brings_less, sublist_nil_l.
  - destruct (SubscribeTo_fields p) as (_ & Hj & _). destruct (SubscribeTo p) as [s p0]. injection Hx as <- <-. cbn [snd] in *.
    intros c Hc. left. revert Hc. unfold onTheWay, todo, sends. by rewrite Hj.
  - injection Hx as <- <-. by apply brings_less.
Qed.

Lemma closes_act x tr p tr' p' :
  named p -> (forall id, fate id tr p) -> closesOk tr p -> perform x p = Some (tr', p') -> closesOk (tr ++ tr') p'.
Proof.
  intros Hn Hf Hc Hx. pose proof (fate_act _ _ _ _ _ Hf Hx) as Hf'. intros c Hin.
  assert (MClosed c ∈ omap shown tr ++ onTheWay p \/ begun p p' c) as [Hold|(id & a & o & Ha & Ha' & ->)].
  { rewrite omap_app, <- app_assoc in Hin. apply elem_of_app in Hin as [Hin|Hin]; [left; set_solver|].
    destruct (brings_act x tr' p p' Hx c Hin); [left; set_solver|by right]. }
  - eapply closeOk_later; [done|done|by eapply keeps_act|by apply Hc].
  - specialize (Hf' id). unfold fate in Hf'. rewrite Ha' in Hf'. pose proof (Hn id a Ha) as Hid. unfold stage in Hf'. upd_in Hf'.
    assert (qc_ID (closedBy (as_q a) o) = id) as Hq by by destruct o. unfold closeOk. rewrite Hq.
    eexists. split; [done|]. upd. destruct o as [r|e]; (split; [by eexists|]); destruct Hf' as (_ & -> & _); done.
Qed.

Lemma reaches_closes (g : Agent C) tr p : reaches g tr p -> closesOk tr p.
Proof.
  induction 1 as [|tr p tr' p' Hr IH Hstep]; [intros c Hc; by apply not_elem_of_nil in Hc|].
  destruct Hstep as [x p tr' p' Hx|]; [|by rewrite app_nil_r].
  eapply closes_act; [by eapply reaches_named|by eapply reaches_fate|done..].
Qed.

(** C8: a question takes one reply, and the reply it takes is what its call returns: once the
    call has returned, it has done so once; with an answer exactly when a reply was
    accepted, that reply's, after every watcher on its context was told, and held, who gave
    it; and with an error only when no reply was accepted, even if a reply came while the
    call was giving up. And every subscriber called with the question's close was called
    with its own ID and run, and that answer and who gave it; or with no answer and nobody,
    when the question was given up. *)
Theorem reply_returned (g : Agent C) tr p id o :
  reaches g tr p -> LReturn id o ∈ tr ->
  exists a, askers p !! id = Some a /\ qu_ID (as_q a) = id /\ returned id tr = [o] /\
  match o with
  | inl ans => exists by_, replies id tr = [{| rp_answer := ans; rp_by := by_ |}] /\ tolds id tr = [toldAll (as_watch a) by_] /\
      forall s c, LSent s (MClosed c) ∈ tr -> qc_ID c = id ->
        c = {| qc_ID := id; qc_RunID := qu_RunID (as_q a); qc_Answer := Some ans; qc_By := by_ |}
  | inr _ => replies id tr = [] /\ tolds id tr = [] /\
      forall s c, LSent s (MClosed c) ∈ tr -> qc_ID c = id ->
        c = {| qc_ID := id; qc_RunID := qu_RunID (as_q a); qc_Answer := None; qc_By := noTrigger |}
  end.
Proof.
  intros Hr Hin. pose proof (reaches_fate _ _ _ Hr id) as Hf. unfold fate in Hf.
  assert (o ∈ returned id tr) as Ho.
  { apply list_elem_of_omap. exists (LReturn id o). split; [done|]. cbn. by rewrite bool_decide_eq_true_2. }
  destruct (askers p !! id) as [a|] eqn:Ea; [|destruct Hf as (_ & _ & _ & Hn); rewrite Hn in Ho; by apply not_elem_of_nil in Ho].
  exists a. pose proof (reaches_named _ _ _ Hr id a Ea) as Hid.
  assert (forall s c, LSent s (MClosed c) ∈ tr -> qc_ID c = id -> c = closeOf (as_q a) (replies id tr)) as Hclose.
  { intros s c Hs Hc. destruct (reaches_closes _ _ _ Hr c) as (a' & Ha' & _ & Heq); [|rewrite Hc, Ea in *; congruence].
    apply elem_of_app. left. apply list_elem_of_omap. by eexists. }
  unfold closeOf in Hclose. rewrite Hid in Hclose. unfold stage in Hf. split_and!; [done|done|..]; destruct (as_at a) as [| | | | | | | | |[r|e]|[ans|e]];
    try (destruct_and? Hf; match goal with H : returned id tr = [] |- _ => rewrite H in Ho; by apply not_elem_of_nil in Ho end).
  - destruct Hf as (_ & _ & Hret & _). rewrite Hret in Ho |- *. by apply list_elem_of_singleton in Ho as ->.
  - destruct Hf as (_ & _ & _ & Hret & _). rewrite Hret in Ho |- *. by apply list_elem_of_singleton in Ho as ->.
  - destruct Hf as (_ & _ & Hret & by_ & Hrep & Ht). rewrite Hret in Ho. apply list_elem_of_singleton in Ho as ->.
    exists by_. split_and!; [done..|]. by rewrite Hrep in Hclose.
  - destruct Hf as (_ & Hrep & Ht & Hret & _). rewrite Hret in Ho. apply list_elem_of_singleton in Ho as ->. split_and!; [done..|].
    by rewrite Hrep in Hclose.
Qed.

(** ** Whoever delivers *)

Definition ownerId (o : owner) : option string := match o with OAsk id => Some id | ORest => None end.
Definition owners p : list owner := match barrier p with Some j => [j_owner j] | None => [] end ++ map l_owner (leaving p).
Definition delivering (pl : place A) : bool := match pl with Asking | Closing _ => true | _ => false end.
Definition delivers p (id : string) : bool := match askers p !! id with Some a => delivering (as_at a) | None => false end.

(** The goroutines inside a delivery, [os], are those of the calls that are at one. *)
Definition manned (os : list owner) p : Prop :=
  NoDup (omap ownerId os) /\ forall id, id ∈ omap ownerId os <-> delivers p id = true.
Definition busy p : Prop := manned (owners p) p.

Lemma manned_perm os os' p p' :
  manned os p -> os' ≡ₚ os -> (forall id, delivers p' id = delivers p id) -> manned os' p'.
Proof.
  intros [Hn Hd] Hp He. split; [by rewrite Hp|]. intros id. rewrite Hp, He. apply Hd.
Qed.

Lemma delivers_put id a a' p p' :
  askers p !! id = Some a -> askers p' = <[id := a']> (askers p) -> delivering (as_at a') = delivering (as_at a) ->
  forall id', delivers p' id' = delivers p id'.
Proof.
  intros Ha Hi Hd id'. unfold delivers. rewrite Hi. destruct (decide (id' = id)) as [->|Hne].
  - by rewrite lookup_insert_eq, Ha.
  - by rewrite lookup_insert_ne.
Qed.

(** A call that begins a delivery, and one that ends it. *)
Lemma manned_begin id a a' os p p' :
  manned os p -> askers p !! id = Some a -> askers p' = <[id := a']> (askers p) -> delivering (as_at a) = false ->
  delivering (as_at a') = true -> manned (OAsk id :: os) p'.
Proof.
  intros [Hn Hd] Ha Hi Hp Hp'. assert (id ∉ omap ownerId os) as Hni.
  { intros Hin%Hd. unfold delivers in Hin. rewrite Ha in Hin. congruence. }
  split; [by constructor|]. intros id'. cbn [omap list_omap ownerId]. rewrite elem_of_cons, Hd. unfold delivers. rewrite Hi.
  destruct (decide (id' = id)) as [->|Hne].
  - rewrite lookup_insert_eq. split; [done|by left].
  - rewrite lookup_insert_ne by done. split; [by intros [?|?]|by right].
Qed.

Lemma manned_returns o os err p : manned (o :: os) p -> manned os (returns o err p).2.
Proof.
  intros [Hn Hd]. destruct o as [id|]; [|done]. cbn [omap list_omap ownerId] in *. apply NoDup_cons in Hn as [Hni Hn].
  assert (delivers p id = true) as Hid by (apply Hd; left). split; [done|].
  cbn [returns]. unfold resumeAsk. unfold delivers in Hid. destruct (askers p !! id) as [a|] eqn:Ea; [|done].
  assert (forall a', delivering (as_at a') = false -> forall id', id' ∈ omap ownerId os <-> delivers (put id a' p) id' = true) as Hput.
  { intros a' Hp id'. specialize (Hd id'). rewrite elem_of_cons in Hd. unfold delivers, put in *. upd.
    destruct (decide (id' = id)) as [->|Hne].
    - rewrite lookup_insert_eq, Hp. by split.
    - rewrite lookup_insert_ne by done. rewrite <- Hd. split; [by right|by intros [?|?]]. }
  destruct (as_at a) as [| | | | | | | | |[r|e]|]; try done; apply Hput; by destruct err.
Qed.

Lemma delivers_same p p' : askers p' = askers p -> forall id, delivers p' id = delivers p id.
Proof. intros Ha id. unfold delivers. by rewrite Ha. Qed.

Lemma busy_same p p' : busy p -> owners p' ≡ₚ owners p -> askers p' = askers p -> busy p'.
Proof. intros Hb Ho Ha. eapply manned_perm; [done|done|by apply delivers_same]. Qed.

(** The barrier handed from one piece of a job to the next, or let go. *)
Lemma busy_unlock n err j p p' :
  busy p -> barrier p = Some j -> leaving p' = leaving p -> askers p' = askers p -> busy (unlock (j_owner j) n err p').
Proof.
  intros Hb Hj Hl Ha. eapply busy_same; [done| |done]. unfold owners, unlock. upd. rewrite Hj, Hl, map_app. cbn.
  by rewrite (Permutation_app_comm _ [_]).
Qed.

Lemma busy_failing e j p p' :
  busy p -> barrier p = Some j -> leaving p' = leaving p -> askers p' = askers p -> busy (failing e j p').2.
Proof.
  intros Hb Hj Hl Ha. unfold failing. destruct (j_part j); [by eapply busy_unlock| |by eapply busy_unlock].
  assert (manned (j_owner j :: map l_owner (leaving p')) (p' <| barrier := None |>)) as Hm.
  { eapply manned_perm; [done| |by apply delivers_same]. unfold owners. by rewrite Hj, Hl. }
  pose proof (manned_returns _ _ (Some (default e (j_err j))) _ Hm) as Hb'. eapply manned_perm; [done| |done].
  unfold owners, returns, resumeAsk. destruct (j_owner j) as [id|]; [|done]. upd. destruct (askers p' !! id) as [a|]; [|done].
  by destruct (as_at a) as [| | | | | | | | |[r|]|].
Qed.

Lemma busy_finished j p : busy p -> barrier p = Some j -> busy (finished j p).2.
Proof.
  intros Hb Hj. unfold finished. destruct (j_part j) as [|n [|]|]; try by eapply busy_unlock.
  eapply busy_same; [done| |done]. unfold owners. upd. by rewrite Hj.
Qed.

(** A piece of a job that keeps the barrier. *)
Lemma busy_go j j' p p' :
  busy p -> barrier p = Some j -> barrier p' = Some j' -> j_owner j' = j_owner j -> leaving p' = leaving p -> askers p' = askers p ->
  busy p'.
Proof. intros Hb Hj Hj' Ho Hl Ha. eapply busy_same; [done| |done]. unfold owners. by rewrite Hj, Hj', Ho, Hl. Qed.

Lemma busy_runOp quar o code j p : busy p -> barrier p = Some j -> busy (runOp quar o code j p).2.
Proof.
  intros Hb Hj. destruct o as [last| | | |s|m|]; unfold runOp, onAgent; cbn [takeQueuedErr takeQueued takeQuarantineOwed];
    try by eapply busy_go.
  - destruct (a_queuedErr (agent p)) as [e|]; [destruct last|]; try by eapply busy_go. by eapply busy_failing.
  - unfold dispatchTo. pose proof (noted_keeps quar m p) as Hn. cbn zeta in Hn. destruct (noted quar m p) as [m' p1].
    cbn [fst snd] in Hn. destruct Hn as (_ & _ & _ & _ & Ha & _ & _ & Hl & _). destruct (takeReplays _ _). by eapply busy_go.
Qed.

(** A goroutine that lets the barrier go returns. *)
Lemma busy_left l n err p : busy p -> leaving p !! n = Some l -> busy (returns (l_owner l) err (p <| leaving ::= delete n |>)).2.
Proof.
  intros Hb Hl. assert (manned (l_owner l :: owners (p <| leaving ::= delete n |>)) (p <| leaving ::= delete n |>)) as Hm.
  { eapply manned_perm; [done| |done]. unfold owners. upd.
    assert (map l_owner (leaving p) ≡ₚ l_owner l :: map l_owner (delete n (leaving p))) as ->.
    { rewrite <- map_cons. by apply Permutation_map, delete_Permutation. }
    by destruct (barrier p); cbn; [rewrite Permutation_swap|]. }
  pose proof (manned_returns _ _ err _ Hm) as Hb'. eapply manned_perm; [done| |done].
  unfold owners, returns, resumeAsk. destruct (l_owner l) as [id|]; [|done]. upd. destruct (askers p !! id) as [a|]; [|done].
  by destruct (as_at a) as [| | | | | | | | |[r|]|].
Qed.

(** A call that moves, neither into a delivery nor out of one. *)
Lemma busy_put id a a' p p' :
  busy p -> askers p !! id = Some a -> askers p' = <[id := a']> (askers p) -> delivering (as_at a') = delivering (as_at a) ->
  barrier p' = barrier p -> leaving p' = leaving p -> busy p'.
Proof.
  intros Hb Ha Hi Hd Hj Hl. eapply manned_perm; [done| |by eapply delivers_put]. unfold owners. by rewrite Hj, Hl.
Qed.

Ltac still Ep := eapply busy_put; [eassumption|eassumption|reflexivity|upd; by rewrite Ep|reflexivity|reflexivity].

(** A call that takes the barrier. *)
Lemma busy_take id a pl m p tr p' :
  busy p -> askers p !! id = Some a -> delivering (as_at a) = false -> delivering pl = true ->
  free (move id pl a p) (deliver (OAsk id) m) = Some (tr, p') -> busy p'.
Proof.
  intros Hb Ha Hp Hp'. unfold free. destruct (barrier (move id pl a p)) eqn:Ej; [done|]. intros [= <- <-].
  unfold busy, owners, move, put in *. upd_in Ej. upd. rewrite Ej in Hb. by eapply manned_begin.
Qed.

Lemma busy_receive id a p p' :
  busy p -> askers p !! id = Some a -> as_at a = Selecting \/ as_at a = Receiving -> receive id a p = Some p' -> busy p'.
Proof.
  intros Hb Ha Hp. unfold receive. destruct (as_reply a); [|done]. intros [= <-].
  eapply busy_put; [eassumption|eassumption|reflexivity|upd; by destruct Hp as [-> | ->]|reflexivity|reflexivity].
Qed.

Lemma busy_rest j p p' :
  busy p -> barrier p = None -> barrier p' = Some j -> ownerId (j_owner j) = None -> leaving p' = leaving p -> askers p' = askers p ->
  busy p'.
Proof.
  intros [Hn Hd] Hj Hj' Ho Hl Ha. unfold busy, manned, owners in *. rewrite Hj', Hl. rewrite Hj in *.
  cbn [app omap list_omap] in *. rewrite Ho. split; [done|]. intros id. by rewrite (delivers_same p p').
Qed.

Lemma busy_act x tr p tr' p' : (forall id, fate id tr p) -> busy p -> perform x p = Some (tr', p') -> busy p'.
Proof.
  intros Hf Hb Hx. assert (forall o : list (mark E A) * plaza C E A, Some o = Some (tr', p') -> busy o.2 -> busy p') as Hout
    by by intros o [= ->].
  destruct x as [q ctx watch|id e|id|id|id|id|id|id|id|id|id ans by_|ev| | |s|quar|res| |n|n| |s]; cbn [perform] in Hx;
    unfold atPlace, option_map in Hx; try (destruct (askers p !! id) as [a|] eqn:Ea; [|done]);
    try (destruct (as_at a) eqn:Ep; try done; []).
  - destruct (askers p !! qu_ID q) eqn:Ea; [done|]. injection Hx as <- <-. eapply manned_perm; [done|done|].
    intros id. unfold delivers, put. upd. destruct (decide (id = qu_ID q)) as [->|Hne].
    + by rewrite lookup_insert_eq, Ea.
    + by rewrite lookup_insert_ne.
  - destruct (as_ctx a); [done|]. injection Hx as <- <-.
    eapply busy_put; [eassumption|eassumption|reflexivity|reflexivity|reflexivity|reflexivity].
  - eapply Hout; [done|]. unfold enter. destruct (as_ctx a); still Ep.
  - eapply (busy_take id a Asking); [done|done|by rewrite Ep|done|done].
  - destruct (receive id a p) eqn:Er; [|done]. injection Hx as <- <-. eapply busy_receive; eauto.
  - destruct (as_ctx a); [|done]. injection Hx as <- <-. still Ep.
  - injection Hx as <- <-. unfold giveUp. case_bool_decide; still Ep.
  - destruct (receive id a p) eqn:Er; [|done]. injection Hx as <- <-. eapply busy_receive; eauto.
  - injection Hx as <- <-. still Ep.
  - destruct (as_at a) eqn:Ep; try done; (eapply (busy_take id a (Closing _)); [done|done|by rewrite Ep|done|exact Hx]).
  - destruct (Reply_cases id ans by_ tr p Hf) as [(a & _ & Ha & _ & Hre)|[_ Hre]]; rewrite Hre in Hx; injection Hx as <- <-; [|done].
    eapply busy_put; [eassumption|eassumption|reflexivity|reflexivity|reflexivity|reflexivity].
  - unfold free in Hx. destruct (barrier p) eqn:Ej; [done|]. injection Hx as <- <-. by eapply busy_rest.
  - unfold free in Hx. destruct (barrier p) eqn:Ej; [done|]. injection Hx as <- <-. by eapply busy_rest.
  - unfold free in Hx. destruct (barrier p) eqn:Ej; [done|]. injection Hx as <- <-. by eapply busy_rest.
  - unfold free in Hx. case_bool_decide; [|done]. upd_in Hx. destruct (barrier p) eqn:Ej; [done|]. injection Hx as <- <-.
    by eapply busy_rest.
  - destruct (barrier p) as [j|] eqn:Ej; [|done]. destruct (j_sends j); [|done]. destruct (j_code j); [done|].
    eapply Hout; [done|]. by apply busy_runOp.
  - destruct (barrier p) as [j|] eqn:Ej; [|done]. destruct (j_sends j) as [|[s m] l]; [done|]. destruct res as [e|].
    + pose proof (busy_failing e j p p Hb Ej eq_refl eq_refl) as Hk. destruct (failing e j p). by injection Hx as <- <-.
    + injection Hx as <- <-. by eapply busy_go.
  - destruct (barrier p) as [j|] eqn:Ej; [|done]. destruct (j_sends j); [|done]. destruct (j_code j); [|done].
    eapply Hout; [done|]. by apply busy_finished.
  - destruct (leaving p !! n) as [l|] eqn:El; [|done]. destruct (l_look l); [done|]. destruct (look l p) as [o q]. destruct (o || q).
    + injection Hx as <- <-. eapply busy_same; [done| |done]. unfold owners. upd. f_equiv. clear -El.
      assert (map l_owner (<[n:=MkLeave (l_owner l) (l_passes l) (l_err l) (Some q)]> (leaving p)) = map l_owner (leaving p)) as ->; [|done].
      apply list_eq. intros i. rewrite !list_lookup_fmap. destruct (decide (i = n)) as [->|Hne].
      * rewrite list_lookup_insert_eq by (by eapply lookup_lt_Some). by rewrite El.
      * by rewrite list_lookup_insert_ne.
    + eapply Hout; [done|]. by apply busy_left.
  - destruct (leaving p !! n) as [l|] eqn:El; [|done]. destruct (l_look l); [|done]. destruct (barrier p) eqn:Ej.
    + eapply Hout; [done|]. by apply busy_left.
    + injection Hx as <- <-. eapply busy_same; [done| |done]. unfold owners. upd. rewrite Ej. cbn [app].
      trans (map l_owner (l :: delete n (leaving p))); [done|]. symmetry. by apply Permutation_map, delete_Permutation.
  - destruct (SubscribeTo_fields p) as (_ & Hj & Ha & _ & _ & _ & _ & Hl & _). destruct (SubscribeTo p). injection Hx as <- <-.
    cbn [snd] in *. eapply busy_same; [done| |done]. unfold owners. by rewrite Hj, Hl.
  - injection Hx as <- <-. by eapply busy_same.
Qed.

Lemma reaches_busy (g : Agent C) tr p : reaches g tr p -> busy p.
Proof.
  induction 1 as [|tr p tr' p' Hr IH Hstep].
  - split; [constructor|]. intros id. unfold delivers. cbn. rewrite lookup_empty. split; [by intros ?%not_elem_of_nil|done].
  - destruct Hstep as [x p tr' p' Hx|]; [|done]. eapply busy_act; [by eapply reaches_fate|done..].
Qed.

(** ** No goroutine waits for what cannot come *)

(** A piece of the call's own, or of the goroutine that holds the barrier, or lets it go
    on the call's behalf. *)
Definition serves (id : string) p (x : act (E := E) (A := A)) : Prop :=
  match x with
  | AEnter i | AAsk i | ASelect i | ADone i | AGiveUp i | AReceive i | ATell i | AClose i => i = id
  | AOp _ | ASend _ | AFinish => barrier p <> None
  | ALook n | ARetake n => exists l, leaving p !! n = Some l /\ l_owner l = OAsk id
  | _ => False
  end.
Definition served (id : string) p : Prop := exists x, serves id p x /\ perform (C := C) (E := E) (A := A) x p <> None.

Lemma served_barrier id j p : barrier p = Some j -> served id p.
Proof.
  intros Hj. destruct (j_sends j) as [|[s m] l] eqn:Es; [destruct (j_code j) as [|o code] eqn:Ec|].
  - exists AFinish. cbn. by rewrite Hj, Es, Ec.
  - exists (AOp []). cbn. by rewrite Hj, Es, Ec.
  - exists (ASend None). cbn. by rewrite Hj, Es.
Qed.

Lemma served_delivering id p : busy p -> delivers p id = true -> served id p.
Proof.
  intros [_ Hd] Hid. destruct (barrier p) as [j|] eqn:Ej; [by eapply served_barrier|].
  apply Hd in Hid. unfold owners in Hid. rewrite Ej in Hid. apply list_elem_of_omap in Hid as (o & Hin & Ho).
  apply list_elem_of_fmap in Hin as (l & -> & [n Hn]%list_elem_of_lookup). destruct (l_owner l) eqn:El; [|done]. injection Ho as ->.
  destruct (l_look l) as [q|] eqn:Elk.
  - exists (ARetake n). cbn. rewrite Hn, Elk, Ej. split; [by eexists|done].
  - exists (ALook n). cbn. rewrite Hn, Elk. split; [by eexists|]. destruct (_ || _ : bool); done.
Qed.

(** C9: asking never deadlocks. A reply never blocks, whatever the question's call is doing.
    And a call that has not returned can go on, or the goroutine that holds the barrier it
    needs can, unless it waits as it should: its question registered, so that a reply is
    accepted, none given yet and its context live. *)
Theorem ask_never_stuck (g : Agent C) tr p id a :
  reaches g tr p -> askers p !! id = Some a ->
  (forall answer by_, (Reply id answer by_ p).1 <> inr tt) /\
  ((exists o, as_at a = Returned o) \/
   (as_at a = Selecting /\ as_ctx a = None /\ as_reply a = None /\ id ∈ asks p) \/
   served id p).
Proof.
  intros Hr Ha. pose proof (reaches_fate _ _ _ Hr) as Hf. pose proof (reaches_busy _ _ _ Hr) as Hb. split.
  { intros answer by_. by destruct (Reply_cases id answer by_ tr p Hf) as [(a' & _ & _ & _ & ->)|[_ ->]]. }
  assert (forall x, serves id p x -> perform x p <> None -> served id p) as Hdo by (intros; by eexists).
  specialize (Hf id). unfold fate, stage in Hf. rewrite Ha in Hf.
  destruct (as_at a) as [| | | |e| |r|r|e|o|o] eqn:Ep; [right; right|right; right|right; right| |right; right..|by left; eexists].
  - apply (Hdo (AEnter id)); [done|]. cbn. unfold atPlace. by rewrite Ha, Ep.
  - destruct (barrier p) as [j|] eqn:Ej; [by eapply served_barrier|]. apply (Hdo (AAsk id)); [done|]. cbn. unfold atPlace, free, move, put.
    rewrite Ha, Ep. upd. by rewrite Ej.
  - apply served_delivering; [done|]. unfold delivers. by rewrite Ha, Ep.
  - destruct Hf as (_ & _ & [(Hreg & _ & Hre)|(_ & r & _ & Hre)]).
    + destruct (as_ctx a) as [e|] eqn:Ec.
      * right; right. apply (Hdo (ADone id)); [done|]. cbn. unfold atPlace. by rewrite Ha, Ep, Ec.
      * right; left. by rewrite bool_decide_eq_true in Hreg.
    + right; right. apply (Hdo (ASelect id)); [done|]. cbn. unfold atPlace, receive. by rewrite Ha, Ep, Hre.
  - apply (Hdo (AGiveUp id)); [done|]. cbn. unfold atPlace. by rewrite Ha, Ep.
  - destruct Hf as (_ & _ & _ & r & _ & Hre). apply (Hdo (AReceive id)); [done|]. cbn. unfold atPlace, receive. by rewrite Ha, Ep, Hre.
  - apply (Hdo (ATell id)); [done|]. cbn. unfold atPlace. by rewrite Ha, Ep.
  - destruct (barrier p) as [j|] eqn:Ej; [by eapply served_barrier|]. apply (Hdo (AClose id)); [done|]. cbn. unfold atPlace, close_, free, move, put.
    rewrite Ha, Ep. upd. by rewrite Ej.
  - destruct (barrier p) as [j|] eqn:Ej; [by eapply served_barrier|]. apply (Hdo (AClose id)); [done|]. cbn. unfold atPlace, close_, free, move, put.
    rewrite Ha, Ep. upd. by rewrite Ej.
  - apply served_delivering; [done|]. unfold delivers. by rewrite Ha, Ep.
Qed.

End Replies.
