(* ===== verification/Waiting.v ===== *)
(** * Waiting: while no subscriber fails, the questions an agent holds as waiting are those
    of calls that have not returned; and what a failing subscriber can undo of it. *)

From S2P Require Import Toy.
From S2P Require Export Replies.

Section Waiting.
Context {C E A : Type}.
Implicit Types (p : plaza C E A) (a : asking E A) (j : job E A) (tr : list (mark E A)).

Definition kinds (id : string) p : list kind := omap (kindOf id) (todo p).

(** Only the call that asks a question has events of it to dispatch, the question's while
    its close is still ahead; and a question that waits has its close to come. *)
Record tidy p : Prop := {
  t_err : a_queuedErr (agent p) = None;
  t_owner : forall j id k, barrier p = Some j -> k ∈ kinds id p -> j_owner j = OAsk id;
  t_asked : forall id, KAsked ∈ kinds id p -> future id p = [KClosed];
  t_open : forall q, q ∈ waiting p -> KClosed ∈ kinds (qu_ID q) p \/ KClosed ∈ future (qu_ID q) p;
}.

(** A step that dispatches nothing and leaves what is ahead of every call. *)
Lemma tidy_keeps p p' :
  tidy p -> (forall id, future id p' = future id p) -> (forall id, kinds id p' = kinds id p) -> waiting p' = waiting p ->
  a_queuedErr (agent p') = None ->
  (forall j j', barrier p = Some j -> barrier p' = Some j' -> j_owner j' = j_owner j) ->
  (barrier p = None -> forall id, kinds id p' = []) -> tidy p'.
Proof.
  intros [_ Ho Ha Hw] Hf Hk Hwt He Hown Hnone. split; [done| | |].
  - intros j' id k Hj' Hin. destruct (barrier p) as [j|] eqn:Ej.
    + rewrite (Hown j j' eq_refl Hj'). apply (Ho j id k); [done|]. by rewrite <- Hk.
    + rewrite Hnone in Hin by done. by apply not_elem_of_nil in Hin.
  - intros id. rewrite Hk, Hf. apply Ha.
  - intros q. rewrite Hwt, Hk, Hf. apply Hw.
Qed.

Lemma no_kinds id p : barrier p = None -> kinds id p = [].
Proof. unfold kinds, todo. by intros ->. Qed.

(** A call that moves, and leaves what is ahead of it. *)
Lemma future_move id a a' p p' :
  askers p !! id = Some a -> askers p' = <[id := a']> (askers p) -> ahead (as_at a') = ahead (as_at a) ->
  forall id', future id' p' = future id' p.
Proof.
  intros Ha Hi Hd id'. unfold future. rewrite Hi. destruct (decide (id' = id)) as [->|Hne].
  - by rewrite lookup_insert_eq, Ha.
  - by rewrite lookup_insert_ne.
Qed.

Lemma tidy_put id a a' p p' :
  tidy p -> askers p !! id = Some a -> askers p' = <[id := a']> (askers p) -> ahead (as_at a') = ahead (as_at a) ->
  barrier p' = barrier p -> waiting p' = waiting p -> agent p' = agent p -> tidy p'.
Proof.
  intros Ht Ha Hi Hd Hb Hw Hg. eapply tidy_keeps; [done|by eapply future_move| |done|rewrite Hg; apply Ht|intros; congruence|].
  - intros id'. unfold kinds, todo. by rewrite Hb.
  - intros Hn id'. apply no_kinds. congruence.
Qed.

(** A job over, and one taken up. *)
Lemma tidy_job p p' :
  tidy p -> askers p' = askers p -> waiting p' = waiting p -> a_queuedErr (agent p') = None ->
  (forall id, kinds id p = []) -> (forall id, kinds id p' = []) -> tidy p'.
Proof.
  intros Ht Ha Hw He Hk Hk'. destruct Ht as [_ _ _ Ho]. split; [done| | |].
  - intros j id k _. rewrite Hk'. by intros ?%not_elem_of_nil.
  - intros id. rewrite Hk'. by intros ?%not_elem_of_nil.
  - intros q. rewrite Hw, Hk'. unfold future. rewrite Ha. specialize (Ho q). rewrite Hk in Ho. apply Ho.
Qed.

Lemma tidy_returns o err p : tidy p -> tidy (returns o err p).2.
Proof.
  intros Ht. destruct o as [id|]; [|done]. cbn [returns]. unfold resumeAsk. destruct (askers p !! id) as [a|] eqn:Ea; [|done].
  destruct (as_at a) as [| | | | | | | | |[r|e]|] eqn:Ep; try done; (eapply tidy_put; [done|exact Ea|reflexivity| |done..]);
    upd; rewrite Ep; [|done..]. by destruct err.
Qed.

Lemma tidy_finished j p : tidy p -> barrier p = Some j -> j_code j = [] -> tidy (finished j p).2.
Proof.
  intros Ht Hj Hc. assert (forall id, kinds id p = []) as Hk.
  { intros id. unfold kinds, todo. by rewrite Hj, Hc. }
  unfold finished. destruct (j_part j) as [|n [|]|]; (eapply tidy_job; [done|done|done|apply Ht|done|done]).
Qed.

Lemma tidy_runOp quar o code j p :
  tidy p -> barrier p = Some j -> j_code j = o :: code -> dispatched o = None -> tidy (runOp quar o code j p).2.
Proof.
  intros Ht Hj Hc Hd. pose proof (t_err _ Ht) as He.
  assert (forall l p', (forall id, omap (kindOf id) (omap dispatched l) = omap (kindOf id) (omap dispatched code)) -> forall sends,
    barrier p' = Some (MkJob (j_owner j) (j_part j) l sends (j_err j)) -> askers p' = askers p -> waiting p' = waiting p ->
    a_queuedErr (agent p') = None -> tidy p') as Hgo.
  { intros l p' Hl sends Hj' Ha Hw He'. eapply tidy_keeps; [done|..]; try done.
    - intros id. unfold future. by rewrite Ha.
    - intros id. unfold kinds, todo. rewrite Hj, Hj', Hc. cbn [j_code omap list_omap]. rewrite Hd. apply Hl.
    - intros j0 j1. rewrite Hj, Hj'. by intros [= <-] [= <-].
    - congruence. }
  destruct o as [last| | | |s|m|]; unfold runOp, onAgent; cbn [takeQueuedErr takeQueued takeQuarantineOwed fst snd]; [| | | | |done|].
  - rewrite He. by eapply Hgo.
  - eapply Hgo; [|reflexivity|done..]. intros id. by rewrite kinds_app, kinds_others.
  - eapply Hgo; [|reflexivity|done..]. intros id. by destruct (queuedOwed _).
  - eapply Hgo; [|reflexivity|done..]. intros id. by rewrite kinds_app, kinds_others.
  - by eapply Hgo.
  - by eapply Hgo.
Qed.

Lemma tidy_dispatch quar m code j p :
  NoDup (a_subs (agent p)) -> tidy p -> barrier p = Some j -> j_sends j = [] -> j_code j = Dispatch m :: code ->
  tidy (runOp quar (Dispatch m) code j p).2.
Proof.
  intros Hn Ht Hj Hs Hc. destruct (dispatch_view [] quar m code j p) as (_ & _ & _ & Hk & Hf & _ & _ & Hw); try done.
  assert (exists j', barrier (runOp quar (Dispatch m) code j p).2 = Some j' /\ j_owner j' = j_owner j) as (j' & Hj' & Ho).
  { unfold runOp. destruct (dispatchTo quar m p). by eexists. }
  assert (a_queuedErr (agent (runOp quar (Dispatch m) code j p).2) = None) as He.
  { unfold runOp, dispatchTo. pose proof (noted_keeps quar m p) as Hfi. cbn zeta in Hfi. destruct (noted quar m p) as [m' p1].
    cbn [fst snd] in Hfi. destruct (takeReplays _ _). destruct Hfi as (_ & _ & _ & _ & _ & _ & _ & _ & He & _).
    cbn [snd]. upd. rewrite He. apply Ht. }
  revert Hk Hf Hw Hj' He. generalize (runOp quar (Dispatch m) code j p).2. intros p' Hk Hf Hw Hj' He.
  assert (forall id, kinds id p = omap (kindOf id) [m] ++ kinds id p') as Hkk by done. clear Hk.
  assert (forall id k, k ∈ kinds id p' -> k ∈ kinds id p) as Hsub.
  { intros id k Hin. rewrite Hkk, elem_of_app. by right. }
  destruct Ht as [_ Hto Hta Htw]. split; [done| | |].
  - intros j1 id k Hj1 Hin. rewrite Hj' in Hj1. injection Hj1 as <-. rewrite Ho. eapply Hto; [done|by apply Hsub].
  - intros id Hin. rewrite Hf. by apply Hta, Hsub.
  - intros q. rewrite Hw, Hf.
    assert (q ∈ waiting p -> kindOf (qu_ID q) m <> Some KClosed -> KClosed ∈ kinds (qu_ID q) p' \/ KClosed ∈ future (qu_ID q) p) as Hold.
    { intros Hq Hm. destruct (Htw q Hq) as [Hin|Hin]; [|by right]. left. rewrite Hkk in Hin. apply elem_of_app in Hin as [Hin|Hin]; [|done].
      cbn [omap list_omap] in Hin. destruct (kindOf (qu_ID q) m) eqn:Em; [|by apply not_elem_of_nil in Hin].
      apply list_elem_of_singleton in Hin. congruence. }
    destruct m as [q0|c|ev].
    + intros [Hq|Hq]%elem_of_app; [apply Hold; [done|]; cbn; by case_bool_decide|].
      apply list_elem_of_singleton in Hq as ->. right. rewrite (Hta (qu_ID q0)); [by left|].
      rewrite Hkk. cbn. rewrite bool_decide_eq_true_2 by done. by left.
    + intros [Hne Hq]%list_elem_of_filter. apply Hold; [done|]. cbn. rewrite bool_decide_eq_false_2; [done|congruence].
    + intros Hq. by apply Hold.
Qed.

(** A call that takes the barrier for the event ahead of it. *)
Lemma tidy_begin id a pl m k p tr p' :
  tidy p -> askers p !! id = Some a -> ahead (as_at a) = k :: ahead pl -> omap (kindOf id) [m] = [k] ->
  (forall id', id' <> id -> kindOf id' m = None) -> (k = KAsked -> ahead pl = [KClosed]) ->
  free (move id pl a p) (deliver (OAsk id) m) = Some (tr, p') -> tidy p'.
Proof.
  intros Ht Ha Hk Hm Hid Hkp. unfold free, move, put. upd. destruct (barrier p) eqn:Ej; [done|]. intros [= <- <-].
  set (p' := _ : plaza C E A).
  assert (forall id', kinds id' p' = if bool_decide (id' = id) then [k] else []) as Hkk.
  { intros id'. unfold kinds, todo, p'. upd. unfold deliver. cbn [j_code app omap list_omap dispatched].
    destruct (isLast m); cbn [omap list_omap dispatched]; (case_bool_decide as Hi; [subst; exact Hm|by rewrite Hid]). }
  assert (forall id', future id' p' = if bool_decide (id' = id) then ahead pl else future id' p) as Hff.
  { intros id'. unfold future, p'. upd. case_bool_decide as Hi; [subst; by rewrite lookup_insert_eq|by rewrite lookup_insert_ne]. }
  destruct Ht as [He _ _ Hw]. split; [done| | |].
  - intros j id' k' [= <-]. rewrite Hkk. case_bool_decide; [by subst|by intros ?%not_elem_of_nil].
  - intros id'. rewrite Hkk, Hff. case_bool_decide; [|by intros ?%not_elem_of_nil]. intros Hk'%list_elem_of_singleton. by apply Hkp.
  - intros q Hq. specialize (Hw q Hq). rewrite (no_kinds _ _ Ej) in Hw. destruct Hw as [Hw|Hw]; [by apply not_elem_of_nil in Hw|].
    rewrite Hkk, Hff. case_bool_decide as Hi; [|by right]. unfold future in Hw. rewrite Hi, Ha, Hk in Hw.
    apply elem_of_cons in Hw as [Hk'|Hw]; [left; rewrite Hk'; by left|by right].
Qed.

(** A question that waits is not one whose call has yet to look at its context. *)
Lemma waiting_started tr p q a : views tr p -> q ∈ waiting p -> askers p !! qu_ID q = Some a -> as_at a <> Start.
Proof.
  intros Hv Hq Ha Hs. pose proof (v_waiting _ _ Hv (qu_ID q)) as Hw. unfold told, rest, future in Hw. rewrite Ha, Hs in Hw.
  assert (KAsked ∈ omap (kindOf (E := E) (A := A) (qu_ID q)) (map MQuestion (waiting p))) as Hin.
  { apply list_elem_of_omap. exists (MQuestion q). split; [by apply list_elem_of_fmap_2|]. cbn. by rewrite bool_decide_eq_true_2. }
  apply sublist_length in Hw. rewrite !length_app in Hw. cbn in Hw.
  destruct (omap (kindOf (qu_ID q)) (map MQuestion (waiting p))); [by apply not_elem_of_nil in Hin|]. cbn in Hw. lia.
Qed.

Lemma tidy_enter id a tr p :
  views tr p -> tidy p -> askers p !! id = Some a -> as_at a = Start -> tidy (enter id a p).2.
Proof.
  intros Hv Ht Ha Hp. unfold enter. destruct (as_ctx a) as [e|].
  - destruct Ht as [He Ho Hta Hw]. assert (forall id', id' <> id -> future id' (move id (Returned (inr e)) a p) = future id' p) as Hf.
    { intros id' Hne. unfold future, move, put. upd. by rewrite lookup_insert_ne. }
    split; [done|done| |].
    + intros id' Hin. destruct (decide (id' = id)) as [->|Hne]; [|by rewrite Hf; [apply Hta|]].
      apply Hta in Hin. unfold future in Hin. by rewrite Ha, Hp in Hin.
    + intros q Hq. destruct (decide (qu_ID q = id)) as [Hi|Hne]; [|by rewrite Hf; [apply Hw|]].
      subst id. by destruct (waiting_started tr p q a).
  - eapply tidy_put; [done|exact Ha|reflexivity| |done..]. upd. by rewrite Hp.
Qed.

Ltac tidied Ep := eapply tidy_put; [eassumption|eassumption|reflexivity|upd; by rewrite Ep|reflexivity|reflexivity|reflexivity].

Lemma tidy_receive id a p p' :
  tidy p -> askers p !! id = Some a -> as_at a = Selecting \/ as_at a = Receiving -> receive id a p = Some p' -> tidy p'.
Proof.
  intros Ht Ha Hp. unfold receive. destruct (as_reply a); [|done]. intros [= <-].
  eapply tidy_put; [eassumption|eassumption|reflexivity|upd; by destruct Hp as [-> | ->]|reflexivity..].
Qed.

Lemma tidy_take p p' :
  tidy p -> barrier p = None -> askers p' = askers p -> waiting p' = waiting p -> agent p' = agent p ->
  (forall id, kinds id p' = []) -> tidy p'.
Proof.
  intros Ht Hj Ha Hw Hg Hk. eapply tidy_job; [done|done|done|rewrite Hg; apply Ht| |done]. intros id. by apply no_kinds.
Qed.

Lemma tidy_act x tr p tr' p' :
  named p -> views tr p -> (forall id, fate id tr p) -> tidy p -> perform x p = Some (tr', p') -> (forall s, LFailed s ∉ tr') -> tidy p'.
Proof.
  intros Hnm Hv Hf Ht Hx Hnf.
  assert (forall o : list (mark E A) * plaza C E A, Some o = Some (tr', p') -> tidy o.2 -> tidy p') as Hout by by intros o [= ->].
  destruct x as [q ctx watch|id e|id|id|id|id|id|id|id|id|id ans by_|ev| | |s|quar|res| |n|n| |s]; cbn [perform] in Hx;
    unfold atPlace, option_map in Hx; try (destruct (askers p !! id) as [a|] eqn:Ea; [|done]);
    try (destruct (as_at a) eqn:Ep; try done; []).
  - destruct (askers p !! qu_ID q) eqn:Ea; [done|]. injection Hx as <- <-.
    eapply tidy_keeps; [done| |done|done|apply Ht| |by intros; apply no_kinds].
    + intros id. unfold future, put. upd. destruct (decide (id = qu_ID q)) as [->|Hne].
      * by rewrite lookup_insert_eq, Ea.
      * by rewrite lookup_insert_ne.
    + intros j j' Hj Hj'. unfold put in Hj'. upd_in Hj'. congruence.
  - destruct (as_ctx a); [done|]. injection Hx as <- <-.
    eapply tidy_put; [eassumption|eassumption|reflexivity..].
  - eapply Hout; [done|]. by eapply tidy_enter.
  - eapply (tidy_begin id a Asking (MQuestion (as_q a)) KAsked); try done.
    + by rewrite Ep.
    + cbn. rewrite bool_decide_eq_true_2; [done|by apply Hnm].
    + intros id' Hne. cbn. rewrite bool_decide_eq_false_2; [done|]. rewrite (Hnm id a Ea). congruence.
  - destruct (receive id a p) eqn:Er; [|done]. injection Hx as <- <-. eapply tidy_receive; eauto.
  - destruct (as_ctx a); [|done]. injection Hx as <- <-. tidied Ep.
  - injection Hx as <- <-. unfold giveUp. case_bool_decide; tidied Ep.
  - destruct (receive id a p) eqn:Er; [|done]. injection Hx as <- <-. eapply tidy_receive; eauto.
  - injection Hx as <- <-. tidied Ep.
  - assert (forall o, close_ id o a p = Some (tr', p') -> ahead (as_at a) = [KClosed] -> tidy p') as Hc.
    { intros o Hc Hp. assert (qc_ID (closedBy (as_q a) o) = id) as Hid by (destruct o; by apply Hnm).
      eapply (tidy_begin id a (Closing o) (MClosed (closedBy (as_q a) o)) KClosed); try done.
      - cbn. by rewrite bool_decide_eq_true_2.
      - intros id' Hne. cbn. rewrite bool_decide_eq_false_2; [done|congruence]. }
    destruct (as_at a) eqn:Ep; try done; by eapply Hc.
  - destruct (Reply_cases id ans by_ tr p Hf) as [(a & _ & Ha & _ & Hre)|[_ Hre]]; rewrite Hre in Hx; injection Hx as <- <-; [|done].
    eapply tidy_put; [eassumption|eassumption|reflexivity..].
  - unfold free in Hx. destruct (barrier p) eqn:Ej; [done|]. injection Hx as <- <-. eapply tidy_take; try done.
    intros id. unfold kinds, todo. upd. unfold deliver. by destruct (isLast _).
  - unfold free in Hx. destruct (barrier p) eqn:Ej; [done|]. injection Hx as <- <-. by eapply tidy_take.
  - unfold free in Hx. destruct (barrier p) eqn:Ej; [done|]. injection Hx as <- <-. by eapply tidy_take.
  - unfold free in Hx. case_bool_decide; [|done]. upd_in Hx. destruct (barrier p) eqn:Ej; [done|]. injection Hx as <- <-.
    by eapply tidy_take.
  - destruct (barrier p) as [j|] eqn:Ej; [|done]. destruct (j_sends j) eqn:Es; [|done]. destruct (j_code j) as [|o code] eqn:Ec; [done|].
    eapply Hout; [done|]. destruct (dispatched o) as [m|] eqn:Ed; [|by apply tidy_runOp].
    destruct o; try done. apply tidy_dispatch; try done. apply Hv.
  - destruct (barrier p) as [j|] eqn:Ej; [|done]. destruct (j_sends j) as [|[s m] l]; [done|]. destruct res as [e|].
    + destruct (failing e j p). injection Hx as <- <-. exfalso. apply (Hnf s). right. left.
    + injection Hx as <- <-. eapply tidy_keeps; [done|done| |done|apply Ht| |congruence].
      * intros id. unfold kinds, todo. upd. by rewrite Ej.
      * intros j0 j1. rewrite Ej. by intros [= <-] [= <-].
  - destruct (barrier p) as [j|] eqn:Ej; [|done]. destruct (j_sends j); [|done]. destruct (j_code j) eqn:Ec; [|done].
    eapply Hout; [done|]. by apply tidy_finished.
  - destruct (leaving p !! n) as [l|]; [|done]. destruct (l_look l); [done|]. destruct (look l p) as [o q]. destruct (o || q).
    + injection Hx as <- <-. eapply tidy_keeps; [done|done|done|done|apply Ht|intros ? ? Hj Hj'; upd_in Hj'; congruence|by intros; apply no_kinds].
    + eapply Hout; [done|]. apply tidy_returns.
      eapply tidy_keeps; [done|done|done|done|apply Ht|intros ? ? Hj Hj'; upd_in Hj'; congruence|by intros; apply no_kinds].
  - destruct (leaving p !! n) as [l|]; [|done]. destruct (l_look l); [|done]. destruct (barrier p) eqn:Ej.
    + eapply Hout; [done|]. apply tidy_returns.
      eapply tidy_keeps; [done|done|done|done|apply Ht|intros ? ? Hj Hj'; upd_in Hj'; congruence|by intros; apply no_kinds].
    + injection Hx as <- <-. by eapply tidy_take.
  - destruct (SubscribeTo_fields p) as (_ & Hj & Ha & Hw & _ & _ & He & _). destruct (SubscribeTo p) as [s p0]. injection Hx as <- <-.
    cbn [snd] in *. eapply tidy_keeps; [done| | |done|rewrite He; apply Ht|intros; congruence|].
    + intros id. unfold future. by rewrite Ha.
    + intros id. unfold kinds, todo. by rewrite Hj.
    + intros Hn id. apply no_kinds. congruence.
  - injection Hx as <- <-. eapply tidy_keeps; [done|done|done|done|apply Ht| |by intros; apply no_kinds].
    intros j j' Hj Hj'. unfold unsubscribeFrom in Hj'. upd_in Hj'. congruence.
Qed.

Lemma reaches_tidy (g : Agent C) tr p :
  a_subs g = [] -> a_queuedErr g = None -> reaches g tr p -> (forall s, LFailed s ∉ tr) -> tidy p.
Proof.
  intros Hg He. induction 1 as [|tr p tr' p' Hr IH Hstep]; intros Hnf.
  { split; [done|done| |].
    - intros id. cbn. by intros ?%not_elem_of_nil.
    - intros q. cbn. by intros ?%not_elem_of_nil. }
  assert (tidy p) as Ht by (apply IH; intros s Hs; apply (Hnf s), elem_of_app; by left).
  destruct Hstep as [x p tr' p' Hx|p l g' _ _ _ Hq].
  - eapply tidy_act; [by eapply reaches_named|by eapply reaches_views|by eapply reaches_fate|done|done|].
    intros s Hs. apply (Hnf s), elem_of_app. by right.
  - eapply tidy_keeps; [done|done|done|done| |intros ? ? Hj Hj'; upd_in Hj'; congruence|by intros; apply no_kinds].
    upd. destruct Hq as [Hq|Hq]; rewrite Hq; [done|apply Ht].
Qed.

(** C10: as long as no subscriber fails, a question an agent holds as waiting, which is what it
    tells a new subscriber of, is one whose call has not returned: the close is delivered
    before the call returns, whatever ended it. *)
Theorem waiting_unreturned (g : Agent C) tr p q :
  a_subs g = [] -> a_queuedErr g = None -> reaches g tr p -> (forall s, LFailed s ∉ tr) -> q ∈ waiting p ->
  returned (qu_ID q) tr = [].
Proof.
  intros Hg He Hr Hnf Hq. pose proof (reaches_tidy _ _ _ Hg He Hr Hnf) as Ht. pose proof (reaches_busy _ _ _ Hr) as Hb.
  pose proof (reaches_fate _ _ _ Hr (qu_ID q)) as Hf. unfold fate in Hf.
  destruct (askers p !! qu_ID q) as [a|] eqn:Ea; [|by destruct Hf as (_ & _ & _ & ?)].
  assert (forall o, as_at a <> Returned o) as Hno.
  { intros o Ho. destruct (t_open _ Ht q Hq) as [Hin|Hin]; [|by unfold future in Hin; rewrite Ea, Ho in Hin; apply not_elem_of_nil in Hin].
    destruct (barrier p) as [j|] eqn:Ej; [|by rewrite no_kinds in Hin; [apply not_elem_of_nil in Hin|]].
    assert (delivers p (qu_ID q) = true) as Hd.
    { apply Hb. unfold owners. rewrite Ej. cbn. rewrite (t_owner _ Ht j _ _ Ej Hin). by left. }
    unfold delivers in Hd. by rewrite Ea, Ho in Hd. }
  unfold stage in Hf. destruct (as_at a) as [| | | | | | | | |[|]|o]; try (by destruct_and? Hf). by destruct (Hno o).
Qed.

End Waiting.

(** ** What a failing subscriber undoes *)

Module QuestionToy.

Abbreviation toy := (plaza unit unit string).
Definition q0 : Question unit := {| qu_ID := "question_1"; qu_RunID := "run_1"; qu_CallID := "call_1"; qu_Call := None; qu_Elicitation := tt |}.

(** An agent with a run in flight. *)
Definition g0 : Agent unit := (newAgent tt) <| a_running := true |> <| a_events := true |>.

(** A delivery that sends [n] times, none of which fails. *)
Definition delivery (n : nat) : list (act (E := unit) (A := string)) :=
  [AOp []; AOp []; AOp []] ++ repeat (ASend None) n ++ [AOp []; AFinish; ALook 0].

(** A subscriber, and a question that is delivered to it and waits, asked under two watchers. *)
Definition asked : list (act (E := unit) (A := string)) :=
  [ASubscribe; ACall q0 None [5%nat; 6%nat]; AEnter "question_1"; AAsk "question_1"] ++ delivery 1.

(** A reply, and all that follows it. *)
Definition answered : list (act (E := unit) (A := string)) :=
  [AReply "question_1" "yes" noTrigger; ASelect "question_1"; ATell "question_1"; AClose "question_1"].

Definition run (xs : list (act (E := unit) (A := string))) (p : toy) := default ([], p) (script xs p).

Lemma reaches_run tr (p : toy) xs : reaches g0 tr p -> script xs p <> None -> reaches g0 (tr ++ (run xs p).1) (run xs p).2.
Proof.
  intros Hr Hn. unfold run. destruct (script xs p) as [[tr' p']|] eqn:E; [|done]. by eapply reaches_script.
Qed.

(** Another subscriber comes while the question waits, and is sent it, and then its close. *)
Definition plain : list (act (E := unit) (A := string)) :=
  asked ++ [ASubscribe] ++ answered ++ [AOp []; AOp []; AOp []] ++ repeat (ASend None) 3 ++ [AOp []; AFinish; ALook 0].

Lemma plain_runs : reaches g0 (run plain (opened g0)).1 (run plain (opened g0)).2.
Proof. apply (reaches_run [] (opened g0) plain); [constructor|]. by vm_compute. Qed.

Lemma plain_still s : LFailed s ∉ (run plain (opened g0)).1.
Proof. vm_compute. intros H. repeat (apply elem_of_cons in H as [H|H]; [done|]). by apply not_elem_of_nil in H. Qed.

Lemma asked_runs : reaches g0 (run asked (opened g0)).1 (run asked (opened g0)).2.
Proof. apply (reaches_run [] (opened g0) asked); [constructor|]. by vm_compute. Qed.

(** A host steers while the question waits; the report of it reaches a subscriber that fails. *)
Definition failure : error := Errorf "full".
Definition steered : list queuedItem := entries noTrigger InputSteer [Plain (Toy.message "stop")].
Definition p1 : toy := (run asked (opened g0)).2.
Definition g1 : Agent unit := queue noTrigger QueueSteer InputSteer true [Plain (Toy.message "stop")] (agent p1).
Definition reported : list (act (E := unit) (A := string)) :=
  [AReport; AOp []; AOp []; AOp []; ASend (Some failure); ALook 0].
Definition closed : list (act (E := unit) (A := string)) := answered ++ [AOp []; ALook 0].
Definition p2 : toy := (run (reported ++ closed) (p1 <| agent := g1 |>)).2.
Definition tr2 : list (mark unit string) := (run asked (opened g0)).1 ++ [] ++ (run (reported ++ closed) (p1 <| agent := g1 |>)).1.

Lemma lost_runs : reaches g0 tr2 p2.
Proof.
  unfold tr2, p2. rewrite app_assoc. apply reaches_run; [|by vm_compute].
  eapply reaches_snoc; [apply asked_runs|].
  apply (step_agent p1 [LSteer steered] g1); [|done..|by left].
  apply I_host. apply (H_steer (Background) InputSteer true [Plain (Toy.message "stop")] (agent p1)).
Qed.

(** The close of a question is lost when the report of a queued item failed before it: the
    failure that should have ended the run is spent on the close, which no subscriber is
    called with; the call returns its answer, and its question waits for good. *)
Theorem close_lost :
  exists tr (p : toy), reaches g0 tr p /\ returned "question_1" tr = [inl "yes"] /\ waiting p = [q0] /\ a_queuedErr (agent p) = None /\
    a_running (agent p) = true /\ barrier p = None /\ leaving p = [] /\ Forall (fun m => kindOf "question_1" m <> Some KClosed) (heard 0 tr).
Proof.
  exists tr2, p2. split; [apply lost_runs|]. vm_compute. split_and!; try done. repeat constructor; done.
Qed.

(** A subscriber comes while the question waits; before the goroutine that sends it the
    question has run, the subscriber before it fails on an event. *)
Definition update : event := EvToolUpdate {| tu_RunID := "run_1"; tu_Turn := 1; tu_CallID := "call_2"; tu_Name := "read";
  tu_Partial := {| res_Output := {| Text_ := "half"; Parts := [] |}; res_Terminate := false; res_Details := None |} |}.
Definition overtaken : list (act (E := unit) (A := string)) :=
  asked ++ [ASubscribe; ADeliver update; AOp []; AOp []; AOp []; ASend (Some failure); ALook 0; AFlush 1; AOp []; AFinish; ALook 0].

(** The question it is owed is lost: it is never sent it, though the question still waits. *)
Theorem replay_lost :
  exists tr (p : toy), reaches g0 tr p /\ LSubscribe 1 [q0] ∈ tr /\ waiting p = [q0] /\ a_subs (agent p) = [0%nat; 1%nat] /\
    replays p !! 1%nat = None /\ flushes p = [] /\ barrier p = None /\ leaving p = [] /\ heard 1 tr = [].
Proof.
  exists (run overtaken (opened g0)).1, (run overtaken (opened g0)).2. split.
  { apply (reaches_run [] (opened g0) overtaken); [constructor|]. by vm_compute. }
  vm_compute. split_and!; try done. apply elem_of_cons; right. apply elem_of_cons; right. by left.
Qed.

(** ** The theorems at these executions *)

Lemma question_told_once_witness : omap (kindOf "question_1") (heard 1 (run plain (opened g0)).1) `sublist_of` [KAsked; KClosed].
Proof. exact (question_told_once g0 _ _ "question_1" 1 eq_refl plain_runs). Defined.

Lemma waiting_told_first_witness : agree (heard 1 (run plain (opened g0)).1) (map MQuestion [q0]).
Proof.
  apply (waiting_told_first g0 _ _ 1 [q0] eq_refl plain_runs plain_still).
  vm_compute. apply elem_of_cons; right. apply elem_of_cons; right. by left.
Defined.

(** What the question's close says, and that it was sent. *)
Definition close0 : QuestionClosed string := {| qc_ID := "question_1"; qc_RunID := "run_1"; qc_Answer := Some "yes"; qc_By := noTrigger |}.

Lemma reply_returned_witness :
  LSent 1 (MClosed close0) ∈ (run plain (opened g0)).1 /\
  exists a, askers (run plain (opened g0)).2 !! "question_1" = Some a /\ qu_ID (as_q a) = "question_1" /\
  returned "question_1" (run plain (opened g0)).1 = [inl "yes"] /\
  exists by_, replies "question_1" (run plain (opened g0)).1 = [{| rp_answer := "yes"; rp_by := by_ |}] /\
    tolds "question_1" (run plain (opened g0)).1 = [toldAll (as_watch a) by_] /\
    forall s c, LSent s (MClosed c) ∈ (run plain (opened g0)).1 -> qc_ID c = "question_1" ->
      c = {| qc_ID := "question_1"; qc_RunID := qu_RunID (as_q a); qc_Answer := Some "yes"; qc_By := by_ |}.
Proof.
  split; [apply list_elem_of_In; vm_compute; tauto|].
  apply (reply_returned g0 _ _ "question_1" (inl "yes") plain_runs).
  apply list_elem_of_In. vm_compute. tauto.
Defined.

Lemma ask_never_stuck_witness :
  (forall answer by_, (Reply "question_1" answer by_ p1).1 <> inr tt) /\
  ((exists o, Selecting = Returned (A := string) o) \/
   (Selecting = Selecting (A := string) /\ None = None :> option error /\ None = None :> option (replied string) /\
    "question_1" ∈ asks p1) \/ served "question_1" p1).
Proof.
  exact (ask_never_stuck g0 _ _ "question_1" (MkAsking q0 None [5%nat; 6%nat] None Selecting) asked_runs ltac:(by vm_compute)).
Defined.

Lemma asked_quiet s : LFailed s ∉ (run asked (opened g0)).1.
Proof. vm_compute. intros H. repeat (apply elem_of_cons in H as [H|H]; [done|]). by apply not_elem_of_nil in H. Qed.

Lemma waiting_unreturned_witness : returned "question_1" (run asked (opened g0)).1 = [].
Proof.
  apply (waiting_unreturned g0 _ _ q0 eq_refl eq_refl asked_runs asked_quiet).
  apply list_elem_of_In. vm_compute. tauto.
Defined.

End QuestionToy.
