(* ===== verification/Deliver.v ===== *)
(** * Deliver: the delivery barrier of an agent, and a run driven by it ([deliver],
    [dispatch], [unlockEmit], [start], [Prompt], [Continue], [Resume] and
    [settleDelivery] of [agent.go] and [quarantine.go]).

    An agent is part of the world its run shares: the run's events go through
    [deliver], its queues are the agent's, and whatever else the run calls, a hook, a
    tool, the model's stream, may use the agent meanwhile. What a subscriber does, what
    other goroutines do while a delivery waits for the barrier, and how often it finds
    the barrier free again as it lets it go are the host's ([Host]). *)

From S2P Require Export Interleave Loop.

Record World (C U : Type) := MkWorld { ag : Agent C; user : U }.
Arguments MkWorld {C U}.
Arguments ag {C U}.
Arguments user {C U}.
#[export] Instance eta_World {C U} : Eta (World C U) := fun w => MkWorld (ag w) (user w).

(** What the program around an agent does. *)
Class Host (C U : Type) := {
  configOf : C -> Config (World C U);
  (** a subscriber's function *)
  subscriber : nat -> event -> shared (World C U) -> option error * shared (World C U);
  (** what others do while a delivery waits for the barrier *)
  meanwhile : shared (World C U) -> shared (World C U);
  (** how often a delivery that lets the barrier go finds it free again *)
  regains : shared (World C U) -> nat;
  (** the context a run was started with, [WithoutCancel] of none *)
  promptErr : shared (World C U) -> option (error * error) * shared (World C U);
  (** what a delivery's wait returns: its context's error, or it was woken *)
  wakes : shared (World C U) -> option error * shared (World C U);
  hostTimer : Z -> shared (World C U) -> bool * shared (World C U);
  hostNewID : string -> shared (World C U) -> string * shared (World C U);
  hostEvents : Request -> shared (World C U) -> wire (World C U);
  hostPreceding : list Job -> list (list nat);
  hostExecute : list Job -> shared (World C U) -> exec (World C U);
  hostContextLength : error -> bool;
}.

Section Deliver.
Context {C U : Type} `{!Host C U}.
Abbreviation W := (World C U).
Implicit Types h : shared W.

Definition agent h : Agent C := ag (outside h).

(** A section of the agent's, on what is shared. *)
Definition onAgent {A} (f : Agent C -> A * Agent C) h : A * shared W :=
  let '(x, a) := f (agent h) in (x, h <| outside ::= fun w => w <| ag := a |> |>).
Definition setAgent (f : Agent C -> Agent C) h : shared W := h <| outside ::= fun w => w <| ag := f (ag w) |> |>.

(** ** The barrier *)

(** The subscribers called in turn, until one fails. *)
Fixpoint tell (subs : list nat) (ev : event) h : option error * shared W :=
  match subs with
  | [] => (None, h)
  | s :: subs => match subscriber s ev h with (Some e, h) => (Some e, h) | (None, h) => tell subs ev h end
  end.

(** [dispatch]. *)
Definition dispatch (ev : event) h : option error * shared W :=
  let '(ev, h) := onAgent (record (list_ (quar h)) ev) h in
  match tell (a_subs (agent h)) ev h with
  | (Some e, h) => (Some e, h)
  | (None, h) => (None, match ev with EvTurnStart _ => setAgent sawTurnStart h | _ => h end)
  end.

Fixpoint dispatchAll (evs : list event) h : option error * shared W :=
  match evs with
  | [] => (None, h)
  | ev :: evs => match dispatch ev h with (Some e, h) => (Some e, h) | (None, h) => dispatchAll evs h end
  end.

(** [drainQueued], [flushQueued] and [flushQuarantine]. *)
Definition drainQueued h : option error * shared W :=
  let '(evs, h) := onAgent takeQueued h in dispatchAll (map EvQueued evs) h.

Definition flushQueued h : shared W :=
  if queuedOwed (agent h)
  then match drainQueued h with (Some e, h) => setAgent (failQueued e) h | (None, h) => h end
  else h.

Definition flushQuarantine h : option error * shared W :=
  let '(evs, h) := onAgent takeQuarantineOwed h in dispatchAll (map EvQuarantineAdded evs) h.

Definition maxQueuedPasses : nat := 4.

(** [unlockEmit]: [free] is how often the barrier is found free again, others acting as
    soon as it is let go. *)
Fixpoint unlockEmit (free passes : nat) h : option error * shared W :=
  let h := meanwhile h in
  let a := agent h in
  let owed := negb (bool_decide (length (a_quarantineOwed a) = 0%nat)) in
  let queued := queuedOwed a && (passes <? maxQueuedPasses)%nat && ((passes =? 0)%nat || (0 <? a_queuedOutside a)%nat) in
  match free with
  | O => (None, h)
  | S free =>
      if negb owed && negb queued then (None, h)
      else match flushQuarantine h with
      | (Some e, h) => (Some e, h)
      | (None, h) => if queued then unlockEmit free (S passes) (flushQueued h) else unlockEmit free passes h
      end
  end.

(** [deliver]. *)
Definition isRunEnd (ev : event) : bool := match ev with EvRunEnd _ => true | _ => false end.

Definition deliverEvent (ev : event) h : option error * shared W :=
  match drainQueued h with
  | (Some e, h) => (Some e, h)
  | (None, h) =>
      match dispatch ev h with
      | (Some e, h) => (Some e, h)
      | (None, h) =>
          match flushQuarantine h with
          | (Some e, h) => (Some e, h)
          | (None, h) => if isRunEnd ev then drainQueued h else (None, h)
          end
      end
  end.

Definition deliver (ev : event) h : option error * shared W :=
  let h := meanwhile h in
  let '(qerr, h) := onAgent takeQueuedErr h in
  let '(err, h) :=
    match qerr with
    | Some e => if isRunEnd ev then deliverEvent ev h else (Some e, h)
    | None => deliverEvent ev h
    end in
  let '(ferr, h) := unlockEmit (regains h) 0 h in
  (match err with Some e => Some e | None => ferr end, h).

(** [reportQueued]'s goroutine, when the barrier is free. *)
Definition reportQueued h : shared W :=
  if queuedOwed (agent h) then let h := flushQueued h in (unlockEmit (regains h) 0 h).2 else h.

(** [Agent.Quarantine], [free] whether the barrier is. *)
Definition Quarantine_ (items : Items) (free : bool) h : option error * shared W :=
  match QuarantineItems items (quar h) (agent h) with
  | (inr e, _, _) => (Some e, h)
  | (inl report, q, a) =>
      let h := (setAgent (fun _ => a) h) <| quar := q |> in
      if report && free
      then
        let '(err, h) := flushQuarantine h in
        let '(uerr, h) := unlockEmit (regains h) 0 h in
        (match err with Some e => Some e | None => uerr end, h)
      else (None, h)
  end.

(** ** A run on the agent *)

(** The context of the agent's run is cancelled by an abort, or as its caller's is. *)
Definition runErr h : option (error * error) * shared W :=
  match a_cancelled (agent h) with
  | Some cause => (Some (Sentinel Canceled, cause), h)
  | None => promptErr h
  end.

(** The environment of the run: the agent's barrier and its queues. *)
Definition runEnv (cx : Ctx) (a : Agent C) (sd : handed) (resuming : bool) (notes : list answerNote) : Env W := {|
  cfg := configOf (a_cfg a);
  send := deliver;
  steer := Some (onAgent drainSteer);
  followUp := Some (onAgent drainFollowUp);
  last_ := Some (onAgent drainBoth);
  closing := Some (onAgent close);
  ctxErr := runErr;
  timer := hostTimer;
  NewID := hostNewID;
  Events := hostEvents;
  Preceding := hostPreceding;
  Execute := hostExecute;
  trigger := cx_trigger cx;
  resuming := resuming;
  resumeNotes := notes;
  prior := sd_prior sd;
  reserved := a_reserved a;
  ctxReserved_ := cx_reserved cx;
  isContextLengthExceeded := hostContextLength |}.

(** The runner [start] makes. *)
Definition newRunner (cx : Ctx) (a : Agent C) (sd : handed) : runner := {|
  transcript := sd_transcript sd; runID := a_runID a; notes := sd_notes sd; reported := []; roots := ∅; callNotes := ∅;
  noteKeys := []; batchCalls := ∅; recorded := ∅; nestedRan := ∅; turn := 0; added := []; mark := 0; arrived := [];
  deferred := ∅; callTools := ∅; undispatched := ∅; dispatched := ∅; approved := ∅; ctxReserved := ∅;
  reasoning := Reasoning.merged (a_reasoning a) (cx_reasoning cx); persons := Persons.merged (a_persons a) (cx_persons cx);
  heldItems := []; callAt := ∅; callItems := ∅; decided := ∅; opened := [] |}.

Context `{Externals} `{Tools} `{Accumulator}.

(** [inheritQuarantine]. *)
Definition inheritQuarantine (parent : Items) (q : quarantine) : quarantine := (add q parent).1.

(** The run_end a run returns is the object the agent delivered, as [dispatch] left it. *)
Definition returned (a0 a : Agent C) (e : RunEnd) : RunEnd :=
  match a_lastEnd a with
  | Some (n, e') => if (n =? a_ends a0)%nat then e' else e
  | None => e
  end.

(** [Agent.run]: [start], the run, and what its goroutine does once it has ended. *)
Definition runAgent (fuel : nat) (cx : Ctx) (prompts : list input) (notes : list answerNote) (aps : list approval)
    (resuming terminate : bool) h : res (RunEnd * option error) * shared W :=
  let a0 := agent h in
  let '(id, h') := hostNewID "run" h in
  match start (validateConfig (configOf (a_cfg a0))) cx prompts resuming id a0 with
  | (inr e, _) => (Err e, h)
  | (inl sd, a) =>
      let h := (setAgent (fun _ => a) h') <| quar ::= inheritQuarantine (cx_quarantined cx) |> in
      match run (env := runEnv cx a sd resuming notes) fuel prompts aps terminate
              {| run_ := newRunner cx a sd; sh := h; log := [] |} with
      | (Ok e, s) =>
          let e := returned a0 (agent (sh s)) e in
          (Ok (e, if bool_decide (re_Reason e = ReasonError) then re_Err e else None),
           setAgent (finishRun (reasoning (run_ s)) (persons (run_ s))) (sh s))
      | (Err e, s) => (Err e, sh s)
      | (Panicked, s) => (Panicked, sh s)
      | (OutOfFuel, s) => (OutOfFuel, sh s)
      end
  end.

(** [Prompt], [Continue] and [Agent.Resume]. *)
Definition Prompt (fuel : nat) (cx : Ctx) (items : list input) h : res (RunEnd * option error) * shared W :=
  match items with
  | [] => (Err (Sentinel ErrNoPrompt), h)
  | _ => runAgent fuel cx items [] [] false false h
  end.

Definition Continue (fuel : nat) (cx : Ctx) h : res (RunEnd * option error) * shared W :=
  match continueCheck (agent h) with
  | Some e => (Err e, h)
  | None => runAgent fuel cx [] [] [] false false h
  end.

Definition ResumeAgent (fuel : nat) (cx : Ctx) (answers : list Answer) h : res (RunEnd * option error) * shared W :=
  match Resume (configOf (a_cfg (agent h))) (a_pending (agent h)) answers h with
  | (inr e, h) => (Err e, h)
  | (inl r, h) =>
      runAgent fuel cx (map Plain (rm_outputs r)) (rm_notes r) (rm_approved r) true (rm_terminate r) h
  end.

(** [settleDelivery]: what the delivery waits for, at most [waits] times. *)
Fixpoint settleDelivery (fuel waits : nat) (cx : Ctx) (mark : deliveryMark) h : res deliveryOutcome * shared W :=
  match settlementOf mark (agent h) with
  | Settled o => (Ok o, h)
  | SettleStart =>
      match runAgent fuel cx [] [] [] false false h with
      | (Ok (e, err), h) => (Ok {| do_joined := false; do_end := Some e; do_err := err |}, h)
      | (Err e, h) => (Ok {| do_joined := false; do_end := None; do_err := Some e |}, h)
      | (Panicked, h) => (Panicked, h)
      | (OutOfFuel, h) => (OutOfFuel, h)
      end
  | SettleWait =>
      match waits with
      | O => (OutOfFuel, h)
      | S waits =>
          match wakes h with
          | (Some e, h) => (Ok {| do_joined := false; do_end := None; do_err := Some e |}, h)
          | (None, h) => settleDelivery fuel waits cx mark h
          end
      end
  end.

(** [Agent.Deliver], the barrier free or not as the items are queued. *)
Definition Deliver (fuel waits : nat) (cx : Ctx) (items : list input) (free : bool) h : res deliveryOutcome * shared W :=
  match onAgent (acceptDelivery cx items) h with
  | (inr e, h) => (Ok {| do_joined := false; do_end := None; do_err := Some e |}, h)
  | (inl (mark, now), h) =>
      let h := if free then reportQueued h else h in
      match now with
      | Some o => (Ok o, h)
      | None => settleDelivery fuel waits cx mark h
      end
  end.

End Deliver.
