(* ===== verification/Mirror.v ===== *)
(** * Mirror: a run driven by an agent is an execution of the agent's sections, and
    leaves the agent with the run's transcript and its pending calls.

    [Civil] is what is assumed of the program around the agent: whatever a subscriber,
    a hook, a tool or another goroutine does to the agent it does through the agent's
    operations. When it is [quiet] too, no subscriber fails on the report of a queued
    item. *)

From S2P Require Export Deliver Trace Ends.

Section Civil.
Context {C U : Type} `{!Host C U}.
Abbreviation W := (World C U).
Implicit Types h : shared W.

(** What a host, a subscriber or a report does to the agent. *)
Inductive hostSteps : Agent C -> list lab -> Agent C -> Prop :=
| hostSteps_nil a : hostSteps a [] a
| hostSteps_host a l b l' c : hostSteps a l b -> hostStep b l' c -> hostSteps a (l ++ l') c
| hostSteps_report a l b c : hostSteps a l b -> reportStep b c -> hostSteps a l c.

(** The environment of a run, without the agent's part in it. *)
Definition hostEnv (c : C) : Env W := {|
  cfg := configOf c; send := fun _ h => (None, h); steer := None; followUp := None; last_ := None; closing := None;
  ctxErr := promptErr; timer := hostTimer; NewID := hostNewID; Events := hostEvents; Preceding := hostPreceding;
  Execute := hostExecute; trigger := noTrigger; resuming := false; resumeNotes := []; prior := []; reserved := ∅;
  ctxReserved_ := ∅; isContextLengthExceeded := hostContextLength |}.

(** [h'] is what a host may make of [h]. *)
Definition acts (quiet : bool) h h' : Prop :=
  (exists l, hostSteps (agent h) l (agent h')) /\
  (quiet = true -> a_queuedErr (agent h) = None -> a_queuedErr (agent h') = None).

Class Civil (quiet : bool) := {
  civil_subscriber : forall s ev h, acts quiet h (subscriber s ev h).2;
  civil_meanwhile : forall h, acts quiet h (meanwhile h);
  civil_wakes : forall h, acts quiet h (wakes h).2;
  civil_asked : forall c A (f : shared W -> A * shared W), asked (env := hostEnv c) f -> forall h, acts quiet h (f h).2;
  civil_quiet : quiet = true -> forall s q h, (subscriber s (EvQueued q) h).1 = None;
}.

Context (quiet : bool) `{!Civil quiet}.

(** ** What every step of an active run keeps of the agent *)

(** While a run is active, the agent's transcript, its pending calls, what it owes
    and its last end change only as the run's events say. *)
Record goes h h' : Prop := {
  goes_running : a_running (agent h') = true;
  goes_steps : exists l, agentSteps (agent h) l (agent h');
  goes_transcript : a_transcript (agent h') = a_transcript (agent h);
  goes_pending : a_pending (agent h') = a_pending (agent h);
  goes_notes : a_notes (agent h') = a_notes (agent h);
  goes_lastEnd : a_lastEnd (agent h') = a_lastEnd (agent h);
  goes_ends : a_ends (agent h') = a_ends (agent h);
  goes_quiet : quiet = true -> a_queuedErr (agent h) = None -> a_queuedErr (agent h') = None;
}.

Lemma goes_refl h : a_running (agent h) = true -> goes h h.
Proof. intros Hr. split; try done. exists []. constructor. Qed.

Lemma goes_trans h1 h2 h3 : goes h1 h2 -> goes h2 h3 -> goes h1 h3.
Proof.
  intros [H1 [l H2] H3 H4 H5 H6 H7 H8] [H1' [l' H2'] H3' H4' H5' H6' H7' H8']. split; try congruence; try by auto.
  exists (l ++ l'). by eapply agentSteps_trans.
Qed.

(** One section of the run's own that only touches the queues or the counts. *)
Lemma goes_section h a' l :
  a_running (agent h) = true -> runStep (agent h) l a' -> a_running a' = true ->
  a_transcript a' = a_transcript (agent h) -> a_pending a' = a_pending (agent h) -> a_notes a' = a_notes (agent h) ->
  a_lastEnd a' = a_lastEnd (agent h) -> a_ends a' = a_ends (agent h) ->
  (a_queuedErr (agent h) = None -> a_queuedErr a' = None) ->
  goes h (setAgent (fun _ => a') h).
Proof.
  intros Hr Hs H1 H2 H3 H4 H5 H6 H7. split; try done.
  exists l. apply (agentSteps_snoc _ [] (agent h) l); [constructor|]. by apply I_run.
Qed.

Lemma whenIdle_running f (a : Agent C) : a_running a = true -> (whenIdle f a).2 = a.
Proof. intros Hr. unfold whenIdle. by rewrite Hr. Qed.

Lemma hostStep_running (a : Agent C) l a' : hostStep a l a' -> a_running a = true ->
  a_running a' = true /\ a_transcript a' = a_transcript a /\ a_pending a' = a_pending a /\ a_notes a' = a_notes a /\
  a_lastEnd a' = a_lastEnd a /\ a_ends a' = a_ends a.
Proof.
  intros Hs Hr. destruct Hs; try (by unfold SetConfig, SetTranscript, SetPending, ReserveCallIDs, SetReasoningModels,
    SetPersonMessages, SetNotes; rewrite whenIdle_running).
  - unfold hold_. by rewrite Hr.
  - done.
  - pose proof (queue_requeued (cx_trigger cx) QueueSteer how outside items a) as Hq. rewrite Hq. by upd.
  - pose proof (queue_requeued (cx_trigger cx) QueueFollowUp how outside items a) as Hq. rewrite Hq. by upd.
  - unfold AbortCause. by destruct (a_cancel _).
  - done.
  - done.
  - unfold QuarantineItems. destruct (add q items) as [q' [e|]]; [done|]. cbn. by destruct (_ && _).
Qed.

Lemma goes_acts h h' : a_running (agent h) = true -> acts quiet h h' -> goes h h'.
Proof.
  intros Hr [[l Hl] Hq].
  assert ((exists l, agentSteps (agent h) l (agent h')) /\ a_running (agent h') = true /\
    a_transcript (agent h') = a_transcript (agent h) /\ a_pending (agent h') = a_pending (agent h) /\
    a_notes (agent h') = a_notes (agent h) /\ a_lastEnd (agent h') = a_lastEnd (agent h) /\
    a_ends (agent h') = a_ends (agent h)) as (? & ? & ? & ? & ? & ? & ?); [|by split].
  clear Hq. revert Hl Hr. generalize (agent h) (agent h'). intros a a' Hl.
  induction Hl as [a|a l b l' c _ IH Hs|a l b c _ IH Hs]; intros Hr.
  - split_and!; try done. exists []. constructor.
  - destruct (IH Hr) as ([k Hk] & H1 & H2 & H3 & H4 & H5 & H6).
    destruct (hostStep_running _ _ _ Hs H1) as (H1' & H2' & H3' & H4' & H5' & H6'). split_and!; try congruence.
    exists (k ++ l'). eapply agentSteps_snoc; [done|]. by apply I_host.
  - destruct (IH Hr) as ([k Hk] & H1 & H2 & H3 & H4 & H5 & H6).
    assert (exists l, agentSteps a l c) as Hc.
    { exists (k ++ []). eapply agentSteps_snoc; [done|]. by apply I_report. }
    by destruct Hs.
Qed.

(** ** The barrier *)

(** The agent once [dispatch] has taken the event. *)
Definition recorded (ev : event) h : shared W := (onAgent (record (list_ (quar h)) ev) h).2.

Lemma recorded_running ev h : a_running (agent (recorded ev h)) = a_running (agent h).
Proof. unfold recorded, onAgent. by destruct ev. Qed.

Lemma recorded_step ev h : a_running (agent h) = true -> agentSteps (agent h) [] (agent (recorded ev h)).
Proof.
  intros Hr. apply (agentSteps_snoc _ [] (agent h) []); [constructor|]. apply I_run; [done|].
  assert (agent (recorded ev h) = (record (list_ (quar h)) ev (agent h)).2) as ->; [|constructor].
  unfold recorded, onAgent. by destruct (record _ _ _).
Qed.

(** An event that is a report of the agent's own. *)
Definition isReport (ev : event) : Prop := match ev with EvQueued _ | EvQuarantineAdded _ => True | _ => False end.

Lemma recorded_report ev h : isReport ev -> agent (recorded ev h) = agent h.
Proof. by destruct ev. Qed.

Lemma tell_goes subs ev h : a_running (agent h) = true -> goes h (tell subs ev h).2.
Proof.
  revert h. induction subs as [|s subs IH]; intros h Hr; cbn [tell]; [by apply goes_refl|].
  pose proof (civil_subscriber s ev h) as Ha. apply goes_acts in Ha; [|done].
  destruct (subscriber s ev h) as [[e|] h1]; cbn [snd] in *; [done|].
  eapply goes_trans; [done|]. apply IH, Ha.
Qed.

Lemma tell_quiet subs q h : quiet = true -> (tell subs (EvQueued q) h).1 = None.
Proof.
  intros Hq. revert h. induction subs as [|s subs IH]; intros h; cbn [tell]; [done|].
  pose proof (civil_quiet Hq s q h) as Hn. destruct (subscriber s (EvQueued q) h) as [[e|] h1]; [done|apply IH].
Qed.

Lemma onAgent_eq {A} (f : Agent C -> A * Agent C) h :
  (onAgent f h).2 = setAgent (fun _ => (f (agent h)).2) h /\ (onAgent f h).1 = (f (agent h)).1.
Proof. unfold onAgent. by destruct (f (agent h)). Qed.

Lemma dispatch_goes ev h : a_running (agent h) = true -> goes (recorded ev h) (dispatch ev h).2.
Proof.
  intros Hr. unfold dispatch. assert (a_running (agent (recorded ev h)) = true) as Hr1 by by rewrite recorded_running.
  revert Hr1. unfold recorded. destruct (onAgent _ h) as [ev' h1]. cbn [snd]. intros Hr1.
  pose proof (tell_goes (a_subs (agent h1)) ev' h1 Hr1) as Ht. destruct (tell _ ev' h1) as [[e|] h2]; cbn [snd] in *; [done|].
  destruct ev'; try done. eapply goes_trans; [done|]. destruct Ht. by eapply goes_section; [|apply S_sawTurnStart|..].
Qed.

Lemma dispatch_report ev h : a_running (agent h) = true -> isReport ev -> goes h (dispatch ev h).2.
Proof.
  intros Hr Hev. eapply goes_trans; [|by apply dispatch_goes]. pose proof (recorded_report ev h Hev) as Ha.
  split; rewrite Ha; try done. exists []. constructor.
Qed.

Lemma dispatch_quiet q h : quiet = true -> (dispatch (EvQueued q) h).1 = None.
Proof.
  intros Hq. unfold dispatch.
  assert (onAgent (record (list_ (quar h)) (EvQueued q)) h = (EvQueued q, recorded (EvQueued q) h)) as -> by done.
  pose proof (tell_quiet (a_subs (agent (recorded (EvQueued q) h))) q (recorded (EvQueued q) h) Hq) as Ht.
  by destruct (tell _ _ _) as [[e|] h2].
Qed.

Lemma dispatchAll_goes evs h : Forall isReport evs -> a_running (agent h) = true -> goes h (dispatchAll evs h).2.
Proof.
  intros Hev. revert h. induction Hev as [|ev evs Hev _ IH]; intros h Hr; cbn [dispatchAll]; [by apply goes_refl|].
  pose proof (dispatch_report ev h Hr Hev) as Hd. destruct (dispatch ev h) as [[e|] h1]; cbn [snd] in *; [done|].
  eapply goes_trans; [done|]. apply IH, Hd.
Qed.

Lemma dispatchAll_quiet qs h : quiet = true -> (dispatchAll (map EvQueued qs) h).1 = None.
Proof.
  intros Hq. revert h. induction qs as [|q qs IH]; intros h; cbn [dispatchAll map]; [done|].
  pose proof (dispatch_quiet q h Hq) as Hd. destruct (dispatch (EvQueued q) h) as [[e|] h1]; [done|apply IH].
Qed.

(** A section of the goroutine that reports. *)
Lemma goes_report h a' :
  a_running (agent h) = true -> reportStep (agent h) a' ->
  (quiet = true -> a_queuedErr (agent h) = None -> a_queuedErr a' = None) -> goes h (setAgent (fun _ => a') h).
Proof.
  intros Hr Hs Hq.
  assert (exists l, agentSteps (agent h) l a') as [l Hl].
  { exists []. apply (agentSteps_snoc _ [] (agent h) []); [constructor|]. by apply I_report. }
  inversion Hs as [b Hb|b Hb|e b Hb]; subst; (split; try done; by eexists).
Qed.

Lemma drainQueued_goes h :
  a_running (agent h) = true -> goes h (drainQueued h).2 /\ (quiet = true -> (drainQueued h).1 = None).
Proof.
  intros Hr. unfold drainQueued. destruct (onAgent_eq takeQueued h) as [H2 H1]. 
  destruct (onAgent takeQueued h) as [qs h1]. cbn [fst snd] in *. subst qs h1. split; [|by apply dispatchAll_quiet].
  assert (goes h (setAgent (fun _ => (takeQueued (agent h)).2) h)) as Hg by (apply goes_report; [done|constructor|done]).
  eapply goes_trans; [done|]. apply dispatchAll_goes; [|apply Hg]. by apply Forall_map, Forall_true.
Qed.

Lemma flushQuarantine_goes h : a_running (agent h) = true -> goes h (flushQuarantine h).2.
Proof.
  intros Hr. unfold flushQuarantine. destruct (onAgent_eq takeQuarantineOwed h) as [H2 H1]. 
  destruct (onAgent takeQuarantineOwed h) as [qs h1]. cbn [fst snd] in *. subst qs h1.
  assert (goes h (setAgent (fun _ => (takeQuarantineOwed (agent h)).2) h)) as Hg by (apply goes_report; [done|constructor|done]).
  eapply goes_trans; [done|]. apply dispatchAll_goes; [|apply Hg]. by apply Forall_map, Forall_true.
Qed.

Lemma flushQueued_goes h : a_running (agent h) = true -> goes h (flushQueued h).
Proof.
  intros Hr. unfold flushQueued. destruct (queuedOwed (agent h)); [|by apply goes_refl].
  destruct (drainQueued_goes h Hr) as [Hg Hn]. destruct (drainQueued h) as [[e|] h1]; cbn [fst snd] in *; [|done].
  eapply goes_trans; [done|]. apply goes_report; [apply Hg|constructor|]. intros Hq. by specialize (Hn Hq).
Qed.

Lemma unlockEmit_goes free passes h : a_running (agent h) = true -> goes h (unlockEmit free passes h).2.
Proof.
  revert passes h. induction free as [|free IH]; intros passes h Hr; cbn [unlockEmit]; cbv zeta.
  { by apply goes_acts, civil_meanwhile. }
  assert (goes h (meanwhile h)) as Hm by by apply goes_acts, civil_meanwhile. revert Hm. generalize (meanwhile h). intros h1 Hm.
  destruct (_ && negb _); [done|]. pose proof (flushQuarantine_goes h1 (goes_running _ _ Hm)) as Hf.
  destruct (flushQuarantine h1) as [[e|] h2]; cbn [snd] in *; [by eapply goes_trans|].
  assert (goes h h2) as Hg by by eapply goes_trans.
  destruct (_ && _ && _); (eapply goes_trans; [exact Hg|]).
  - pose proof (flushQueued_goes h2 (goes_running _ _ Hg)) as Hq. eapply goes_trans; [done|]. apply IH, Hq.
  - apply IH, Hg.
Qed.

(** The part of a delivery that holds the barrier. *)
Lemma deliverEvent_shape ev h : a_running (agent h) = true ->
  exists h1, goes h h1 /\
    (goes (recorded ev h1) (deliverEvent ev h).2 \/ (goes h1 (deliverEvent ev h).2 /\ quiet <> true)).
Proof.
  intros Hr. unfold deliverEvent. destruct (drainQueued_goes h Hr) as [Hq Hn].
  destruct (drainQueued h) as [[e|] h1]; cbn [fst snd] in *.
  { exists h. split; [by apply goes_refl|]. right. split; [done|]. intros Hqt. by specialize (Hn Hqt). }
  exists h1. split; [done|]. left. pose proof (dispatch_goes ev h1 (goes_running _ _ Hq)) as Hd.
  destruct (dispatch ev h1) as [[e|] h2]; cbn [snd] in *; [done|].
  pose proof (flushQuarantine_goes h2 (goes_running _ _ Hd)) as Hf. destruct (flushQuarantine h2) as [[e|] h3]; cbn [snd] in *.
  { by eapply goes_trans. }
  assert (goes (recorded ev h1) h3) as Hg by by eapply goes_trans.
  destruct (isRunEnd ev); [|done]. eapply goes_trans; [done|]. by apply drainQueued_goes, Hf.
Qed.

(** And the part that lets it go. *)
Lemma letGo_goes (x : option error) h : a_running (agent h) = true ->
  goes h (let '(ferr, h) := unlockEmit (regains h) 0 h in (match x with Some e => Some e | None => ferr end, h)).2.
Proof.
  intros Hr. pose proof (unlockEmit_goes (regains h) 0 h Hr) as Hu. by destruct (unlockEmit _ _ _).
Qed.

(** What a delivery does: the event is recorded between two stretches that keep what
    the agent holds, unless a report fails before it. *)
Lemma deliver_shape ev h : a_running (agent h) = true ->
  exists h1, goes h h1 /\
    (goes (recorded ev h1) (deliver ev h).2 \/
     (goes h1 (deliver ev h).2 /\ ~ (quiet = true /\ a_queuedErr (agent h) = None))).
Proof.
  intros Hr. unfold deliver. cbv zeta.
  assert (goes h (meanwhile h)) as Hm by by apply goes_acts, civil_meanwhile. revert Hm. generalize (meanwhile h). intros h1 Hm.
  destruct (onAgent_eq takeQueuedErr h1) as [H2 H1]. destruct (onAgent takeQueuedErr h1) as [qerr h2]. cbn [fst snd] in *.
  assert (goes h1 h2) as Hq.
  { subst h2. destruct Hm. by eapply goes_section; [|apply S_takeQueuedErr|..]. }
  assert (goes h h2) as Hg by by eapply goes_trans.
  assert (forall h' x, goes h' x -> forall y, goes h' (let '(ferr, h) := unlockEmit (regains x) 0 x in
    (match y with Some e => Some e | None => ferr end, h)).2) as Hu.
  { intros h' x Hx y. eapply goes_trans; [done|]. apply letGo_goes, Hx. }
  destruct (deliverEvent_shape ev h2 (goes_running _ _ Hg)) as (h3 & Hg3 & Hd).
  assert (goes h h3) as Hg3' by by eapply goes_trans.
  assert (qerr = None \/ (qerr <> None /\ ~ (quiet = true /\ a_queuedErr (agent h) = None))) as [->|[Hqe Hnq]].
  { destruct qerr as [e|]; [right|by left]. split; [done|]. intros [Hqt He]. cbn in H1. 
    rewrite (goes_quiet _ _ Hm Hqt He) in H1. done. }
  - destruct (deliverEvent ev h2) as [err h4]; cbn [snd] in *. exists h3. split; [done|].
    destruct Hd as [Hd|[Hd Hn]]; [left; by apply Hu|right]. split; [by apply Hu|]. by intros [? _].
  - destruct qerr as [e|]; [|done]. destruct (isRunEnd ev).
    + destruct (deliverEvent ev h2) as [err h4]; cbn [snd] in *. exists h3. split; [done|].
      destruct Hd as [Hd|[Hd Hn]]; [left; by apply Hu|right]. split; [by apply Hu|done].
    + exists h2. split; [done|]. right. split; [|done].
      apply (Hu h2 h2 (goes_refl _ (goes_running _ _ Hg)) (Some e)).
Qed.

(** A delivery of an event that adds nothing to the transcript and ends no run. *)
Definition passing (ev : event) : Prop := match ev with EvItemEnd _ | EvRunEnd _ => False | _ => True end.

Lemma deliver_passing ev h : passing ev -> a_running (agent h) = true -> goes h (deliver ev h).2.
Proof.
  intros Hp Hr. destruct (deliver_shape ev h Hr) as (h1 & Hg & Hd).
  assert (goes h1 (recorded ev h1)) as Hrec.
  { pose proof (goes_running _ _ Hg) as Hr1. split; [by rewrite recorded_running|exists []; by apply recorded_step|by destruct ev..]. }
  eapply goes_trans; [done|]. destruct Hd as [Hd|[Hd _]]; [|done]. by eapply goes_trans.
Qed.

(** ** The run *)

(** What a step of the run does, the agent's transcript growing as the run's when no
    report fails. *)
Record follows (s s' : St W) : Prop := {
  fo_running : a_running (agent (sh s')) = true;
  fo_steps : exists l, agentSteps (agent (sh s)) l (agent (sh s'));
  fo_pending : a_pending (agent (sh s')) = a_pending (agent (sh s));
  fo_notes : a_notes (agent (sh s')) = a_notes (agent (sh s));
  fo_lastEnd : a_lastEnd (agent (sh s')) = a_lastEnd (agent (sh s));
  fo_ends : a_ends (agent (sh s')) = a_ends (agent (sh s));
  fo_quiet : quiet = true -> a_queuedErr (agent (sh s)) = None ->
    a_queuedErr (agent (sh s')) = None /\
    exists t, transcript (run_ s') = transcript (run_ s) ++ t /\
      a_transcript (agent (sh s')) = a_transcript (agent (sh s)) ++ t;
}.
Definition following (s s' : St W) : Prop := a_running (agent (sh s)) = true -> follows s s'.

#[export] Instance following_preorder : PreOrder following.
Proof.
  split.
  - intros s Hr. split; try done; [exists []; constructor|]. intros _ Hq. split; [done|]. exists []. by rewrite !app_nil_r.
  - intros s1 s2 s3 H1 H2 Hr. destruct (H1 Hr) as [A1 [l A2] A3 A4 A5 A6 A7].
    destruct (H2 A1) as [B1 [l' B2] B3 B4 B5 B6 B7]. split; try congruence.
    + exists (l ++ l'). by eapply agentSteps_trans.
    + intros Hq He. destruct (A7 Hq He) as (C1 & t & C2 & C3). destruct (B7 Hq C1) as (D1 & t' & D2 & D3).
      split; [done|]. exists (t ++ t'). by rewrite D2, C2, D3, C3, !app_assoc.
Qed.

Lemma following_goes (s s' : St W) :
  (a_running (agent (sh s)) = true -> goes (sh s) (sh s')) -> transcript (run_ s') = transcript (run_ s) -> following s s'.
Proof.
  intros Hg Ht Hr. destruct (Hg Hr) as [H1 H2 H3 H4 H5 H6 H7 H8]. split; try done.
  intros Hq He. split; [by apply H8|]. exists []. by rewrite !app_nil_r.
Qed.

Lemma goes_same h h' : agent h' = agent h -> a_running (agent h) = true -> goes h h'.
Proof. intros Ha Hr. split; rewrite Ha; try done. exists []. constructor. Qed.

Context (cx : Ctx) (a0 : Agent C) (sd : handed) (res_ : bool) (ns : list answerNote).
#[local] Instance env : Env W := runEnv cx a0 sd res_ ns.

Lemma onAgent_goes {A} (f : Agent C -> A * Agent C) h l :
  a_running (agent h) = true -> runStep (agent h) l (f (agent h)).2 ->
  goes h (setAgent (fun _ => (f (agent h)).2) h) -> goes h (onAgent f h).2.
Proof. intros Hr Hs Hg. by rewrite (proj1 (onAgent_eq f h)). Qed.

Lemma drains_go h : a_running (agent h) = true ->
  goes h (onAgent drainSteer h).2 /\ goes h (onAgent drainFollowUp h).2 /\ goes h (onAgent drainBoth h).2 /\
  goes h (onAgent close h).2.
Proof.
  intros Hr. rewrite !(fun A f => proj1 (onAgent_eq (A := A) f h)). split_and!.
  - destruct (takeSteer_cases (agent h)) as [[E Hd]|[E Hd]];
      (eapply goes_section; [done|apply S_drainSteer|..]); unfold drainSteer; rewrite Hd; done.
  - by eapply goes_section; [|apply S_drainFollowUp|..].
  - destruct (drainBoth_cases (agent h)) as [(_ & _ & Hd)|[_ Hd]];
      (eapply goes_section; [done|apply S_drainBoth|..]); rewrite Hd; try done;
      by destruct (takeSteer_cases (agent h)) as [[E ->]|[E ->]].
  - eapply goes_section; [done|apply S_close|..]; unfold close; cbn [snd]; by destruct (a_closing (agent h)).
Qed.

Lemma asked_goes A (f : shared W -> A * shared W) h :
  asked (env := env) f -> a_running (agent h) = true -> goes h (f h).2.
Proof.
  intros Hf Hr. destruct (drains_go h Hr) as (D1 & D2 & D3 & D4).
  pose proof (fun A f Hf => goes_acts h _ Hr (civil_asked (a_cfg a0) A f Hf h)) as Hc.
  set (he := hostEnv (a_cfg a0)) in *.
  destruct Hf as [ |n| | |d|prefix|q Hq|q Hq|q Hq|q Hq|req k f Hf|jobs k f Hf| |f i Hf|f req Hf|f i Hf|f i Hf|f n req err Hf
    |f i Hf|f i Hf|f i Hf]; try (injection Hq as <-; done); try (by apply goes_same).
  - change (goes h (runErr h).2). unfold runErr. destruct (a_cancelled (agent h)); [by apply goes_refl|]. apply (Hc _ _ (A_ctxErr he)).
  - apply (Hc _ _ (A_timer he d)).
  - apply (Hc _ _ (A_NewID he prefix)).
  - apply (Hc _ _ (A_wire he req k f Hf)).
  - apply (Hc _ _ (A_exec he jobs k f Hf)).
  - apply (Hc _ _ (A_tools he)).
  - apply (Hc _ _ (A_BeforeTurn he f i Hf)).
  - apply (Hc _ _ (A_BeforeModelCall he f req Hf)).
  - apply (Hc _ _ (A_OutputGuard he f i Hf)).
  - apply (Hc _ _ (A_Transform he f i Hf)).
  - apply (Hc _ _ (A_Revise he f n req err Hf)).
  - apply (Hc _ _ (A_BeforeToolCall he f i Hf)).
  - apply (Hc _ _ (A_AfterToolCall he f i Hf)).
  - apply (Hc _ _ (A_ShouldStop he f i Hf)).
Qed.

(** ** Every function of the run *)
Context `{Externals} `{Tools} `{Accumulator}.

Lemma following_emit k f : sends k f -> k <> KItemEnd -> keeps following (emit (env := env) f).
Proof.
  intros Hf Hk s. destruct (Hf (run_ s)) as [[_ Hi] He].
  assert (passing (f (run_ s))) as Hp by (destruct (f (run_ s)); simplify_eq/=; done).
  unfold emit. pose proof (deliver_passing _ (sh s) Hp) as Hd. cbn [env send runEnv].
  destruct (deliver (f (run_ s)) (sh s)) as [e h]. by apply following_goes.
Qed.

Lemma following_appendItem i g f : frames g -> endsItem i f -> keeps following (appendItem (env := env) i g f).
Proof.
  intros Hg Hf s Hr. unfold appendItem, bind, modify, emit. cbn [env send runEnv].
  match goal with |- context [deliver (EvItemEnd (f (run_ ?s')))] => set (s1 := s') end.
  assert (agent (sh s1) = agent (sh s)) as Ha by done.
  destruct (deliver_shape (EvItemEnd (f (run_ s1))) (sh s1)) as (h1 & Hg1 & Hd); [by rewrite Ha|].
  destruct (deliver (EvItemEnd (f (run_ s1))) (sh s1)) as [e h2]. cbn [snd] in *.
  assert (transcript (run_ s1) = transcript (run_ s) ++ [i]) as Ht.
  { unfold s1. upd. by rewrite (proj1 (proj2 (Hg (run_ s)))). }
  assert (a_running (agent h1) = true) as Hr1 by apply Hg1.
  pose proof (recorded_step (EvItemEnd (f (run_ s1))) h1 Hr1) as Hrec.
  assert (let a := agent (recorded (EvItemEnd (f (run_ s1))) h1) in
    a_transcript a = a_transcript (agent h1) ++ [i] /\ a_pending a = a_pending (agent h1) /\ a_notes a = a_notes (agent h1) /\
    a_lastEnd a = a_lastEnd (agent h1) /\ a_ends a = a_ends (agent h1) /\ a_queuedErr a = a_queuedErr (agent h1))
    as (R1 & R2 & R3 & R4 & R5 & R6).
  { split_and!; try done. by rewrite <- (proj2 (Hf (run_ s1))). }
  destruct Hg1 as [A1 [l A2] A3 A4 A5 A6 A7 A8]. rewrite Ha in *.
  destruct Hd as [[B1 [l' B2] B3 B4 B5 B6 B7 B8]|[[B1 [l' B2] B3 B4 B5 B6 B7 B8] Hn]].
  - split; upd; try done; try congruence.
    + exists ((l ++ []) ++ l'). eapply agentSteps_trans; [|done]. by eapply agentSteps_trans.
    + intros Hq He. split; [apply B8; [done|]; rewrite R6; by apply A8|]. exists [i]. split; [done|]. congruence.
  - split; upd; try done; try congruence.
    + exists (l ++ l'). by eapply agentSteps_trans.
    + intros Hq He. by destruct Hn.
Qed.

Abbreviation follow := (keeping (W := W) following).

#[export] Instance following_RunLogic : RunLogic (env := env) follow.
Proof.
  apply keeps_RunLogic; [typeclasses eauto| | |intros f Hf; by eapply following_emit|apply following_appendItem].
  - intros A f Hf s. apply following_goes; [|done]. intros Hr. by apply asked_goes.
  - intros f Hf s. cbn. apply following_goes; [intros Hr; by apply goes_refl|]. apply Hf.
Qed.

#[export] Instance following_ToolLogic : ToolLogic (env := env) follow.
Proof. split; unfold obeys, keeping; intros; by eapply following_emit. Qed.

#[export] Instance following_RetryLogic : RetryLogic (env := env) follow.
Proof. intros f Hf. by eapply following_emit. Qed.

#[export] Instance following_TurnLogic : TurnLogic (env := env) follow.
Proof.
  split.
  - intros. by eapply following_emit.
  - intros. apply (logic_attempts follow). unfold obeys, keeping. keeps.
  - intros s. apply following_goes; [intros Hr; by apply goes_refl|done].
Qed.

(** The loop of the run, its run_start included. *)
Lemma loop_follows fuel prompts aps terminate : keeps following (loop (env := env) fuel prompts aps terminate).
Proof.
  unfold loop. apply keeps_bind; [typeclasses eauto| |intros _].
  - intros s. unfold emit. cbn [env send runEnv].
    pose proof (deliver_passing (runStart (env := env) prompts aps (run_ s)) (sh s) I) as Hd.
    destruct (deliver _ (sh s)) as [e h]. by apply following_goes.
  - assert (obeys follow (begin_ (env := env) prompts aps terminate ;;
      if terminate then fail (EStop ReasonStopped StopRefused None false) else turns (env := env) fuel)) as Hg; [|exact Hg].
    walk. eapply logic_turns; try typeclasses eauto. unfold obeys, keeping. keeps.
Qed.

(** ** The run_end *)

Lemma deliver_steps ev h : a_running (agent h) = true ->
  a_running (agent (deliver ev h).2) = true /\ exists l, agentSteps (agent h) l (agent (deliver ev h).2).
Proof.
  intros Hr. destruct (deliver_shape ev h Hr) as (h1 & Hg & Hd). pose proof (goes_running _ _ Hg) as Hr1.
  destruct (goes_steps _ _ Hg) as [l Hl]. destruct Hd as [Hd|[Hd _]]; (split; [apply Hd|]); destruct (goes_steps _ _ Hd) as [l' Hl'].
  - exists ((l ++ []) ++ l'). eapply agentSteps_trans; [|done]. eapply agentSteps_trans; [done|by apply recorded_step].
  - exists (l ++ l'). by eapply agentSteps_trans.
Qed.

(** Delivered while no report fails, a run_end is what the agent holds of the run. *)
Lemma deliver_end e h : a_running (agent h) = true -> quiet = true -> a_queuedErr (agent h) = None ->
  let a := agent (deliver (EvRunEnd e) h).2 in
  a_transcript a = a_transcript (agent h) /\ a_pending a = re_Pending e /\ a_notes a = re_Notes e /\
  exists e', a_lastEnd a = Some (a_ends (agent h), e') /\ re_Pending e' = re_Pending e /\ re_Notes e' = re_Notes e /\
    re_Items e' = re_Items e /\ re_Reason e' = re_Reason e.
Proof.
  intros Hr Hq He. cbv zeta. destruct (deliver_shape (EvRunEnd e) h Hr) as (h1 & Hg & [Hd|[_ []]]); [|done].
  destruct Hg as [_ _ A3 A4 A5 A6 A7 _]. destruct Hd as [_ _ B3 B4 B5 B6 B7 _]. rewrite B3, B4, B5, B6, <- A3, <- A7.
  unfold recorded, onAgent. cbn [record]. destruct (list_ (quar h1)); cbn; split_and!; try done; eexists; by split_and!.
Qed.

(** What a run's steps up to its run_end keep. *)
Lemma run_follows fuel prompts aps terminate (s : St W) :
  exists s1, following s s1 /\ (exists t, transcript (run_ s1) = transcript (run_ s) ++ t /\ added (run_ s1) = added (run_ s) ++ t) /\
  match run (env := env) fuel prompts aps terminate s with
  | (Ok e, s2) => s2 = s1 <| sh := (deliver (EvRunEnd e) (sh s1)).2 |> <| log ::= fun l => l ++ [EvRunEnd e] |> /\
      re_Items e = added (run_ s1) /\ re_Pending e = pending (env := env) (run_ s1) /\
      re_Notes e = (if bool_decide (re_Pending e = []) then notes (run_ s1) else [])
  | (_, s2) => s2 = s1
  end.
Proof.
  unfold run, bind at 1.
  assert (keeps following (startRun (env := env))) as Hstart.
  { unfold startRun. keeps; [apply (L_ask (P := follow)); exact (A_NewID env _)|..];
      (intros s0; apply following_goes; [intros Hr; by apply goes_refl|done]). }
  specialize (Hstart s). destruct (startRun_run (env := env) s) as (s0 & E0 & Hl0 & Ht0 & Ha0 & _ & _). rewrite E0 in *. cbn [snd] in Hstart.
  pose proof (loop_follows fuel prompts aps terminate s0) as Hloop.
  destruct (loop_grows (env := env) fuel prompts aps terminate s0) as (l & s1 & -> & _ & _ & _ & Ht & Ha).
  unfold bind at 1, errOf. destruct (loop fuel prompts aps terminate s0) as [r s1]. cbn [snd] in *.
  assert (forall err, exists e s2, runEnd (env := env) err s1 = (Ok e, s2) /\ following s1 s2 /\ run_ s2 = run_ s1 /\
    re_Items e = added (run_ s1) /\ re_Pending e = pending (env := env) (run_ s1) /\
    re_Notes e = (if bool_decide (re_Pending e = []) then notes (run_ s1) else [])) as Hend.
  { intros err. pose proof (logic_runEnd follow err s1) as Hf. destruct (runEnd_run err s1) as (e & s2 & E & _ & Hr2 & _ & H3 & H4 & H5).
    rewrite E in Hf. exists e, s2. split_and!; try done. by rewrite H4. }
  assert (forall err, exists s1', following s s1' /\
    (exists t, transcript (run_ s1') = transcript (run_ s) ++ t /\ added (run_ s1') = added (run_ s) ++ t) /\
    match bind (runEnd (env := env) err) (fun e => bind (try (emit (env := env) (fun _ => EvRunEnd e))) (fun _ => ret e)) s1 with
    | (Ok e, s2) => s2 = s1' <| sh := (deliver (EvRunEnd e) (sh s1')).2 |> <| log ::= fun l => l ++ [EvRunEnd e] |> /\
      re_Items e = added (run_ s1') /\ re_Pending e = pending (env := env) (run_ s1') /\
      re_Notes e = (if bool_decide (re_Pending e = []) then notes (run_ s1') else [])
    | (_, s2) => s2 = s1'
    end) as Hok.
  { intros err. destruct (Hend err) as (e & s2 & E & Hf & Hr2 & H3 & H4 & H5). exists s2. split; [by repeat (etransitivity; [done|])|].
    split; [exists (endedItems l); rewrite Hr2, Ht, Ht0, Ha, Ha0; by split|].
    unfold bind, try. rewrite E. unfold emit. cbn [env send runEnv]. destruct (deliver (EvRunEnd e) (sh s2)) as [[x|] h2] eqn:Ed; cbn [snd];
      rewrite Hr2; split_and!; try done; by rewrite Ed. }
  destruct r as [u|e| |]; [apply (Hok None)|apply (Hok (Some e))|..]; exists s1; (split; [by repeat (etransitivity; [done|])|]);
    (split; [exists (endedItems l); rewrite Ht, Ht0, Ha, Ha0; by split|done]).
Qed.

End Civil.

(** ** Properties *)
Section Runs.
Context {C U : Type} `{!Host C U} (quiet : bool) `{!Civil quiet} `{Externals} `{Tools} `{Accumulator}.
Abbreviation W := (World C U).
Implicit Types h : shared W.

(** The pending calls of an agent are the calls of its transcript without an output. *)
Definition pendingUnanswered (a : Agent C) : Prop :=
  map p_Call (a_pending a) = map Some (unansweredCalls (a_transcript a)).

Lemma pending_calls {env : Env W} (r : runner) : map p_Call (pending (env := env) r) = map Some (unansweredCalls (transcript r)).
Proof.
  unfold pending. cbv zeta. set (ps := map (pendingOne r) (unansweredCalls (transcript r))).
  assert (map p_Call ps = map Some (unansweredCalls (transcript r))) as <-.
  { unfold ps. rewrite map_map. apply map_ext. intros c. unfold pendingOne. cbv zeta. upd. by destruct (reasoned_frame r c). }
  generalize (length ps - 1)%nat. induction ps as [|p ps IH]; intros [|n]; try done. cbn [alter list_alter map]. f_equal. apply IH.
Qed.

(** A run that starts, from the agent it starts on. *)
Lemma runAgent_starts fuel cx prompts ns aps resuming terminate h :
  let a0 := agent h in
  (exists e, runAgent fuel cx prompts ns aps resuming terminate h = (Err e, h)) \/
  exists id sd s, let a := begun id a0 in
    start (validateConfig (configOf (a_cfg a0))) cx prompts resuming id a0 = (inl sd, a) /\
    sd_transcript sd = a_transcript a0 /\ agent (sh s) = a /\ run_ s = newRunner cx a sd /\
    runAgent fuel cx prompts ns aps resuming terminate h =
      match run (env := runEnv cx a sd resuming ns) fuel prompts aps terminate s with
      | (Ok e, s) =>
          (Ok (returned a0 (agent (sh s)) e,
             if bool_decide (re_Reason (returned a0 (agent (sh s)) e) = ReasonError)
             then re_Err (returned a0 (agent (sh s)) e) else None),
           setAgent (finishRun (reasoning (run_ s)) (persons (run_ s))) (sh s))
      | (Err e, s) => (Err e, sh s)
      | (Panicked, s) => (Panicked, sh s)
      | (OutOfFuel, s) => (OutOfFuel, sh s)
      end.
Proof.
  cbv zeta. unfold runAgent. cbv zeta. destruct (hostNewID "run" h) as [id h'].
  destruct (start _ cx prompts resuming id (agent h)) as [[sd|e] a] eqn:E; [right|left; by eexists].
  pose proof (start_ok _ _ _ _ _ _ _ _ E) as (_ & _ & _ & _ & _ & Hsd & ->).
  exists id, sd. eexists. split; [done|]. split; [by rewrite Hsd|]. split; [|split; [|reflexivity]]; reflexivity.
Qed.

Lemma finishRun_fields m p (a : Agent C) :
  a_running (finishRun m p a) = false /\ a_transcript (finishRun m p a) = a_transcript a /\
  a_pending (finishRun m p a) = a_pending a /\ a_notes (finishRun m p a) = a_notes a /\
  a_lastEnd (finishRun m p a) = a_lastEnd a.
Proof. by split_and!. Qed.

(** C18: a run driven by an agent is an execution of the agent's sections. Whatever the
    subscribers, hooks, tools and other goroutines do through the agent's operations
    while it runs, however the run ends or gives out, and whoever fails, the agent
    comes out of [run] by a sequence of the sections of the interleaving model: so
    what holds of every execution holds of agents that run. *)
Theorem runAgent_refines fuel cx prompts ns aps resuming terminate h :
  exists l, agentSteps (agent h) l (agent (runAgent fuel cx prompts ns aps resuming terminate h).2).
Proof.
  destruct (runAgent_starts fuel cx prompts ns aps resuming terminate h) as [[e ->]|(id & sd & s & Hst & _ & Ha & _ & ->)].
  { exists []. constructor. }
  assert (agentSteps (agent h) [] (agent (sh s))) as Hs0.
  { rewrite Ha. apply (agentSteps_snoc _ [] (agent h) []); [constructor|]. by eapply I_start. }
  assert (a_running (agent (sh s)) = true) as Hr0 by by rewrite Ha.
  destruct (run_follows quiet cx (begun id (agent h)) sd resuming ns fuel prompts aps terminate s) as (s1 & Hf & _ & Hrun).
  destruct (fo_steps _ _ _ (Hf Hr0)) as [l Hl].
  assert (agentSteps (agent h) l (agent (sh s1))) as Hs1 by by apply (agentSteps_trans _ [] _ _ _ Hs0).
  destruct (run fuel prompts aps terminate s) as [[e|e| |] s2]; cbn [snd]; [|subst s2; by exists l..].
  destruct Hrun as [-> _]. cbn.
  destruct (deliver_steps quiet (EvRunEnd e) (sh s1) (fo_running _ _ _ (Hf Hr0))) as [Hr2 [l' Hl']].
  exists ((l ++ l') ++ []). eapply agentSteps_snoc; [by eapply agentSteps_trans|]. apply I_run; [done|constructor].
Qed.

(** C1: an agent holds what its runs leave. When no subscriber fails on the report of a
    queued item, a run that returns leaves the agent idle, its transcript grown by
    exactly the items of the run_end it returns, which is the agent's last; and its
    pending calls are the run_end's, which are the calls of that transcript without
    an output, and its notes the run_end's: whatever failed, and however the run was
    cut. *)
Theorem runAgent_mirrors fuel cx prompts ns aps resuming terminate h e err h' :
  quiet = true ->
  runAgent fuel cx prompts ns aps resuming terminate h = (Ok (e, err), h') ->
  let a := agent h in let a' := agent h' in
  a_running a' = false /\ a_transcript a' = a_transcript a ++ re_Items e /\
  a_pending a' = re_Pending e /\ a_notes a' = re_Notes e /\ a_lastEnd a' = Some (a_ends a, e) /\
  pendingUnanswered a' /\ err = if bool_decide (re_Reason e = ReasonError) then re_Err e else None.
Proof.
  intros Hq Hrun. cbv zeta.
  destruct (runAgent_starts fuel cx prompts ns aps resuming terminate h) as [[e0 E]|(id & sd & s & Hst & Hsd & Ha & Hr & E)];
    rewrite E in Hrun; [done|]. clear E.
  assert (a_running (agent (sh s)) = true) as Hr0 by by rewrite Ha.
  assert (a_queuedErr (agent (sh s)) = None) as He0 by by rewrite Ha.
  destruct (run_follows quiet cx (begun id (agent h)) sd resuming ns fuel prompts aps terminate s)
    as (s1 & Hf & (t & Ht & Had) & Hend).
  destruct (run fuel prompts aps terminate s) as [[e0|e0| |] s2]; try done. injection Hrun as <- <- <-.
  destruct Hend as (-> & Hitems & Hpend & Hnotes). destruct (Hf Hr0) as [F1 _ F3 F4 F5 F6 F7].
  destruct (F7 Hq He0) as (F8 & t' & Ht' & Hat). rewrite Hr in Ht, Had, Ht'. cbn in Ht, Had, Ht'.
  assert (t' = t) as -> by (rewrite Ht in Ht'; by apply app_inv_head in Ht').
  destruct (deliver_end quiet e0 (sh s1) F1 Hq F8) as (D1 & D2 & D3 & e' & D4 & D5 & D6 & D7 & D8).
  assert (a_ends (agent (sh s1)) = a_ends (agent h)) as Hends by (by rewrite F6, Ha).
  assert (a_transcript (agent (sh s1)) = a_transcript (agent h) ++ t) as Htr by (by rewrite Hat, Ha).
  set (s2 := s1 <| sh := _ |> <| log ::= _ |>).
  assert (returned (agent h) (agent (sh s2)) e0 = e') as ->.
  { unfold returned. change (sh s2) with (deliver (EvRunEnd e0) (sh s1)).2. rewrite D4, Hends. by rewrite Nat.eqb_refl. }
  change (agent (setAgent (finishRun (reasoning (run_ s2)) (persons (run_ s2))) (sh s2))) with
    (finishRun (reasoning (run_ s2)) (persons (run_ s2)) (agent (deliver (EvRunEnd e0) (sh s1)).2)).
  destruct (finishRun_fields (reasoning (run_ s2)) (persons (run_ s2)) (agent (deliver (EvRunEnd e0) (sh s1)).2))
    as (G1 & G2 & G3 & G4 & G5).
  unfold pendingUnanswered. rewrite G1, G2, G3, G4, G5, D1, D2, D3, D4, D5, D6, D7, Hends, Htr, Hitems, Had, Hpend.
  split_and!; try done. rewrite pending_calls, Ht, Hsd. done.
Qed.

End Runs.
