(* ===== verification/Hosted.v ===== *)
(** * Hosted: an agent and its run, evaluated: a small program around an agent, what
    the theorems of [Mirror] say of it, and what a subscriber that fails on the report
    ahead of a run_end costs. *)

From S2P Require Import Toy.
From S2P Require Export Mirror.

(** A program with one subscriber, whose policy defers every call, and another goroutine
    that steers an item once the run has stopped taking them. When it [fails], the
    subscriber refuses the report of a queued item. *)
Module HostToy.
Abbreviation W := (World nat unit).

Definition deferring : ToolDecision := {| Action := Defer; td_Reason := ""; td_Terminate := false; td_Args := None;
  td_By := ""; td_Note := ""; td_Held := false; td_Subject := ""; td_DeclineText := "" |}.
Definition config (c : nat) : Config W :=
  Toy.policied (Some (fun h _ => (inl (Some deferring), h))).
Definition late : input := Plain (Toy.message "late").
Definition lateSteer (h : shared W) : shared W :=
  if a_closing (agent h) && bool_decide (a_steer (agent h) = [])
  then setAgent (fun a => queue noTrigger QueueSteer InputSteer true [late] a) h else h.

Definition host (fails : bool) : Host nat unit := {|
  configOf := config;
  subscriber := fun _ ev h => (match ev with EvQueued _ => if fails then Some (Errorf "full") else None | _ => None end, h);
  meanwhile := lateSteer;
  regains := fun _ => 3%nat;
  promptErr := fun h => (None, h);
  wakes := fun h => (None, h);
  hostTimer := fun _ h => (true, h);
  hostNewID := fun prefix h => (prefix, h);
  hostEvents := fun req _ => if (length (calls (rq_Input req)) =? 0)%nat then Toy.calling else Toy.answering;
  hostPreceding := fun jobs => map (fun _ => []) jobs;
  hostExecute := fun jobs _ => Toy.runJobs 0 jobs;
  hostContextLength := fun _ => false |}.

#[local] Existing Instance Toy.externals.
#[local] Existing Instance Toy.tools.
#[local] Existing Instance Toy.accumulator.

Definition start_ : shared W := {|
  outside := {| ag := (Subscribe (New 0%nat [])).2; user := () |}; quar := newQuarantine; next := 1000 |}.

(** A prompt, whose call the policy defers. *)
Definition prompted (fails : bool) : res (RunEnd * option error) * shared W :=
  Prompt (Host0 := host fails) 5 Background [Plain (Toy.message "go")] start_.

Section Civil.
Variable fails : bool.
#[local] Instance hosted : Host nat unit := host fails.

Lemma acts_same quiet h h' : agent h' = agent h -> acts (C := nat) (U := unit) quiet h h'.
Proof. intros Ha. split; rewrite Ha; [exists []; constructor|done]. Qed.
Lemma acts_refl quiet h : acts (C := nat) (U := unit) quiet h h.
Proof. by apply acts_same. Qed.

Lemma occurs_yield xs f : occurs (Toy.yield (W := W) xs) f -> f = id.
Proof.
  induction xs as [|x xs IH]; intros Ho; [inversion Ho|].
  inversion Ho as [? ? ? E|? ? ? h ? Hl E]; [by subst|]. by apply IH.
Qed.

Lemma executes_runJobs n jobs f : executes (Toy.runJobs (W := W) n jobs) f -> f = id.
Proof.
  revert n. induction jobs as [|j jobs IH]; intros n Hx; cbn in Hx; [inversion Hx|].
  inversion Hx as [|?|? ? ? h st ? Hx'|]; subst; [done|]. inversion Hx' as [|?| |? ? ? ? h' b ? Hx'']; subst; [done|]. by eapply IH.
Qed.

Lemma civil : Civil (Host0 := host fails) (negb fails).
Proof.
  split.
  - intros s ev h. apply acts_refl.
  - intros h. cbn. unfold lateSteer. destruct (_ && _); [|apply acts_refl].
    split; [|intros _ Hq; cbn; unfold queue, queueOne; cbn; done].
    eexists. eapply hostSteps_host; [constructor|]. exact (H_steer Background InputSteer true [late] (agent h)).
  - intros h. apply acts_refl.
  - intros c A f Hf h. destruct Hf as [| | | | | | | | | |req h0 f Ho|jobs h0 f Hx| | | | | | |f i Hb| |]; cbn [snd hostEnv Events Execute cfg] in *; try (by apply acts_same); try done.
    + unfold hostEvents, host in Ho. destruct (_ =? _)%nat in Ho; apply occurs_yield in Ho as ->; apply acts_refl.
    + apply executes_runJobs in Hx as ->. apply acts_refl.
    + injection Hb as <-. apply acts_refl.
  - intros Hq s q h. unfold subscriber, hosted, host. by destruct fails.
Qed.
End Civil.
End HostToy.

Section Lost.
Context {C U : Type} `{!Host C U} (quiet : bool) `{!Civil quiet}.

(** C36: a report that fails ahead of a run_end costs the agent its end. The run_end is
    not recorded: the agent keeps the pending calls, the notes and the last end it had
    before, which [start] had cleared, whatever the run left unanswered, though the
    run returns its run_end all the same. An error kept from an earlier report does
    not have that effect. *)
Theorem run_end_lost e x (h : shared (World C U)) :
  a_running (agent h) = true ->
  (drainQueued (onAgent takeQueuedErr (meanwhile h)).2).1 = Some x ->
  let a := agent h in let a' := agent (deliver (EvRunEnd e) h).2 in
  (deliver (EvRunEnd e) h).1 = Some x /\
  a_pending a' = a_pending a /\ a_notes a' = a_notes a /\ a_lastEnd a' = a_lastEnd a /\ a_ends a' = a_ends a.
Proof.
  intros Hr. cbv zeta. unfold deliver. cbv zeta.
  assert (goes quiet h (meanwhile h)) as Hm by by apply goes_acts, civil_meanwhile. revert Hm. generalize (meanwhile h). intros h1 Hm.
  destruct (onAgent_eq takeQueuedErr h1) as [H2 _]. destruct (onAgent takeQueuedErr h1) as [qerr h2]. cbn [fst snd] in *.
  assert (goes quiet h h2) as Hg.
  { eapply goes_trans; [done|]. subst h2. destruct Hm. by eapply goes_section; [|apply S_takeQueuedErr|..]. }
  intros Hx. destruct (drainQueued_goes quiet h2 (goes_running _ _ _ Hg)) as [Hd _].
  assert (deliverEvent (EvRunEnd e) h2 = (Some x, (drainQueued h2).2)) as Hev.
  { unfold deliverEvent. destruct (drainQueued h2) as [y h3]. cbn in Hx. by rewrite Hx. }
  assert (forall y, y = Some x -> goes quiet h (let '(ferr, h') := unlockEmit (regains (drainQueued h2).2) 0 (drainQueued h2).2 in
     (match y with Some e => Some e | None => ferr end, h')).2) as Hu.
  { intros y _. eapply goes_trans; [exact Hg|]. eapply goes_trans; [exact Hd|]. apply letGo_goes; [done|apply Hd]. }
  specialize (Hu (Some x) eq_refl). cbn [isRunEnd].
  destruct qerr; rewrite Hev; destruct (unlockEmit _ _ _); destruct Hu; by split_and!.
Qed.
End Lost.

(** ** The run of the toy program *)

#[local] Existing Instance Toy.externals.
#[local] Existing Instance Toy.tools.
#[local] Existing Instance Toy.accumulator.

(** What a host sees of a prompt: why it ended, its pending calls, and the agent's. *)
Definition ending_ (x : res (RunEnd * option error) * shared HostToy.W) :=
  match x with
  | (Ok (e, _), h) => Some (re_Reason e, length (re_Pending e), length (a_pending (agent h)), bool_decide (a_lastEnd (agent h) = None))
  | _ => None
  end.

Example prompted_quiet : ending_ (HostToy.prompted false) = Some (ReasonInputRequired, 1%nat, 1%nat, false).
Proof. vm_compute. reflexivity. Qed.

(** The pending call is lost, and with it the run's end. *)
Example prompted_lost : ending_ (HostToy.prompted true) = Some (ReasonInputRequired, 1%nat, 0%nat, true).
Proof. vm_compute. reflexivity. Qed.

Abbreviation toyRun fails :=
  (runAgent (Host0 := HostToy.host fails) 5 Background [Plain (Toy.message "go")] [] [] false false HostToy.start_).

Lemma runAgent_refines_witness : exists l, agentSteps (agent HostToy.start_) l (agent (toyRun true).2).
Proof.
  exact (runAgent_refines (Host0 := HostToy.host true) false (Civil0 := HostToy.civil true) 5 Background
    [Plain (Toy.message "go")] [] [] false false HostToy.start_).
Defined.

Lemma ok_inv {A B W : Type} (x : res (A * B) * W) :
  match x with (Ok _, _) => true | _ => false end = true -> exists a b w, x = (Ok (a, b), w).
Proof. destruct x as [[[a b]|e| |] w]; try done. by exists a, b, w. Qed.

Lemma runAgent_mirrors_witness : exists e err h',
  toyRun false = (Ok (e, err), h') /\ a_transcript (agent h') = re_Items e /\ a_pending (agent h') = re_Pending e /\
  pendingUnanswered (agent h').
Proof.
  assert (exists e err h', toyRun false = (Ok (e, err), h')) as (e & err & h' & E) by (apply ok_inv; vm_compute; reflexivity).
  exists e, err, h'. split; [exact E|].
  destruct (runAgent_mirrors (Host0 := HostToy.host false) true (Civil0 := HostToy.civil false) 5 Background
    [Plain (Toy.message "go")] [] [] false false HostToy.start_ e err h' eq_refl E) as (_ & H1 & H2 & _ & _ & H3 & _).
  split; [exact H1|]. split; [exact H2|exact H3].
Defined.

Definition toyEnd : RunEnd := {| re_ID := "run"; re_Items := []; re_Reason := ReasonInputRequired; re_Cause := NoCause; re_Err := None;
  re_Failure := None; re_Pending := []; re_Notes := []; re_Quarantined := []; re_WithheldMsg := false |}.
Definition toyEnding : shared HostToy.W :=
  setAgent (fun a => queue noTrigger QueueSteer InputSteer true [HostToy.late] (begun "run" a)) HostToy.start_.

Lemma run_end_lost_witness :
  a_lastEnd (agent (deliver (Host0 := HostToy.host true) (EvRunEnd toyEnd) toyEnding).2) = None.
Proof.
  apply (run_end_lost (Host0 := HostToy.host true) false (Civil0 := HostToy.civil true) toyEnd (Errorf "full") toyEnding);
    reflexivity.
Defined.
