(* ===== verification/Routes.v ===== *)
(** * Routes: the handoffs of a conversation, read off its transcript, and what the agent
    that has the conversation sees of it ([front/responses/handoff.go]).

    What is read of an agent's configuration here is its name and its model's. An output
    with an empty list of parts is not told apart from one with none. *)

From Stdlib Require Import Sorted.
From S2P Require Import Toy.
From S2P Require Export Turn.

Class Configured (C : Type) := { ConfigName : C -> string; ConfigModel : C -> string }.

Section Routes.
Context `{Externals} {C : Type} `{!Configured C}.

(** [Route] and [Handoff]. *)
Definition Route : Type := callRef -> option (C * string).
Record Handoff := { hf_Call : callRef; hf_Output : nat; hf_To : C }.

(** ** [Handoffs] *)

(** A transfer call not answered yet, and what an item makes of those. *)
Definition transfer : Type := (callRef * C * string)%type.
Definition openStep (route : Route) (open : gmap string transfer) (i : item) : gmap string transfer :=
  match i with
  | ICall p c =>
      let r := {| cr_ptr := p; cr_call := c |} in
      match route r with Some (to, output) => <[CallID c := (r, to, output)]> open | None => open end
  | IOutput _ o => delete (OutCallID o) open
  | _ => open
  end.

(** The handoff the item at [n] makes. *)
Definition handedAt (open : gmap string transfer) (n : nat) (i : item) : list Handoff :=
  match i with
  | IOutput _ o =>
      match open !! OutCallID o with
      | Some (call, to, output) =>
          if bool_decide (Parts (Output o) = []) && bool_decide (Text_ (Output o) = output) &&
             negb (bool_decide (Text_ (Output o) = WithheldCallOutput))
          then [{| hf_Call := call; hf_Output := n; hf_To := to |}] else []
      | None => []
      end
  | _ => []
  end.

Fixpoint handoffsFrom (route : Route) (open : gmap string transfer) (n : nat) (t : Transcript) : list Handoff :=
  match t with
  | [] => []
  | i :: t => handedAt open n i ++ handoffsFrom route (openStep route open i) (S n) t
  end.
Definition Handoffs (t : Transcript) (route : Route) : list Handoff := handoffsFrom route ∅ 0 t.

(** [HandedTo]. *)
Definition HandedTo (t : Transcript) (route : Route) : option C := option_map hf_To (last (Handoffs t route)).

(** [Attribute]. *)
Fixpoint attributeFrom (m : ReasoningModels) (from : nat) (name : string) (t : Transcript) (hs : list Handoff) : ReasoningModels :=
  match hs with
  | [] => Reasoning.Attribute m name (drop from t)
  | h :: hs =>
      attributeFrom (Reasoning.Attribute m name (take (S (hf_Output h) - from) (drop from t)))
        (S (hf_Output h)) (ConfigModel (hf_To h)) t hs
  end.
Definition Attribute (t : Transcript) (start : C) (hs : list Handoff) : ReasoningModels := attributeFrom ∅ 0 (ConfigModel start) t hs.

(** [HandoffNote]: the text of its developer message. *)
Definition handoffText (transfer_ : string) (from to : C) : string :=
  "The conversation was handed off by " +:+ transfer_ +:+ ", from " +:+ ConfigName from +:+ " to " +:+ ConfigName to +:+
  ", which answers from here.".

(** [TransferName]. *)
Fixpoint transferName (results : list ToolEnd) : option string :=
  match results with
  | [] => None
  | r :: results =>
      match transferName results with
      | Some n => Some n
      | None => if res_Terminate (te_Result r) && bool_decide (te_Err r = None) && negb (te_Blocked r) then Some (te_Name r) else None
      end
  end.
Definition TransferName (results : list ToolEnd) : string := default "a transfer" (transferName results).

(** [TrimHandedOff]. *)
Fixpoint trimFrom (trim : C -> C -> Transcript -> Transcript) (out : Transcript) (from : C) (pos : nat) (t : Transcript)
    (hs : list Handoff) : Transcript :=
  match hs with
  | [] => out ++ drop pos t
  | h :: hs =>
      trimFrom trim (trim from (hf_To h) (out ++ take (S (hf_Output h) - pos) (drop pos t))) (hf_To h) (S (hf_Output h)) t hs
  end.
Definition TrimHandedOff (t : Transcript) (start : C) (route : Route) (trim : option (C -> C -> Transcript -> Transcript)) :
    Transcript :=
  match trim, Handoffs t route with
  | None, _ | _, [] => t
  | Some trim, hs => trimFrom trim [] start 0 t hs
  end.

(** ** Which calls handed off *)

Definition openAfter (route : Route) (open : gmap string transfer) (t : Transcript) : gmap string transfer := foldl (openStep route) open t.

Lemma handoffsFrom_app route open n t1 t2 :
  handoffsFrom route open n (t1 ++ t2) = handoffsFrom route open n t1 ++ handoffsFrom route (openAfter route open t1) (n + length t1) t2.
Proof.
  revert open n. induction t1 as [|i t1 IH]; intros open n; cbn [handoffsFrom app openAfter foldl length].
  - by rewrite Nat.add_0_r.
  - rewrite IH, app_assoc. by rewrite Nat.add_succ_r.
Qed.

(** Whether an item is a transfer call of the ID, or an output that answers it. *)
Definition touches (route : Route) (id : string) (i : item) : Prop :=
  match i with
  | ICall p c => CallID c = id /\ is_Some (route {| cr_ptr := p; cr_call := c |})
  | IOutput _ o => OutCallID o = id
  | _ => False
  end.

(** The last of [t] to touch the ID is a transfer call of it. *)
Definition waits (route : Route) (t : Transcript) (id : string) (tr : transfer) : Prop :=
  exists before after p c, t = before ++ ICall p c :: after /\ CallID c = id /\ tr.1.1 = {| cr_ptr := p; cr_call := c |} /\
    route tr.1.1 = Some (tr.1.2, tr.2) /\ Forall (fun i => ~ touches route id i) after.

Lemma waits_other route t i id tr : ~ touches route id i -> waits route (t ++ [i]) id tr <-> waits route t id tr.
Proof.
  intros Hi. split.
  - intros (before & after & p & c & Ht & Hid & Hc & Hr & Hf). destruct (decide (after = [])) as [->|Hne].
    + apply app_inj_tail in Ht as [-> ->]. exfalso. apply Hi. split; [done|]. rewrite <-Hc, Hr. by eexists.
    + apply exists_last in Hne as (after' & i' & ->). rewrite app_comm_cons, app_assoc in Ht. apply app_inj_tail in Ht as [-> ->].
      apply Forall_app in Hf as [Hf _]. by exists before, after', p, c.
  - intros (before & after & p & c & -> & Hid & Hc & Hr & Hf). exists before, (after ++ [i]), p, c. split_and!; try done.
    + by rewrite <-app_assoc.
    + apply Forall_app. split; [done|by constructor].
Qed.

Lemma waits_call route t p c tr : is_Some (route {| cr_ptr := p; cr_call := c |}) ->
  waits route (t ++ [ICall p c]) (CallID c) tr <->
  tr.1.1 = {| cr_ptr := p; cr_call := c |} /\ route tr.1.1 = Some (tr.1.2, tr.2).
Proof.
  intros Hr. split.
  - intros (before & after & p' & c' & Ht & Hid & Hc & Hr' & Hf). destruct (decide (after = [])) as [->|Hne].
    + apply app_inj_tail in Ht as [-> [= -> ->]]. done.
    + apply exists_last in Hne as (after' & i' & ->). rewrite app_comm_cons, app_assoc in Ht. apply app_inj_tail in Ht as [-> <-].
      apply Forall_app in Hf as [_ Hf]. inversion Hf as [|? ? Hn]. exfalso. by apply Hn.
  - intros [Hc Hr']. exists t, [], p, c. by split_and!.
Qed.

Lemma waits_output route t p o tr : ~ waits route (t ++ [IOutput p o]) (OutCallID o) tr.
Proof.
  intros (before & after & p' & c' & Ht & Hid & Hc & Hr' & Hf). destruct (decide (after = [])) as [->|Hne].
  - by apply app_inj_tail in Ht as [-> ?].
  - apply exists_last in Hne as (after' & i' & ->). rewrite app_comm_cons, app_assoc in Ht. apply app_inj_tail in Ht as [-> <-].
    apply Forall_app in Hf as [_ Hf]. inversion Hf as [|? ? Hn]. by apply Hn.
Qed.

Lemma openAfter_waits route t id tr : openAfter route ∅ t !! id = Some tr <-> waits route t id tr.
Proof.
  induction t as [|i t IH] using rev_ind.
  { cbn. rewrite lookup_empty. split; [done|]. intros (before & ? & ? & ? & Ht & _). by destruct before. }
  unfold openAfter in *. rewrite foldl_app. cbn [foldl]. set (open := foldl _ _ t) in *.
  destruct i as [|p m|p c|p o|p r|h typ w]; cbn [openStep].
  all: try (rewrite waits_other; [exact IH|by intros ?]).
  - destruct (route {| cr_ptr := p; cr_call := c |}) as [[to output]|] eqn:Er; cbv zeta; rewrite ?Er.
    + destruct (decide (CallID c = id)) as [<-|Hne].
      * rewrite lookup_insert_eq, waits_call by (rewrite Er; by eexists). destruct tr as [[r to'] output']. cbn. split.
        -- intros [= <- <- <-]. by split.
        -- intros [-> Hr]. congruence.
      * rewrite lookup_insert_ne by done. rewrite waits_other; [exact IH|]. by intros [? _].
    + rewrite waits_other; [exact IH|]. intros [_ Hs]. rewrite Er in Hs. by destruct Hs.
  - destruct (decide (OutCallID o = id)) as [<-|Hne].
    + rewrite lookup_delete_eq. split; [done|]. intros Hw. by apply waits_output in Hw.
    + rewrite lookup_delete_ne by done. rewrite waits_other; [exact IH|]. done.
Qed.

Lemma elem_handoffsFrom route open n t h :
  h ∈ handoffsFrom route open n t <->
  exists j i, t !! j = Some i /\ h ∈ handedAt (openAfter route open (take j t)) (n + j) i.
Proof.
  revert open n. induction t as [|i t IH]; intros open n; cbn [handoffsFrom].
  - split; [by intros ?%not_elem_of_nil|]. by intros (j & i & Hj & _).
  - rewrite elem_of_app, IH. split.
    + intros [Hh|(j & i' & Hj & Hh)]; [exists 0%nat, i; by rewrite Nat.add_0_r|]. exists (S j), i'. by rewrite Nat.add_succ_r.
    + intros ([|j] & i' & Hj & Hh).
      * cbn in Hj. injection Hj as <-. rewrite Nat.add_0_r in Hh. by left.
      * right. exists j, i'. by rewrite Nat.add_succ_r in Hh.
Qed.

Lemma handedAt_output open n i h : h ∈ handedAt open n i -> hf_Output h = n.
Proof.
  destruct i; cbn; try by intros ?%not_elem_of_nil. destruct (open !! _) as [[[r to] out]|]; [|by intros ?%not_elem_of_nil].
  destruct (_ && _); [|by intros ?%not_elem_of_nil]. by intros ->%list_elem_of_singleton.
Qed.

Lemma handoffsFrom_after route open n t h : h ∈ handoffsFrom route open n t -> (n <= hf_Output h)%nat.
Proof. rewrite elem_handoffsFrom. intros (j & i & _ & Hh). apply handedAt_output in Hh. lia. Qed.

Lemma handoffsFrom_sorted route open n t : StronglySorted (fun a b => (hf_Output a < hf_Output b)%nat) (handoffsFrom route open n t).
Proof.
  revert open n. induction t as [|i t IH]; intros open n; cbn [handoffsFrom]; [constructor|].
  assert (handedAt open n i = [] \/ exists h, handedAt open n i = [h] /\ hf_Output h = n) as [->|(h & -> & Ho)].
  { destruct i; cbn; try by left. destruct (open !! _) as [[[r to] out]|]; [|by left].
    destruct (_ && _); [right; by eexists|by left]. }
  - apply IH.
  - cbn [app]. constructor; [apply IH|]. apply Forall_forall. intros h' Hh'%handoffsFrom_after. lia.
Qed.

(** The transfers found, one by one. *)
Lemma elem_Handoffs t route h : h ∈ Handoffs t route <-> exists p o text,
    t !! hf_Output h = Some (IOutput p o) /\
    waits route (take (hf_Output h) t) (OutCallID o) (hf_Call h, hf_To h, text) /\
    Parts (Output o) = [] /\ Text_ (Output o) = text /\ text <> WithheldCallOutput.
Proof.
  unfold Handoffs. rewrite elem_handoffsFrom. cbn [Nat.add]. split.
  - intros (j & i & Hj & Hh). pose proof (handedAt_output _ _ _ _ Hh) as <-. destruct i as [| | |p o| |]; cbn in Hh; try by apply not_elem_of_nil in Hh.
    destruct (openAfter _ _ _ !! _) as [[[r to] out]|] eqn:Eo; [|by apply not_elem_of_nil in Hh].
    destruct (bool_decide_reflect (Parts (Output o) = [])) as [Hp|]; [|by apply not_elem_of_nil in Hh].
    destruct (bool_decide_reflect (Text_ (Output o) = out)) as [Ht|]; [|by apply not_elem_of_nil in Hh].
    destruct (bool_decide_reflect (Text_ (Output o) = WithheldCallOutput)) as [|Hw]; [by apply not_elem_of_nil in Hh|].
    apply list_elem_of_singleton in Hh as ->. cbn in *. apply openAfter_waits in Eo. exists p, o, out. by split_and!; try congruence.
  - intros (p & o & text & Hj & Hw & Hp & Ht & Hn). exists (hf_Output h), (IOutput p o). split; [done|].
    apply openAfter_waits in Hw. unfold handedAt.
    destruct (openAfter _ _ _ !! _) as [x|]; [|done]. injection Hw as ->.
    rewrite Hp, Ht, !bool_decide_eq_true_2, bool_decide_eq_false_2 by done. cbn.
    apply list_elem_of_singleton. by destruct h.
Qed.

(** C16: [Handoffs] finds exactly the transfers that handed the conversation on, in order: an
    output at its place hands off when it has no parts and its text is the transfer's own,
    not the one of a call withheld, and the last thing before it to touch its call ID, an
    output or a transfer call, is a call the route names. *)
Theorem Handoffs_spec t route :
  StronglySorted (fun a b => (hf_Output a < hf_Output b)%nat) (Handoffs t route) /\
  forall h, h ∈ Handoffs t route <-> exists p o text,
    t !! hf_Output h = Some (IOutput p o) /\
    waits route (take (hf_Output h) t) (OutCallID o) (hf_Call h, hf_To h, text) /\
    Parts (Output o) = [] /\ Text_ (Output o) = text /\ text <> WithheldCallOutput.
Proof. split; [apply handoffsFrom_sorted|apply elem_Handoffs]. Qed.

(** ** The conversation as a front trims it, and as the agent that ran it did *)

(** The items of a run that ended on one handoff, its last item, and left no transfer
    unanswered. *)
Definition handsTo (route : Route) (run : Transcript) (to : C) : Prop :=
  openAfter route ∅ run = ∅ /\ exists h, Handoffs run route = [h] /\ S (hf_Output h) = length run /\ hf_To h = to.

(** The transcript of the agent each run was switched to: trimmed once between two runs. *)
Definition trimmed (trim : C -> C -> Transcript -> Transcript) (runs : list (Transcript * C)) (start : C) (out : Transcript) : Transcript :=
  (foldl (fun x run => (run.2, trim x.1 run.2 (x.2 ++ run.1))) (start, out) runs).2.

Definition shift (n : nat) (h : Handoff) : Handoff := {| hf_Call := hf_Call h; hf_Output := n + hf_Output h; hf_To := hf_To h |}.

Lemma handoffsFrom_shift route open n t : handoffsFrom route open n t = map (shift n) (handoffsFrom route open 0 t).
Proof.
  assert (forall open n m i, handedAt open (n + m) i = map (shift n) (handedAt open m i)) as Hat.
  { clear. intros open n m i. destruct i; cbn; try done. destruct (open !! _) as [[[r to] out]|]; [|done]. by destruct (_ && _). }
  assert (forall open n m, handoffsFrom route open (n + m) t = map (shift n) (handoffsFrom route open m t)) as Hs; [|by rewrite <-Hs, Nat.add_0_r].
  clear open n. induction t as [|i t IH]; intros open n m; cbn [handoffsFrom map]; [done|]. by rewrite map_app, Hat, <-Nat.add_succ_r, IH.
Qed.

Lemma trimFrom_runs route trim runs rest done_ out from :
  Forall (fun run => handsTo route run.1 run.2) runs -> Handoffs rest route = [] ->
  trimFrom trim out from (length done_) (done_ ++ concat (map fst runs) ++ rest)
    (handoffsFrom route ∅ (length done_) (concat (map fst runs) ++ rest)) =
  trimmed trim runs from out ++ rest.
Proof.
  intros Hruns Hrest. revert done_ out from. induction Hruns as [|[run to] runs [Hopen (h & Hh & Hlen & Hto)] Hruns IH];
    intros done_ out from; cbn [map concat fst snd] in *.
  - cbn [app]. rewrite handoffsFrom_shift. unfold Handoffs in Hrest. rewrite Hrest. cbn [map trimFrom]. by rewrite drop_app_length.
  - rewrite <-app_assoc. rewrite handoffsFrom_app, Hopen. rewrite (handoffsFrom_shift _ _ _ run). unfold Handoffs in Hh. rewrite Hh.
    cbn [map app trimFrom shift hf_Output hf_To]. rewrite <-Nat.add_succ_r, Hlen, Hto, drop_app_length.
    replace (length done_ + length run - length done_)%nat with (length run) by lia. rewrite take_app_length.
    rewrite <-length_app. rewrite app_assoc. rewrite IH. done.
Qed.

(** C13: a front shows the agent that has a conversation what that agent would hold had it
    taken every handoff in process, trimmed once after each run that ended on one, as long
    as each of those runs ends with the one handoff it makes. *)
Theorem TrimHandedOff_as_run route trim runs rest start :
  Forall (fun run => handsTo route run.1 run.2) runs -> Handoffs rest route = [] ->
  TrimHandedOff (concat (map fst runs) ++ rest) start route (Some trim) = trimmed trim runs start [] ++ rest.
Proof.
  intros Hruns Hrest. pose proof (trimFrom_runs route trim runs rest [] [] start Hruns Hrest) as Ht. cbn [length app] in Ht.
  rewrite <-Ht. unfold TrimHandedOff, Handoffs. by destruct (handoffsFrom route ∅ 0 _) eqn:E.
Qed.

End Routes.
