(* ===== verification/Team.v ===== *)
(** * Team: agents that hand a conversation to each other ([handoff/handoff.go]).

    A team's configurations are what it reads and sets of an [agentturn.Config]: the rest
    is the host's. What a request's context holds, and the world it is asked in, is [X].
    [follow] switches the agent of [Deliver.v]; between two of its calls on the agent
    others may use it ([between]). *)

From S2P Require Import Toy.
From S2P Require Export Routes Deliver.

(** ** Names and words *)

(** [ToolName]. *)
Fixpoint lowered (fuel : nat) (s : string) : string :=
  match fuel, s with
  | S fuel, String a _ =>
      let c := if byteIn 65 90 a then ascii_of_N (N_of_ascii a + 32)
        else if byteIn 97 122 a || byteIn 48 57 a then a else "_"%char in
      String c (lowered fuel (substring (runeWidth s) (String.length s) s))
  | _, _ => EmptyString
  end.
Definition ToolName (agent : string) : string := "transfer_to_" +:+ lowered (String.length agent) agent.

(** A string as [json.Marshal] writes it, its quotes apart: what HTML or JSON gives a
    meaning is escaped, and so is a byte that starts no rune. *)
Definition hex (n : N) : ascii := ascii_of_N (if (n <? 10)%N then 48 + n else 87 + n)%N.
Definition chr (n : N) : string := String (ascii_of_N n) EmptyString.
Definition escaped (s : string) : string :=
  match s with
  | EmptyString => ""
  | String a _ =>
      let n := N_of_ascii a in
      let uni := fun t => chr 92 +:+ "u" +:+ t in
      if (n <? 128)%N then
        if (n =? 34)%N || (n =? 92)%N then chr 92 +:+ chr n
        else if (n =? 8)%N then chr 92 +:+ "b" else if (n =? 12)%N then chr 92 +:+ "f"
        else if (n =? 10)%N then chr 92 +:+ "n" else if (n =? 13)%N then chr 92 +:+ "r" else if (n =? 9)%N then chr 92 +:+ "t"
        else if (n <? 32)%N || (n =? 60)%N || (n =? 62)%N || (n =? 38)%N
        then uni ("00" +:+ String (hex (n / 16)) (String (hex (n mod 16)) EmptyString))
        else chr n
      else if (runeWidth s =? 1)%nat then uni "fffd"
      else
        let rune := substring 0 (runeWidth s) s in
        if bool_decide (rune = chr 226 +:+ chr 128 +:+ chr 168) then uni "2028"
        else if bool_decide (rune = chr 226 +:+ chr 128 +:+ chr 169) then uni "2029" else rune
  end.
Fixpoint marshalled (fuel : nat) (s : string) : string :=
  match fuel, s with
  | S fuel, String _ _ => escaped s +:+ marshalled fuel (substring (runeWidth s) (String.length s) s)
  | _, _ => EmptyString
  end.
Definition marshalMember (name value : string) : string :=
  "{" +:+ chr 34 +:+ name +:+ chr 34 +:+ ":" +:+ chr 34 +:+ marshalled (String.length value) value +:+ chr 34 +:+ "}".

(** [output]. *)
Definition output (agent : string) : string := marshalMember "assistant" agent.

(** ** Configurations and teams *)

(** A tool of an agent's own, or the transfer to another agent, by its name, its
    description and the receiver's. *)
Inductive teamTool := Own (t : Tool) | TransferTool (name desc to : string).

(** [agentturn.Config]. *)
Record agentConfig (L X E : Type) := MkConfig { ag_Name : string; ag_Description : string; ag_ModelName : string;
  ag_Tools : list teamTool; ag_ToolProvider : option (X -> list teamTool); ag_ToolElicitor : option E;
  ag_ToolRecorder : option E; ag_rest : L }.
Arguments MkConfig {L X E}. Arguments ag_Name {L X E}. Arguments ag_Description {L X E}. Arguments ag_ModelName {L X E}.
Arguments ag_Tools {L X E}. Arguments ag_ToolProvider {L X E}. Arguments ag_ToolElicitor {L X E}.
Arguments ag_ToolRecorder {L X E}. Arguments ag_rest {L X E}.
#[export] Instance eta_agentConfig {L X E} : Eta (agentConfig L X E) := fun c =>
  MkConfig (ag_Name c) (ag_Description c) (ag_ModelName c) (ag_Tools c) (ag_ToolProvider c) (ag_ToolElicitor c)
    (ag_ToolRecorder c) (ag_rest c).
#[export] Instance configured {L X E} : Configured (agentConfig L X E) := {| ConfigName := ag_Name; ConfigModel := ag_ModelName |}.

(** [To], [Agent] and [Team]. *)
Record ToAgent (X : Type) := { to_Agent : string; to_Filter : option (Transcript -> Transcript); to_Enabled : option (X -> bool) }.
Arguments to_Agent {X}. Arguments to_Filter {X}. Arguments to_Enabled {X}.
Record TeamAgent (L X E : Type) := { ta_Config : agentConfig L X E; ta_Handoffs : list (ToAgent X) }.
Arguments ta_Config {L X E}. Arguments ta_Handoffs {L X E}.
Record Team (L X E : Type) := MkTeam { MaxHandoffs : Z; Offer : option (X -> string -> list teamTool -> list teamTool);
  tm_configs : gmap string (agentConfig L X E); tm_tools : gmap string string;
  tm_filters : gmap (string * string) (Transcript -> Transcript) }.
Arguments MkTeam {L X E}. Arguments MaxHandoffs {L X E}. Arguments Offer {L X E}. Arguments tm_configs {L X E}.
Arguments tm_tools {L X E}. Arguments tm_filters {L X E}.
#[export] Instance eta_Team {L X E} : Eta (Team L X E) := fun t =>
  MkTeam (MaxHandoffs t) (Offer t) (tm_configs t) (tm_tools t) (tm_filters t).

Section Team.
Context `{Externals} {L X E : Type}.
(** [Tool.Name] of the agents' own tools, and a host's zero members of a Config. *)
Context (OwnName : Tool -> string) (zero : L).
Abbreviation config_ := (agentConfig L X E).
Implicit Types (t : Team L X E) (c : config_).

Definition toolName (x : teamTool) : string := match x with Own o => OwnName o | TransferTool n _ _ => n end.
Definition zeroConfig : config_ := MkConfig "" "" "" [] None None None zero.

(** [Config.ResolveTools]. *)
Definition ResolveTools c (x : X) : list teamTool := match ag_ToolProvider c with Some f => f x | None => ag_Tools c end.

(** [transfer], and what a call of the tool returns; [agenttool.Text] is a result of its text. *)
Definition transfer_ c : teamTool :=
  TransferTool (ToolName (ag_Name c))
    ("Handoff to the " +:+ ag_Name c +:+ " agent to handle the request." +:+
     (if bool_decide (ag_Description c = "") then "" else " " +:+ ag_Description c)) (ag_Name c).
Definition transferResult (to : string) : Result :=
  {| res_Output := {| Text_ := output to; Parts := [] |}; res_Terminate := true; res_Details := Some (marshalMember "To" to) |}.

(** [offer]. *)
Definition offered (x : X) (transfers : list teamTool) (enabled : list (option (X -> bool))) : list teamTool :=
  omap (fun te : teamTool * option (X -> bool) => match te.2 with Some e => if e x then Some te.1 else None | None => Some te.1 end)
    (zip transfers enabled).
Definition offer c (transfers : list teamTool) (enabled : list (option (X -> bool))) : config_ :=
  match transfers with
  | [] => c
  | _ =>
      let c' := c <| ag_Tools ::= fun l => l ++ transfers |> in
      if bool_decide (is_Some (ag_ToolProvider c)) || existsb (fun e : option (X -> bool) => match e with Some _ => true | None => false end) enabled
      then c' <| ag_ToolProvider := Some (fun x => ResolveTools c x ++ offered x transfers enabled) |>
      else c'
  end.

(** [New]: the agents named, then their transfers; names are not quoted in the errors. *)
Fixpoint register (agents : list (TeamAgent L X E)) t : Team L X E + error :=
  match agents with
  | [] => inl t
  | a :: agents =>
      let name := ag_Name (ta_Config a) in
      if bool_decide (name = "") then inr (Errorf "handoff: an agent has no Config.Name")
      else if bool_decide (is_Some (tm_configs t !! name)) then inr (Errorf ("handoff: two agents are named " +:+ name))
      else match tm_tools t !! ToolName name with
      | Some other => inr (Errorf ("handoff: agents " +:+ other +:+ " and " +:+ name +:+ " share the transfer tool " +:+ ToolName name))
      | None => register agents (t <| tm_configs ::= <[name := ta_Config a]> |> <| tm_tools ::= <[ToolName name := name]> |>)
      end
  end.

Fixpoint transfersOf c (seen : list string) (hs : list (ToAgent X)) t :
    (list teamTool * list (option (X -> bool)) * Team L X E) + error :=
  match hs with
  | [] => inl ([], [], t)
  | h :: hs =>
      match tm_configs t !! to_Agent h with
      | None => inr (Errorf ("handoff: " +:+ ag_Name c +:+ " hands to an unknown agent " +:+ to_Agent h))
      | Some to =>
          if bool_decide (to_Agent h = ag_Name c) then inr (Errorf ("handoff: " +:+ ag_Name c +:+ " hands to itself"))
          else if bool_decide (to_Agent h ∈ seen) then inr (Errorf ("handoff: " +:+ ag_Name c +:+ " hands to " +:+ to_Agent h +:+ " twice"))
          else if existsb (fun x => bool_decide (toolName x = ToolName (to_Agent h))) (ag_Tools c)
          then inr (Errorf ("handoff: " +:+ ag_Name c +:+ " has a tool named " +:+ ToolName (to_Agent h)))
          else
            let t := match to_Filter h with
              | Some f => t <| tm_filters ::= <[(ag_Name c, to_Agent h) := f]> |>
              | None => t
              end in
            match transfersOf c (to_Agent h :: seen) hs t with
            | inl (transfers, enabled, t) => inl (transfer_ to :: transfers, to_Enabled h :: enabled, t)
            | inr e => inr e
            end
      end
  end.

Fixpoint connect (agents : list (TeamAgent L X E)) t : Team L X E + error :=
  match agents with
  | [] => inl t
  | a :: agents =>
      let c := ta_Config a in
      match transfersOf c [] (ta_Handoffs a) t with
      | inl (transfers, enabled, t) => connect agents (t <| tm_configs ::= <[ag_Name c := offer c transfers enabled]> |>)
      | inr e => inr e
      end
  end.

Definition NewTeam (agents : list (TeamAgent L X E)) : Team L X E + error :=
  match register agents (MkTeam 0 None ∅ ∅ ∅) with inl t => connect agents t | inr e => inr e end.

(** [Team.config] and [Team.Route]. *)
Definition teamConfig t (name : string) : config_ :=
  match tm_configs t !! name with
  | None => zeroConfig
  | Some c =>
      match Offer t with
      | None => c
      | Some f => c <| ag_ToolProvider := Some (fun x => f x name (ResolveTools c x)) |>
      end
  end.
Definition TeamRoute t : Route (C := config_) := fun call =>
  match tm_tools t !! Name (cr_call call) with Some name => Some (teamConfig t name, output name) | None => None end.

(** [Team.Handoff], [Team.Trim], [inherit], [terminated] and [RemoveAllTools]. *)
Definition TeamHandoff t (end_ : option RunEnd) : option config_ :=
  match end_ with None => None | Some e => HandedTo (re_Items e) (TeamRoute t) end.
Definition Trim t (from to : config_) (tr : Transcript) : Transcript :=
  match tm_filters t !! (ag_Name from, ag_Name to) with Some f => f tr | None => tr end.
Definition inherit (next from : config_) : config_ :=
  next <| ag_ToolElicitor := match ag_ToolElicitor next with None => ag_ToolElicitor from | e => e end |>
       <| ag_ToolRecorder := match ag_ToolRecorder next with None => ag_ToolRecorder from | r => r end |>.
Definition terminated (end_ : option RunEnd) : bool :=
  match end_ with
  | None => false
  | Some e => bool_decide (re_Reason e = ReasonStopped) &&
      (bool_decide (re_Cause e = StopTerminate) || bool_decide (re_Cause e = StopPartialTerminate))
  end.
Definition RemoveAllTools (tr : Transcript) : Transcript :=
  filter (fun i => match i with ICall _ _ | IOutput _ _ => false | _ => true end = true) tr.

End Team.

(** ** The switch *)

Definition ErrTooManyHandoffs : error := Errorf "too many handoffs for one input".
Definition DefaultMaxHandoffs : Z := 10.

Section Follow.
Context `{Externals} `{Tools} `{Accumulator} {L X E U : Type} `{!Host (agentConfig L X E) U}.
Context (zero : L) (t : Team L X E).
Abbreviation W := (World (agentConfig L X E) U).
Implicit Types (h : shared W) (c : agentConfig L X E).
(** What others do between two calls on the agent. *)
Context (between : shared W -> shared W).
(** The fuel of a run, and the context the team was given. *)
Context (fuel : nat) (cx : Ctx).

(** A run as [Prompt], [Continue] and [Resume] return it: the end, none with an error
    that kept it from starting, and the error. *)
Definition ended_ (r : res (RunEnd * option error)) : res (option RunEnd * option error) :=
  match r with
  | Ok (e, err) => Ok (Some e, err)
  | Err e => Ok (None, Some e)
  | Panicked => Panicked
  | OutOfFuel => OutOfFuel
  end.
Definition continues_ (cx : Ctx) h : res (option RunEnd * option error) * shared W :=
  let '(r, h) := Continue fuel cx (between h) in (ended_ r, h).
Definition prompts_ (cx : Ctx) (note : item) h : res (option RunEnd * option error) * shared W :=
  let '(r, h) := Prompt fuel cx [Plain note] (between h) in (ended_ r, h).

Definition handedCx (from : agentConfig L X E) : Ctx :=
  {| cx_trigger := {| Kind := "handoff"; Ref := ag_Name from; Items.Source := ""; Extra := ∅ |}; cx_inRun := cx_inRun cx;
     cx_subscriber := cx_subscriber cx; cx_quarantined := cx_quarantined cx; cx_reasoning := cx_reasoning cx;
     cx_persons := cx_persons cx; cx_reserved := cx_reserved cx |}.

Definition limit : Z := if MaxHandoffs t <=? 0 then DefaultMaxHandoffs else MaxHandoffs t.

(** The transcript trimmed, the configuration switched, and the note the receiver is
    given, if its transcript needs one; an error either call returns. *)
Definition switch (from to : agentConfig L X E) h : (option item + error) * shared W :=
  let '(err, h) :=
    match tm_filters t !! (ag_Name from, ag_Name to) with
    | Some _ =>
        let h := between h in
        let tr := a_transcript (agent h) in
        onAgent (SetTranscript (Trim t from to tr)) (between h)
    | None => (None, h)
    end in
  match err with
  | Some e => (inr e, h)
  | None =>
      let '(err, h) := onAgent (SetConfig (inherit to from)) (between h) in
      match err with
      | Some e => (inr e, h)
      | None =>
          let h := between h in
          if CanContinue (a_transcript (agent h)) then (inl None, h)
          else
            (inl (Some (IMessage (next h) {| Role_ := RoleDeveloper;
               Content := textContent (handoffText (ToolName (ag_Name to)) from to) |})), h <| next ::= Pos.succ |>)
      end
  end.

(** The receiver's run. *)
Definition receives (from : agentConfig L X E) (note : option item) h : res (option RunEnd * option error) * shared W :=
  match note with Some i => prompts_ (handedCx from) i h | None => continues_ (handedCx from) h end.

(** [Team.follow], with what it returns; [None] when [loops] are not enough. *)
Definition followed : Type := (res (option RunEnd * list string * option error) * shared W)%type.

Definition bounded (from to : agentConfig L X E) : error :=
  Wrap (ag_Name from +:+ " would hand to " +:+ ag_Name to +:+ " again") ErrTooManyHandoffs.

Fixpoint follow (loops : nat) (n : Z) (path : list string) (r : res (option RunEnd * option error)) h : option followed :=
  match loops, r with
  | O, _ => None
  | _, Panicked => Some (Panicked, h)
  | _, OutOfFuel => Some (OutOfFuel, h)
  | _, Err e => Some (Ok (None, path, Some e), h)
  | S loops, Ok (end_, err) =>
      if bool_decide (is_Some err) || negb (terminated end_) then Some (Ok (end_, path, err), h)
      else
        match TeamHandoff zero t end_ with
        | None =>
            let h := between h in
            if bool_decide (a_steer (agent h) = []) then Some (Ok (end_, path, err), h)
            else let '(r, h) := continues_ cx h in follow loops n path r h
        | Some to =>
            let h := between h in
            let from := a_cfg (agent h) in
            match switch from to h with
            | (inr e, h) => Some (Ok (end_, path, Some e), h)
            | (inl note, h) =>
                let path := path ++ [ag_Name to] in
                if n =? limit then
                  let b := bounded from to in
                  let h := between h in
                  if bool_decide (a_steer (agent h) = []) then Some (Ok (end_, path, Some b), h)
                  else
                    match receives from note h with
                    | (Ok (e, err), h) => Some (Ok (e, path, Some (match err with Some err => Join b err | None => b end)), h)
                    | (Err err, h) => Some (Ok (None, path, Some (Join b err)), h)
                    | (Panicked, h) => Some (Panicked, h)
                    | (OutOfFuel, h) => Some (OutOfFuel, h)
                    end
                else let '(r, h) := receives from note h in follow loops (n + 1) path r h
            end
        end
  end.

(** [Team.Run] and [Team.Resume]. *)
Definition Run (loops : nat) (items : list input) h : option followed :=
  let h := between h in
  let path := [ag_Name (a_cfg (agent h))] in
  let '(r, h) := Prompt fuel cx items (between h) in follow loops 0 path (ended_ r) h.
Definition ResumeTeam (loops : nat) (answers : list Answer) h : option followed :=
  let h := between h in
  let path := [ag_Name (a_cfg (agent h))] in
  let '(r, h) := ResumeAgent fuel cx answers (between h) in follow loops 0 path (ended_ r) h.

End Follow.
