(* ===== verification/Switched.v ===== *)
(** * Switched: what a team's configurations and its switch promise.

    A call of any transfer an agent of a team is offered, answered by the tool's own
    result, hands the conversation to the agent the tool names; the handoffs one input
    causes are bounded, and following them ends unless deliveries keep coming. *)

From S2P Require Import Toy.
From S2P Require Export Team.

(** ** The team [New] builds *)
Section Built.
Context `{Externals} {L X E : Type} (OwnName : Tool -> string) (zero : L).
Implicit Types (t : Team L X E) (a : TeamAgent L X E) (c : agentConfig L X E).

Definition nameOf a : string := ag_Name (ta_Config a).

(** What [register] has named: the configurations under their names, the tools under the
    name they are offered by. *)
Definition named t : Prop :=
  (forall tool name, tm_tools t !! tool = Some name -> tool = ToolName name /\ exists c, tm_configs t !! name = Some c /\ ag_Name c = name) /\
  (forall name c, tm_configs t !! name = Some c -> ag_Name c = name /\ tm_tools t !! ToolName name = Some name).

Lemma register_named agents t t' : named t -> register agents t = inl t' ->
  named t' /\ Offer t' = Offer t /\ (forall a, a ∈ agents -> is_Some (tm_configs t' !! nameOf a)) /\
  (forall name, is_Some (tm_configs t !! name) -> is_Some (tm_configs t' !! name)).
Proof.
  revert t. induction agents as [|a agents IH]; intros t Ht; cbn [register].
  { intros [= <-]. split_and!; [done|done|by intros a ?%not_elem_of_nil|done]. }
  case_bool_decide as Hn; [done|]. destruct (tm_configs t !! ag_Name (ta_Config a)) as [c0|] eqn:Ec; [done|]. cbn.
  destruct (tm_tools t !! ToolName (ag_Name (ta_Config a))) eqn:Et; [done|]. intros Hreg.
  apply IH in Hreg as (Hnamed & Hoffer & Hin & Hold).
  - split_and!; [done|done| |].
    + intros b [->|Hb]%elem_of_cons; [|by apply Hin]. apply Hold. unfold nameOf. upd. rewrite lookup_insert_eq. by eexists.
    + intros name Hname. apply Hold. upd. destruct (decide (name = ag_Name (ta_Config a))) as [->|]; [rewrite lookup_insert_eq; by eexists|by rewrite lookup_insert_ne].
  - destruct Ht as [Ht1 Ht2]. split; upd.
    + intros tool name. destruct (decide (tool = ToolName (ag_Name (ta_Config a)))) as [->|Hne].
      * rewrite lookup_insert_eq. intros [= <-]. split; [done|]. exists (ta_Config a). by rewrite lookup_insert_eq.
      * rewrite lookup_insert_ne by done. intros Hl. destruct (Ht1 _ _ Hl) as [-> (c & Hc & Hcn)]. split; [done|]. exists c.
        split; [|done]. rewrite lookup_insert_ne; [done|]. intros <-. congruence.
    + intros name c. destruct (decide (name = ag_Name (ta_Config a))) as [->|Hne].
      * rewrite lookup_insert_eq. intros [= <-]. by rewrite lookup_insert_eq.
      * rewrite lookup_insert_ne by done. intros Hl. destruct (Ht2 _ _ Hl) as [Hcn Hto]. split; [done|].
        rewrite lookup_insert_ne; [done|]. intros Heq. rewrite <-Heq in Hto. congruence.
Qed.

(** A transfer of the team's. *)
Definition transferOf t (x : teamTool) : Prop :=
  match x with Own _ => True | TransferTool n _ to => n = ToolName to /\ is_Some (tm_configs t !! to) end.

Lemma transfersOf_built c seen hs t transfers enabled t' : named t ->
  transfersOf OwnName c seen hs t = inl (transfers, enabled, t') ->
  named t' /\ tm_configs t' = tm_configs t /\ tm_tools t' = tm_tools t /\ Offer t' = Offer t /\ Forall (transferOf t) transfers /\
  Forall2 (fun h x => exists d, x = TransferTool (ToolName (to_Agent h)) d (to_Agent h)) hs transfers.
Proof.
  revert seen t transfers enabled. induction hs as [|h hs IH]; intros seen t transfers enabled Ht; cbn [transfersOf].
  { intros [= <- <- <-]. by split_and!. }
  destruct (tm_configs t !! to_Agent h) as [to|] eqn:Eto; [|done]. do 2 (case_bool_decide; [done|]).
  destruct (existsb _ _); [done|]. set (t1 := match to_Filter h with Some f => _ | None => t end).
  assert (named t1 /\ tm_configs t1 = tm_configs t /\ tm_tools t1 = tm_tools t /\ Offer t1 = Offer t) as (Hn1 & Hc1 & Htl1 & Ho1)
    by (unfold t1; destruct (to_Filter h); done).
  destruct (transfersOf _ _ _ hs t1) as [[[trs en] t2]|e] eqn:Etr; [|done]. intros [= <- <- <-].
  destruct (IH _ _ _ _ Hn1 Etr) as (Hn2 & Hc2 & Htl2 & Ho2 & Hf & Hf2). destruct Ht as [Ht1 Ht2]. destruct (Ht2 _ _ Eto) as [Hname _].
  split_and!; [done|congruence|congruence|congruence| |].
  - constructor.
    + unfold transfer_. cbn. rewrite Hname. split; [done|]. rewrite Eto. by eexists.
    + eapply Forall_impl; [exact Hf|]. intros [o|n d to']; [done|]. cbn. by rewrite Hc1.
  - constructor; [|done]. unfold transfer_. rewrite Hname. by eexists.
Qed.

(** The transfers among the tools of the team's configurations are the team's. *)
Definition transfersAre t : Prop := forall name c, tm_configs t !! name = Some c -> Forall (transferOf t) (ag_Tools c).

Lemma offer_tools c transfers enabled :
  ag_Tools (offer c transfers enabled) = ag_Tools c ++ transfers /\ ag_Name (offer c transfers enabled) = ag_Name c.
Proof. unfold offer. destruct transfers; [by rewrite app_nil_r|]. by destruct (_ || _). Qed.

(** The host's own tools are no team's transfers. *)
Definition plainTools a : Prop := Forall (fun x => exists o, x = Own o) (ag_Tools (ta_Config a)).

Lemma plainTools_transferOf t a : plainTools a -> Forall (transferOf t) (ag_Tools (ta_Config a)).
Proof. intros Hp. eapply Forall_impl; [exact Hp|]. by intros x [o ->]. Qed.

Lemma connect_built agents t t' : named t -> transfersAre t -> Forall plainTools agents ->
  (forall a, a ∈ agents -> is_Some (tm_configs t !! nameOf a)) ->
  connect OwnName agents t = inl t' ->
  named t' /\ transfersAre t' /\ tm_tools t' = tm_tools t /\ Offer t' = Offer t.
Proof.
  revert t. induction agents as [|a agents IH]; intros t Hn Ht Hp Hin; cbn [connect]; [by intros [= <-]|].
  destruct (transfersOf _ _ _ _ t) as [[[trs en] t1]|e] eqn:Etr; [|done].
  destruct (transfersOf_built _ _ _ _ _ _ _ Hn Etr) as (Hn1 & Hc1 & Htl1 & Ho1 & Hf & _). inversion Hp as [|? ? Hpa Hps]; subst.
  set (c := ta_Config a) in *. set (t2 := t1 <| tm_configs ::= _ |>). intros Hc.
  assert (forall name, is_Some (tm_configs t !! name) <-> is_Some (tm_configs t2 !! name)) as Hdom.
  { intros name. unfold t2. upd. rewrite Hc1. destruct (decide (name = ag_Name c)) as [->|Hne]; [|by rewrite lookup_insert_ne].
    rewrite lookup_insert_eq. split; [by eexists|]. intros _. apply (Hin a). by left. }
  assert (forall x, transferOf t x -> transferOf t2 x) as Htr by (intros [o|n d to]; [done|]; cbn; intros [? ?]; split; [done|by apply Hdom]).
  destruct (IH t2) as (Hn' & Ht' & Htl' & Ho'); [| |done| |done|].
  - destruct Hn1 as [H1 H2]. unfold t2. split; upd.
    + intros tool name Hl. destruct (H1 _ _ Hl) as [-> (c0 & Hc0 & Hcn)]. split; [done|].
      destruct (decide (name = ag_Name c)) as [->|Hne]; [|exists c0; by rewrite lookup_insert_ne].
      exists (offer c trs en). rewrite lookup_insert_eq. by destruct (offer_tools c trs en).
    + intros name c0. destruct (decide (name = ag_Name c)) as [->|Hne]; [|rewrite lookup_insert_ne by done; apply H2].
      rewrite lookup_insert_eq. intros [= <-]. destruct (offer_tools c trs en) as [_ ->]. split; [done|].
      destruct (Hin a) as [c1 Hc1']; [by left|]. rewrite <-Hc1 in Hc1'. by apply H2 in Hc1' as [_ ?].
  - intros name c0. unfold t2. upd. destruct (decide (name = ag_Name c)) as [->|Hne].
    + rewrite lookup_insert_eq. intros [= <-]. destruct (offer_tools c trs en) as [-> _]. apply Forall_app. split.
      * by apply plainTools_transferOf.
      * eapply Forall_impl; [exact Hf|]. exact Htr.
    + rewrite lookup_insert_ne by done. rewrite Hc1. intros Hl. eapply Forall_impl; [by eapply Ht|]. exact Htr.
  - intros b Hb. apply Hdom, Hin. by right.
  - split_and!; [done|done|by rewrite Htl'|by rewrite Ho'].
Qed.

Definition ownTools t : Prop := forall name c, tm_configs t !! name = Some c -> Forall (fun x => exists o, x = Own o) (ag_Tools c).

Lemma register_own agents t t' : Forall plainTools agents -> ownTools t -> register agents t = inl t' -> ownTools t'.
Proof.
  revert t. induction agents as [|a agents IH]; intros t Hp Ht; cbn [register]; [by intros [= <-]|].
  inversion Hp as [|? ? Hpa Hps]; subst. case_bool_decide; [done|]. case_bool_decide; [done|].
  destruct (tm_tools t !! _); [done|]. apply IH; [done|]. intros name c. upd.
  destruct (decide (name = ag_Name (ta_Config a))) as [->|Hne]; [rewrite lookup_insert_eq; by intros [= <-]|].
  rewrite lookup_insert_ne by done. apply Ht.
Qed.

Definition nobody : Team L X E := MkTeam 0 None ∅ ∅ ∅.

Lemma NewTeam_built agents t : Forall plainTools agents -> NewTeam OwnName agents = inl t -> named t /\ transfersAre t /\ Offer t = None.
Proof.
  intros Hp. unfold NewTeam. fold nobody. destruct (register agents nobody) as [t0|e] eqn:Er; [|done]. intros Hc.
  assert (named nobody) as Hn0 by (split; intros ? ?; cbn; by rewrite lookup_empty).
  destruct (register_named agents nobody t0 Hn0 Er) as (Hn & Ho & Hin & _).
  assert (ownTools t0) as Ht0.
  { eapply register_own; [exact Hp| |exact Er]. intros ? ?. cbn. by rewrite lookup_empty. }
  destruct (connect_built agents t0 t Hn) as (? & ? & _ & Ho'); [| | | |split_and!; [done|done|by rewrite Ho', Ho]]; try done.
  intros name c Hl. eapply Forall_impl; [by eapply Ht0|]. by intros x [o ->].
Qed.

(** C15: a transfer tool of a team [New] builds, called and answered with the tool's own
    result, hands the conversation to the agent the tool was made for: the route finds it
    as the last handoff, and names that agent's configuration, which the team holds, with
    its own transfers. *)
Theorem transfer_hands_off agents t name c n d to tr p q call out status :
  Forall plainTools agents -> NewTeam OwnName agents = inl t ->
  tm_configs t !! name = Some c -> TransferTool n d to ∈ ag_Tools c -> Name call = n ->
  HandedTo (tr ++ [ICall p call; IOutput q {| OutID := out; OutCallID := CallID call;
      Output := res_Output (transferResult to); OutStatus := status |}]) (TeamRoute zero t) = Some (teamConfig zero t to) /\
  ag_Name (teamConfig zero t to) = to /\ is_Some (tm_configs t !! to).
Proof.
  intros Hp Hnew Hc Hin Hname. destruct (NewTeam_built agents t Hp Hnew) as ([Hn1 Hn2] & Htr & Hoffer).
  pose proof (proj1 (Forall_forall _ _) (Htr _ _ Hc) _ Hin) as [-> Hto]. destruct Hto as [c' Hc'].
  destruct (Hn2 _ _ Hc') as [Hcn Htool].
  split; [|split; [unfold teamConfig; by rewrite Hc', Hoffer|by eexists]].
  unfold HandedTo, Handoffs. rewrite handoffsFrom_app. cbn [handoffsFrom openStep].
  assert (TeamRoute zero t {| cr_ptr := p; cr_call := call |} = Some (teamConfig zero t to, output to)) as Hr.
  { unfold TeamRoute. cbn. by rewrite Hname, Htool. }
  cbv zeta. rewrite Hr. cbn [handedAt app]. rewrite lookup_insert_eq. cbn [Output Parts Text_ res_Output transferResult].
  rewrite !bool_decide_eq_true_2, bool_decide_eq_false_2 by done. cbn [andb negb app].
  by rewrite last_snoc.
Qed.

End Built.

(** ** Following handoffs *)
Section Followed.
Context `{Externals} `{Tools} `{Accumulator} {L X E U : Type} `{!Host (agentConfig L X E) U}.
Context (zero : L) (t : Team L X E).
Abbreviation W := (World (agentConfig L X E) U).
Context (between : shared W -> shared W) (fuel : nat) (cx : Ctx).
Implicit Types (h : shared W).

(** An agent of the team the route can name. *)
Definition routed (name : string) : Prop := exists tool to, tm_tools t !! tool = Some to /\ name = ag_Name (teamConfig zero t to).

Lemma TeamHandoff_routed end_ to : TeamHandoff zero t end_ = Some to -> routed (ag_Name to).
Proof.
  unfold TeamHandoff, HandedTo. destruct end_ as [e|]; [|done]. destruct (last _) as [h|] eqn:El; [|done]. intros [= <-].
  apply last_Some_elem_of in El. apply elem_Handoffs in El as (p & o & text & _ & (before & after & p' & c & _ & _ & _ & Hr & _) & _).
  cbn in Hr. unfold TeamRoute in Hr. destruct (tm_tools t !! _) as [name|] eqn:Et; [|done]. injection Hr as <- _. by eexists _, _.
Qed.

Lemma limit_pos : 0 < limit t.
Proof. unfold limit, DefaultMaxHandoffs. destruct (Z.leb_spec (MaxHandoffs t) 0); lia. Qed.

(** What following [k] more handoffs at most returns. *)
Definition within (k : nat) (path : list string) (f : followed (L := L) (X := X) (E := E) (U := U)) : Prop :=
  match f.1 with
  | Ok (end_, path', err) => exists more, path' = path ++ more /\ Forall routed more /\ (length more <= S k)%nat /\
      (length more = S k -> exists e, err = Some e /\ isError e ErrTooManyHandoffs = true)
  | Err _ => False
  | _ => True
  end.

Lemma within_stop k path end_ err h : within k path (Ok (end_, path, err), h).
Proof. exists []. rewrite app_nil_r. split_and!; [done|constructor|cbn; lia|done]. Qed.

Lemma within_next k path name f : routed name -> within k (path ++ [name]) f -> within (S k) path f.
Proof.
  intros Hr. unfold within. destruct f.1 as [[[end_ path'] err]|e| |]; try done. intros (more & -> & Hf & Hle & He).
  exists (name :: more). rewrite <-app_assoc. split_and!; [done|by constructor|cbn; lia|]. cbn. intros Heq. apply He. lia.
Qed.

Lemma within_last path name end_ b err h : routed name -> isError b ErrTooManyHandoffs = true ->
  within 0 path (Ok (end_, path ++ [name], Some (match err with Some e => Join b e | None => b end)), h).
Proof.
  intros Hr Hb. exists [name]. split_and!; [done|by constructor|cbn; lia|]. intros _. eexists. split; [done|].
  destruct err; [|done]. cbn [isError]. by rewrite Hb, orb_true_r.
Qed.

Lemma bounded_error from to : isError (bounded (L := L) (X := X) (E := E) from to) ErrTooManyHandoffs = true.
Proof. unfold bounded. cbn [isError]. apply orb_true_intro. right. vm_compute. reflexivity. Qed.

Lemma follow_within loops n path r h f : 0 <= n <= limit t ->
  follow zero t between fuel cx loops n path r h = Some f -> within (Z.to_nat (limit t - n)) path f.
Proof.
  revert n path r h. induction loops as [|loops IH]; intros n path r h Hn; cbn [follow]; [done|].
  destruct r as [[end_ err]|e| |]; [|intros [= <-]; apply within_stop|by intros [= <-]..].
  destruct (_ || _); [intros [= <-]; apply within_stop|].
  destruct (TeamHandoff zero t end_) as [to|] eqn:Eto; cbv zeta.
  - apply TeamHandoff_routed in Eto. set (h1 := between h). destruct (switch _ _ _ _ h1) as [[note|e] h2]; [|intros [= <-]; apply within_stop].
    destruct (Z.eqb_spec n (limit t)) as [->|Hne].
    + rewrite Z.sub_diag. pose proof (bounded_error (a_cfg (agent h1)) to) as Hb. set (b := bounded _ to) in *.
      case_bool_decide; [intros [= <-]; by apply (within_last _ _ _ _ None)|].
      destruct (receives _ _ _ _ _) as [[[e err']|e| |] h3]; intros [= <-]; try done; [by apply within_last|by apply (within_last _ _ _ _ (Some e))].
    + destruct (receives _ _ _ _ _) as [r' h3]. intros Hf. apply IH in Hf; [|lia].
      replace (Z.to_nat (limit t - n)) with (S (Z.to_nat (limit t - (n + 1)))) by lia. by eapply within_next.
  - case_bool_decide; [intros [= <-]; apply within_stop|].
    destruct (continues_ _ _ _ _) as [r' h2]. by apply IH.
Qed.

(** The runs the first [loops] passes of [follow] continued for a delivery that waited, with
    no handoff to follow. *)
Fixpoint continued (loops : nat) (n : Z) (path : list string) (r : res (option RunEnd * option error)) h : nat :=
  match loops, r with
  | S loops, Ok (end_, err) =>
      if bool_decide (is_Some err) || negb (terminated end_) then 0
      else
        match TeamHandoff zero t end_ with
        | None =>
            let h := between h in
            if bool_decide (a_steer (agent h) = []) then 0
            else let '(r, h) := continues_ between fuel cx h in S (continued loops n path r h)
        | Some to =>
            let h := between h in
            let from := a_cfg (agent h) in
            match switch t between from to h with
            | (inl note, h) =>
                if n =? limit t then 0
                else let '(r, h) := receives between fuel cx from note h in continued loops (n + 1) (path ++ [ag_Name to]) r h
            | _ => 0
            end
        end
  | _, _ => 0
  end.

(** Every pass that is not the last follows a handoff or continues for a delivery. *)
Lemma follow_ends loops n path r h : 0 <= n <= limit t ->
  (Z.to_nat (limit t - n) + continued loops n path r h < loops)%nat -> follow zero t between fuel cx loops n path r h <> None.
Proof.
  revert n path r h. induction loops as [|loops IH]; intros n path r h Hn Hl; [lia|]. cbn [follow continued] in *.
  destruct r as [[end_ err]|e| |]; try done. destruct (_ || _); [done|].
  destruct (TeamHandoff zero t end_) as [to|]; cbv zeta in *.
  - destruct (switch _ _ _ _ _) as [[note|e] h2]; [|done]. destruct (Z.eqb_spec n (limit t)) as [->|Hne].
    + case_bool_decide; [done|]. by destruct (receives _ _ _ _ _) as [[[e err']|e| |] h3].
    + destruct (receives _ _ _ _ _) as [r' h3]. apply IH; lia.
  - case_bool_decide; [done|]. destruct (continues_ _ _ _ _) as [r' h2]. apply IH; lia.
Qed.

Definition continuedRun (loops : nat) (items : list input) h : nat :=
  let h := between h in
  let path := [ag_Name (a_cfg (agent h))] in
  let '(r, h) := Prompt fuel cx items (between h) in continued loops 0 path (ended_ r) h.

(** C14: what one input causes is bounded but for the deliveries that keep coming: [Team.Run]
    returns a path that starts with the agent that had the conversation and goes on with
    agents of the team, at most [MaxHandoffs] of them and one more, and that one more, taken
    and not followed, comes with [ErrTooManyHandoffs]. And it returns within any number of
    passes of its loop larger than [MaxHandoffs] and the runs it continued in them because a
    delivery was waiting and there was no handoff to follow: those are not counted against
    the limit, and only they can keep it going. *)
Theorem handoffs_bounded loops items h :
  (forall end_ path err h', Run zero t between fuel cx loops items h = Some (Ok (end_, path, err), h') ->
    exists more, path = ag_Name (a_cfg (agent (between h))) :: more /\ Forall routed more /\
      (length more <= S (Z.to_nat (limit t)))%nat /\
      (length more = S (Z.to_nat (limit t)) -> exists e, err = Some e /\ isError e ErrTooManyHandoffs = true)) /\
  ((Z.to_nat (limit t) + continuedRun loops items h < loops)%nat -> Run zero t between fuel cx loops items h <> None).
Proof.
  pose proof limit_pos. split.
  - intros end_ path err h'. unfold Run. cbv zeta. destruct (Prompt _ _ _ _) as [r h1]. intros Hf.
    apply follow_within in Hf; [|lia]. rewrite Z.sub_0_r in Hf. destruct Hf as (more & -> & Hm). by exists more.
  - unfold Run, continuedRun. cbv zeta. destruct (Prompt _ _ _ _) as [r h1]. intros Hl.
    apply follow_ends; [lia|]. by rewrite Z.sub_0_r.
Qed.

End Followed.

(** ** A team of three *)
Module TeamToy.

#[local] Existing Instances Toy.externals Toy.tools Toy.accumulator.

Definition member (name : string) : agentConfig nat unit unit := MkConfig name "" "" [] None None None 0%nat.
Definition hands (to : string) (f : option (Transcript -> Transcript)) : ToAgent unit :=
  {| to_Agent := to; to_Filter := f; to_Enabled := None |}.
Definition agents : list (TeamAgent nat unit unit) := [
  {| ta_Config := member "Triage"; ta_Handoffs := [hands "Billing" None; hands "Refunds" (Some RemoveAllTools)] |};
  {| ta_Config := member "Billing"; ta_Handoffs := [hands "Refunds" None] |};
  {| ta_Config := member "Refunds"; ta_Handoffs := [] |}].
Definition OwnName (_ : Tool) : string := "own".

Definition team : Team nat unit unit := match NewTeam OwnName agents with inl t => t | inr _ => nobody end.
Definition route : Route (C := agentConfig nat unit unit) := TeamRoute 0%nat team.
Definition configOf_ (name : string) : agentConfig nat unit unit := teamConfig 0%nat team name.

Example team_built : exists t, NewTeam OwnName agents = inl t.
Proof. eexists. vm_compute. reflexivity. Qed.

Definition calls_ (p : positive) (id name : string) : item :=
  ICall p {| ID := ""; CallID := id; Name := name; Arguments := "{}"; CallStatus := "" |}.
Definition answers_ (p : positive) (id text : string) : item :=
  IOutput p {| OutID := ""; OutCallID := id; Output := {| Text_ := text; Parts := [] |}; OutStatus := "" |}.
Definition ask_ : item := Toy.message "I was charged twice".

(** A run that ends on one handoff, trimmed by its filter: served and in process the same. *)
Definition handed_ : Transcript := [ask_; calls_ 1 "a" "look_up"; answers_ 2 "a" "found"; calls_ 3 "b" "transfer_to_refunds"; answers_ 4 "b" (output "Refunds")].

Lemma handed_hands : handsTo route handed_ (configOf_ "Refunds").
Proof. split; [vm_compute; reflexivity|]. eexists. split_and!; vm_compute; reflexivity. Qed.

Lemma TrimHandedOff_as_run_witness :
  TrimHandedOff (handed_ ++ [Toy.message "thanks"]) (configOf_ "Triage") route (Some (Trim team)) = [ask_; Toy.message "thanks"] /\
  TrimHandedOff (concat (map fst [(handed_, configOf_ "Refunds")]) ++ [Toy.message "thanks"]) (configOf_ "Triage") route (Some (Trim team)) =
  trimmed (Trim team) [(handed_, configOf_ "Refunds")] (configOf_ "Triage") [] ++ [Toy.message "thanks"].
Proof.
  split; [vm_compute; reflexivity|].
  apply TrimHandedOff_as_run; [constructor; [exact handed_hands|constructor]|vm_compute; reflexivity].
Defined.

(** A transfer made beside another call: the agent that took the handoff saw neither; the
    next request shows it the other call's output, and no call for it. *)
Definition beside : Transcript := [ask_; calls_ 1 "a" "transfer_to_refunds"; calls_ 2 "b" "look_up"; answers_ 3 "a" (output "Refunds"); answers_ 4 "b" "found"].

Theorem late_output_orphaned :
  TeamHandoff 0%nat team (Some {| re_ID := "run"; re_Items := beside; re_Reason := ReasonStopped; re_Cause := StopPartialTerminate;
    re_Err := None; re_Failure := None; re_Pending := []; re_Notes := []; re_Quarantined := []; re_WithheldMsg := false |}) =
    Some (configOf_ "Refunds") /\
  Trim team (configOf_ "Triage") (configOf_ "Refunds") beside = [ask_] /\
  TrimHandedOff beside (configOf_ "Triage") route (Some (Trim team)) = [ask_; answers_ 4 "b" "found"].
Proof. split_and!; vm_compute; reflexivity. Qed.

(** Two transfers in one batch: the run's handoff is the last, trimmed once from the sender;
    the next request trims for the one passed over, and shows the receiver the tool history
    its own handoff left out. *)
Definition twice : Transcript := [ask_; calls_ 1 "a" "transfer_to_billing"; calls_ 2 "b" "transfer_to_refunds"; answers_ 3 "a" (output "Billing"); answers_ 4 "b" (output "Refunds")].

Theorem passed_over_trimmed :
  HandedTo twice route = Some (configOf_ "Refunds") /\
  Trim team (configOf_ "Triage") (configOf_ "Refunds") twice = [ask_] /\
  TrimHandedOff twice (configOf_ "Triage") route (Some (Trim team)) = twice.
Proof. split_and!; vm_compute; reflexivity. Qed.

Lemma transfer_hands_off_witness :
  ToolName "Billing agent" = "transfer_to_billing_agent" /\
  HandedTo ([ask_] ++ [ICall 1 {| ID := ""; CallID := "a"; Name := "transfer_to_refunds"; Arguments := "{}"; CallStatus := "" |};
      IOutput 2 {| OutID := ""; OutCallID := "a"; Output := res_Output (transferResult "Refunds"); OutStatus := "" |}]) route =
    Some (configOf_ "Refunds") /\ ag_Name (configOf_ "Refunds") = "Refunds" /\ is_Some (tm_configs team !! "Refunds").
Proof.
  split; [vm_compute; reflexivity|].
  apply (transfer_hands_off OwnName 0%nat agents team "Triage"
    (default (member "") (tm_configs team !! "Triage")) "transfer_to_refunds"
    "Handoff to the Refunds agent to handle the request." "Refunds" [ask_] 1 2
    {| ID := ""; CallID := "a"; Name := "transfer_to_refunds"; Arguments := "{}"; CallStatus := "" |} "" "").
  - repeat constructor.
  - vm_compute. reflexivity.
  - vm_compute. reflexivity.
  - vm_compute. right. left.
  - reflexivity.
Defined.

(** A host of the team, whose clock ticks between two of its calls. Triage's model transfers
    to Refunds; Refunds' calls a tool that ends its run, and answers when it is asked again.
    A delivery comes when the clock is at [late]. *)
Abbreviation W := (World (agentConfig nat unit unit) nat).

#[local] Instance tools : Tools := {|
  Lookup := fun ts name => head ts;
  ValidateTools := fun _ => None;
  Definitions := fun ts => [];
  asWireErr := fun _ => None;
  isTransport := fun _ => false;
|}.

Definition calling (name : string) : wire W :=
  let i := calls_ 91 name name in
  Toy.yield [inl (OutputItemAdded 0); inl (OutputItemDone 0 i); inl (TerminalResponse (Toy.response [i]))].

Definition runTransfers (jobs : list Job) : exec W :=
  match jobs with
  | [] => XDrained
  | j :: _ =>
      let r := if bool_decide (call_ID (j_Call j) = "refund") then transferResult "nobody" else transferResult "Refunds" in
      XStart id 0 (fun _ _ => XEvent id 0 {| ev_Final := true; ev_Result := r; ev_Err := None |} (fun _ _ => XDrained))
  end.

#[local] Instance host : Host (agentConfig nat unit unit) nat := {|
  configOf := fun _ => Toy.config;
  subscriber := fun _ _ h => (None, h);
  meanwhile := id;
  regains := fun _ => 3%nat;
  promptErr := fun h => (None, h);
  wakes := fun h => (None, h);
  hostTimer := fun _ h => (true, h);
  hostNewID := fun prefix h => (prefix, h);
  hostEvents := fun req h => if bool_decide (ag_Name (a_cfg (agent h)) = "Triage") then calling "transfer_to_refunds"
    else if bool_decide (calls (rq_Input req) = []) then calling "refund" else Toy.answering;
  hostPreceding := fun jobs => map (fun _ => []) jobs;
  hostExecute := fun jobs _ => runTransfers jobs;
  hostContextLength := fun _ => false |}.

Definition between (late : nat) (h : shared W) : shared W :=
  h <| outside ::= fun w =>
    {| ag := (if (user w =? late)%nat then Steer [Plain (Toy.message "and my receipt")] else id) (ag w); user := S (user w) |} |>.

Definition start_ : shared W := {|
  outside := {| ag := New (configOf_ "Triage") []; user := 0%nat |}; quar := newQuarantine; next := 1000 |}.

Definition pathOf (f : option (followed (L := nat) (X := unit) (E := unit) (U := nat))) : option (list string * option error) :=
  match f with Some (Ok (_, path, err), _) => Some (path, err) | _ => None end.

Definition ran (late : nat) : option followed := Run 0%nat team (between late) 50 Background 30 [Plain ask_] start_.

(** Triage hands to Refunds, which has the conversation then, its history trimmed. *)
Example transfer_taken : pathOf (ran 100) = Some (["Triage"; "Refunds"], None) /\
  option_map (fun f : followed => (ag_Name (a_cfg (agent f.2)), hd_error (a_transcript (agent f.2)))) (ran 100) = Some ("Refunds", Some ask_).
Proof. vm_compute. split; reflexivity. Qed.

(** The delivery comes when Refunds' run has ended, and the run is continued for it. *)
Lemma handoffs_bounded_witness :
  pathOf (ran 8) = Some (["Triage"; "Refunds"], None) /\
  continuedRun 0%nat team (between 8) 50 Background 30 [Plain ask_] start_ = 1%nat /\
  (exists more, ["Triage"; "Refunds"] = "Triage" :: more /\ Forall (routed 0%nat team) more /\ (length more <= S (Z.to_nat (limit team)))%nat /\
    (length more = S (Z.to_nat (limit team)) -> exists e, None = Some e /\ isError e ErrTooManyHandoffs = true)) /\
  ran 8 <> None.
Proof.
  split; [vm_compute; reflexivity|]. split; [vm_compute; reflexivity|].
  destruct (handoffs_bounded 0%nat team (between 8) 50 Background 30 [Plain ask_] start_) as [Hpath Hends]. split.
  - assert (exists end_ h', ran 8 = Some (Ok (end_, ["Triage"; "Refunds"], None), h')) as (end_ & h' & Hr) by (vm_compute; eauto).
    exact (Hpath _ _ _ _ Hr).
  - apply Hends. vm_compute. lia.
Defined.

End TeamToy.
