(* ===== verification/Compact.v ===== *)
(** * Compact: the transform that folds the head of a transcript into a summary
    ([compact/compact.go]).

    A [Transform] is two records: what its options set, [Options], and what it
    remembers under its lock, [Memory], which the world carries, since other callers of
    the same transform may change it while a fold waits for its model. [Transform] is a
    hook of the loop, up to a panic of the quarantine's, for which it returns none.

    The estimators, the summary's item and the hash are arguments: the source takes
    them as options, or computes them with [encoding/json] and [crypto/sha256]. A kept
    count is a [nat]: a negative one slices past the end of the transcript. *)

From S2P Require Export Identity Config.

(** [strings.TrimSpace]: the UTF-8 encodings of the white space it cuts. *)
Definition ascii_of (n : Z) : ascii := ascii_of_N (Z.to_N n).
Fixpoint bytes (l : list Z) : string := match l with [] => "" | b :: l => String (ascii_of b) (bytes l) end.
Definition spaces : list string :=
  map bytes ([[9]; [10]; [11]; [12]; [13]; [32]; [194; 133]; [194; 160]; [225; 154; 128]] ++
    map (fun n => [226; 128; n]) [128; 129; 130; 131; 132; 133; 134; 135; 136; 137; 138; 168; 169; 175] ++
    [[226; 129; 159]; [227; 128; 128]]).
Fixpoint skip (n : nat) (s : string) : string :=
  match n, s with S n, String _ s => skip n s | _, _ => s end.
Definition leadingSpace (s : string) : option string := find_first (fun sp => String.prefix sp s) spaces.
Definition trailingSpace (s : string) : option string :=
  find_first (fun sp => (String.length sp <=? String.length s)%nat &&
    String.eqb (skip (String.length s - String.length sp) s) sp) spaces.
Fixpoint trimLeft (fuel : nat) (s : string) : string :=
  match fuel, leadingSpace s with
  | S fuel, Some sp => trimLeft fuel (skip (String.length sp) s)
  | _, _ => s
  end.
Fixpoint trimRight (fuel : nat) (s : string) : string :=
  match fuel, trailingSpace s with
  | S fuel, Some sp => trimRight fuel (substring 0 (String.length s - String.length sp) s)
  | _, _ => s
  end.
Definition TrimSpace (s : string) : string :=
  let s := trimLeft (String.length s) s in trimRight (String.length s) s.

(** [json.Marshal] of a slice of items. *)
Definition marshalAll `{Externals} (items : Items) : option string :=
  elems ← mapM marshal items; Some ("[" +:+ String.concat "," elems +:+ "]").

(** What the package uses of [crypto/sha256], in lowercase hex, and of openresponses. *)
Class Libraries := {
  sha256 : string -> string;
  OutputText : Response -> string;
  (** a [*openresponses.Compaction] *)
  isCompaction : item -> bool;
}.

(** [PrefixHash]. *)
Definition PrefixHash {Ext : Externals} {Lib : Libraries} (items : Transcript) : string :=
  match marshalAll items with Some data => sha256 data | None => "" end.

(** ** What a fold is *)

(** [folded]. *)
Record folded := { f_output : Items; f_summary : option item; f_usage : option Usage; f_responseID : string;
  f_request : option Request; f_outputTypes : option (list string); f_attempts : Z }.
#[export] Instance eta_folded : Eta folded := fun r =>
  Build_folded (f_output r) (f_summary r) (f_usage r) (f_responseID r) (f_request r) (f_outputTypes r) (f_attempts r).
Definition noFold : folded := {| f_output := []; f_summary := None; f_usage := None; f_responseID := "";
  f_request := None; f_outputTypes := None; f_attempts := 0 |}.

(** [Fold], what is reported of an attempt. *)
Record Fold := { fd_Split : nat; fd_First : option item; fd_Output : Items; fd_Summary : option item;
  fd_TokensBefore : Z; fd_Usage : option Usage; fd_ResponseID : string; fd_OutputTypes : option (list string);
  fd_Attempts : Z; fd_Pinned : Items; fd_Request : option Request; fd_Forced : bool; fd_Requested : bool;
  fd_Instructions : string; fd_PrefixHash : string; fd_Err : option error }.

(** What a [Transform] remembers. *)
Record Memory := { next_ : bool; nextInstructions : string; prefixLen : nat; prefixHash : string; prefixGen : Z;
  output : Items; last_item : option item; failLen : nat; failHash : string; failTokens : Z }.
#[export] Instance eta_Memory : Eta Memory := fun r =>
  Build_Memory (next_ r) (nextInstructions r) (prefixLen r) (prefixHash r) (prefixGen r) (output r) (last_item r)
    (failLen r) (failHash r) (failTokens r).
Definition newMemory : Memory := {| next_ := false; nextInstructions := ""; prefixLen := 0; prefixHash := "";
  prefixGen := 0; output := []; last_item := None; failLen := 0; failHash := ""; failTokens := 0 |}.

(** The world of a run whose transform this is. *)
Record CWorld (U : Type) := MkCWorld { memory : Memory; user_ : U }.
Arguments MkCWorld {U}. Arguments memory {U}. Arguments user_ {U}.
#[export] Instance eta_CWorld {U} : Eta (CWorld U) := fun w => MkCWorld (memory w) (user_ w).

(** [unfolded]. *)
Definition unfolded (err : option error) : bool :=
  match err with
  | Some e => errIs e ErrSummaryNoText || errIs e ErrSummaryIncomplete || errIs e ErrSummaryTooLarge
  | None => false
  end.

(** [addUsage], its members machine integers. *)
Definition addUsage (a b : option Usage) : option Usage :=
  match a, b with
  | None, _ => b
  | _, None => a
  | Some a, Some b => Some {| us_Input := wrap64 (us_Input a + us_Input b); us_Output := wrap64 (us_Output a + us_Output b);
      us_Total := wrap64 (us_Total a + us_Total b); us_Cached := wrap64 (us_Cached a + us_Cached b);
      us_Reasoning := wrap64 (us_Reasoning a + us_Reasoning b) |}
  end.

(** [itemTypes]. *)
Definition itemTypes (items : Items) : list string := map ItemType items.

(** [withoutReasoning]. *)
Definition isReasoning (i : item) : bool := match i with IReasoning _ _ => true | _ => false end.
Definition withoutReasoning (items : Items) : Items := filter (fun i => isReasoning i = false) items.

Section Transform.
Context {Ext : Externals} {Lib : Libraries} {U : Type}.
Abbreviation W := (CWorld U).
Implicit Types (m : Memory) (h : shared W) (items : Items).

Definition memoryOf h : Memory := memory (outside h).
Definition remember (m : Memory) h : shared W := h <| outside ::= fun w => w <| memory := m |> |>.
Definition alloc h : ptr * shared W := (next h, h <| next ::= Pos.succ |>).

(** ** Options *)

(** What the options of a [Transform] set. *)
Record Options := {
  o_onFold : list (Fold -> shared W -> option error * shared W);
  o_budget : Z;
  o_keepLast : nat;
  o_minFold : Z;
  o_model : string;
  o_estimate : Items -> Z;
  o_settings : option (Request -> Z);
  o_settingsSet : bool;
  o_filter : Transcript -> Transcript;
  o_prompt : string;
  (** the item made of a summary, at a new address *)
  o_summaryItem : ptr -> string -> item;
  o_pin : option (item -> bool);
  o_personBound : Z;
  o_personTotal : Z;
  o_personTotalSet : bool;
  o_request : option (Request -> Request);
  o_noBackOff : bool;
}.
#[local] Instance eta_Options : Eta Options := fun r =>
  Build_Options (o_onFold r) (o_budget r) (o_keepLast r) (o_minFold r) (o_model r) (o_estimate r) (o_settings r)
    (o_settingsSet r) (o_filter r) (o_prompt r) (o_summaryItem r) (o_pin r) (o_personBound r) (o_personTotal r)
    (o_personTotalSet r) (o_request r) (o_noBackOff r).

(** An [Option]. *)
Inductive Option :=
| WithBudget (tokens : Z)
| WithEstimator (fn : Items -> Z)
| WithSettingsEstimator (fn : option (Request -> Z))
| WithModel (name : string)
| WithKeepLast (n : nat)
| WithMinFold (tokens : Z)
| WithFailedFold (split : Z) (hash : string) (tokens : Z)
| WithBackOff (enabled : bool)
| WithPin (fn : option (item -> bool))
| WithPersonBound (size : Z)
| WithPersonTotal (tokens : Z)
| WithFilter (fn : Transcript -> Transcript)
| WithSummaryPrompt (prompt : string)
| WithRequest (fn : option (Request -> Request))
| WithOnFold (fn : option (Fold -> shared W -> option error * shared W))
| WithSummaryItem (fn : ptr -> string -> item).

Definition applyOption (t : Options * Memory) (opt : Option) : Options * Memory :=
  let '(o, m) := t in
  match opt with
  | WithBudget tokens => (o <| o_budget := tokens |>, m)
  | WithEstimator fn =>
      (o <| o_estimate := fn |> <| o_settings ::= fun s => if o_settingsSet o then s else None |>, m)
  | WithSettingsEstimator fn => (o <| o_settings := fn |> <| o_settingsSet := true |>, m)
  | WithModel name => (o <| o_model := name |>, m)
  | WithKeepLast n => (o <| o_keepLast := n |>, m)
  | WithMinFold tokens => (o <| o_minFold := tokens |>, m)
  | WithFailedFold split hash tokens =>
      (o, if negb (bool_decide (hash = "")) && (0 <=? split)
          then m <| failLen := Z.to_nat split |> <| failHash := hash |> <| failTokens := tokens |> else m)
  | WithBackOff enabled => (o <| o_noBackOff := negb enabled |>, m)
  | WithPin fn => (o <| o_pin := fn |>, m)
  | WithPersonBound size => (o <| o_personBound := size |>, m)
  | WithPersonTotal tokens => (o <| o_personTotal := tokens |> <| o_personTotalSet := true |>, m)
  | WithFilter fn => (o <| o_filter := fn |>, m)
  | WithSummaryPrompt prompt => (o <| o_prompt := prompt |>, m)
  | WithRequest fn => (o <| o_request := fn |>, m)
  | WithOnFold None => (o, m)
  | WithOnFold (Some fn) => (o <| o_onFold ::= fun l => l ++ [fn] |>, m)
  | WithSummaryItem fn => (o <| o_summaryItem := fn |>, m)
  end.

Definition DefaultBudget : Z := 100000.
Definition DefaultKeepLast : nat := 4.
Definition DefaultPersonBound : Z := 8 * 1024.
Definition DefaultSummaryMaxOutputTokens : Z := 8192.

(** [openresponses.UserText]. *)
Definition UserText (p : ptr) (text : string) : item := IMessage p {| Role_ := RoleUser; Content := textContent text |}.

(** [SummaryMessage]: a line break is the byte 10. *)
Definition lineBreaks : string := bytes [10; 10].
Definition SummaryMessage (p : ptr) (summary : string) : item :=
  UserText p ("Summary of the conversation so far:" +:+ lineBreaks +:+ summary).

(** [newTransform], given the default estimators, [Estimate] and [EstimateSettings], and
    [DefaultSummaryPrompt]. *)
Definition newTransform (estimate : Items -> Z) (settings : Request -> Z) (prompt : string) (opts : list Option) :
    Options * Memory :=
  foldl applyOption
    ({| o_onFold := []; o_budget := DefaultBudget; o_keepLast := DefaultKeepLast; o_minFold := -1; o_model := "";
        o_estimate := estimate; o_settings := Some settings; o_settingsSet := false; o_filter := DefaultFilter;
        o_prompt := prompt; o_summaryItem := SummaryMessage; o_pin := None; o_personBound := DefaultPersonBound;
        o_personTotal := 0; o_personTotalSet := false; o_request := None; o_noBackOff := false |}, newMemory) opts.

(** [New] and [NewLocal], up to their folds: the least a fold is made of. The item made
    of no summary is at [p]. *)
Definition endpointOptions (t : Options * Memory) : Options * Memory :=
  let '(o, m) := t in (if o_minFold o <? 0 then o <| o_minFold := 0 |> else o, m).
Definition localOptions (p : ptr) (t : Options * Memory) : Options * Memory :=
  let '(o, m) := t in
  (if o_minFold o <? 0
   then o <| o_minFold := Z.max (2 * o_estimate o [o_summaryItem o p ""]) (Z.quot (o_budget o) 8) |> else o, m).

Context (o : Options).

(** ** Where a transcript is cut *)

(** [calls] of [split]: where the first call of each ID is among [items], which begin
    at index [i]. *)
Fixpoint callsAt (i : nat) (calls : gmap string nat) items : gmap string nat :=
  match items with
  | [] => calls
  | item :: items =>
      callsAt (S i)
        (match item with
         | ICall _ c => match calls !! CallID c with Some _ => calls | None => <[CallID c := i]> calls end
         | _ => calls
         end) items
  end.

(** The walk back from the end: [n] items are not yet looked at. *)
Fixpoint walkBack (calls : gmap string nat) items (n split : nat) : nat :=
  match n with
  | O => split
  | S i =>
      if (i <? split)%nat then split
      else
        walkBack calls items i
          (match items !! i with
           | Some (IOutput _ out) =>
               match calls !! OutCallID out with Some at_ => if (at_ <? split)%nat then at_ else split | None => split end
           | _ => split
           end)
  end.

(** [split]. *)
Definition split_ items : nat :=
  let n := (length items - o_keepLast o)%nat in
  walkBack (callsAt 0 ∅ (take n items)) items (length items) n.

(** ** What is remembered *)

(** [join]. *)
Definition join m items (n : nat) : Transcript := output m ++ drop n items.

(** [quarantinedSince]. *)
Definition quarantinedSince (prefix : Items) (q : quarantine) m : bool * Memory :=
  if generation q =? prefixGen m then (false, m)
  else if existsb (has q) prefix then (true, m)
  else (false, m <| prefixGen := generation q |>).

(** Whether the transcript begins with the prefix remembered. *)
Definition remembered items m : bool :=
  negb (bool_decide (prefixHash m = "")) && (0 <? prefixLen m)%nat && (prefixLen m <=? length items)%nat &&
  bool_decide (PrefixHash (take (prefixLen m) items) = prefixHash m).

(** [view]. *)
Definition view items (q : quarantine) m : (Transcript * nat) * Memory :=
  let forget m := ((items, 0%nat), m <| prefixLen := 0%nat |> <| prefixHash := "" |> <| output := [] |>) in
  if remembered items m
  then match quarantinedSince (take (prefixLen m) items) q m with
       | (true, m) => forget m
       | (false, m) => ((join m items (prefixLen m), prefixLen m), m)
       end
  else forget m.

(** [backOff]. *)
Definition backOff m items (split : nat) (tokens : Z) : bool :=
  if o_noBackOff o || bool_decide (failHash m = "") || (length items <? failLen m)%nat then false
  else if (failLen m + Nat.max (o_keepLast o) 1 <=? split)%nat || (failTokens m + Z.max (Z.quot (o_budget o) 4) 1 <=? tokens)
  then false
  else bool_decide (PrefixHash (take (failLen m) items) = failHash m).

(** ** What is kept of the prefix *)

(** [personTotalOf]. *)
Definition personTotalOf (settings : Z) : Z :=
  Z.min (if o_personTotalSet o then o_personTotal o else Z.quot (o_budget o) 4)
    (Z.quot (Z.max (o_budget o - settings) 0) 2).

(** [keepsPerson]. *)
Definition keepsPerson (persons : Persons.PersonMessages) (i : item) : bool :=
  (0 <? o_personBound o) && Persons.Has persons i &&
  match marshal i with Some data => Z.of_nat (String.length data) <=? o_personBound o | None => false end.

(** The loop over the filtered prefix, [newest] first: which of it is kept. *)
Fixpoint keepNewest (persons : Persons.PersonMessages) (total used : Z) (newest : Items) : list bool :=
  match newest with
  | [] => []
  | i :: older =>
      if keepsPerson persons i
      then
        let used := used + o_estimate o [i] in
        if total <? used then false :: map (fun _ => false) older
        else true :: keepNewest persons total used older
      else false :: keepNewest persons total used older
  end.

Definition pins (i : item) : bool := match o_pin o with Some pin => pin i | None => false end.

(** [pinned]. *)
Definition pinned (prefix : Transcript) (persons : Persons.PersonMessages) (settings : Z) : Items :=
  let total := personTotalOf settings in
  if bool_decide (o_pin o = None) && (bool_decide (persons = ∅) || (o_personBound o <=? 0) || (total <=? 0)) then []
  else
    let filtered := o_filter o prefix in
    let kept := if 0 <? total then reverse (keepNewest persons total 0 (reverse filtered)) else map (fun _ => false) filtered in
    (filter (fun '(i, kept) => pins i || kept = true) (zip filtered kept)).*1.

(** ** The model's part *)

(** What a fold asks of its model, [openresponses.CollectStream] or the compaction
    endpoint: a response, or an error with what there was of one. The call runs
    unlocked, so what it leaves of the world may hold what other callers of the
    transform remember by then. *)
Definition asking (A : Type) : Type := A -> shared W -> (Response + option Response * error) * shared W.

(** The request [summarize] makes. *)
Definition summaryRequest items (instructions : string) h : Request * shared W :=
  let '(p, h) := alloc h in
  let '(at_, h) := alloc h in
  let prompt := if bool_decide (instructions = "") then o_prompt o else o_prompt o +:+ lineBreaks +:+ instructions in
  let limit := Z.min (Z.quot (o_budget o) 2) DefaultSummaryMaxOutputTokens in
  let req := {| rq_Model := o_model o; rq_Input := withoutReasoning items ++ [UserText p prompt]; rq_InputAt := at_;
    rq_Instructions := ""; rq_Tools := []; rq_Store := Some false; rq_Stream := false; rq_StreamOptions := None;
    rq_PreviousResponseID := ""; rq_Reasoning := ""; rq_Text := ""; rq_Metadata := ∅; rq_Extra := ∅; rq_Include := [];
    rq_MaxOutputTokens := if 0 <? limit then Some limit else None; rq_Rest := "" |} in
  (match o_request o with Some edit => edit req | None => req end, h).

(** What a summary's response is worth. *)
Definition summaryOf items (f : folded) (resp : Response) h : (folded * option error) * shared W :=
  if bool_decide (rp_Status resp = StatusFailed)
  then ((f, Some match rp_Error resp with
                 | Some e => Wrap "compact: summary" e
                 | None => Errorf "compact: summary response failed" end), h)
  else if bool_decide (rp_Status resp = StatusIncomplete)
  then ((f, Some (if bool_decide (rp_Incomplete resp = "") then Sentinel ErrSummaryIncomplete
                  else Wrap (rp_Incomplete resp) (Sentinel ErrSummaryIncomplete))), h)
  else
    let summary := TrimSpace (OutputText resp) in
    if bool_decide (summary = "") then ((f, Some (Sentinel ErrSummaryNoText)), h)
    else
      let '(p, h) := alloc h in
      let '(p', h) := alloc h in
      let item := o_summaryItem o p summary in
      let got := o_estimate o [item] - o_estimate o [o_summaryItem o p' ""] in
      if o_estimate o items <=? got then ((f, Some (Wrap "tokens" (Sentinel ErrSummaryTooLarge))), h)
      else ((f <| f_output := [item] |> <| f_summary := Some item |>, None), h).

(** [summarize]. *)
Definition answeredBy (f : folded) (resp : Response) : folded :=
  f <| f_usage := rp_Usage resp |> <| f_responseID := rp_ID resp |> <| f_outputTypes := Some (itemTypes (rp_Output resp)) |>.

Definition summarize (model : asking Request) items (instructions : string) h : (folded * option error) * shared W :=
  let '(req, h) := summaryRequest items instructions h in
  let f := noFold <| f_request := Some req |> in
  match model req h with
  | (inr (resp, e), h) =>
      ((match resp with Some resp => answeredBy f resp | None => f end, Some (Wrap "compact: summary" e)), h)
  | (inl resp, h) => summaryOf items (answeredBy f resp) resp h
  end.

(** The [fold] of [NewLocal]: a summary that is not applied is asked for once more. *)
Definition foldLocal (model : asking Request) items (instructions : string) h : (folded * option error) * shared W :=
  let '((f, err), h) := summarize model items instructions h in
  if unfolded err
  then
    let '((f', err'), h) := summarize model items instructions h in
    ((f' <| f_attempts := 2 |> <| f_usage := addUsage (f_usage f) (f_usage f') |>, err'), h)
  else ((f <| f_attempts := 1 |>, err), h).

(** The [fold] of [New]: the compaction endpoint, asked with the model's name and the
    items. *)
Definition foldEndpoint (compact : asking (string * Items)) items (instructions : string) h :
    (folded * option error) * shared W :=
  let f := noFold <| f_attempts := 1 |> in
  match compact (o_model o, items) h with
  | (inr (_, e), h) => ((f, Some (Wrap "compact" e)), h)
  | (inl resp, h) =>
      if bool_decide (rp_Output resp = [])
      then ((f <| f_usage := rp_Usage resp |> <| f_responseID := rp_ID resp |>,
             Some (Errorf "compact: empty compaction response")), h)
      else (((answeredBy f resp) <| f_output := rp_Output resp |>
               <| f_summary := find_first isCompaction (rp_Output resp) |>, None), h)
  end.

(** ** The transform *)

(** [report]. *)
Fixpoint reportTo (fns : list (Fold -> shared W -> option error * shared W)) (f : Fold) h : option error * shared W :=
  match fns with
  | [] => (None, h)
  | fn :: fns => match fn f h with (Some e, h) => (Some (Wrap "compact: on-fold" e), h) | (None, h) => reportTo fns f h end
  end.
Definition report : Fold -> shared W -> option error * shared W := reportTo (o_onFold o).

(** [FoldNext]. *)
Definition FoldNext (instructions : string) m : Memory := m <| next_ := true |> <| nextInstructions := instructions |>.

(** [Last]. *)
Definition Last m : option item := last_item m.

(** What a call of [Transform] decided under the lock, before its fold. *)
Record plan := { pl_view : Transcript; pl_fold : option Items; pl_split : nat; pl_base : nat; pl_tokens : Z;
  pl_forced : bool; pl_requested : bool; pl_instructions : string; pl_settings : Z; pl_prevLen : nat; pl_prevHash : string }.

Definition plans (info : TransformInfo) (q : quarantine) (next : ptr) m : option (plan * ptr * Memory) :=
  let items := tf_Transcript info in
  let settings := match o_settings o with Some weigh => weigh (tf_Request info) | None => 0 end in
  let requested := next_ m in
  let instructions := nextInstructions m in
  let forced := requested || tf_Fold info in
  let '((view_, base), m) := view items q (m <| next_ := false |> <| nextInstructions := "" |>) in
  let tokens := o_estimate o view_ + settings in
  let split := split_ items in
  let p fold := {| pl_view := view_; pl_fold := fold; pl_split := split; pl_base := base; pl_tokens := tokens;
    pl_forced := forced; pl_requested := requested; pl_instructions := instructions; pl_settings := settings;
    pl_prevLen := prefixLen m; pl_prevHash := prefixHash m |} in
  if (tokens <=? o_budget o) && negb forced then Some (p None, next, m)
  else if (split <=? base)%nat || (negb forced && backOff m items split tokens) then Some (p None, next, m)
  else
    '(sent, next) ← Quarantine.apply q next (o_filter o (drop base (take split items)));
    let input := (if (0 <? base)%nat then output m else []) ++ sent in
    Some (if bool_decide (input = []) || (o_estimate o input <? o_minFold o) then p None else p (Some input), next, m).

Definition foldOf (p : plan) (f : folded) : Fold := {|
  fd_Split := pl_split p; fd_First := None; fd_Output := []; fd_Summary := None; fd_TokensBefore := pl_tokens p;
  fd_Usage := f_usage f; fd_ResponseID := f_responseID f; fd_OutputTypes := f_outputTypes f; fd_Attempts := f_attempts f;
  fd_Pinned := []; fd_Request := f_request f; fd_Forced := pl_forced p; fd_Requested := pl_requested p;
  fd_Instructions := pl_instructions p; fd_PrefixHash := ""; fd_Err := None |}.
#[local] Instance eta_Fold : Eta Fold := fun r =>
  Build_Fold (fd_Split r) (fd_First r) (fd_Output r) (fd_Summary r) (fd_TokensBefore r) (fd_Usage r) (fd_ResponseID r)
    (fd_OutputTypes r) (fd_Attempts r) (fd_Pinned r) (fd_Request r) (fd_Forced r) (fd_Requested r) (fd_Instructions r)
    (fd_PrefixHash r) (fd_Err r).

(** A fold that failed: what is reported, and what is sent. *)
Definition foldFailed (info : TransformInfo) (p : plan) (f : folded) (err : error) h : (Transcript + error) * shared W :=
  let hash := if unfolded (Some err) then PrefixHash (take (pl_split p) (tf_Transcript info)) else "" in
  match report ((foldOf p f) <| fd_PrefixHash := hash |> <| fd_Err := Some err |>) h with
  | (Some e, h) => (inr e, h)
  | (None, h) =>
      if unfolded (Some err)
      then
        (inl (pl_view p),
         if bool_decide (hash = "") then h
         else remember ((memoryOf h) <| failLen := pl_split p |> <| failHash := hash |> <| failTokens := pl_tokens p |>) h)
      else (inr err, h)
  end.

(** A fold that was made: it is remembered, unless another caller's was meanwhile. *)
Definition folds (info : TransformInfo) (p : plan) (f : folded) h : (Transcript + error) * shared W :=
  let items := tf_Transcript info in
  let m := memoryOf h in
  if negb (bool_decide (prefixLen m = pl_prevLen p)) || negb (bool_decide (prefixHash m = pl_prevHash p))
  then let '((v, _), m) := view items (quar h) m in (inl v, remember m h)
  else
    let kept := pinned (take (pl_split p) items) (tf_Persons info) (pl_settings p) in
    let m := m <| prefixLen := pl_split p |> <| prefixGen := generation (quar h) |>
      <| prefixHash := PrefixHash (take (pl_split p) items) |> <| output := f_output f ++ kept |>
      <| last_item ::= fun l => match f_summary f with Some s => Some s | None => l end |> in
    let out := join m items (pl_split p) in
    match report ((foldOf p f) <| fd_First := items !! pl_split p |> <| fd_Output := f_output f |>
             <| fd_Summary := f_summary f |> <| fd_Pinned := kept |>) (remember m h) with
    | (Some e, h) => (inr e, h)
    | (None, h) => (inl out, h)
    end.

(** [Transform.Transform], none when the quarantine panics. *)
Definition Transform (fold : Items -> string -> shared W -> (folded * option error) * shared W)
    (h : shared W) (info : TransformInfo) : option ((Transcript + error) * shared W) :=
  '(p, n, m) ← plans info (quar h) (next h) (memoryOf h);
  let h := (remember m h) <| next := n |> in
  Some match pl_fold p with
  | None => (inl (pl_view p), h)
  | Some input =>
      match fold input (pl_instructions p) h with
      | ((f, Some err), h) => foldFailed info p f err h
      | ((f, None), h) => folds info p f h
      end
  end.

End Transform.
