(* ===== verification/Folds.v ===== *)
(** * Folds: what the transform of [Compact] guarantees.

    The cut separates no call from its output and is the latest that does not; what is
    kept of a person's messages is bounded and the newest; a request holds, for every
    item it leaves out, the result of a fold that item was sent to; and a fold that
    failed is not asked for again until the transcript has grown. *)

From S2P Require Export Compact.

Section Folds.
Context {Ext : Externals} {Lib : Libraries} {U : Type} (o : Options (U := U)).
Implicit Types items : Items.

(** ** The cut *)

(** An output at or after [s] answers a call before it. *)
Definition separates items (s : nat) : Prop :=
  exists i j p c q out, (i < s <= j)%nat /\ items !! i = Some (ICall p c) /\ items !! j = Some (IOutput q out) /\
    CallID c = OutCallID out.

(** [callsAt] finds the first call of an ID. *)
Definition firstCall (i : nat) items (id : string) (at_ : nat) : Prop :=
  exists k p c, at_ = (i + k)%nat /\ items !! k = Some (ICall p c) /\ CallID c = id /\
    forall k' p' c', (k' < k)%nat -> items !! k' = Some (ICall p' c') -> CallID c' <> id.

Lemma callsAt_spec i calls items id :
  match callsAt i calls items !! id with
  | Some at_ => calls !! id = Some at_ \/ (calls !! id = None /\ firstCall i items id at_)
  | None => calls !! id = None /\ forall k p c, items !! k = Some (ICall p c) -> CallID c <> id
  end.
Proof.
  revert i calls. induction items as [|item items IH]; intros i calls; cbn [callsAt].
  { destruct (calls !! id); [by left|done]. }
  set (calls' := match item with ICall _ c => _ | _ => _ end). specialize (IH (S i) calls').
  assert (forall x, calls !! id = Some x -> calls' !! id = Some x) as Hkeep.
  { intros x Hx. unfold calls'. destruct item; try done. destruct (calls !! CallID c) eqn:E; [done|].
    rewrite lookup_insert_ne; [done|]. congruence. }
  assert (calls !! id = None -> calls' !! id = None \/ exists p c, item = ICall p c /\ CallID c = id /\ calls' !! id = Some i) as Hnew.
  { intros Hn. unfold calls'. destruct item as [| |p c| | |]; try by left. destruct (calls !! CallID c) eqn:E; [by left|].
    destruct (decide (CallID c = id)) as [<-|Hne]; [right|left; by rewrite lookup_insert_ne].
    exists p, c. by rewrite lookup_insert_eq. }
  assert (calls' !! id = None -> forall p c, item = ICall p c -> CallID c <> id) as Hnone.
  { intros Hn p c -> Hc. unfold calls' in Hn. destruct (calls !! CallID c) eqn:E; [congruence|].
    rewrite Hc, lookup_insert_eq in Hn. done. }
  destruct (callsAt (S i) calls' items !! id) as [at_|].
  - destruct (calls !! id) as [x|] eqn:E; [left; rewrite (Hkeep x eq_refl) in IH; by destruct IH as [?|[? _]]|right; split; [done|]].
    destruct (Hnew eq_refl) as [Hn|(p & c & -> & Hc & Hi)].
    + destruct IH as [IH|[_ (k & p & c & -> & Hk & Hc & Hf)]]; [congruence|]. exists (S k), p, c. split_and!; [lia|done..|].
      intros [|k'] p' c' Hlt Hk'; [cbn in Hk'; simplify_eq; by eapply Hnone|]. eapply Hf; [|done]. lia.
    + destruct IH as [IH|[IH _]]; [|congruence]. assert (at_ = i) as -> by congruence. exists 0%nat, p, c.
      split_and!; [lia|done..|lia].
  - destruct IH as [Hn Hf]. destruct (calls !! id) as [x|] eqn:E; [by rewrite (Hkeep x eq_refl) in Hn|]. split; [done|].
    intros [|k] p c Hk; [cbn in Hk; simplify_eq; by eapply Hnone|by eapply Hf].
Qed.

(** The outputs at or after [n] leave no call of [calls] before [s]. *)
Definition closedFrom (calls : gmap string nat) items (n s : nat) : Prop :=
  forall j q out at_, (n <= j)%nat -> items !! j = Some (IOutput q out) -> calls !! OutCallID out = Some at_ -> (s <= at_)%nat.

Lemma walkBack_spec calls items n s :
  (forall j, (n <= j)%nat -> (s <= j)%nat) \/ (s <= n)%nat -> closedFrom calls items n s ->
  let s' := walkBack calls items n s in
  (s' <= s)%nat /\ closedFrom calls items s' s' /\
  forall t, (t <= s)%nat ->
    (forall j q out at_, (t <= j)%nat -> items !! j = Some (IOutput q out) -> calls !! OutCallID out = Some at_ -> (t <= at_)%nat) ->
    (t <= s')%nat.
Proof.
  revert s. induction n as [|i IH]; intros s Hs Hc; cbn [walkBack].
  { cbv zeta. split_and!; [done| |by intros]. intros j q out at_ Hj. apply Hc. lia. }
  destruct (i <? s)%nat eqn:E; [apply Nat.ltb_lt in E|apply Nat.ltb_ge in E].
  { cbv zeta. split_and!; [done| |by intros]. intros j q out at_ Hj. apply Hc. lia. }
  set (s1 := match items !! i with Some _ => _ | None => _ end).
  assert ((s1 <= s)%nat /\ closedFrom calls items i s1 /\ (forall t, (t <= s)%nat ->
    (forall j q out at_, (t <= j)%nat -> items !! j = Some (IOutput q out) -> calls !! OutCallID out = Some at_ -> (t <= at_)%nat) ->
    (t <= s1)%nat)) as (H1 & H2 & H3).
  { assert (forall x, (x <= s)%nat -> (forall q out at_, items !! i = Some (IOutput q out) -> calls !! OutCallID out = Some at_ -> (x <= at_)%nat) ->
      closedFrom calls items i x) as Hcl.
    { intros x Hx Hi j q out at_ Hj Hout Hat. destruct (decide (j = i)) as [->|Hne]; [by eapply Hi|].
      assert (s <= at_)%nat by (eapply Hc; [|done..]; lia). lia. }
    unfold s1. destruct (items !! i) as [[| | |q out| |]|] eqn:Ei; try (split_and!; [done|apply Hcl; [done|]; congruence|by intros]).
    destruct (calls !! OutCallID out) as [at_|] eqn:Ea; [|split_and!; [done|apply Hcl; [done|]; intros; simplify_eq|by intros]].
    destruct (at_ <? s)%nat eqn:El; [apply Nat.ltb_lt in El|apply Nat.ltb_ge in El].
    - split_and!; [lia|apply Hcl; [lia|]; intros; simplify_eq; lia|]. intros t Ht Hf. eapply Hf; [|done..]. lia.
    - split_and!; [done|apply Hcl; [lia|]; intros; simplify_eq; lia|by intros]. }
  destruct (IH s1) as (G1 & G2 & G3); [right; lia|done|]. cbv zeta. split_and!; [lia|done|]. intros t Ht Hf. by apply G3; [apply H3|].
Qed.

Lemma split_cut items :
  (split_ o items <= length items - o_keepLast o)%nat /\ ~ separates items (split_ o items) /\
  forall s, (s <= length items - o_keepLast o)%nat -> ~ separates items s -> (s <= split_ o items)%nat.
Proof.
  unfold split_. cbv zeta. set (n := (length items - o_keepLast o)%nat). set (calls := callsAt 0 ∅ (take n items)).
  assert (forall id at_, calls !! id = Some at_ -> (at_ < n)%nat /\ exists p c, items !! at_ = Some (ICall p c) /\ CallID c = id) as Hat.
  { intros id at_ Hl. pose proof (callsAt_spec 0 ∅ (take n items) id) as Hs. fold calls in Hs. rewrite Hl in Hs.
    destruct Hs as [Hs|[_ (k & p & c & -> & [Hk Hlt]%lookup_take_Some & Hc & _)]]; [by rewrite lookup_empty in Hs|].
    split; [done|]. by exists p, c. }
  destruct (walkBack_spec calls items (length items) n) as (H1 & H2 & H3); [right; lia| |].
  { intros j q out at_ Hj Hout. apply lookup_lt_Some in Hout. lia. }
  split; [done|]. split.
  - intros (i & j & p & c & q & out & Hij & Hi & Hj & Hid).
    pose proof (callsAt_spec 0 ∅ (take n items) (OutCallID out)) as Hs. fold calls in Hs.
    assert (take n items !! i = Some (ICall p c)) as Hti by (rewrite lookup_take_lt; [done|lia]).
    destruct (calls !! OutCallID out) as [at_|] eqn:E; [|by eapply Hs].
    destruct Hs as [Hs|[_ (k & p' & c' & -> & Hk & Hc & Hf)]]; [by rewrite lookup_empty in Hs|].
    assert (k <= i)%nat. { destruct (decide (k <= i)%nat); [done|]. by destruct (Hf i p c); [lia|..]. }
    assert (walkBack calls items (length items) n <= 0 + k)%nat; [|lia]. eapply H2; [|done..]. lia.
  - intros t Ht Hn. apply H3; [done|]. intros j q out at_ Hj Hout Ha. destruct (decide (t <= at_)%nat); [done|].
    destruct (Hat _ _ Ha) as (_ & p & c & Hc & Hid). destruct Hn. exists at_, j, p, c, q, out. split_and!; [lia..|done|done|done].
Qed.

(** A fold is cut where it separates nothing, and no earlier than it must be. The
    kept tail has at least the last kept items, no output in it answers a call that is
    folded, wherever between them other items are, and every later cut that keeps as
    many would separate an output from its call. *)
Theorem split_greatest items :
  (split_ o items <= length items - o_keepLast o)%nat /\ ~ separates items (split_ o items) /\
  forall s, (s <= length items - o_keepLast o)%nat -> ~ separates items s -> (s <= split_ o items)%nat.
Proof. exact (split_cut items). Qed.

(** ** What is kept of the prefix *)

Abbreviation weights := (fun items => foldr (fun i n => o_estimate o [i] + n) 0 items).

Lemma weights_snoc items i : weights (items ++ [i]) = weights items + o_estimate o [i].
Proof. induction items as [|j items IH]; cbn [app foldr]; [lia|]. rewrite IH. lia. Qed.

Definition theirs (persons : Persons.PersonMessages) (i : item) : bool := keepsPerson o persons i.

(** What [keepNewest] keeps: the person's of the [new], and nothing older. *)
Lemma keepNewest_spec persons total used newest :
  used <= total ->
  exists new old, newest = new ++ old /\
    keepNewest o persons total used newest = map (theirs persons) new ++ map (fun _ => false) old /\
    used + weights (filter (fun i => theirs persons i = true) new) <= total /\
    match old with
    | [] => True
    | i :: _ => theirs persons i = true /\
        total < used + weights (filter (fun i => theirs persons i = true) new) + o_estimate o [i]
    end.
Proof.
  revert used. induction newest as [|i newest IH]; intros used Hu; cbn [keepNewest].
  { exists [], []. cbn. split_and!; [done..|lia|done]. }
  unfold theirs. destruct (keepsPerson o persons i) eqn:E.
  - cbv zeta. destruct (total <? used + o_estimate o [i]) eqn:El; [apply Z.ltb_lt in El|apply Z.ltb_ge in El].
    + exists [], (i :: newest). cbn. split_and!; [done..|lia|done|lia].
    + destruct (IH _ El) as (new & old & -> & -> & Hw & Hold). exists (i :: new), old.
      rewrite filter_cons_True by done. cbn [map app foldr]. rewrite E. split_and!; [done..|unfold theirs in *; lia|].
      destruct old; [done|]. destruct Hold. split; [done|]. unfold theirs in *. lia.
  - destruct (IH _ Hu) as (new & old & -> & -> & Hw & Hold). exists (i :: new), old.
    rewrite filter_cons_False by congruence. cbn [map app]. by rewrite E.
Qed.

Lemma zip_kept (keep : item -> bool) items (f : item -> bool) :
  (filter (fun '(i, k) => f i || k = true) (zip items (map keep items))).*1 = filter (fun i => f i || keep i = true) items.
Proof.
  induction items as [|i items IH]; [done|]. cbn [map zip_with].
  destruct (decide (f i || keep i = true)).
  - rewrite !filter_cons_True by done. cbn. by f_equal.
  - rewrite !filter_cons_False by done. apply IH.
Qed.

Lemma map_reverse {A B} (f : A -> B) l : reverse (map f l) = map f (reverse l).
Proof. induction l as [|x l IH]; [done|]. cbn [map]. by rewrite !reverse_cons, map_app, IH. Qed.

Lemma weights_reverse items : weights (reverse items) = weights items.
Proof.
  induction items as [|i items IH]; [done|]. rewrite reverse_cons. cbn [foldr]. rewrite <- IH. generalize (reverse items). intros l.
  rewrite weights_snoc. lia.
Qed.

Lemma filter_reverse (P : item -> Prop) `{forall i, Decision (P i)} items : filter P (reverse items) = reverse (filter P items).
Proof.
  induction items as [|i items IH]; [done|]. rewrite reverse_cons, filter_app, IH. destruct (decide (P i)).
  - rewrite !filter_cons_True by done. by rewrite reverse_cons.
  - rewrite !filter_cons_False by done. by rewrite filter_nil, app_nil_r.
Qed.

(** A fold keeps every pinned item and the newest of the person's messages. Of the
    items a fold replaces, filtered as the request is, it keeps in their order those
    the pin names and, from some point on, the person's messages within the bound:
    together they weigh no more than the total, itself at most half of what the
    request's settings leave of the budget, and the next older one would pass it. *)
Theorem pinned_spec prefix persons settings :
  exists old new, o_filter o prefix = old ++ new /\
    pinned o prefix persons settings =
      filter (fun i => pins o i = true) old ++ filter (fun i => pins o i || theirs persons i = true) new /\
    weights (filter (fun i => theirs persons i = true) new) <= Z.max (personTotalOf o settings) 0 /\
    personTotalOf o settings <= Z.quot (Z.max (o_budget o - settings) 0) 2 /\
    (personTotalOf o settings <= 0 \/
     match last old with
     | None => True
     | Some i => theirs persons i = true /\
         personTotalOf o settings < weights (filter (fun i => theirs persons i = true) new) + o_estimate o [i]
     end).
Proof.
  assert (personTotalOf o settings <= Z.quot (Z.max (o_budget o - settings) 0) 2) as Hmax by (unfold personTotalOf; lia).
  set (filtered := o_filter o prefix). set (total := personTotalOf o settings) in *.
  assert (forall keep : item -> bool, (forall i, keep i = false) ->
    filter (fun i => pins o i || keep i = true) filtered = filter (fun i => pins o i = true) filtered) as Hpins.
  { intros keep Hk. apply list_filter_iff. intros i. by rewrite Hk, orb_false_r. }
  assert (o_pin o = None -> forall l, filter (fun i => pins o i = true) l = []) as Hnone.
  { intros Hp l. apply filter_none, Forall_forall. intros i _. unfold pins. by rewrite Hp. }
  unfold pinned. cbv zeta. fold filtered total.
  destruct (0 <? total) eqn:Et; [apply Z.ltb_lt in Et|apply Z.ltb_ge in Et].
  2: { exists filtered, []. split; [by rewrite app_nil_r|]. split; [|split; [cbn; lia|split; [done|by left]]].
    rewrite filter_nil, app_nil_r. destruct (bool_decide (o_pin o = None) && _) eqn:E.
    - apply andb_true_iff in E as [E%bool_decide_eq_true _]. by rewrite Hnone.
    - rewrite zip_kept. by apply Hpins. }
  destruct (keepNewest_spec persons total 0 (reverse filtered)) as (new & old & Hr & Hk & Hw & Hold); [lia|].
  exists (reverse old), (reverse new).
  assert (filtered = reverse old ++ reverse new) as Hf by (by rewrite <- reverse_app, <- Hr, reverse_involutive).
  split; [done|]. split; [|rewrite filter_reverse, weights_reverse; split; [lia|split; [done|right]]].
  - destruct (bool_decide (o_pin o = None) && _) eqn:E.
    + apply andb_true_iff in E as [E%bool_decide_eq_true E']. rewrite Hnone by done. symmetry. apply filter_none, Forall_forall.
      intros i _. unfold pins, theirs, keepsPerson. rewrite E. cbn [orb].
      apply orb_true_iff in E' as [[E'%bool_decide_eq_true|E'%Z.leb_le]%orb_true_iff|E'%Z.leb_le]; [| |lia].
      * unfold Persons.Has. rewrite E'. destruct (Persons.messagePtr i); [rewrite lookup_empty|]; by rewrite andb_false_r.
      * assert (0 <? o_personBound o = false) as -> by lia. done.
    + rewrite Hk, reverse_app, !map_reverse. rewrite Hf at 1. rewrite zip_with_app by (by rewrite length_map).
      rewrite filter_app, fmap_app, !zip_kept. f_equal. apply list_filter_iff. intros i. by rewrite orb_false_r.
  - destruct old as [|i old]; [done|]. rewrite reverse_cons, last_snoc. destruct Hold. split; [done|]. unfold theirs in *. lia.
Qed.


(** ** What a request stands for *)

Abbreviation W := (CWorld U).
Implicit Types h : shared W.
Context (fold : Items -> string -> shared W -> (folded * option error) * shared W).

(** A fold was asked of [input] and made [made]. *)
Definition asks (input made : Items) : Prop :=
  exists instructions h f h', fold input instructions h = ((f, None), h') /\ f_output f = made.

(** [made] stands for the prefix [p] of a transcript: what a fold made of all of it that
    a request may hold, or made of what stood for its beginning and the rest, and then
    what is kept of it; and the transcript was cut after [p] as [split] does. *)
Definition cutOf (p : Items) : Prop := exists items, p = take (split_ o items) items.
Inductive stands : Items -> Items -> Prop :=
| stands_first p q n sent n' made persons settings :
    cutOf p -> Quarantine.apply q n (o_filter o p) = Some (sent, n') -> asks sent made ->
    stands p (made ++ pinned o p persons settings)
| stands_again p0 made0 p q n sent n' made persons settings :
    stands p0 made0 -> (length p0 <= length p)%nat -> PrefixHash (take (length p0) p) = PrefixHash p0 ->
    cutOf p -> Quarantine.apply q n (o_filter o (drop (length p0) p)) = Some (sent, n') -> asks (made0 ++ sent) made ->
    stands p (made ++ pinned o p persons settings).

(** What is sent for a transcript: itself, or what stands for a prefix with the hash of
    its own, and the rest. *)
Definition stood (items out : Transcript) : Prop :=
  out = items \/
  exists p made, stands p made /\ (length p <= length items)%nat /\ PrefixHash (take (length p) items) = PrefixHash p /\
    out = made ++ drop (length p) items.

(** What is remembered stands for what its hash is of. *)
Definition sound (m : Memory) : Prop :=
  prefixHash m = "" \/ exists p, prefixLen m = length p /\ prefixHash m = PrefixHash p /\ stands p (output m).

(** What other callers of the transform, and whoever a fold is reported to, do to its
    memory: what calls of it do. *)
Class Others := {
  others_fold : forall input instructions h, sound (memoryOf h) -> sound (memoryOf (fold input instructions h).2);
  others_report : forall fn f h, fn ∈ o_onFold o -> sound (memoryOf h) -> sound (memoryOf (fn f h).2);
}.

(** The prefix a view covers. *)
Definition covered (items : Items) (base : nat) (m : Memory) : Prop :=
  base = 0%nat \/
  exists p, base = length p /\ (length p <= length items)%nat /\ PrefixHash (take (length p) items) = PrefixHash p /\
    stands p (output m) /\ (0 < base)%nat.

Lemma view_sound items q m v base m' :
  sound m -> view items q m = ((v, base), m') -> sound m' /\ stood items v /\ covered items base m'.
Proof.
  intros Hm. unfold view. cbv zeta. destruct (remembered items m) eqn:E.
  2: { intros [= <- <- <-]. split; [by left|]. split; by left. }
  unfold remembered in E. apply andb_true_iff in E as [[[E1 E2%Nat.ltb_lt]%andb_true_iff E3%Nat.leb_le]%andb_true_iff E4%bool_decide_eq_true].
  destruct Hm as [Hm|(p & Hl & Hh & Hs)]; [by rewrite bool_decide_eq_true_2 in E1|].
  assert (forall m2, prefixLen m2 = prefixLen m -> prefixHash m2 = prefixHash m -> output m2 = output m ->
    sound m2 /\ stood items (join m2 items (prefixLen m2)) /\ covered items (prefixLen m2) m2) as Hok.
  { intros m2 H1 H2 H3. unfold sound, stood, covered, join. rewrite H1, H2, H3, Hl in *. split; [right; by exists p|].
    rewrite Hh in E4. split; right; exists p; [exists (output m); by split_and!|by split_and!]. }
  unfold quarantinedSince. destruct (generation q =? prefixGen m); [intros [= <- <- <-]; by apply Hok|].
  destruct (existsb _ _); intros [= <- <- <-]; [split; [by left|]; split; by left|].
  pose proof (Hok (m <| prefixGen := generation q |>)) as Hx. upd_in Hx. by apply Hx.
Qed.

Lemma report_sound f h : Others -> sound (memoryOf h) -> sound (memoryOf (report o f h).2).
Proof.
  intros Ho. unfold report. assert (o_onFold o ⊆ o_onFold o) as Hin by done. revert Hin. generalize (o_onFold o) at 1 3.
  intros fns. revert h. induction fns as [|fn fns IH]; intros h Hin Hm; cbn [reportTo]; [done|].
  pose proof (others_report fn f h (Hin fn ltac:(left)) Hm) as Hfn. destruct (fn f h) as [[e|] h1]; cbn [snd] in *; [done|].
  apply IH; [|done]. intros x Hx. apply Hin. by right.
Qed.

(** What a call decides, and what it asks a fold of. *)
Lemma plans_sound info q n m p n' m' :
  sound m -> plans o info q n m = Some (p, n', m') ->
  let items := tf_Transcript info in
  sound m' /\ stood items (pl_view p) /\ pl_split p = split_ o items /\
  forall input made persons settings, pl_fold p = Some input -> asks input made ->
    stands (take (pl_split p) items) (made ++ pinned o (take (pl_split p) items) persons settings).
Proof.
  intros Hm. unfold plans. cbv zeta. set (items := tf_Transcript info). set (m0 := m <| next_ := false |> <| nextInstructions := "" |>).
  assert (sound m0) as Hm0 by exact Hm. destruct (view items q m0) as [[v base] m1] eqn:E.
  apply view_sound in E as (H1 & H2 & H3); [|done].
  destruct (_ && negb _); [intros [= <- <- <-]; by split_and!|]. destruct ((_ <=? base)%nat || _) eqn:Eb; [intros [= <- <- <-]; by split_and!|].
  apply orb_false_iff in Eb as [Eb%Nat.leb_gt _].
  destruct (Quarantine.apply q n _) as [[sent n2]|] eqn:Eq; cbn [mbind option_bind]; [|done].
  destruct (bool_decide _ || _); intros [= <- <- <-]; [by split_and!|]. split_and!; [done..|].
  cbn [pl_fold pl_split]. intros input made persons settings [= <-] Hasks.
  assert (cutOf (take (split_ o items) items)) as Hcut by by exists items.
  destruct H3 as [->|(p0 & -> & Hl & Hh & Hs & Hpos)].
  - eapply stands_first; [done..|]. by rewrite drop_0 in Eq.
  - destruct (0 <? length p0)%nat eqn:Ep; [|apply Nat.ltb_ge in Ep; lia].
    eapply stands_again; [done| | |done|exact Eq|done].
    + rewrite length_take. lia.
    + rewrite take_take. by replace (length p0 `min` split_ o items)%nat with (length p0) by lia.
Qed.

Lemma memoryOf_remember m h : memoryOf (remember m h) = m.
Proof. done. Qed.

Lemma sound_fail m n hash tokens : sound m -> sound (m <| failLen := n |> <| failHash := hash |> <| failTokens := tokens |>).
Proof. done. Qed.

Lemma foldFailed_sound info p f err h r h' :
  Others -> sound (memoryOf h) -> stood (tf_Transcript info) (pl_view p) -> foldFailed o info p f err h = (r, h') ->
  sound (memoryOf h') /\ match r with inl out => stood (tf_Transcript info) out | inr _ => True end.
Proof.
  intros Ho Hm Hv. unfold foldFailed. cbv zeta.
  match goal with |- context [report o ?x h] => pose proof (report_sound x h Ho Hm) as Hr; destruct (report o x h) as [[e|] h1] end;
    cbn [snd] in Hr; [intros [= <- <-]; by split|].
  destruct (unfolded (Some err)); intros [= <- <-]; [|by split]. split; [|done].
  case_bool_decide; [done|]. rewrite memoryOf_remember. by apply sound_fail.
Qed.

Lemma folds_sound info p f input h r h' :
  Others -> sound (memoryOf h) -> asks input (f_output f) -> pl_split p = split_ o (tf_Transcript info) ->
  (forall made persons settings, asks input made ->
    stands (take (pl_split p) (tf_Transcript info)) (made ++ pinned o (take (pl_split p) (tf_Transcript info)) persons settings)) ->
  folds o info p f h = (r, h') ->
  sound (memoryOf h') /\ match r with inl out => stood (tf_Transcript info) out | inr _ => True end.
Proof.
  intros Ho Hm Ha Hsp Hst. unfold folds. cbv zeta. set (items := tf_Transcript info) in *.
  destruct (_ || _).
  { destruct (view items (quar h) (memoryOf h)) as [[v base] m1] eqn:E. apply view_sound in E as (H1 & H2 & _); [|done].
    intros [= <- <-]. by split. }
  set (kept := pinned o (take (pl_split p) items) (tf_Persons info) (pl_settings p)).
  set (m1 := (memoryOf h) <| prefixLen := _ |> <| prefixGen := _ |> <| prefixHash := _ |> <| output := _ |> <| last_item ::= _ |>).
  assert (length (take (pl_split p) items) = pl_split p) as Hlen.
  { rewrite length_take, Hsp. pose proof (proj1 (split_cut items)). lia. }
  assert (prefixLen m1 = pl_split p /\ prefixHash m1 = PrefixHash (take (pl_split p) items) /\ output m1 = f_output f ++ kept)
    as (H1 & H2 & H3) by done.
  specialize (Hst _ (tf_Persons info) (pl_settings p) Ha). fold kept in Hst.
  assert (sound m1) as Hm1.
  { right. exists (take (pl_split p) items). by rewrite H1, H2, H3, Hlen. }
  match goal with |- context [report o ?x ?y] => pose proof (report_sound x y Ho Hm1) as Hr; destruct (report o x y) as [[e|] h1] end;
    cbn [snd] in Hr; intros [= <- <-]; (split; [done|]); [done|].
  right. exists (take (pl_split p) items), (f_output f ++ kept). rewrite Hlen. split; [done|].
  split; [rewrite <- Hlen, length_take; lia|]. split; [done|]. unfold join. by rewrite H3.
Qed.

(** C27: what a fold leaves out, it stands for. Whoever else uses the transform while a
    fold waits for its model, a request is the transcript, or begins with what folds
    made of a prefix of it and of everything in that prefix a request may hold, each
    stretch once and in order, and goes on with every item after that prefix: the
    prefix has the hash of the one folded, it ends where [split] cuts, and what is kept
    of it follows what was made. What is remembered is such a stand-in, or nothing. *)
Theorem Transform_stands h info r h' :
  Others -> sound (memoryOf h) -> Transform o fold h info = Some (r, h') ->
  sound (memoryOf h') /\ match r with inl out => stood (tf_Transcript info) out | inr _ => True end.
Proof.
  intros Ho Hm. unfold Transform. destruct (plans o info (quar h) (next h) (memoryOf h)) as [[[p n] m]|] eqn:E; cbn [mbind option_bind]; [|done].
  apply plans_sound in E as (H1 & H2 & H3 & H4); [|done]. destruct (pl_fold p) as [input|]; [|intros [= <- <-]; by split].
  set (h0 := (remember m h) <| next := n |>).
  pose proof (others_fold input (pl_instructions p) h0 H1) as Hf.
  destruct (fold input (pl_instructions p) h0) as [[f [err|]] h1] eqn:Ef; cbn [snd] in Hf; intros [= E].
  - by eapply foldFailed_sound.
  - eapply (folds_sound info p f input h1); [done..| |done|intros made persons settings Ha; by eapply H4|exact E].
    exists (pl_instructions p), h0, f, h1. done.
Qed.

(** ** When a fold fails *)

(** The settings' weight of a call. *)
Definition weighed (info : TransformInfo) : Z := match o_settings o with Some weigh => weigh (tf_Request info) | None => 0 end.

Lemma report_fails fns f h e h' : reportTo fns f h = (Some e, h') -> exists x, e = Wrap "compact: on-fold" x.
Proof.
  revert h. induction fns as [|fn fns IH]; intros h; cbn [reportTo]; [done|].
  destruct (fn f h) as [[x|] h1]; [intros [= <- <-]; by eexists|apply IH].
Qed.

(** A summary that cannot be used fails no turn. The transform returns an error
    only when a function the fold is reported to does, or when the fold failed
    otherwise than by a summary without text, cut short, or no smaller than what it
    folds: after one of those the transcript goes as it would have without the fold. *)
Theorem Transform_fails h info e h' :
  Transform o fold h info = Some (inr e, h') ->
  (exists x, e = Wrap "compact: on-fold" x) \/
  (exists input instructions h1 f h2, fold input instructions h1 = ((f, Some e), h2) /\ unfolded (Some e) = false).
Proof.
  unfold Transform. destruct (plans o info (quar h) (next h) (memoryOf h)) as [[[p n] m]|]; cbn [mbind option_bind]; [|done].
  destruct (pl_fold p) as [input|]; [|done]. destruct (fold _ _ _) as [[f [err|]] h1] eqn:Ef; intros [= E].
  - unfold foldFailed in E. cbv zeta in E.
    match type of E with context [report o ?x h1] => destruct (report o x h1) as [[x'|] h2] eqn:Er end.
    + injection E as <- <-. left. by eapply report_fails.
    + destruct (unfolded (Some err)) eqn:Eu; [done|]. injection E as <- <-. right. by eauto 10.
  - unfold folds in E. cbv zeta in E. destruct (_ || _) in E; [by destruct (view _ _ _) as [[? ?] ?]|].
    match type of E with context [report o ?x ?y] => destruct (report o x y) as [[x'|] h2] eqn:Er end; [|done].
    injection E as <- <-. left. by eapply report_fails.
Qed.

(** A view changes nothing of what failed, and does not depend on what is asked next. *)
Lemma view_keeps items q m :
  let m' := (view items q m).2 in
  next_ m' = next_ m /\ failLen m' = failLen m /\ failHash m' = failHash m /\ failTokens m' = failTokens m.
Proof.
  cbv zeta. unfold view, quarantinedSince. cbv zeta.
  destruct (remembered _ _); [destruct (_ =? _); [|destruct (existsb _ _)]|]; done.
Qed.

Lemma view_taken items q m : (view items q (m <| next_ := false |> <| nextInstructions := "" |>)).1 = (view items q m).1.
Proof.
  set (m0 := m <| next_ := _ |> <| nextInstructions := _ |>). unfold view, quarantinedSince. cbv zeta.
  change (remembered items m0) with (remembered items m). change (generation q =? prefixGen m0) with (generation q =? prefixGen m).
  change (prefixLen m0) with (prefixLen m).
  destruct (remembered _ _); [destruct (_ =? _); [|destruct (existsb _ _)]|]; done.
Qed.

(** C37: a fold that failed is not asked for again until the transcript has grown. After
    a fold whose summary could not be used, a call on a transcript that still begins
    with the prefix it was asked to fold, whose cut has not moved on by the kept count
    and whose estimate has not grown by a quarter of the budget, and that nothing asks
    to fold, sends its view without asking any fold. *)
Theorem asked_once h info p n m input f err h0 info' :
  plans o info (quar h) (next h) (memoryOf h) = Some (p, n, m) -> pl_fold p = Some input ->
  fold input (pl_instructions p) ((remember m h) <| next := n |>) = ((f, Some err), h0) ->
  unfolded (Some err) = true -> memoryOf h0 = m -> o_onFold o = [] -> o_noBackOff o = false ->
  let cut := take (pl_split p) (tf_Transcript info) in
  PrefixHash cut <> "" -> cut `prefix_of` tf_Transcript info' -> tf_Fold info' = false ->
  exists h1, Transform o fold h info = Some (inl (pl_view p), h1) /\
    let v := (view (tf_Transcript info') (quar h1) (memoryOf h1)).1.1 in
    (split_ o (tf_Transcript info') < pl_split p + Nat.max (o_keepLast o) 1)%nat ->
    o_estimate o v + weighed info' < pl_tokens p + Z.max (Z.quot (o_budget o) 4) 1 ->
    exists h2, forall fold', Transform o fold' h1 info' = Some (inl v, h2).
Proof.
  intros Hp Hin Hf Hu Hm Hrep Hback cut Hhash Hpre Hforce. cbv zeta.
  assert (pl_split p = length cut /\ next_ m = false) as [Hlen Hnext].
  { revert Hp. unfold plans. cbv zeta. set (m0 := _ <| nextInstructions := "" |>).
    destruct (view (tf_Transcript info) (quar h) m0) as [[v base] m1] eqn:Ev.
    assert (next_ m1 = false) as Hm1.
    { revert Ev. unfold view, quarantinedSince. cbv zeta. destruct (remembered _ _); [destruct (_ =? _); [|destruct (existsb _ _)]|]; by intros [= _ _ <-]. }
    assert (length (take (split_ o (tf_Transcript info)) (tf_Transcript info)) = split_ o (tf_Transcript info)) as Hs.
    { rewrite length_take. pose proof (proj1 (split_cut (tf_Transcript info))). lia. }
    unfold cut. repeat case_match; intros Hpl; simplify_eq; try done.
    all: try (destruct (Quarantine.apply _ _ _) as [[? ?]|]; cbn in Hpl; simplify_eq; case_match; simplify_eq; done). }
  unfold Transform at 1. rewrite Hp. cbn [mbind option_bind]. rewrite Hin, Hf. unfold foldFailed, report. cbv zeta.
  rewrite Hrep, Hu. cbn [reportTo]. fold cut. rewrite bool_decide_eq_false_2 by done.
  eexists. split; [reflexivity|]. rewrite Hm.
  set (m1 := m <| failLen := _ |> <| failHash := _ |> <| failTokens := _ |>). set (h1 := remember m1 h0).
  change (memoryOf h1) with m1. intros Hsplit Htok.
  assert (failLen m1 = length cut /\ failHash m1 = PrefixHash cut /\ failTokens m1 = pl_tokens p /\ next_ m1 = false)
    as (F1 & F2 & F3 & F4) by done.
  set (m2 := m1 <| next_ := false |> <| nextInstructions := "" |>).
  pose proof (view_taken (tf_Transcript info') (quar h1) m1) as Hv. fold m2 in Hv. rewrite <- Hv in Htok |- *.
  destruct (view_keeps (tf_Transcript info') (quar h1) m2) as (_ & K1 & K2 & K3).
  assert (exists m3, forall fold', Transform o fold' h1 info' =
    Some (inl (view (tf_Transcript info') (quar h1) m2).1.1, (remember m3 h1) <| next := next h1 |>)) as [m3 H3]; [|by eexists].
  exists (view (tf_Transcript info') (quar h1) m2).2. intros fold'. unfold Transform, plans. cbv zeta. change (memoryOf h1) with m1.
  fold m2. rewrite F4, Hforce. unfold weighed in Htok.
  destruct (view (tf_Transcript info') (quar h1) m2) as [[v base] m3]. cbn [fst snd] in *.
  cbn [orb negb andb]. destruct (_ && true); [done|].
  assert (backOff o m3 (tf_Transcript info') (split_ o (tf_Transcript info'))
    (o_estimate o v + match o_settings o with Some weigh => weigh (tf_Request info') | None => 0 end) = true) as ->; [|by rewrite orb_true_r].
  destruct Hpre as [rest Hpre]. unfold backOff. rewrite K1, K2, K3, Hback.
  change (failLen m2) with (failLen m1). change (failHash m2) with (failHash m1). change (failTokens m2) with (failTokens m1).
  rewrite F1, F2, F3. rewrite (bool_decide_eq_false_2 (PrefixHash cut = "")) by done. cbn [orb].
  rewrite (proj2 (Nat.ltb_ge _ _)) by (rewrite Hpre, length_app; lia).
  rewrite (proj2 (Nat.leb_gt _ _)) by lia. rewrite (proj2 (Z.leb_gt _ _)) by lia. cbn [orb].
  apply bool_decide_eq_true. by rewrite Hpre, take_app_length.
Qed.

(** What is quarantined while a fold waits for its model stays in its summary. The
    transform remembers a fold under the generation the quarantine has once the fold
    is made, and not the one it left items out under: so an item of the prefix that was
    quarantined in between, which the fold was sent, is not looked for again, and the
    next call goes on sending what the fold made of it. *)
Theorem quarantined_meanwhile h info p n m input f h1 :
  plans o info (quar h) (next h) (memoryOf h) = Some (p, n, m) -> pl_fold p = Some input ->
  fold input (pl_instructions p) ((remember m h) <| next := n |>) = ((f, None), h1) ->
  memoryOf h1 = m -> prefixLen m = pl_prevLen p -> prefixHash m = pl_prevHash p -> o_onFold o = [] ->
  (0 < pl_split p <= length (tf_Transcript info))%nat -> PrefixHash (take (pl_split p) (tf_Transcript info)) <> "" ->
  exists out h2, Transform o fold h info = Some (inl (f_output f ++ out), h2) /\ quar h2 = quar h1 /\
    (view (tf_Transcript info) (quar h2) (memoryOf h2)).1 = (f_output f ++ out, pl_split p).
Proof.
  intros Hp Hin Hf Hm Hl Hh Hrep Hs Hhash. unfold Transform. rewrite Hp. cbn [mbind option_bind]. rewrite Hin, Hf.
  unfold folds. cbv zeta. rewrite Hm, !bool_decide_eq_true_2 by done. cbn [negb orb]. unfold report. rewrite Hrep. cbn [reportTo].
  set (kept := pinned _ _ _ _). set (m1 := m <| prefixLen := _ |> <| prefixGen := _ |> <| prefixHash := _ |> <| output := _ |> <| last_item ::= _ |>).
  assert (prefixLen m1 = pl_split p /\ prefixHash m1 = PrefixHash (take (pl_split p) (tf_Transcript info)) /\
    output m1 = f_output f ++ kept /\ prefixGen m1 = generation (quar h1)) as (H1 & H2 & H3 & H4) by done.
  exists (kept ++ drop (pl_split p) (tf_Transcript info)), (remember m1 h1). unfold join. rewrite H3, <- app_assoc.
  split; [done|]. split; [done|]. change (memoryOf (remember m1 h1)) with m1. change (quar (remember m1 h1)) with (quar h1).
  unfold view, remembered, quarantinedSince. rewrite H1, H2, H4, Z.eqb_refl. rewrite (bool_decide_eq_false_2 (_ = "")) by done.
  rewrite (proj2 (Nat.ltb_lt _ _)) by lia. rewrite (proj2 (Nat.leb_le _ _)) by lia. rewrite bool_decide_eq_true_2 by done.
  cbn [negb andb fst]. unfold join. by rewrite H1, H3, <- app_assoc.
Qed.

(** ** The summary *)

(** What a summary that is applied is: the text of a response that completed, made an
    item, and smaller than what it stands for. *)
Definition applied (input : Items) (f : folded) : Prop :=
  exists resp p p', rp_Status resp <> StatusFailed /\ rp_Status resp <> StatusIncomplete /\
    TrimSpace (OutputText resp) <> "" /\
    f_output f = [o_summaryItem o p (TrimSpace (OutputText resp))] /\
    f_summary f = Some (o_summaryItem o p (TrimSpace (OutputText resp))) /\
    f_responseID f = rp_ID resp /\
    o_estimate o (f_output f) - o_estimate o [o_summaryItem o p' ""] < o_estimate o input.

Lemma summarize_spec model input instructions h f err h' :
  summarize o model input instructions h = ((f, err), h') ->
  match err with
  | None => applied input f
  | Some _ => f_output f = [] /\ f_summary f = None
  end.
Proof.
  unfold summarize. destruct (summaryRequest o input instructions h) as [req h1].
  destruct (model req h1) as [[resp|[[resp|] e]] h2]; [|by intros [= <- <- <-]..].
  unfold summaryOf. case_bool_decide as H1; [by intros [= <- <- <-]|]. case_bool_decide as H2; [by intros [= <- <- <-]|]. cbv zeta.
  case_bool_decide as H3; [by intros [= <- <- <-]|]. cbn.
  destruct (_ <=? _) eqn:El; [by intros [= <- <- <-]|]. apply Z.leb_gt in El. intros [= <- <- <-].
  exists resp, (next h2), (Pos.succ (next h2)). split_and!; try done.
Qed.

(** A summary is applied only when it is one. [NewLocal]'s fold asks once, and once
    more when the summary has no text, is cut short or is no smaller than what it
    folds; what it applies is the text of a response that completed, made an item whose
    own text weighs less than the items it stands for, and a fold that fails has no
    output to apply. *)
Theorem foldLocal_applies model input instructions h f err h' :
  foldLocal o model input instructions h = ((f, err), h') ->
  match err with
  | None => applied input f
  | Some _ => f_output f = [] /\ f_summary f = None
  end /\
  (f_attempts f = 1 /\ unfolded err = false \/
   f_attempts f = 2 /\ exists f1 e1 h1, summarize o model input instructions h = ((f1, Some e1), h1) /\ unfolded (Some e1) = true).
Proof.
  unfold foldLocal. destruct (summarize o model input instructions h) as [[f1 e1] h1] eqn:E1. destruct (unfolded e1) eqn:Eu.
  - destruct (summarize o model input instructions h1) as [[f2 e2] h2] eqn:E2. intros [= <- <- <-].
    apply summarize_spec in E2. split; [by destruct e2|]. right. split; [done|]. destruct e1 as [e1|]; [|done]. by exists f1, e1, h1.
  - intros [= <- <- <-]. apply summarize_spec in E1. split; [by destruct e1|]. by left.
Qed.

(** What a fold leaves of the memory is what its model does. *)
Lemma foldLocal_memory model input instructions h :
  (forall req h, memoryOf (model req h).2 = memoryOf h) ->
  memoryOf (foldLocal o model input instructions h).2 = memoryOf h.
Proof.
  intros Hm. assert (forall h, memoryOf (summarize o model input instructions h).2 = memoryOf h) as Hs.
  { intros h1. unfold summarize. destruct (summaryRequest o input instructions h1) as [req h2] eqn:E.
    assert (memoryOf h2 = memoryOf h1) as <- by (unfold summaryRequest in E; by injection E as <- <-).
    specialize (Hm req h2). destruct (model req h2) as [[resp|[resp e]] h3]; cbn [snd] in *; [|done].
    rewrite <- Hm. unfold summaryOf. cbv zeta. case_bool_decide; [done|]. case_bool_decide; [done|].
    case_bool_decide; [done|]. cbn. by destruct (_ <=? _). }
  unfold foldLocal. pose proof (Hs h) as H1. destruct (summarize o model input instructions h) as [[f1 e1] h1]. cbn [snd] in H1.
  destruct (unfolded e1); [|done]. pose proof (Hs h1) as H2. destruct (summarize o model input instructions h1) as [[f2 e2] h2].
  cbn [snd] in *. congruence.
Qed.
End Folds.

(** ** A transcript folded *)

Module FoldsToy.
Definition externals : Externals := {|
  MessageText := Content; marshal := fun i => Some (ItemType i); textContent := fun text => text;
  FunctionCalls := fun _ => []; ErrorResult := fun _ => {| res_Output := {| Text_ := ""; Parts := [] |};
    res_Terminate := false; res_Details := None |};
  ReplayOf := fun _ _ _ => ReplayUnknown; decodeValue := Some; decodeObject := fun _ => true |}.
#[local] Existing Instance externals.

(** A model whose summary is [text]. *)
Definition libraries (text : string) : Libraries := {|
  sha256 := fun s => "#" +:+ s; OutputText := fun _ => text; isCompaction := fun _ => false |}.
Definition response : Response := {| rp_ID := "resp"; rp_Status := StatusCompleted; rp_Output := []; rp_Usage := None;
  rp_Error := None; rp_Incomplete := "" |}.
Definition model (req : Request) (h : shared (CWorld unit)) :
    (Response + option Response * error) * shared (CWorld unit) := (inl response, h).

Definition weigh (items : Items) : Z := 10 * Z.of_nat (length items).
Definition options : Options (U := unit) := (newTransform (U := unit) weigh (fun _ => 0) "Summarize."
  [WithBudget 20; WithKeepLast 1; WithMinFold 0]).1.

Definition message (p : ptr) (text : string) : item := IMessage p {| Role_ := RoleUser; Content := text |}.
Definition transcript : Transcript := [message 80 "a"; message 81 "b"; message 82 "c"].
Definition request : Request := {| rq_Model := "model"; rq_Input := []; rq_InputAt := 1; rq_Instructions := "";
  rq_Tools := []; rq_Store := None; rq_Stream := false; rq_StreamOptions := None; rq_PreviousResponseID := "";
  rq_Reasoning := ""; rq_Text := ""; rq_Metadata := ∅; rq_Extra := ∅; rq_Include := []; rq_MaxOutputTokens := None; rq_Rest := "" |}.
Definition info (t : Transcript) : TransformInfo := {| tf_Request := request; tf_Fold := false; tf_Persons := ∅; tf_Transcript := t |}.
Definition start : shared (CWorld unit) := {| outside := {| memory := newMemory; user_ := () |}; quar := newQuarantine; next := 1000 |}.

Definition fold_ (text : string) := foldLocal (Lib := libraries text) options model.
Lemma others text : Others (Lib := libraries text) options (fold_ text).
Proof.
  split.
  - intros input ins h Hs. unfold fold_. by rewrite foldLocal_memory.
  - intros fn f h Hin. by apply not_elem_of_nil in Hin.
Qed.
End FoldsToy.

#[local] Existing Instance FoldsToy.externals.

Lemma Transform_stands_witness : exists out h',
  Transform (Lib := FoldsToy.libraries "s") FoldsToy.options (FoldsToy.fold_ "s") FoldsToy.start (FoldsToy.info FoldsToy.transcript)
    = Some (inl out, h') /\ length out = 2%nat /\
  stood (Lib := FoldsToy.libraries "s") FoldsToy.options (FoldsToy.fold_ "s") FoldsToy.transcript out.
Proof.
  eexists _, _. split; [vm_compute; reflexivity|]. split; [reflexivity|].
  refine (proj2 (Transform_stands (Lib := FoldsToy.libraries "s") FoldsToy.options (FoldsToy.fold_ "s") FoldsToy.start
    (FoldsToy.info FoldsToy.transcript) (inl _) _ (FoldsToy.others "s") _ _)).
  - by left.
  - vm_compute. reflexivity.
Defined.

(** The summary has no text, twice; then nothing is asked. *)
Lemma asked_once_witness : exists h1,
  Transform (Lib := FoldsToy.libraries "") FoldsToy.options (FoldsToy.fold_ "") FoldsToy.start (FoldsToy.info FoldsToy.transcript)
    = Some (inl FoldsToy.transcript, h1) /\
  exists h2, forall fold',
    Transform (Lib := FoldsToy.libraries "") FoldsToy.options fold' h1 (FoldsToy.info FoldsToy.transcript)
      = Some (inl FoldsToy.transcript, h2).
Proof.
  edestruct (asked_once (Lib := FoldsToy.libraries "") FoldsToy.options (FoldsToy.fold_ "") FoldsToy.start
    (FoldsToy.info FoldsToy.transcript)) with (info' := FoldsToy.info FoldsToy.transcript) as (h1 & H1 & H2);
    [vm_compute; reflexivity..|vm_compute; discriminate|exists [FoldsToy.message 82 "c"]; reflexivity|reflexivity|].
  exists h1. split; [exact H1|]. vm_compute in H1. injection H1 as <-.
  destruct H2 as [h2 H2]; [vm_compute; lia|vm_compute; reflexivity|]. exists h2. exact H2.
Defined.

(** A guard quarantines the first message while the summary is made; the next call has
    the summary still. *)
Module MeanwhileToy.
Definition model (req : Request) (h : shared (CWorld unit)) :
    (Response + option Response * error) * shared (CWorld unit) :=
  (inl FoldsToy.response, h <| quar ::= fun q => (Quarantine.add q [FoldsToy.message 80 "a"]).1 |>).
Definition fold_ := foldLocal (Lib := FoldsToy.libraries "s") FoldsToy.options model.
End MeanwhileToy.

Lemma quarantined_meanwhile_witness : exists out h2,
  Transform (Lib := FoldsToy.libraries "s") FoldsToy.options MeanwhileToy.fold_ FoldsToy.start (FoldsToy.info FoldsToy.transcript)
    = Some (inl out, h2) /\ has (quar h2) (FoldsToy.message 80 "a") = true /\
  (view (Lib := FoldsToy.libraries "s") FoldsToy.transcript (quar h2) (memoryOf h2)).1 = (out, 2%nat).
Proof.
  edestruct (quarantined_meanwhile (Lib := FoldsToy.libraries "s") FoldsToy.options MeanwhileToy.fold_ FoldsToy.start
    (FoldsToy.info FoldsToy.transcript)) as (out & h2 & H1 & H2 & H3);
    [vm_compute; reflexivity..|vm_compute; split; lia|vm_compute; discriminate|].
  eexists _, h2. split; [exact H1|]. split; [rewrite H2; vm_compute; reflexivity|exact H3].
Defined.
