(* ===== verification/Numbers.v ===== *)
(** * Numbers: JSON numbers in canonical form ([formatNumber] of [session/hash.go]).

    A double is a sign, a mantissa below [2^53] and an exponent of two; a decimal is
    rounded to the nearest one, to even between two, as [strconv.ParseFloat] does. The
    shortest decimal that rounds to a double, the closer of two, is what
    [strconv.FormatFloat] gives for the precision -1. *)

From S2P Require Export Prelude.

(** ** Doubles *)

Record double := { db_neg : bool; db_mant : Z; db_exp : Z }.
#[export] Instance double_eq_dec : EqDecision double.
Proof. solve_decision. Defined.

(** [2^k <= n / d], and the greatest such [k]. *)
Definition lePow2 (k n d : Z) : bool := if 0 <=? k then d * 2 ^ k <=? n else d <=? n * 2 ^ (- k).
Definition ilog2 (n d : Z) : Z := let k := Z.log2 n - Z.log2 d in if lePow2 k n d then k else k - 1.

(** [n / d] to the nearest integer, to the even one of two. *)
Definition roundEven (n d : Z) : Z :=
  let q := n / d in
  let r := n mod d in
  if 2 * r <? d then q else if d <? 2 * r then q + 1 else if Z.even q then q else q + 1.

(** [n / d / 2^e] as a ratio. *)
Definition overPow2 (n d e : Z) : Z * Z := if 0 <=? e then (n, d * 2 ^ e) else (n * 2 ^ (- e), d).

(** The mantissa and the exponent nearest to [n / d]. *)
Definition nearest (n d : Z) : Z * Z :=
  if n =? 0 then (0, -1074)
  else
    let e := Z.max (-1074) (ilog2 n d - 52) in
    let '(a, b) := overPow2 n d e in
    let m := roundEven a b in
    if m =? 2 ^ 53 then (2 ^ 52, e + 1) else (m, e).

(** A double is finite when its exponent is at most 971. *)
Definition finite (e : Z) : bool := e <=? 971.

(** [c * 10^x] as a ratio. *)
Definition overPow10 (c x : Z) : Z * Z := if 0 <=? x then (c * 10 ^ x, 1) else (c, 10 ^ (- x)).
Definition nearestDecimal (c x : Z) : Z * Z := let '(n, d) := overPow10 c x in nearest n d.

(** ** The shortest decimal *)

(** About [log10 (n / d)], one off at most for a double. *)
Definition ilog10 (n d : Z) : Z :=
  let p := ilog2 n d * 30103 / 100000 in
  let le p := let '(a, b) := overPow10 1 p in a * d <=? n * b in
  if le (p + 1) then p + 1 else if le p then p else p - 1.

(** The decimals of [k] digits next to [n / d], whose logarithm is [p]: the one below,
    and whether the one above is closer. *)
Definition around (n d p k : Z) : Z * bool :=
  let x := p - k + 1 in
  let '(a, b) := overPow10 1 x in
  let q := (n * b) / (d * a) in
  let r := (n * b) mod (d * a) in
  (q, (d * a <? 2 * r) || ((d * a =? 2 * r) && Z.odd q)).

Definition tryDigits (m e n d p k : Z) : option (Z * Z) :=
  let x := p - k + 1 in
  let '(q, up) := around n d p k in
  let decimal c := if c =? 10 ^ k then (1, p + 1) else (c, x) in
  let ok cx := (0 <? cx.1) && bool_decide (nearestDecimal cx.1 cx.2 = (m, e)) in
  let '(first, second) := if up then (decimal (q + 1), decimal q) else (decimal q, decimal (q + 1)) in
  if ok first then Some first else if ok second then Some second else None.

(** The first of [k], [k+1]... digits that will do; 17 are always enough, so that the
    exact value after them is never needed. *)
Fixpoint shortestFrom (fuel : nat) (k m e n d p : Z) : Z * Z :=
  match fuel with
  | O => if 0 <=? e then (m * 2 ^ e, 0) else (m * 5 ^ (- e), e)
  | S fuel => match tryDigits m e n d p k with Some cx => cx | None => shortestFrom fuel (k + 1) m e n d p end
  end.

Definition shortest (m e : Z) : Z * Z :=
  let '(n, d) := if 0 <=? e then (m * 2 ^ e, 1) else (m, 2 ^ (- e)) in
  shortestFrom 17 1 m e n d (ilog10 n d).

(** ** Digits *)

Definition digit (n : Z) : ascii := ascii_of_N (Z.to_N (48 + n)).
Definition digitVal (a : ascii) : option Z := if byteIn 48 57 a then Some (Z.of_N (N_of_ascii a) - 48) else None.

Fixpoint digitsAcc (fuel : nat) (c : Z) (acc : list Z) : list Z :=
  match fuel with
  | O => c :: acc
  | S fuel => if c <? 10 then c :: acc else digitsAcc fuel (c / 10) (c mod 10 :: acc)
  end.
Definition digitsOf (c : Z) : list Z := digitsAcc (Z.to_nat (Z.log2 c)) c [].
Definition valueOf (ds : list Z) : Z := foldl (fun v d => 10 * v + d) 0 ds.

(** [strings.Repeat("0", n)]. *)
Definition zeros (n : Z) : list Z := replicate (Z.to_nat n) 0.

Definition text (ds : list Z) : list ascii := map digit ds.

(** [strconv.Itoa]. *)
Definition itoa (n : Z) : list ascii := (if n <? 0 then ["-"%char] else []) ++ text (digitsOf (Z.abs n)).

(** What [formatNumber] writes of the digits [ds] of a number, the first of them before
    the exponent [n - 1]. *)
Definition layout (ds : list Z) (n : Z) : list ascii :=
  let k := Z.of_nat (length ds) in
  if (k <=? n) && (n <=? 21) then text (ds ++ zeros (n - k))
  else if (0 <? n) && (n <=? 21) then text (take (Z.to_nat n) ds) ++ ["."%char] ++ text (drop (Z.to_nat n) ds)
  else if (-6 <? n) && (n <=? 0) then ["0"; "."]%char ++ text (zeros (- n) ++ ds)
  else
    text (take 1 ds) ++ (if 1 <? k then ["."%char] ++ text (drop 1 ds) else []) ++ ["e"%char] ++
    (if 0 <=? n - 1 then ["+"%char] else []) ++ itoa (n - 1).

(** [formatNumber] of a finite double. *)
Definition formatNumber (f : double) : list ascii :=
  if db_mant f =? 0 then ["0"%char]
  else
    let '(c, x) := shortest (db_mant f) (db_exp f) in
    let ds := digitsOf c in
    (if db_neg f then ["-"%char] else []) ++ layout ds (x + Z.of_nat (length ds)).

(** ** Reading a number *)

(** The digits [s] begins with, and the rest. *)
Fixpoint readDigits (s : list ascii) : list Z * list ascii :=
  match s with
  | a :: s' => match digitVal a with Some n => let '(ds, rest) := readDigits s' in (n :: ds, rest) | None => ([], s) end
  | [] => ([], [])
  end.

Definition isExp (a : ascii) : bool := Ascii.eqb a "e" || Ascii.eqb a "E".

(** A JSON number: its sign, its digits, its power of ten, and what follows it. *)
Definition readExp (s : list ascii) : option (Z * list ascii) :=
  match s with
  | a :: s' =>
      if isExp a
      then
        let '(neg, s') := match s' with
          | b :: s'' => if Ascii.eqb b "-" then (true, s'') else if Ascii.eqb b "+" then (false, s'') else (false, s')
          | [] => (false, []) end in
        match readDigits s' with
        | ([], _) => None
        | (ds, rest) => Some (if neg : bool then - valueOf ds else valueOf ds, rest)
        end
      else Some (0, s)
  | [] => Some (0, [])
  end.

Definition readFraction (s : list ascii) : option (list Z * list ascii) :=
  match s with
  | a :: s' =>
      if Ascii.eqb a "."
      then match readDigits s' with ([], _) => None | (ds, rest) => Some (ds, rest) end
      else Some ([], s)
  | [] => Some ([], [])
  end.

Definition readNumber (s : list ascii) : option (bool * Z * Z * list ascii) :=
  let '(neg, s) := match s with a :: s' => if Ascii.eqb a "-" then (true, s') else (false, s) | [] => (false, []) end in
  match readDigits s with
  | ([], _) => None
  | (0 :: _ :: _, _) => None
  | (whole, s) =>
      '(frac, s) ← readFraction s;
      '(x, s) ← readExp s;
      Some (neg, valueOf (whole ++ frac), x - Z.of_nat (length frac), s)
  end.

(** [strconv.ParseFloat] of a JSON number, none out of range. *)
Definition parseFloat (neg : bool) (c x : Z) : option double :=
  let '(m, e) := nearestDecimal c x in
  if finite e then Some {| db_neg := neg; db_mant := m; db_exp := e |} else None.

(** ** Rounding depends on the ratio alone *)

Lemma lePow2_scale k n d c : 0 < c -> lePow2 k (n * c) (d * c) = lePow2 k n d.
Proof.
  intros Hc. apply eq_true_iff_eq. unfold lePow2. destruct (0 <=? k); rewrite !Z.leb_le.
  - replace (d * c * 2 ^ k) with (d * 2 ^ k * c) by lia. by rewrite <- Z.mul_le_mono_pos_r.
  - replace (n * c * 2 ^ (- k)) with (n * 2 ^ (- k) * c) by lia. by rewrite <- Z.mul_le_mono_pos_r.
Qed.

Lemma lePow2_mono i j n d : 0 < n -> 0 < d -> i <= j -> lePow2 j n d = true -> lePow2 i n d = true.
Proof.
  intros Hn Hd Hij. unfold lePow2. destruct (0 <=? j) eqn:Ej; [apply Z.leb_le in Ej|apply Z.leb_gt in Ej]; rewrite Z.leb_le; intros Hle.
  - destruct (0 <=? i) eqn:Ei; [apply Z.leb_le in Ei|apply Z.leb_gt in Ei]; apply Z.leb_le.
    + assert (2 ^ i <= 2 ^ j) by (apply Z.pow_le_mono_r; lia). nia.
    + assert (1 <= 2 ^ j) by (apply (Z.pow_le_mono_r 2 0); lia). assert (1 <= 2 ^ (- i)) by (apply (Z.pow_le_mono_r 2 0); lia). nia.
  - rewrite (proj2 (Z.leb_gt 0 i)) by lia. apply Z.leb_le. assert (2 ^ (- j) <= 2 ^ (- i)) by (apply Z.pow_le_mono_r; lia). nia.
Qed.

Lemma ilog2_spec n d : 0 < n -> 0 < d -> lePow2 (ilog2 n d) n d = true /\ lePow2 (ilog2 n d + 1) n d = false.
Proof.
  intros Hn Hd. destruct (Z.log2_spec n Hn) as [N1 N2]. destruct (Z.log2_spec d Hd) as [D1 D2].
  pose proof (Z.log2_nonneg n). pose proof (Z.log2_nonneg d). set (a := Z.log2 n) in *. set (b := Z.log2 d) in *.
  assert (lePow2 (a - b - 1) n d = true) as Hlow.
  { unfold lePow2. destruct (0 <=? a - b - 1) eqn:E; [apply Z.leb_le in E|apply Z.leb_gt in E]; apply Z.leb_le.
    - assert (2 ^ Z.succ b * 2 ^ (a - b - 1) = 2 ^ a) by (rewrite <- Z.pow_add_r; [f_equal; lia|lia..]).
      pose proof (Z.pow_pos_nonneg 2 (a - b - 1)). nia.
    - assert (2 ^ a * 2 ^ (- (a - b - 1)) = 2 ^ Z.succ b) by (rewrite <- Z.pow_add_r; [f_equal; lia|lia..]).
      pose proof (Z.pow_pos_nonneg 2 (- (a - b - 1))). nia. }
  assert (lePow2 (a - b + 1) n d = false) as Hhigh.
  { unfold lePow2. destruct (0 <=? a - b + 1) eqn:E; [apply Z.leb_le in E|apply Z.leb_gt in E]; apply Z.leb_gt.
    - assert (2 ^ b * 2 ^ (a - b + 1) = 2 ^ Z.succ a) by (rewrite <- Z.pow_add_r; [f_equal; lia|lia..]).
      pose proof (Z.pow_pos_nonneg 2 (a - b + 1)). nia.
    - assert (2 ^ Z.succ a * 2 ^ (- (a - b + 1)) = 2 ^ b) by (rewrite <- Z.pow_add_r; [f_equal; lia|lia..]).
      pose proof (Z.pow_pos_nonneg 2 (- (a - b + 1))). nia. }
  unfold ilog2. fold a b. cbv zeta. destruct (lePow2 (a - b) n d) eqn:E; [done|]. split; [done|].
  by replace (a - b - 1 + 1) with (a - b) by lia.
Qed.

Lemma ilog2_unique n d k : 0 < n -> 0 < d -> lePow2 k n d = true -> lePow2 (k + 1) n d = false -> ilog2 n d = k.
Proof.
  intros Hn Hd H1 H2. destruct (ilog2_spec n d Hn Hd) as [G1 G2].
  destruct (decide (ilog2 n d < k)); [rewrite (lePow2_mono (ilog2 n d + 1) k) in G2; [done|lia..|done]|].
  destruct (decide (k < ilog2 n d)); [rewrite (lePow2_mono (k + 1) (ilog2 n d)) in H2; [done|lia..|done]|]. lia.
Qed.

Lemma roundEven_scale n d c : 0 < c -> 0 < d -> roundEven (n * c) (d * c) = roundEven n d.
Proof.
  intros Hc Hd. unfold roundEven. cbv zeta. rewrite Z.div_mul_cancel_r by lia. rewrite Zmult_mod_distr_r.
  assert ((2 * (n mod d * c) <? d * c) = (2 * (n mod d) <? d)) as ->.
  { apply eq_true_iff_eq. rewrite !Z.ltb_lt. replace (2 * (n mod d * c)) with (2 * (n mod d) * c) by lia. by rewrite <- Z.mul_lt_mono_pos_r. }
  assert ((d * c <? 2 * (n mod d * c)) = (d <? 2 * (n mod d))) as ->; [|done].
  apply eq_true_iff_eq. rewrite !Z.ltb_lt. replace (2 * (n mod d * c)) with (2 * (n mod d) * c) by lia. by rewrite <- Z.mul_lt_mono_pos_r.
Qed.

Lemma nearest_scale n d c : 0 <= n -> 0 < d -> 0 < c -> nearest (n * c) (d * c) = nearest n d.
Proof.
  intros Hn Hd Hc. unfold nearest. destruct (n =? 0) eqn:E; [apply Z.eqb_eq in E as ->; done|apply Z.eqb_neq in E].
  rewrite (proj2 (Z.eqb_neq (n * c) 0)) by nia.
  assert (ilog2 (n * c) (d * c) = ilog2 n d) as ->.
  { destruct (ilog2_spec n d) as [H1 H2]; [lia..|]. apply ilog2_unique; [nia..| |]; by rewrite lePow2_scale. }
  cbv zeta. set (e := Z.max _ _). assert (0 <= e \/ e < 0) as [He|He] by lia.
  - unfold overPow2. rewrite (proj2 (Z.leb_le 0 e)) by done. replace (d * c * 2 ^ e) with (d * 2 ^ e * c) by lia.
    rewrite roundEven_scale; [done|done|]. pose proof (Z.pow_pos_nonneg 2 e). nia.
  - unfold overPow2. rewrite (proj2 (Z.leb_gt 0 e)) by done. replace (n * c * 2 ^ (- e)) with (n * 2 ^ (- e) * c) by lia.
    by rewrite roundEven_scale.
Qed.

Lemma nearest_ratio n d n' d' : 0 <= n -> 0 < d -> 0 <= n' -> 0 < d' -> n * d' = n' * d -> nearest n d = nearest n' d'.
Proof.
  intros Hn Hd Hn' Hd' He. rewrite <- (nearest_scale n d d'), <- (nearest_scale n' d' d) by lia. by rewrite He, (Z.mul_comm d).
Qed.

Lemma overPow10_ratio c x n d : overPow10 c x = (n, d) -> 0 < d /\ (0 <= c -> 0 <= n) /\
  (forall j, 0 <= j -> 0 <= x + j -> n * 10 ^ j = c * 10 ^ (x + j) * d).
Proof.
  unfold overPow10. destruct (0 <=? x) eqn:E; [apply Z.leb_le in E|apply Z.leb_gt in E]; intros [= <- <-].
  - pose proof (Z.pow_pos_nonneg 10 x). split_and!; [lia|nia|]. intros j Hj _. rewrite Z.pow_add_r by lia. lia.
  - pose proof (Z.pow_pos_nonneg 10 (- x)). split_and!; [lia|done|]. intros j Hj Hxj.
    replace j with (x + j + - x) at 1 by lia. rewrite Z.pow_add_r by lia. lia.
Qed.

Lemma nearestDecimal_shift c x j : 0 <= c -> 0 <= j -> nearestDecimal (c * 10 ^ j) x = nearestDecimal c (x + j).
Proof.
  intros Hc Hj. unfold nearestDecimal. destruct (overPow10 (c * 10 ^ j) x) as [n d] eqn:E1. destruct (overPow10 c (x + j)) as [n' d'] eqn:E2.
  apply overPow10_ratio in E1 as (D1 & N1 & R1). apply overPow10_ratio in E2 as (D2 & N2 & R2).
  pose proof (Z.pow_pos_nonneg 10 j). set (i := Z.max 0 (- x)). specialize (R1 (i + j) ltac:(lia) ltac:(lia)). specialize (R2 i ltac:(lia) ltac:(lia)).
  apply nearest_ratio; [apply N1; nia|done|by apply N2|done|].
  apply (Z.mul_reg_r _ _ (10 ^ (i + j))); [pose proof (Z.pow_pos_nonneg 10 (i + j)); lia|].
  rewrite Z.pow_add_r in R1 |- * by lia. rewrite (Z.add_assoc x i j) in R1. rewrite (Z.pow_add_r 10 (x + i) j) in R1 by lia.
  replace (x + j + i) with (x + i + j) in R2 by lia. rewrite (Z.pow_add_r 10 (x + i) j) in R2 by lia.
  replace (n * d' * (10 ^ i * 10 ^ j)) with (n * (10 ^ i * 10 ^ j) * d') by lia. rewrite R1.
  replace (n' * d * (10 ^ i * 10 ^ j)) with (n' * 10 ^ i * d * 10 ^ j) by lia. rewrite R2. lia.
Qed.

(** ** A double is nearest to itself *)

(** The mantissas and exponents [nearest] gives for a finite nonzero value. *)
Definition normal (m e : Z) : Prop := 0 < m < 2 ^ 53 /\ -1074 <= e <= 971 /\ (2 ^ 52 <= m \/ e = -1074).

Lemma roundEven_exact m b : 0 < b -> roundEven (m * b) b = m.
Proof.
  intros Hb. unfold roundEven. cbv zeta. rewrite Z.div_mul, Z.mod_mul by lia. by rewrite (proj2 (Z.ltb_lt (2 * 0) b)) by lia.
Qed.

Lemma ilog2_pow m e n d : 0 < m -> 0 < d -> (if 0 <=? e then n = m * 2 ^ e * d else n * 2 ^ (- e) = m * d) ->
  0 < n -> ilog2 n d = Z.log2 m + e.
Proof.
  intros Hm Hd He Hn. destruct (Z.log2_spec m Hm) as [M1 M2]. pose proof (Z.log2_nonneg m). set (a := Z.log2 m) in *.
  assert (forall k, 2 ^ (a + k) = 2 ^ a * 2 ^ k \/ k < 0) as Hp.
  { intros k. destruct (decide (0 <= k)); [left; rewrite Z.pow_add_r; lia|right; lia]. }
  apply ilog2_unique; [done..| |].
  - unfold lePow2. destruct (0 <=? e) eqn:E1; [apply Z.leb_le in E1|apply Z.leb_gt in E1];
      (destruct (0 <=? a + e) eqn:E2; [apply Z.leb_le in E2|apply Z.leb_gt in E2]); apply Z.leb_le; [|lia|..].
    + rewrite Z.pow_add_r by lia. subst n. pose proof (Z.pow_pos_nonneg 2 e). nia.
    + assert (2 ^ (a + e) * 2 ^ (- e) = 2 ^ a) by (rewrite <- Z.pow_add_r; [f_equal; lia|lia..]).
      pose proof (Z.pow_pos_nonneg 2 (- e)). pose proof (Z.pow_pos_nonneg 2 (a + e)). nia.
    + assert (2 ^ a * 2 ^ (- (a + e)) = 2 ^ (- e)) by (rewrite <- Z.pow_add_r; [f_equal; lia|lia..]).
      pose proof (Z.pow_pos_nonneg 2 (- (a + e))). pose proof (Z.pow_pos_nonneg 2 a). nia.
  - unfold lePow2. destruct (0 <=? e) eqn:E1; [apply Z.leb_le in E1|apply Z.leb_gt in E1];
      (destruct (0 <=? a + e + 1) eqn:E2; [apply Z.leb_le in E2|apply Z.leb_gt in E2]); apply Z.leb_gt; [|lia|..].
    + assert (2 ^ (a + e + 1) = 2 ^ Z.succ a * 2 ^ e) by (rewrite <- Z.pow_add_r; [f_equal; lia|lia..]).
      subst n. pose proof (Z.pow_pos_nonneg 2 e). nia.
    + assert (2 ^ (a + e + 1) * 2 ^ (- e) = 2 ^ Z.succ a) by (rewrite <- Z.pow_add_r; [f_equal; lia|lia..]).
      pose proof (Z.pow_pos_nonneg 2 (- e)). pose proof (Z.pow_pos_nonneg 2 (a + e + 1)). nia.
    + assert (2 ^ Z.succ a * 2 ^ (- (a + e + 1)) = 2 ^ (- e)) by (rewrite <- Z.pow_add_r; [f_equal; lia|lia..]).
      pose proof (Z.pow_pos_nonneg 2 (- (a + e + 1))). pose proof (Z.pow_pos_nonneg 2 (Z.succ a)). nia.
Qed.

Lemma nearest_exact m e n d : normal m e -> 0 < n -> 0 < d ->
  (if 0 <=? e then n = m * 2 ^ e * d else n * 2 ^ (- e) = m * d) -> nearest n d = (m, e).
Proof.
  intros ([Hm1 Hm2] & [He1 He2] & Hn52) Hn Hd Hr. unfold nearest. rewrite (proj2 (Z.eqb_neq n 0)) by lia. cbv zeta.
  rewrite (ilog2_pow m e n d) by done.
  assert (Z.max (-1074) (Z.log2 m + e - 52) = e) as ->.
  { assert (Z.log2 m < 53) by (apply Z.log2_lt_pow2; lia). destruct Hn52 as [Hn52| ->]; [|lia].
    assert (52 <= Z.log2 m) by (apply Z.log2_le_pow2; lia). lia. }
  unfold overPow2. destruct (0 <=? e) eqn:E; [apply Z.leb_le in E|apply Z.leb_gt in E].
  - replace n with (m * (d * 2 ^ e)) by lia. pose proof (Z.pow_pos_nonneg 2 e). rewrite roundEven_exact by nia.
    by rewrite (proj2 (Z.eqb_neq m (2 ^ 53))) by lia.
  - rewrite Hr, roundEven_exact by done. by rewrite (proj2 (Z.eqb_neq m (2 ^ 53))) by lia.
Qed.

Lemma shortest_spec m e : normal m e -> 0 < (shortest m e).1 /\ nearestDecimal (shortest m e).1 (shortest m e).2 = (m, e).
Proof.
  intros Hm. pose proof Hm as ([Hm1 Hm2] & [He1 He2] & _). unfold shortest.
  destruct (if 0 <=? e then _ else _) as [n d]. generalize (ilog10 n d) 1 17%nat. intros p k fuel. revert k.
  induction fuel as [|fuel IH]; intros k; cbn [shortestFrom].
  - destruct (0 <=? e) eqn:E; cbn [fst snd]; [apply Z.leb_le in E|apply Z.leb_gt in E].
    + pose proof (Z.pow_pos_nonneg 2 e). split; [nia|]. unfold nearestDecimal, overPow10. cbn [Z.leb Z.compare].
      apply nearest_exact; [done|nia|lia|]. rewrite (proj2 (Z.leb_le 0 e)) by done. lia.
    + pose proof (Z.pow_pos_nonneg 5 (- e)). split; [nia|]. unfold nearestDecimal, overPow10. rewrite (proj2 (Z.leb_gt 0 e)) by done.
      pose proof (Z.pow_pos_nonneg 10 (- e)). apply nearest_exact; [done|nia|lia|]. rewrite (proj2 (Z.leb_gt 0 e)) by done.
      replace 10 with (5 * 2) by lia. rewrite Z.pow_mul_l. lia.
  - destruct (tryDigits m e n d p k) as [cx|] eqn:E; [|apply IH]. revert E. unfold tryDigits.
    destruct (around n d p k) as [q up]. cbv zeta.
    destruct (if up : bool then _ else _) as [first second].
    assert (forall c : Z * Z, (0 <? c.1) && bool_decide (nearestDecimal c.1 c.2 = (m, e)) = true ->
      0 < c.1 /\ nearestDecimal c.1 c.2 = (m, e)) as Hok.
    { intros c [?%Z.ltb_lt ?%bool_decide_eq_true]%andb_true_iff. done. }
    repeat case_match; intros E; simplify_eq; by apply Hok.
Qed.

(** ** Digits *)

Definition isDigit (n : Z) : Prop := 0 <= n <= 9.

Lemma valueOf_app a b : valueOf (a ++ b) = valueOf a * 10 ^ Z.of_nat (length b) + valueOf b.
Proof.
  unfold valueOf. rewrite foldl_app. generalize (foldl (fun v d => 10 * v + d) 0 a). intros v.
  assert (forall b v, foldl (fun v d => 10 * v + d) v b = v * 10 ^ Z.of_nat (length b) + foldl (fun v d => 10 * v + d) 0 b) as Hf.
  { clear. induction b as [|x b IH] using rev_ind; intros v; [cbn; lia|]. rewrite !foldl_app, IH, length_app. cbn [foldl length].
    rewrite Nat2Z.inj_add, Z.pow_add_r by lia. lia. }
  apply Hf.
Qed.

Lemma valueOf_zeros n : valueOf (zeros n) = 0.
Proof. unfold zeros. induction (Z.to_nat n) as [|k IH]; [done|]. cbn [replicate]. change (valueOf ([0] ++ replicate k 0) = 0). by rewrite valueOf_app, IH. Qed.

Lemma length_zeros n : 0 <= n -> Z.of_nat (length (zeros n)) = n.
Proof. intros Hn. unfold zeros. rewrite length_replicate. lia. Qed.

Lemma digitsAcc_spec fuel c acc : 0 <= c < 10 * 10 ^ Z.of_nat fuel -> Forall isDigit acc ->
  exists ds, digitsAcc fuel c acc = ds ++ acc /\ valueOf ds = c /\ Forall isDigit ds /\
    exists d ds', ds = d :: ds' /\ (0 < c -> 0 < d).
Proof.
  revert c acc. induction fuel as [|fuel IH]; intros c acc Hc Ha; cbn [digitsAcc].
  { exists [c]. split_and!; [done|cbn; lia|constructor; [unfold isDigit; lia|constructor]|]. by exists c, []. }
  destruct (c <? 10) eqn:E; [apply Z.ltb_lt in E|apply Z.ltb_ge in E].
  { exists [c]. split_and!; [done|cbn; lia|constructor; [unfold isDigit; lia|constructor]|]. by exists c, []. }
  rewrite Nat2Z.inj_succ, Z.pow_succ_r in Hc by lia.
  assert (0 <= c mod 10 < 10) by (apply Z.mod_pos_bound; lia).
  destruct (IH (c / 10) (c mod 10 :: acc)) as (ds & H1 & H2 & H3 & d & ds' & -> & H4).
  { split; [apply Z.div_pos; lia|]. apply Z.div_lt_upper_bound; lia. }
  { constructor; [unfold isDigit; lia|done]. }
  exists ((d :: ds') ++ [c mod 10]). split_and!.
  - by rewrite H1, <- app_assoc.
  - rewrite valueOf_app, H2. cbn. rewrite (Z.div_mod c 10) at 3 by lia. lia.
  - apply Forall_app. split; [done|]. constructor; [unfold isDigit; lia|constructor].
  - exists d, (ds' ++ [c mod 10]). split; [done|]. intros _. apply H4. apply Z.div_str_pos. lia.
Qed.

Lemma digitsOf_spec c : 0 <= c ->
  valueOf (digitsOf c) = c /\ Forall isDigit (digitsOf c) /\ exists d ds, digitsOf c = d :: ds /\ (0 < c -> 0 < d).
Proof.
  intros Hc. destruct (digitsAcc_spec (Z.to_nat (Z.log2 c)) c []) as (ds & H1 & H2 & H3 & H4); [|constructor|].
  - rewrite Z2Nat.id by apply Z.log2_nonneg. destruct (decide (c = 0)) as [->|]; [cbn; lia|].
    destruct (Z.log2_spec c) as [_ H2]; [lia|]. rewrite Z.pow_succ_r in H2 by apply Z.log2_nonneg.
    assert (2 ^ Z.log2 c <= 10 ^ Z.log2 c) by (apply Z.pow_le_mono_l; lia). lia.
  - unfold digitsOf. rewrite H1, app_nil_r. done.
Qed.

(** ** Reading what was written *)

(** [rest] ends the digits before it, or the number. *)
Definition endsDigits (rest : list ascii) : Prop := match rest with a :: _ => digitVal a = None | [] => True end.
Definition endsNumber (rest : list ascii) : Prop :=
  match rest with a :: _ => digitVal a = None /\ a <> "."%char /\ isExp a = false | [] => True end.

(** A property of the ten digits is checked on each of them. *)
Lemma digit_ind (P : Z -> Prop) : Forall P (seqZ 0 10) -> forall n, isDigit n -> P n.
Proof. rewrite Forall_forall. intros HP n Hn. apply HP, elem_of_seqZ. unfold isDigit in Hn. lia. Qed.

Lemma digitVal_digit n : isDigit n -> digitVal (digit n) = Some n.
Proof. apply (digit_ind (fun n => digitVal (digit n) = Some n)). by repeat constructor. Qed.

Lemma digit_plain n : isDigit n -> digit n <> "-"%char /\ digit n <> "."%char /\ digit n <> "+"%char /\ isExp (digit n) = false.
Proof.
  apply (digit_ind (fun n => digit n <> "-"%char /\ digit n <> "."%char /\ digit n <> "+"%char /\ isExp (digit n) = false)).
  by repeat constructor.
Qed.

Lemma readDigits_text ds rest : Forall isDigit ds -> endsDigits rest -> readDigits (text ds ++ rest) = (ds, rest).
Proof.
  intros Hds Hr. induction Hds as [|d ds Hd _ IH]; cbn.
  - destruct rest as [|a rest]; [done|]. cbn in *. by rewrite Hr.
  - rewrite digitVal_digit by done. unfold text in IH. by rewrite IH.
Qed.

Lemma text_app a b : text (a ++ b) = text a ++ text b.
Proof. apply map_app. Qed.

Lemma isDigit_zeros n : Forall isDigit (zeros n).
Proof. apply Forall_replicate. unfold isDigit. lia. Qed.

(** A number without its sign: its whole part, its fraction and its power. *)
Definition unsigned_ (s : list ascii) : option (Z * Z * list ascii) :=
  match readDigits s with
  | ([], _) => None
  | (0 :: _ :: _, _) => None
  | (whole, s) =>
      '(frac, s) ← readFraction s;
      '(x, s) ← readExp s;
      Some (valueOf (whole ++ frac), x - Z.of_nat (length frac), s)
  end.

Lemma unsigned_whole ds rest : Forall isDigit ds -> ds <> [] -> (match ds with 0 :: _ :: _ => False | _ => True end) ->
  endsNumber rest -> unsigned_ (text ds ++ rest) = Some (valueOf ds, 0, rest).
Proof.
  intros Hds Hne H0 Hr. unfold unsigned_. rewrite readDigits_text; [|done|destruct rest; [done|apply Hr]].
  assert (readFraction rest = Some ([], rest) /\ readExp rest = Some (0, rest)) as [Hf Hx].
  { destruct rest as [|a rest]; [done|]. destruct Hr as (_ & Hdot & He). cbn. apply Ascii.eqb_neq in Hdot. by rewrite Hdot, He. }
  destruct ds as [|d [|d' ds]]; [done| |]; [destruct d|destruct d; [done|..]]; rewrite Hf; cbn [mbind option_bind]; rewrite Hx; cbn [mbind option_bind];
    by rewrite app_nil_r.
Qed.

Lemma unsigned_fraction ds ds' rest : Forall isDigit ds -> Forall isDigit ds' -> ds <> [] -> ds' <> [] ->
  (match ds with 0 :: _ :: _ => False | _ => True end) -> endsNumber rest ->
  unsigned_ (text ds ++ "."%char :: text ds' ++ rest) = Some (valueOf (ds ++ ds'), - Z.of_nat (length ds'), rest).
Proof.
  intros Hds Hds' Hne Hne' H0 Hr. unfold unsigned_. rewrite readDigits_text; [|done|done].
  assert (readFraction ("."%char :: text ds' ++ rest) = Some (ds', rest)) as Hf.
  { cbn. rewrite readDigits_text; [|done|destruct rest; [done|apply Hr]]. by destruct ds'. }
  assert (readExp rest = Some (0, rest)) as Hx.
  { destruct rest as [|a rest]; [done|]. destruct Hr as (_ & Hdot & He). cbn. by rewrite He. }
  destruct ds as [|d [|d' ds]]; [done| |]; [destruct d|destruct d; [done|..]]; rewrite Hf; cbn [mbind option_bind]; rewrite Hx; cbn [mbind option_bind];
    done.
Qed.

Lemma readDigits_itoa n rest : endsDigits rest ->
  exists d ds, digitsOf (Z.abs n) = d :: ds /\ Forall isDigit (d :: ds) /\ valueOf (d :: ds) = Z.abs n /\
    readDigits (text (digitsOf (Z.abs n)) ++ rest) = (d :: ds, rest).
Proof.
  intros Hr. destruct (digitsOf_spec (Z.abs n)) as (H1 & H2 & d & ds & E & _); [lia|]. exists d, ds. rewrite E in *.
  split_and!; [done..|]. by apply readDigits_text.
Qed.

(** The exponent [formatNumber] writes of a number outside the plain range. *)
Lemma readExp_written n rest : endsNumber rest ->
  readExp (["e"%char] ++ (if 0 <=? n - 1 then ["+"%char] else []) ++ itoa (n - 1) ++ rest) = Some (n - 1, rest).
Proof.
  intros Hr. cbn [app readExp isExp]. assert (isExp "e" = true) as -> by done.
  destruct (readDigits_itoa (n - 1) rest) as (d & ds & E & Hd & Hv & Hrd); [destruct rest; [done|apply Hr]|].
  unfold itoa. destruct (0 <=? n - 1) eqn:E0; [apply Z.leb_le in E0|apply Z.leb_gt in E0].
  - rewrite (proj2 (Z.ltb_ge (n - 1) 0)) by lia. cbn [app]. assert (Ascii.eqb "+" "-" = false /\ Ascii.eqb "+" "+" = true) as [-> ->] by done.
    rewrite Hrd. rewrite Hv. do 2 f_equal. lia.
  - rewrite (proj2 (Z.ltb_lt (n - 1) 0)) by lia. cbn [app]. assert (Ascii.eqb "-" "-" = true) as -> by done.
    rewrite Hrd. rewrite Hv. do 2 f_equal. lia.
Qed.

Lemma unsigned_exp d ds n rest : isDigit d -> Forall isDigit ds -> endsNumber rest ->
  unsigned_ (text [d] ++ (match ds with [] => [] | _ => "."%char :: text ds end) ++ ["e"%char] ++
    (if 0 <=? n - 1 then ["+"%char] else []) ++ itoa (n - 1) ++ rest) =
  Some (valueOf (d :: ds), n - 1 - Z.of_nat (length ds), rest).
Proof.
  intros Hd Hds Hr. pose proof (readExp_written n rest Hr) as Hx. revert Hx. cbn [app].
  generalize ((if 0 <=? n - 1 then ["+"%char] else []) ++ itoa (n - 1) ++ rest). intros tail Hx.
  destruct ds as [|d' ds]; unfold unsigned_.
  - cbn [app]. rewrite (readDigits_text [d]); [|by constructor|done].
    destruct d; cbn [readFraction mbind option_bind]; (assert (Ascii.eqb "e" "." = false) as -> by done); cbn [mbind option_bind];
      rewrite Hx; cbn [mbind option_bind]; cbn; by rewrite Z.sub_0_r.
  - cbn [app]. rewrite (readDigits_text [d]); [|by constructor|done].
    assert (readFraction ("."%char :: text (d' :: ds) ++ "e"%char :: tail) = Some (d' :: ds, "e"%char :: tail)) as Hf.
    { cbn [readFraction]. assert (Ascii.eqb "." "." = true) as -> by done. by rewrite readDigits_text. }
    destruct d; rewrite Hf; cbn [mbind option_bind]; rewrite Hx; done.
Qed.

Lemma layout_read d ds' n rest : let ds := d :: ds' in Forall isDigit ds -> 0 < d -> endsNumber rest ->
  exists c x, unsigned_ (layout ds n ++ rest) = Some (c, x, rest) /\
    nearestDecimal c x = nearestDecimal (valueOf ds) (n - Z.of_nat (length ds)).
Proof.
  intros ds Hds Hd Hr.
  assert (0 <= valueOf ds) as Hv.
  { assert (forall l, Forall isDigit l -> 0 <= valueOf l) as Hpos; [|by apply Hpos].
    induction 1 as [|x l Hx _ IH]; [done|]. change (0 <= valueOf ([x] ++ l)). rewrite valueOf_app. cbn. unfold isDigit in Hx. pose proof (Z.pow_pos_nonneg 10 (Z.of_nat (length l))). nia. }
  assert (match ds with 0 :: _ :: _ => False | _ => True end) as Hlead by (unfold ds; destruct d; [lia|by destruct ds'..]).
  unfold layout. cbv zeta. set (k := Z.of_nat (length ds)).
  destruct ((k <=? n) && (n <=? 21)) eqn:E1.
  { apply andb_true_iff in E1 as [E1%Z.leb_le E2%Z.leb_le]. eexists _, _. split.
    - apply unsigned_whole; [apply Forall_app; split; [done|apply isDigit_zeros]|done| |done].
      unfold ds. cbn [app]. by destruct d; [lia|..].
    - rewrite valueOf_app, valueOf_zeros, Z.add_0_r, length_zeros by lia. by rewrite nearestDecimal_shift by lia. }
  destruct ((0 <? n) && (n <=? 21)) eqn:E2.
  { apply andb_true_iff in E2 as [E2%Z.ltb_lt E3%Z.leb_le]. apply andb_false_iff in E1 as [E1%Z.leb_gt|E1%Z.leb_gt]; [|lia].
    rewrite <- !app_assoc. cbn [app]. eexists _, _. split.
    - apply unsigned_fraction; [by apply Forall_take|by apply Forall_drop| | | |done].
      + unfold ds. destruct (Z.to_nat n) eqn:En; [lia|done].
      + intros Hnil. apply (f_equal length) in Hnil. rewrite length_drop in Hnil. unfold k in E1. cbn [length] in Hnil. lia.
      + unfold ds. destruct (Z.to_nat n) eqn:En; [lia|]. cbn [take]. by destruct d; [lia|..].
    - rewrite take_drop, length_drop. f_equal. unfold k in *. lia. }
  destruct ((-6 <? n) && (n <=? 0)) eqn:E3.
  { apply andb_true_iff in E3 as [E3%Z.ltb_lt E4%Z.leb_le]. rewrite <- app_assoc. cbn [app]. eexists _, _. split.
    - apply (unsigned_fraction [0] (zeros (- n) ++ ds)); [constructor; [unfold isDigit; lia|constructor]| |done| |done|done].
      + apply Forall_app. split; [apply isDigit_zeros|done].
      + intros Hnil. apply app_eq_nil in Hnil as [_ Hnil]. done.
    - rewrite !valueOf_app, valueOf_zeros, length_app. cbn [valueOf foldl]. f_equal.
      rewrite Nat2Z.inj_add, length_zeros by lia. unfold k. lia. }
  exists (valueOf ds), (n - 1 - Z.of_nat (length ds')). split; [|f_equal; unfold k, ds; cbn [length]; lia].
  pose proof Hds as [Hd1 Hds1]%Forall_cons. etransitivity; [|exact (unsigned_exp d ds' n rest Hd1 Hds1 Hr)].
  f_equal. unfold ds. cbn [take drop]. rewrite <- !app_assoc. f_equal. destruct ds' as [|d' ds'']; [done|].
  rewrite (proj2 (Z.ltb_lt 1 k)) by (unfold k, ds; cbn [length]; lia). by rewrite <- app_assoc.
Qed.

(** ** Properties *)

Lemma readNumber_unsigned s : (match s with a :: _ => a <> "-"%char | [] => True end) ->
  readNumber s = '(c, x, rest) ← unsigned_ s; Some (false, c, x, rest).
Proof.
  intros Hs. unfold readNumber, unsigned_. assert ((match s with a :: s' => if Ascii.eqb a "-" then (true, s') else (false, s) | [] => (false, []) end) = (false, s)) as ->.
  { destruct s as [|a s]; [done|]. apply Ascii.eqb_neq in Hs. by rewrite Hs. }
  destruct (readDigits s) as [[|d [|d' whole]] s1]; [done| |]; (destruct d; try done); (destruct (readFraction s1) as [[frac s2]|]; [|done]); cbn [mbind option_bind];
    (destruct (readExp s2) as [[x s3]|]; done).
Qed.

Lemma readNumber_signed s : readNumber ("-"%char :: s) = '(c, x, rest) ← unsigned_ s; Some (true, c, x, rest).
Proof.
  unfold readNumber, unsigned_. assert (Ascii.eqb "-" "-" = true) as -> by done.
  destruct (readDigits s) as [[|d [|d' whole]] s1]; [done| |]; (destruct d; try done); (destruct (readFraction s1) as [[frac s2]|]; [|done]); cbn [mbind option_bind];
    (destruct (readExp s2) as [[x s3]|]; done).
Qed.

(** A double the decoder makes of a number, not the negative zero, which is written as
    the other one. *)
Definition canonicalDouble (f : double) : Prop :=
  normal (db_mant f) (db_exp f) \/ f = {| db_neg := false; db_mant := 0; db_exp := -1074 |}.

Lemma lePow2_over j e n d a b : 0 <= j -> overPow2 n d e = (a, b) -> lePow2 (j + e) n d = (2 ^ j * b <=? a).
Proof.
  intros Hj. unfold overPow2, lePow2. pose proof (Z.pow_pos_nonneg 2 j) as Hp.
  destruct (0 <=? e) eqn:E; [apply Z.leb_le in E|apply Z.leb_gt in E]; intros [= <- <-]; apply eq_true_iff_eq.
  - rewrite (proj2 (Z.leb_le 0 (j + e))) by lia. rewrite !Z.leb_le, Z.pow_add_r by lia. nia.
  - pose proof (Z.pow_pos_nonneg 2 (- e)). destruct (0 <=? j + e) eqn:F; [apply Z.leb_le in F|apply Z.leb_gt in F]; rewrite !Z.leb_le.
    + replace (2 ^ j) with (2 ^ (j + e) * 2 ^ (- e)) by (rewrite <- Z.pow_add_r by lia; f_equal; lia). nia.
    + replace (2 ^ (- e)) with (2 ^ (- (j + e)) * 2 ^ j) by (rewrite <- Z.pow_add_r by lia; f_equal; lia). nia.
Qed.

Lemma roundEven_bounds l u a b : 0 < b -> l * b <= a -> a < u * b -> l <= roundEven a b <= u.
Proof.
  intros Hb Hl Hu. unfold roundEven. cbv zeta. pose proof (Z.div_mod a b). pose proof (Z.mod_pos_bound a b Hb).
  assert (l <= a / b < u) by (split; [apply Z.div_le_lower_bound; lia|apply Z.div_lt_upper_bound; lia]).
  repeat destruct (_ <? _); try lia. destruct (Z.even _); lia.
Qed.

(** What a decimal is rounded to is a mantissa of 53 bits, normalised. *)
Lemma nearest_normal n d m e : 0 <= n -> 0 < d -> nearest n d = (m, e) ->
  0 <= m < 2 ^ 53 /\ -1074 <= e /\ (2 ^ 52 <= m \/ e = -1074).
Proof.
  intros Hn Hd. unfold nearest. destruct (n =? 0) eqn:E; [intros [= <- <-]; lia|apply Z.eqb_neq in E].
  destruct (ilog2_spec n d) as [H1 H2]; [lia..|]. cbv zeta. set (x := Z.max _ _) in *.
  destruct (overPow2 n d x) as [a b] eqn:Eo.
  assert (0 < b) as Hb.
  { unfold overPow2 in Eo. destruct (0 <=? x) eqn:F; injection Eo as <- <-; [|done].
    apply Z.leb_le in F. pose proof (Z.pow_pos_nonneg 2 x). nia. }
  assert (a < 2 ^ 53 * b) as Hu.
  { apply Z.leb_gt. rewrite <- (lePow2_over 53 x n d) by done. destruct (lePow2 (53 + x) n d) eqn:F; [|done].
    by rewrite (lePow2_mono (ilog2 n d + 1) (53 + x)) in H2 by (lia || done). }
  assert (0 <= a) as Ha.
  { unfold overPow2 in Eo. destruct (0 <=? x); injection Eo as <- <-; [done|]. pose proof (Z.pow_nonneg 2 (- x)). nia. }
  assert (x = -1074 \/ 2 ^ 52 * b <= a) as Hl.
  { destruct (decide (x = -1074)); [by left|right]. apply Z.leb_le. rewrite <- (lePow2_over 52 x n d) by done.
    replace (52 + x) with (ilog2 n d) by lia. done. }
  pose proof (roundEven_bounds 0 (2 ^ 53) a b Hb) as B0. pose proof (roundEven_bounds (2 ^ 52) (2 ^ 53) a b Hb) as B1.
  destruct (roundEven a b =? 2 ^ 53) eqn:F; intros [= <- <-]; [lia|]. apply Z.eqb_neq in F. lia.
Qed.

(** The double that is written for another: the negative zero is written as zero. *)
Definition unsignedZero (f : double) : double := if db_mant f =? 0 then {| db_neg := false; db_mant := 0; db_exp := -1074 |} else f.

Lemma formatNumber_unsignedZero f : formatNumber (unsignedZero f) = formatNumber f.
Proof. unfold unsignedZero, formatNumber. destruct (db_mant f =? 0) eqn:E; [done|]. by rewrite E. Qed.

Lemma parseFloat_canonical neg c x f : 0 <= c -> parseFloat neg c x = Some f -> canonicalDouble (unsignedZero f).
Proof.
  intros Hc. unfold parseFloat, nearestDecimal. destruct (overPow10 c x) as [n d] eqn:Eo.
  destruct (overPow10_ratio c x n d Eo) as (Hd & Hn & _). destruct (nearest n d) as [m e] eqn:E.
  destruct (nearest_normal n d m e (Hn Hc) Hd E) as (Hm & He & Hme).
  unfold finite. destruct (e <=? 971) eqn:Ef; [|done]. apply Z.leb_le in Ef. intros [= <-].
  unfold unsignedZero, canonicalDouble. cbn [db_mant]. destruct (m =? 0) eqn:Em; [by right|left]. apply Z.eqb_neq in Em.
  unfold normal. cbn. lia.
Qed.

Lemma layout_head d ds n : Forall isDigit (d :: ds) -> exists a s, layout (d :: ds) n = a :: s /\ a <> "-"%char.
Proof.
  intros Hds. apply Forall_cons in Hds as [Hd _]. pose proof (digit_plain d Hd) as (Hm & _). unfold layout. cbv zeta.
  destruct (_ && _); [exists (digit d); eexists; by split|].
  destruct ((0 <? n) && _) eqn:E.
  { apply andb_true_iff in E as [E%Z.ltb_lt _]. destruct (Z.to_nat n) eqn:En; [lia|]. exists (digit d). eexists. by split. }
  clear E. destruct (_ && _); [eexists _, _; by split|]. exists (digit d). eexists. split; [reflexivity|done].
Qed.

(** A number survives its canonical form. The text written of any finite double,
    of 15 digits or 17, plain or with an exponent, up to the largest double and down to
    the smallest, is read back as that double, whatever number-ending text follows. *)
Theorem number_roundtrip f rest : canonicalDouble f -> endsNumber rest ->
  exists c x, readNumber (formatNumber f ++ rest) = Some (db_neg f, c, x, rest) /\ parseFloat (db_neg f) c x = Some f.
Proof.
  intros Hf Hr. unfold formatNumber. destruct Hf as [Hf| ->].
  2: { cbn [db_mant db_neg Z.eqb]. exists 0, 0. split; [|done]. rewrite readNumber_unsigned by done.
    change (["0"%char] ++ rest) with (text [0] ++ rest). by rewrite (unsigned_whole [0] rest); [..|done|done]; [|repeat constructor; unfold isDigit; lia|]. }
  destruct f as [neg m e]. cbn [db_mant db_exp db_neg] in *. pose proof Hf as ([Hm _] & [_ He] & _).
  rewrite (proj2 (Z.eqb_neq m 0)) by lia. destruct (shortest_spec m e Hf) as [Hc Hn]. destruct (shortest m e) as [c x]. cbn [fst snd] in *.
  cbv zeta. destruct (digitsOf_spec c) as (Hv & Hd & d & ds & E & Hd0); [lia|]. rewrite E in *.
  destruct (layout_read d ds (x + Z.of_nat (length (d :: ds))) rest) as (c' & x' & Hu & Hx); [done|by apply Hd0|done|].
  exists c', x'. rewrite Hv in Hx. replace (x + _ - _) with x in Hx by lia. rewrite Hn in Hx.
  split; [|unfold parseFloat; rewrite Hx; unfold finite; by rewrite (proj2 (Z.leb_le e 971)) by lia].
  destruct neg.
  - cbn [app]. rewrite readNumber_signed, Hu. done.
  - cbn [app]. rewrite readNumber_unsigned; [by rewrite Hu|].
    destruct (layout_head d ds (x + Z.of_nat (length (d :: ds))) Hd) as (a & s & -> & Ha). done.
Qed.
