(* ===== verification/Canonical.v ===== *)
(** * Canonical: JSON documents in canonical form and the hash of a request
    ([session/hash.go]).

    A string is its runes, since the decoder makes every string valid UTF-8; a number is
    the decimal it was written as, and a member list holds each name once, in any order,
    as a Go map does. What is written is bytes. The hash is an argument. *)

From stdpp Require Import sorting.
From S2P Require Export Numbers.

(** ** Runes *)

Abbreviation runes := (list Z).
Definition byte (n : Z) : ascii := ascii_of_N (Z.to_N n).

(** A scalar value: no surrogate. *)
Definition scalar (r : Z) : Prop := 0 <= r < 55296 \/ 57344 <= r < 1114112.
#[export] Instance scalar_dec r : Decision (scalar r).
Proof. unfold scalar. apply _. Defined.

(** [WriteRune]. *)
Definition encodeRune (r : Z) : list ascii :=
  if r <? 128 then [byte r]
  else if r <? 2048 then [byte (192 + r / 64); byte (128 + r mod 64)]
  else if r <? 65536 then [byte (224 + r / 4096); byte (128 + r / 64 mod 64); byte (128 + r mod 64)]
  else [byte (240 + r / 262144); byte (128 + r / 4096 mod 64); byte (128 + r / 64 mod 64); byte (128 + r mod 64)].

(** [utf16.Encode]. *)
Definition utf16 (s : runes) : list Z :=
  s ≫= fun r => if r <? 65536 then [r] else [55296 + (r - 65536) / 1024; 56320 + (r - 65536) mod 1024].

(** [slices.Compare] of the code units of two names, as an order. *)
Fixpoint leUnits (a b : list Z) : bool :=
  match a, b with
  | [], _ => true
  | _ :: _, [] => false
  | x :: a, y :: b => if x <? y then true else if y <? x then false else leUnits a b
  end.
Definition leName (a b : runes) : Prop := leUnits (utf16 a) (utf16 b) = true.
#[export] Instance leName_dec a b : Decision (leName a b).
Proof. unfold leName. apply _. Defined.

(** ** Documents *)

Inductive json :=
| JNull
| JBool (b : bool)
| JNumber (neg : bool) (c x : Z)
| JString (s : runes)
| JArray (l : list json)
| JObject (m : list (runes * json)).

Definition members := (list (runes * json)).

(** The value of a name, and a name given a value. *)
Fixpoint member {A} (k : runes) (m : list (runes * A)) : option A :=
  match m with [] => None | (k', v) :: m => if bool_decide (k' = k) then Some v else member k m end.
Fixpoint setMember {A} (k : runes) (v : A) (m : list (runes * A)) : list (runes * A) :=
  match m with
  | [] => [(k, v)]
  | (k', v') :: m => if bool_decide (k' = k) then (k, v) :: m else (k', v') :: setMember k v m
  end.

(** [sortedKeys]. *)
Definition sortedKeys {A} (m : list (runes * A)) : list runes := merge_sort leName (map fst m).

(** ** Writing *)

Definition str (s : string) : list ascii := list_ascii_of_string s.

(** [fmt.Fprintf(buf, `\u%04x`, r)] of a control character. *)
Definition hexDigit (n : Z) : ascii := if n <? 10 then byte (48 + n) else byte (87 + n).
Definition backslash : ascii := byte 92.
Definition quote : ascii := byte 34.

(** [writeCanonicalString]. *)
Definition escape (r : Z) : list ascii :=
  if r =? 8 then [backslash; "b"%char]
  else if r =? 9 then [backslash; "t"%char]
  else if r =? 10 then [backslash; "n"%char]
  else if r =? 12 then [backslash; "f"%char]
  else if r =? 13 then [backslash; "r"%char]
  else if r =? 34 then [backslash; quote]
  else if r =? 92 then [backslash; backslash]
  else if r <? 32 then [backslash; "u"%char; "0"%char; "0"%char; hexDigit (r / 16); hexDigit (r mod 16)]
  else encodeRune r.
Definition writeString (s : runes) : list ascii := [quote] ++ (s ≫= escape) ++ [quote].

(** The texts of a list, with a comma between two. *)
Fixpoint commas (l : list (list ascii)) : list ascii :=
  match l with
  | [] => []
  | [t] => t
  | t :: l => t ++ [","%char] ++ commas l
  end.

(** The members of an object whose values' texts are [m], in the order of their names. *)
Definition writeMember (m : list (runes * list ascii)) (k : runes) : list ascii :=
  writeString k ++ [":"%char] ++ default [] (member k m).
Definition writeObject (m : list (runes * list ascii)) : list ascii :=
  ["{"%char] ++ commas (map (writeMember m) (sortedKeys m)) ++ ["}"%char].
Definition writeArray (l : list (list ascii)) : list ascii := ["["%char] ++ commas l ++ ["]"%char].

(** [f] of each element in turn, and of each member's value: the first error ends it. *)
Definition traverse {A B} (f : A -> option B) : list A -> option (list B) :=
  fix go l := match l with [] => Some [] | x :: l => y ← f x; ys ← go l; Some (y :: ys) end.
Definition second {A B} (f : A -> option B) (kv : runes * A) : option (runes * B) := v ← f kv.2; Some (kv.1, v).

(** [writeCanonical], none for a number out of range. *)
Fixpoint writeCanonical (v : json) : option (list ascii) :=
  match v with
  | JNull => Some (str "null")
  | JBool b => Some (if b then str "true" else str "false")
  | JNumber neg c x => f ← parseFloat neg c x; Some (formatNumber f)
  | JString s => Some (writeString s)
  | JArray l => ts ← traverse writeCanonical l; Some (writeArray ts)
  | JObject m => ts ← traverse (second writeCanonical) m; Some (writeObject ts)
  end.

(** ** Reading: what [json.Decoder] makes of a document *)

Definition isSpace (a : ascii) : bool :=
  Ascii.eqb a (byte 32) || Ascii.eqb a (byte 9) || Ascii.eqb a (byte 10) || Ascii.eqb a (byte 13).
Fixpoint skipSpace (s : list ascii) : list ascii :=
  match s with a :: s' => if isSpace a then skipSpace s' else s | [] => [] end.

Definition val (a : ascii) : Z := Z.of_N (N_of_ascii a).
Definition hexVal (a : ascii) : option Z :=
  if byteIn 48 57 a then Some (val a - 48) else if byteIn 97 102 a then Some (val a - 87)
  else if byteIn 65 70 a then Some (val a - 55) else None.
Definition readHex4 (s : list ascii) : option (Z * list ascii) :=
  match s with
  | a :: b :: c :: d :: s =>
      a ← hexVal a; b ← hexVal b; c ← hexVal c; d ← hexVal d; Some (4096 * a + 256 * b + 16 * c + d, s)
  | _ => None
  end.

(** The replacement character. *)
Definition replacement : Z := 65533.

(** The first rune of the bytes [a :: s], as [utf8.DecodeRune]. *)
Definition low6 (a : ascii) : Z := val a - 128.
Definition decodeRune (a : ascii) (s : list ascii) : Z * list ascii :=
  if byteIn 0 127 a then (val a, s)
  else if byteIn 194 223 a then
    match s with b :: s' => if continues b then ((val a - 192) * 64 + low6 b, s') else (replacement, s) | [] => (replacement, s) end
  else if byteIn 224 239 a then
    let second := if byteIn 224 224 a then byteIn 160 191 else if byteIn 237 237 a then byteIn 128 159 else continues in
    match s with
    | b :: c :: s' => if second b && continues c then ((val a - 224) * 4096 + low6 b * 64 + low6 c, s') else (replacement, s)
    | _ => (replacement, s)
    end
  else if byteIn 240 244 a then
    let second := if byteIn 240 240 a then byteIn 144 191 else if byteIn 244 244 a then byteIn 128 143 else continues in
    match s with
    | b :: c :: d :: s' =>
        if second b && continues c && continues d
        then ((val a - 240) * 262144 + low6 b * 4096 + low6 c * 64 + low6 d, s') else (replacement, s)
    | _ => (replacement, s)
    end
  else (replacement, s).

(** The rune of an escape, after its backslash; a surrogate alone is replaced. *)
Definition readEscape (s : list ascii) : option (Z * list ascii) :=
  match s with
  | a :: s =>
      if Ascii.eqb a "b" then Some (8, s) else if Ascii.eqb a "t" then Some (9, s) else if Ascii.eqb a "n" then Some (10, s)
      else if Ascii.eqb a "f" then Some (12, s) else if Ascii.eqb a "r" then Some (13, s)
      else if Ascii.eqb a quote then Some (34, s) else if Ascii.eqb a backslash then Some (92, s)
      else if Ascii.eqb a "/" then Some (47, s)
      else if Ascii.eqb a "u"
      then
        '(u, s) ← readHex4 s;
        if (55296 <=? u) && (u <? 57344)
        then Some match s with
          | b :: c :: s' =>
              if Ascii.eqb b backslash && Ascii.eqb c "u"
              then match readHex4 s' with
                   | Some (l, s'') =>
                       if (u <? 56320) && (56320 <=? l) && (l <? 57344)
                       then ((u - 55296) * 1024 + (l - 56320) + 65536, s'') else (replacement, s)
                   | None => (replacement, s)
                   end
              else (replacement, s)
          | _ => (replacement, s)
          end
        else Some (u, s)
      else None
  | [] => None
  end.

(** The runes of a string, after its first quote. *)
Fixpoint readString (fuel : nat) (s : list ascii) : option (runes * list ascii) :=
  match fuel, s with
  | S fuel, a :: s =>
      if Ascii.eqb a quote then Some ([], s)
      else if Ascii.eqb a backslash
      then '(r, s) ← readEscape s; '(rs, s) ← readString fuel s; Some (r :: rs, s)
      else if val a <? 32 then None
      else let '(r, s) := decodeRune a s in '(rs, s) ← readString fuel s; Some (r :: rs, s)
  | _, _ => None
  end.

(** A literal. *)
Fixpoint readLiteral (l s : list ascii) : option (list ascii) :=
  match l, s with
  | [], _ => Some s
  | a :: l, b :: s => if Ascii.eqb a b then readLiteral l s else None
  | _, [] => None
  end.

(** A value and what follows it: what is left of an array after a value of it, and of an
    object, whose last value of a name is the one that counts. [deep] is how many arrays
    and objects may still be opened. *)
Fixpoint readValue (fuel deep : nat) (s : list ascii) : option (json * list ascii) :=
  match fuel with
  | O => None
  | S fuel =>
      match skipSpace s with
      | [] => None
      | a :: s' =>
          if Ascii.eqb a "n" then s ← readLiteral (str "ull") s'; Some (JNull, s)
          else if Ascii.eqb a "t" then s ← readLiteral (str "rue") s'; Some (JBool true, s)
          else if Ascii.eqb a "f" then s ← readLiteral (str "alse") s'; Some (JBool false, s)
          else if Ascii.eqb a quote then '(r, s) ← readString (length s') s'; Some (JString r, s)
          else if Ascii.eqb a "["
          then
            match deep, skipSpace s' with
            | S deep, b :: s'' =>
                if Ascii.eqb b "]" then Some (JArray [], s'') else '(l, s) ← readElements fuel deep s'; Some (JArray l, s)
            | _, _ => None
            end
          else if Ascii.eqb a "{"
          then
            match deep, skipSpace s' with
            | S deep, b :: s'' =>
                if Ascii.eqb b "}" then Some (JObject [], s'') else '(m, s) ← readMembers fuel deep [] s'; Some (JObject m, s)
            | _, _ => None
            end
          else '(neg, c, x, s) ← readNumber (a :: s'); Some (JNumber neg c x, s)
      end
  end
with readElements (fuel deep : nat) (s : list ascii) : option (list json * list ascii) :=
  match fuel with
  | O => None
  | S fuel =>
      '(v, s) ← readValue fuel deep s;
      match skipSpace s with
      | b :: s =>
          if Ascii.eqb b "]" then Some ([v], s)
          else if Ascii.eqb b "," then '(l, s) ← readElements fuel deep s; Some (v :: l, s) else None
      | [] => None
      end
  end
with readMembers (fuel deep : nat) (m : members) (s : list ascii) : option (members * list ascii) :=
  match fuel with
  | O => None
  | S fuel =>
      match skipSpace s with
      | a :: s =>
          if Ascii.eqb a quote
          then
            '(k, s) ← readString (length s) s;
            match skipSpace s with
            | b :: s =>
                if Ascii.eqb b ":"
                then
                  '(v, s) ← readValue fuel deep s;
                  let m := setMember k v m in
                  match skipSpace s with
                  | b :: s =>
                      if Ascii.eqb b "}" then Some (m, s)
                      else if Ascii.eqb b "," then readMembers fuel deep m s else None
                  | [] => None
                  end
                else None
            | [] => None
            end
          else None
      | [] => None
      end
  end.

(** [maxNestingDepth] of [encoding/json]. *)
Definition maxNesting : nat := Z.to_nat 10000.

(** [Decode]: the first document of the data and what follows it. Every step takes a byte. *)
Definition Decode (data : list ascii) : option (json * list ascii) := readValue (2 * length data + 1) maxNesting data.

(** [More]: whether another element follows, which a closing bracket ends. *)
Definition More (rest : list ascii) : bool :=
  match skipSpace rest with a :: _ => negb (Ascii.eqb a "]" || Ascii.eqb a "}") | [] => false end.

(** [canonicalJSON]. *)
Definition canonicalJSON (data : list ascii) : option (list ascii) :=
  '(v, rest) ← Decode data;
  if More rest then None else writeCanonical v.
