(* ===== verification/Canonicity.v ===== *)
(** * Canonicity: what the canonical form of a document says of it ([session/hash.go]).

    The value of a document is its numbers as doubles and its members in their order by
    name. The canonical text is written from the value alone, and is read back as a
    document of that value: two documents have one canonical form exactly when they have
    one value. *)

From stdpp Require Import sorting.
From S2P Require Export Canonical.

(** ** Values *)

Inductive value :=
| VNull
| VBool (b : bool)
| VNumber (f : double)
| VString (s : runes)
| VArray (l : list value)
| VObject (m : list (runes * value)).

(** The members of [m] in the order of their names. *)
Definition sortMembers {A} (d : A) (m : list (runes * A)) : list (runes * A) :=
  map (fun k => (k, default d (member k m))) (sortedKeys m).

(** The value of a document, none when a number of it is out of range. *)
Fixpoint valueIn (v : json) : option value :=
  match v with
  | JNull => Some VNull
  | JBool b => Some (VBool b)
  | JNumber neg c x => f ← parseFloat neg c x; Some (VNumber (unsignedZero f))
  | JString s => Some (VString s)
  | JArray l => ds ← traverse valueIn l; Some (VArray ds)
  | JObject m => ds ← traverse (second valueIn) m; Some (VObject (sortMembers VNull ds))
  end.

(** The text of a value. *)
Fixpoint write (d : value) : list ascii :=
  match d with
  | VNull => str "null"
  | VBool b => if b then str "true" else str "false"
  | VNumber f => formatNumber f
  | VString s => writeString s
  | VArray l => writeArray (map write l)
  | VObject m =>
      ["{"%char] ++ commas (map (fun kd => writeString kd.1 ++ [":"%char] ++ write kd.2) m) ++ ["}"%char]
  end.

(** The arrays and the objects of a document that stand in one another. *)
Fixpoint nesting (v : json) : nat :=
  match v with
  | JArray l => S (max_list (map nesting l))
  | JObject m => S (max_list (map (fun kv => nesting kv.2) m))
  | _ => 0
  end.
Fixpoint depth (d : value) : nat :=
  match d with
  | VArray l => S (max_list (map depth l))
  | VObject m => S (max_list (map (fun kd => depth kd.2) m))
  | _ => 0
  end.

(** A document as the decoder builds it: valid strings, each name once. *)
Inductive wf : json -> Prop :=
| wf_null : wf JNull
| wf_bool b : wf (JBool b)
| wf_number neg c x : 0 <= c -> wf (JNumber neg c x)
| wf_string s : Forall scalar s -> wf (JString s)
| wf_array l : Forall wf l -> wf (JArray l)
| wf_object m : NoDup (map fst m) -> Forall (fun kv => Forall scalar kv.1) m -> Forall (fun kv => wf kv.2) m -> wf (JObject m).

(** The values of such documents: their members are sorted. *)
Inductive canon : value -> Prop :=
| canon_null : canon VNull
| canon_bool b : canon (VBool b)
| canon_number f : canonicalDouble f -> canon (VNumber f)
| canon_string s : Forall scalar s -> canon (VString s)
| canon_array l : Forall canon l -> canon (VArray l)
| canon_object m : NoDup (map fst m) -> StronglySorted leName (map fst m) ->
    Forall (fun kd => Forall scalar kd.1) m -> Forall (fun kd => canon kd.2) m -> canon (VObject m).

(** ** Induction *)

Lemma json_rect_list (P : json -> Prop) :
  P JNull -> (forall b, P (JBool b)) -> (forall neg c x, P (JNumber neg c x)) -> (forall s, P (JString s)) ->
  (forall l, Forall P l -> P (JArray l)) -> (forall m, Forall (fun kv => P kv.2) m -> P (JObject m)) -> forall v, P v.
Proof.
  intros Hn Hb Hx Hs Ha Ho. fix IH 1. intros [| | | |l|m]; [done|apply Hb|apply Hx|apply Hs|apply Ha|apply Ho].
  - induction l; constructor; [apply IH|done].
  - induction m as [|[k v] m]; constructor; [apply IH|done].
Qed.

Lemma value_rect_list (P : value -> Prop) :
  P VNull -> (forall b, P (VBool b)) -> (forall f, P (VNumber f)) -> (forall s, P (VString s)) ->
  (forall l, Forall P l -> P (VArray l)) -> (forall m, Forall (fun kd => P kd.2) m -> P (VObject m)) -> forall d, P d.
Proof.
  intros Hn Hb Hx Hs Ha Ho. fix IH 1. intros [| | | |l|m]; [done|apply Hb|apply Hx|apply Hs|apply Ha|apply Ho].
  - induction l; constructor; [apply IH|done].
  - induction m as [|[k v] m]; constructor; [apply IH|done].
Qed.

(** ** Traversals *)

Lemma traverse_Some {A B} (f : A -> option B) l ys : traverse f l = Some ys <-> Forall2 (fun x y => f x = Some y) l ys.
Proof.
  revert ys. induction l as [|x l IH]; intros ys; cbn.
  - split; [by intros [= <-]|by inversion 1].
  - split.
    + intros H. destruct (f x) as [y|] eqn:E; [|done]. cbn in H. destruct (traverse f l) as [ys'|] eqn:E'; [|done].
      injection H as <-. constructor; [done|by apply IH].
    + inversion 1 as [|? y ? ys' Hy Hys]; subst. apply IH in Hys. by rewrite Hy; cbn; rewrite Hys.
Qed.

Lemma traverse_elem {A B} (f : A -> option B) l ys y : traverse f l = Some ys -> y ∈ ys -> exists x, x ∈ l /\ f x = Some y.
Proof.
  rewrite traverse_Some. induction 1 as [|x y' l ys Hx _ IH]; [by intros ?%not_elem_of_nil|].
  intros [->|Hi]%elem_of_cons; [exists x; split; [left|done]|].
  destruct (IH Hi) as (x' & Hi' & Hx'). exists x'. split; [by right|done].
Qed.

(** Two traversals of which one is made from the other, element by element. *)
Lemma traverse_fmap {A B C} (f : A -> option B) (g : A -> option C) (h : B -> C) l :
  Forall (fun x => g x = h <$> f x) l -> traverse g l = map h <$> traverse f l.
Proof.
  induction 1 as [|x l Hx _ IH]; [done|]. cbn. rewrite Hx. destruct (f x); [|done]. cbn. rewrite IH. by destruct (traverse f l).
Qed.

(** ** The order of names *)

Lemma leUnits_total a b : leUnits a b = true \/ leUnits b a = true.
Proof.
  revert b. induction a as [|x a IH]; intros [|y b]; cbn; [by left..|by right|].
  destruct (x <? y) eqn:E1, (y <? x) eqn:E2; auto.
Qed.
Lemma leUnits_trans a b c : leUnits a b = true -> leUnits b c = true -> leUnits a c = true.
Proof.
  revert b c. induction a as [|x a IH]; intros [|y b] [|z c]; cbn; [done..|].
  destruct (x <? y) eqn:E1, (y <? x) eqn:E2, (y <? z) eqn:E3, (z <? y) eqn:E4, (x <? z) eqn:E5, (z <? x) eqn:E6; try done; try lia.
  apply IH.
Qed.
Lemma leUnits_antisym a b : leUnits a b = true -> leUnits b a = true -> a = b.
Proof.
  revert b. induction a as [|x a IH]; intros [|y b]; cbn; [done..|].
  destruct (x <? y) eqn:E1, (y <? x) eqn:E2; try done; [lia|]. intros H1 H2. f_equal; [lia|by apply IH].
Qed.
#[export] Instance leName_total : Total leName.
Proof. intros a b. apply leUnits_total. Qed.
#[export] Instance leName_trans : Transitive leName.
Proof. intros a b c. apply leUnits_trans. Qed.

(** Valid strings are told apart by their code units. *)
Lemma utf16_inj a b : Forall scalar a -> Forall scalar b -> utf16 a = utf16 b -> a = b.
Proof.
  intros Ha. revert b. induction Ha as [|r a Hr _ IH]; intros b Hb; destruct Hb as [|q b Hq Hb]; cbn; [done| | |].
  - by destruct (q <? 65536).
  - by destruct (r <? 65536).
  - unfold utf16 in IH. unfold scalar in *.
    destruct (r <? 65536) eqn:E1, (q <? 65536) eqn:E2; cbn; intros H.
    + injection H as -> H. f_equal. by apply IH.
    + injection H as H _. pose proof (Z.div_pos (q - 65536) 1024). pose proof (Z.div_lt_upper_bound (q - 65536) 1024 1024). lia.
    + injection H as H _. pose proof (Z.div_pos (r - 65536) 1024). pose proof (Z.div_lt_upper_bound (r - 65536) 1024 1024). lia.
    + injection H as H1 H2 H3. f_equal; [|by apply IH].
      pose proof (Z.div_mod (r - 65536) 1024). pose proof (Z.div_mod (q - 65536) 1024). lia.
Qed.
Lemma leName_antisym a b : Forall scalar a -> Forall scalar b -> leName a b -> leName b a -> a = b.
Proof. intros Ha Hb H1 H2. apply utf16_inj; [done..|]. by apply leUnits_antisym. Qed.

(** ** Members *)

Lemma member_map {A B} (f : A -> B) k (m : list (runes * A)) : member k (map (fun kv => (kv.1, f kv.2)) m) = f <$> member k m.
Proof. induction m as [|[k' v] m IH]; [done|]. cbn. by case_bool_decide. Qed.
Lemma member_is_Some {A} k (m : list (runes * A)) : k ∈ map fst m <-> is_Some (member k m).
Proof.
  induction m as [|[k' v] m IH]; cbn; [by split; [intros ?%not_elem_of_nil|intros [? [=]]]|]. rewrite elem_of_cons.
  case_bool_decide as H; [split; [eauto|by left]|]. rewrite <- IH. naive_solver.
Qed.
Lemma member_elem {A} k v (m : list (runes * A)) : NoDup (map fst m) -> (k, v) ∈ m -> member k m = Some v.
Proof.
  induction m as [|[k' v'] m IH]; cbn; [by intros _ ?%not_elem_of_nil|]. intros [Hn Hd]%NoDup_cons. rewrite elem_of_cons.
  case_bool_decide as H; intros [[= -> ->]|Hi]; [done| |done|by apply IH]. subst. destruct Hn. by apply (list_elem_of_fmap_2 fst) in Hi.
Qed.
Lemma elem_member {A} k v (m : list (runes * A)) : member k m = Some v -> (k, v) ∈ m.
Proof. induction m as [|[k' v'] m IH]; [done|]. cbn. case_bool_decide; [intros [= ->]; subst; by left|right; by apply IH]. Qed.

Lemma sortedKeys_perm {A} (m : list (runes * A)) : sortedKeys m ≡ₚ map fst m.
Proof. apply merge_sort_Permutation. Qed.
Lemma sortedKeys_sorted {A} (m : list (runes * A)) : StronglySorted leName (sortedKeys m).
Proof. apply StronglySorted_merge_sort; apply _. Qed.

(** The order of valid names is theirs alone. *)
Lemma sorted_unique (l l' : list runes) : Forall (Forall scalar) l -> StronglySorted leName l -> StronglySorted leName l' -> l ≡ₚ l' -> l = l'.
Proof.
  intros Hs H1 H2 Hp. apply (StronglySorted_unique_strong leName); [|done..].
  intros a b Ha Hb. rewrite <- Hp in Hb. rewrite Forall_forall in Hs. by apply leName_antisym; apply Hs.
Qed.

Lemma sortMembers_names {A} (d : A) m : map fst (sortMembers d m) = sortedKeys m.
Proof. unfold sortMembers. rewrite map_map. apply map_id. Qed.
Lemma sortMembers_elem {A} (d : A) m kv : kv ∈ sortMembers d m -> kv ∈ m.
Proof.
  intros (k & -> & Hk)%list_elem_of_fmap. rewrite sortedKeys_perm, member_is_Some in Hk. destruct Hk as [v Hv].
  rewrite Hv. by apply elem_member.
Qed.

Lemma sortMembers_perm {A} (d : A) m m' : NoDup (map fst m) -> Forall (fun kv => Forall scalar kv.1) m -> m ≡ₚ m' ->
  sortMembers d m = sortMembers d m'.
Proof.
  intros Hd Hs Hp. unfold sortMembers. assert (sortedKeys m = sortedKeys m') as <-.
  { apply sorted_unique; [|apply sortedKeys_sorted..|by rewrite !sortedKeys_perm, Hp].
    rewrite sortedKeys_perm, Forall_map. done. }
  apply map_ext_in. intros k Hk%list_elem_of_In. f_equal. rewrite sortedKeys_perm, member_is_Some in Hk.
  destruct Hk as [v Hv]. rewrite Hv. f_equal. symmetry. apply member_elem; [by rewrite <- Hp|]. rewrite <- Hp. by apply elem_member.
Qed.

Lemma sortMembers_sorted {A} (d : A) m : NoDup (map fst m) -> Forall (fun kv => Forall scalar kv.1) m ->
  StronglySorted leName (map fst m) -> sortMembers d m = m.
Proof.
  intros Hd Hs Ho. unfold sortMembers. assert (sortedKeys m = map fst m) as ->.
  { apply sorted_unique; [|apply sortedKeys_sorted|done|apply sortedKeys_perm]. rewrite sortedKeys_perm, Forall_map. done. }
  rewrite map_map. etrans; [|apply map_id]. apply map_ext_in. intros [k v] Hk%list_elem_of_In. cbn. by rewrite (member_elem k v).
Qed.

(** ** The text is written from the value *)

Lemma writeCanonical_value v : writeCanonical v = write <$> valueIn v.
Proof.
  induction v as [| | | |l IH|m IH] using json_rect_list; [done..| | | |]; cbn.
  - destruct (parseFloat neg c x); [|done]. cbn. by rewrite formatNumber_unsignedZero.
  - done.
  - rewrite (traverse_fmap valueIn _ write) by done. by destruct (traverse valueIn l).
  - rewrite (traverse_fmap (second valueIn) _ (fun kd => (kd.1, write kd.2))).
    2: { eapply Forall_impl; [exact IH|]. intros [k v] Hv. unfold second. cbn in *. rewrite Hv. by destruct (valueIn v). }
    destruct (traverse (second valueIn) m) as [ds|]; [|done]. cbn. f_equal. unfold writeObject. do 3 f_equal.
    unfold sortMembers, sortedKeys. rewrite !map_map. cbn. apply map_ext_in. intros k Hk%list_elem_of_In.
    unfold writeMember. cbn. do 2 f_equal. rewrite member_map.
    rewrite merge_sort_Permutation, member_is_Some in Hk. by destruct Hk as [d ->].
Qed.

(** A document the decoder built has a value in canonical form, nested as deep. *)
Lemma traverse_names {A B} (f : A -> option B) m ds : traverse (second f) m = Some ds -> map fst ds = map fst m.
Proof.
  rewrite traverse_Some. induction 1 as [|[k v] kd ? ? Hk _ IH]; [done|]. cbn. rewrite IH. f_equal.
  unfold second in Hk. cbn in Hk. destruct (f v); by simplify_option_eq.
Qed.
Lemma traverse_member {A B} (f : A -> option B) m ds kd : traverse (second f) m = Some ds -> kd ∈ ds ->
  exists v, (kd.1, v) ∈ m /\ f v = Some kd.2.
Proof.
  intros H Hi. destruct (traverse_elem _ _ _ _ H Hi) as ([k v] & Hm & Hk).
  unfold second in Hk. cbn in Hk. exists v. destruct (f v) eqn:E; simplify_option_eq. done.
Qed.

Lemma valueIn_canon v : wf v -> forall d, valueIn v = Some d -> canon d.
Proof.
  induction v as [| | | |l IH|m IH] using json_rect_list; intros Hw d; inversion Hw as [| | | | |? Hd Hs Hv]; subst; cbn.
  - intros [= <-]. constructor.
  - intros [= <-]. constructor.
  - destruct (parseFloat neg c x) eqn:E; [|done]. intros [= <-]. constructor. by eapply parseFloat_canonical.
  - intros [= <-]. by constructor.
  - destruct (traverse valueIn l) as [ds|] eqn:E; [|done]. intros [= <-]. constructor.
    rewrite Forall_forall in IH. apply Forall_forall. intros y Hy. destruct (traverse_elem _ _ _ _ E Hy) as (x & Hx & Hi).
    eapply IH; [done| |done]. by eapply Forall_forall.
  - destruct (traverse (second valueIn) m) as [ds|] eqn:E; [|done]. intros [= <-]. pose proof (traverse_names _ _ _ E) as En.
    rewrite Forall_forall in IH, Hs, Hv.
    constructor; rewrite ?sortMembers_names; [by rewrite sortedKeys_perm, En|apply sortedKeys_sorted|..];
      apply Forall_forall; intros kd (x & Hi & Hx)%sortMembers_elem%(traverse_member _ _ _ _ E).
    + by apply (Hs (kd.1, x)).
    + eapply (IH (kd.1, x)); [done|by apply (Hv (kd.1, x))|done].
Qed.
