(* ===== verification/Readback.v ===== *)
(** * Readback: the canonical text read again ([session/hash.go]).

    The decoder reads a canonical text back as a document of the value it was written
    from, so that the text is the value: it is a fixed point of the canonical form, and
    equal for the documents of one value only. *)

From S2P Require Export Canonicity.

(** ** Bytes *)

Lemma val_byte n : 0 <= n < 256 -> val (byte n) = n.
Proof. intros H. unfold val, byte. rewrite N_ascii_embedding by lia. lia. Qed.
Lemma byteIn_byte lo hi n : 0 <= n < 256 -> byteIn lo hi (byte n) = (lo <=? n) && (n <=? hi).
Proof. intros H. unfold byteIn. fold (val (byte n)). by rewrite val_byte. Qed.
Lemma eqb_val a b : Ascii.eqb a b = (val a =? val b).
Proof.
  apply eq_true_iff_eq. rewrite Ascii.eqb_eq, Z.eqb_eq. unfold val. split; [by intros ->|]. intros H%N2Z.inj.
  by rewrite <- (ascii_N_embedding a), H, ascii_N_embedding.
Qed.

(** The tests on the bytes of a rune, each decided by the range the rune is in. *)
Ltac byte_tests :=
  unfold decodeRune, continues, low6; rewrite ?byteIn_byte, ?val_byte by (Z.to_euclidean_division_equations; lia);
  repeat match goal with
  | |- context [?a <=? ?b] =>
      first [ rewrite (proj2 (Z.leb_le a b)) by (Z.to_euclidean_division_equations; lia)
            | rewrite (proj2 (Z.leb_gt a b)) by (Z.to_euclidean_division_equations; lia) ]
  end; cbn [andb app]; rewrite ?byteIn_byte, ?val_byte by (Z.to_euclidean_division_equations; lia);
  repeat match goal with
  | |- context [?a <=? ?b] => rewrite (proj2 (Z.leb_le a b)) by (Z.to_euclidean_division_equations; lia)
  end; cbn [andb].

(** What is written of a rune is read as that rune. *)
Definition beyond (r : Z) (a : ascii) : Prop := if r <? 128 then val a = r else 128 <= val a.
Lemma decodeRune_encode r rest : scalar r -> exists a s, encodeRune r = a :: s /\ decodeRune a (s ++ rest) = (r, rest) /\ beyond r a.
Proof.
  intros Hr. unfold encodeRune, beyond. assert (0 <= r < 1114112) by (unfold scalar in Hr; lia).
  destruct (r <? 128) eqn:E1; [|destruct (r <? 2048) eqn:E2; [|destruct (r <? 65536) eqn:E3]];
    eexists _, _; (split; [reflexivity|]); (split; [|rewrite val_byte by (Z.to_euclidean_division_equations; lia)]);
    try (Z.to_euclidean_division_equations; lia).
  - by byte_tests.
  - byte_tests. f_equal. Z.to_euclidean_division_equations; lia.
  - assert (r < 4096 \/ 4096 <= r < 53248 \/ 53248 <= r < 55296 \/ 57344 <= r) as [|[|[|]]] by (unfold scalar in Hr; lia);
      byte_tests; f_equal; Z.to_euclidean_division_equations; lia.
  - assert (r < 262144 \/ 262144 <= r < 1048576 \/ 1048576 <= r) as [|[|]] by lia;
      byte_tests; f_equal; Z.to_euclidean_division_equations; lia.
Qed.

(** ** Strings *)

Lemma control_escaped r rest : 0 <= r < 32 ->
  exists e, escape r = backslash :: e /\ readEscape (e ++ rest) = Some (r, rest).
Proof.
  intros Hr. assert (Forall (fun r => exists e, escape r = backslash :: e /\ readEscape (e ++ rest) = Some (r, rest)) (seqZ 0 32)) as H.
  { repeat constructor; eexists; split; reflexivity. }
  rewrite Forall_forall in H. apply H, elem_of_seqZ. lia.
Qed.

(** A rune is written as an escape, or as itself. *)
Lemma escape_read r rest : scalar r ->
  exists a e, escape r = a :: e /\
    ((a = backslash /\ readEscape (e ++ rest) = Some (r, rest)) \/
     (a <> backslash /\ a <> quote /\ 32 <= val a /\ decodeRune a (e ++ rest) = (r, rest))).
Proof.
  intros Hr. destruct (decide (r < 32)).
  { destruct (control_escaped r rest) as (e & ? & ?); [unfold scalar in Hr; lia|]. exists backslash, e. auto. }
  destruct (decide (r = 34)) as [->|]; [by eexists _, _; split; [reflexivity|left]|].
  destruct (decide (r = 92)) as [->|]; [by eexists _, _; split; [reflexivity|left]|].
  destruct (decodeRune_encode r rest Hr) as (a & e & He & Hd & Hb). exists a, e. split.
  - unfold escape. by rewrite !(proj2 (Z.eqb_neq r _)), (proj2 (Z.ltb_ge r 32)) by lia.
  - right. assert (val a <> 92 /\ val a <> 34 /\ 32 <= val a) as (H1 & H2 & ?) by (unfold beyond in Hb; destruct (r <? 128) eqn:E; lia).
    split_and!; [by intros ->..|done|done].
Qed.

Lemma readString_written s rest fuel : Forall scalar s -> (length s < fuel)%nat ->
  readString fuel ((s ≫= escape) ++ quote :: rest) = Some (s, rest).
Proof.
  intros Hs. revert fuel. induction Hs as [|r s Hr _ IH]; intros [|fuel] Hf; cbn in Hf; [lia|done|lia|].
  cbn [mbind list_bind]. rewrite <- app_assoc. cbn [app].
  destruct (escape_read r ((s ≫= escape) ++ quote :: rest) Hr) as (a & e & -> & H). cbn [app readString].
  destruct H as [[-> H]|(Hn1 & Hn2 & Hv & H)].
  - change (Ascii.eqb backslash quote) with false. rewrite Ascii.eqb_refl, H. cbn. by rewrite IH by lia.
  - rewrite (proj2 (Ascii.eqb_neq _ _) Hn2), (proj2 (Ascii.eqb_neq _ _) Hn1), (proj2 (Z.ltb_ge (val a) 32)) by lia.
    rewrite H. by rewrite IH by lia.
Qed.

Lemma escape_length s : Forall scalar s -> (length s <= length (s ≫= escape))%nat.
Proof.
  induction 1 as [|r s Hr _ IH]; [done|].
  rewrite bind_cons, length_app. destruct (escape_read r [] Hr) as (a & e & -> & _). cbn [length]. lia.
Qed.

Lemma writeString_read s rest : Forall scalar s ->
  exists t, writeString s ++ rest = quote :: t /\ readString (length t) t = Some (s, rest).
Proof.
  intros Hs. unfold writeString. cbn [app]. eexists. split; [reflexivity|]. rewrite <- app_assoc. cbn [app].
  apply readString_written; [done|]. rewrite length_app. pose proof (escape_length s Hs). cbn. lia.
Qed.

(** ** Values *)

(** A number's text begins with its sign or a digit, and no other value's does. *)
Definition numeric (a : ascii) : Prop := val a = 45 \/ 48 <= val a <= 57.
Lemma number_head f : canonicalDouble f -> exists a s, formatNumber f = a :: s /\ numeric a.
Proof.
  intros Hf. destruct (number_roundtrip f [] Hf I) as (c & x & H & _). rewrite app_nil_r in H.
  destruct (formatNumber f) as [|a s]; [done|]. exists a, s. split; [done|]. unfold numeric. revert H. unfold readNumber.
  rewrite eqb_val. destruct (val a =? val "-") eqn:E; [left; change (val "-") with 45 in E; lia|].
  cbn [readDigits]. destruct (digitVal a) as [n|] eqn:D; [|done]. intros _. right. revert D. unfold digitVal, byteIn. fold (val a).
  destruct (_ && _) eqn:B; [|done]. lia.
Qed.

(** How the text of a value begins: no space, and no closing bracket. *)
Lemma write_head d : canon d -> exists a s, write d = a :: s /\ isSpace a = false /\ Ascii.eqb a "]" = false.
Proof.
  intros [|[]|f Hf|s|l|m]; cbn [write]; try (by eexists _, _).
  destruct (number_head f Hf) as (a & s & -> & H). exists a, s. split; [done|]. unfold isSpace. rewrite !eqb_val.
  change (val (byte 32)) with 32. change (val (byte 9)) with 9. change (val (byte 10)) with 10. change (val (byte 13)) with 13.
  change (val "]") with 93. unfold numeric in H. split; [|lia]. by rewrite !(proj2 (Z.eqb_neq _ _)) by lia.
Qed.

Lemma skipSpace_none a s : isSpace a = false -> skipSpace (a :: s) = a :: s.
Proof. intros H. cbn. by rewrite H. Qed.

Lemma readValue_number fuel deep a s : numeric a -> readValue (S fuel) deep (a :: s) = '(neg, c, x, s) ← readNumber (a :: s); Some (JNumber neg c x, s).
Proof.
  intros H. unfold numeric in H. cbn [readValue]. rewrite skipSpace_none.
  - rewrite !eqb_val. change (val "n") with 110. change (val "t") with 116. change (val "f") with 102. change (val quote) with 34.
    change (val "[") with 91. change (val "{") with 123. by rewrite !(proj2 (Z.eqb_neq (val a) _)) by lia.
  - unfold isSpace. rewrite !eqb_val.
    change (val (byte 32)) with 32. change (val (byte 9)) with 9. change (val (byte 10)) with 10. change (val (byte 13)) with 13.
    by rewrite !(proj2 (Z.eqb_neq _ _)) by lia.
Qed.

Lemma max_list_cons a l n : (max_list (a :: l) <= n)%nat -> (a <= n /\ max_list l <= n)%nat.
Proof. cbn. unfold id. lia. Qed.

(** The text of [d], with whatever may follow a value after it, is read as a document of
    the value [d]. *)
Definition readsBack (d : value) : Prop := forall fuel deep rest,
  endsNumber rest -> (2 * length (write d) + 1 <= fuel)%nat -> (depth d <= deep)%nat ->
  exists v, readValue fuel deep (write d ++ rest) = Some (v, rest) /\ valueIn v = Some d.

Lemma commas_cons t ts : ts <> [] -> commas (t :: ts) = t ++ ","%char :: commas ts.
Proof. by destruct ts. Qed.

Lemma readElements_written l : l <> [] -> Forall readsBack l -> forall fuel deep rest,
  (2 * length (commas (map write l)) + 2 <= fuel)%nat -> (max_list (map depth l) <= deep)%nat ->
  exists vs, readElements fuel deep (commas (map write l) ++ "]"%char :: rest) = Some (vs, rest) /\ traverse valueIn vs = Some l.
Proof.
  intros Hn Hl. induction Hl as [|d l Hd Hl IH]; [done|]. intros [|fuel] deep rest Hf Hp; [lia|]. apply max_list_cons in Hp as [Hp Hp']. cbn [map] in Hf |- *.
  destruct l as [|d' l].
  - cbn [map commas] in Hf |- *. destruct (Hd fuel deep ("]"%char :: rest)) as (v & Hv & Hd'); [done|lia..|].
    cbn [readElements]. rewrite Hv. cbn. exists [v]. split; [done|]. cbn. by rewrite Hd'.
  - rewrite commas_cons in Hf |- * by done. rewrite length_app in Hf. cbn [length] in Hf.
    destruct (Hd fuel deep (","%char :: commas (map write (d' :: l)) ++ "]"%char :: rest)) as (v & Hv & Hd'); [done|lia..|].
    destruct (IH ltac:(done) fuel deep rest) as (vs & Hvs & Ht); [lia|exact Hp'|].
    rewrite <- app_assoc. cbn [app readElements]. rewrite Hv. cbn -[readElements map commas]. rewrite Hvs. exists (v :: vs). split; [done|].
    cbn. by rewrite Hd'; cbn; rewrite Ht.
Qed.

Lemma setMember_new {A} k (v : A) m : k ∉ map fst m -> setMember k v m = m ++ [(k, v)].
Proof.
  induction m as [|[k' v'] m IH]; [done|]. cbn. rewrite not_elem_of_cons. intros [Hn Hi]. by rewrite bool_decide_false, IH.
Qed.

Definition writePair (kd : runes * value) : list ascii := writeString kd.1 ++ [":"%char] ++ write kd.2.

Lemma traverse_cons_pair {A B} (f : A -> option B) k v y m ms : f v = Some y -> traverse (second f) m = Some ms ->
  traverse (second f) ((k, v) :: m) = Some ((k, y) :: ms).
Proof. rewrite !traverse_Some. intros Hv Hm. constructor; [|done]. unfold second. cbn. by rewrite Hv. Qed.

(** A member at the head of an object's text: its name is read, then its value. *)
Lemma readMembers_step fuel deep acc k d t : Forall scalar k -> readsBack d -> k ∉ map fst acc ->
  endsNumber t -> (2 * length (write d) + 1 <= fuel)%nat -> (depth d <= deep)%nat ->
  exists v, valueIn v = Some d /\
    readMembers (S fuel) deep acc (writePair (k, d) ++ t) =
      match skipSpace t with
      | b :: s => if Ascii.eqb b "}" then Some (acc ++ [(k, v)], s)
                  else if Ascii.eqb b "," then readMembers fuel deep (acc ++ [(k, v)]) s else None
      | [] => None
      end.
Proof.
  intros Hk Hd Hn Ht Hf Hp. destruct (Hd fuel deep t Ht Hf Hp) as (v & Hv & Hd'). exists v. split; [done|].
  unfold writePair. cbn [fst snd]. rewrite <- app_assoc.
  destruct (writeString_read k (([":"%char] ++ write d) ++ t) Hk) as (u & -> & Hu).
  cbn [readMembers]. rewrite skipSpace_none by done. rewrite Ascii.eqb_refl, Hu. cbn -[readMembers readValue skipSpace].
  rewrite skipSpace_none by done. cbn -[readMembers readValue skipSpace]. rewrite Hv. cbn -[readMembers skipSpace].
  by rewrite setMember_new.
Qed.

Lemma readMembers_written m : m <> [] -> Forall (fun kd => Forall scalar kd.1 /\ readsBack kd.2) m -> forall fuel deep acc rest,
  NoDup (map fst acc ++ map fst m) ->
  (2 * length (commas (map writePair m)) + 2 <= fuel)%nat -> (max_list (map (fun kd => depth kd.2) m) <= deep)%nat ->
  exists vs, readMembers fuel deep acc (commas (map writePair m) ++ "}"%char :: rest) = Some (acc ++ vs, rest) /\
    traverse (second valueIn) vs = Some m.
Proof.
  intros Hn Hm. induction Hm as [|[k d] m [Hk Hd] Hm IH]; [done|]. intros [|fuel] deep acc rest Ha Hf Hp; [lia|].
  apply max_list_cons in Hp as [Hp Hp']. cbn [map fst snd] in Hf, Hp, Ha |- *.
  assert (k ∉ map fst acc) as Hka.
  { intros Hi. apply NoDup_app in Ha as (_ & Ha & _). destruct (Ha k Hi). left. }
  assert (length (writePair (k, d)) >= length (write d) + 1)%nat as Hlen by (unfold writePair; rewrite !length_app; cbn; lia).
  destruct m as [|kd' m].
  - cbn [map commas] in Hf |- *. destruct (readMembers_step fuel deep acc k d ("}"%char :: rest)) as (v & Hv & ->); [done..|lia|lia|].
    rewrite skipSpace_none by done. cbn. eexists. split; [done|]. by apply traverse_cons_pair.
  - rewrite commas_cons in Hf |- * by done. rewrite length_app in Hf. cbn [length] in Hf. rewrite <- app_assoc. cbn [app].
    destruct (readMembers_step fuel deep acc k d (","%char :: commas (map writePair (kd' :: m)) ++ "}"%char :: rest)) as (v & Hv & ->); [done..|lia|lia|].
    rewrite skipSpace_none by done. cbn -[readMembers map commas].
    destruct (IH ltac:(done) fuel deep (acc ++ [(k, v)]) rest) as (vs & -> & Ht); [|lia|exact Hp'|].
    { rewrite map_app, <- app_assoc. done. }
    rewrite <- app_assoc. eexists. split; [done|]. by apply traverse_cons_pair.
Qed.

(** An array's or an object's text begins its elements, unless it is empty. *)
Lemma readValue_array fuel deep d l rest : canon d ->
  readValue (S fuel) (S deep) (writeArray (map write (d :: l)) ++ rest) =
    '(vs, s) ← readElements fuel deep (commas (map write (d :: l)) ++ "]"%char :: rest); Some (JArray vs, s).
Proof.
  intros Hd. unfold writeArray. rewrite <- !app_assoc. cbn [app readValue]. rewrite skipSpace_none by done.
  destruct (write_head d Hd) as (a & s & E & Ha & Hb).
  assert (exists s', commas (map write (d :: l)) ++ ["]"%char] ++ rest = a :: s') as [s' Es].
  { cbn [map]. destruct (map write l); cbn [commas]; rewrite E; by eexists. }
  cbn -[readElements map commas app]. cbn [app] in Es |- *. rewrite Es, skipSpace_none, Hb by done. done.
Qed.
Lemma readValue_object fuel deep kd m rest :
  readValue (S fuel) (S deep) (["{"%char] ++ commas (map writePair (kd :: m)) ++ ["}"%char] ++ rest) =
    '(vs, s) ← readMembers fuel deep [] (commas (map writePair (kd :: m)) ++ "}"%char :: rest); Some (JObject vs, s).
Proof.
  cbn [app readValue]. rewrite skipSpace_none by done.
  assert (exists s', commas (map writePair (kd :: m)) ++ "}"%char :: rest = quote :: s') as [s' Es].
  { cbn [map]. unfold writePair at 1, writeString at 1. destruct (map writePair m); cbn [commas app]; by eexists. }
  cbn -[readMembers map commas app skipSpace]. rewrite Es, skipSpace_none by done. done.
Qed.

Theorem write_read d : canon d -> readsBack d.
Proof.
  induction d as [| | | |l IH|m IH] using value_rect_list; intros Hc [|fuel] deep rest Hr Hf Hp; try lia; cbn [write] in *.
  - by exists JNull.
  - destruct b; by eexists.
  - inversion Hc as [| |? Hn| | |]; subst. destruct (number_roundtrip f rest Hn Hr) as (c & x & Hx & Hv).
    destruct (number_head f Hn) as (a & s & E & Ha). rewrite E in *. cbn [app] in *. rewrite readValue_number, Hx by done.
    eexists. split; [done|]. cbn. rewrite Hv. cbn. do 2 f_equal. unfold unsignedZero.
    destruct (db_mant f =? 0) eqn:Ez; [|done]. apply Z.eqb_eq in Ez. destruct Hn as [[Hn _]| ->]; [lia|done].
  - inversion Hc; subst. destruct (writeString_read s rest) as (t & E & Ht); [done|].
    rewrite E. cbn [readValue]. rewrite skipSpace_none by done. cbn -[readString]. rewrite Ht. by eexists.
  - inversion Hc as [| | | |? Hl|]; subst. destruct deep as [|deep]; cbn in Hp; [lia|]. apply le_S_n in Hp.
    destruct l as [|d l]; [by exists (JArray [])|].
    assert (Forall readsBack (d :: l)) as Hb by (rewrite !Forall_forall in *; auto).
    rewrite readValue_array by (by apply Forall_cons in Hl as [? _]).
    destruct (readElements_written (d :: l) ltac:(done) Hb fuel deep rest) as (vs & -> & Ht);
      [unfold writeArray in Hf; rewrite !length_app in Hf; cbn [length] in Hf; lia|done|].
    eexists. split; [done|]. cbn [valueIn]. by rewrite Ht.
  - inversion Hc as [| | | | |? Hn Ho Hs Hv]; subst. destruct deep as [|deep]; cbn in Hp; [lia|]. apply le_S_n in Hp.
    destruct m as [|kd m]; [by exists (JObject [])|]. fold writePair in *.
    assert (Forall (fun kd => Forall scalar kd.1 /\ readsBack kd.2) (kd :: m)) as Hb by (rewrite !Forall_forall in *; auto).
    rewrite <- !app_assoc, readValue_object.
    destruct (readMembers_written (kd :: m) ltac:(done) Hb fuel deep [] rest) as (vs & -> & Ht);
      [done|rewrite !length_app in Hf; cbn [length] in Hf; lia|done|].
    eexists. split; [done|]. cbn [valueIn app]. rewrite Ht. cbn [mbind option_bind]. by rewrite sortMembers_sorted.
Qed.

(** ** What the decoder builds *)

Lemma val_bound a : 0 <= val a < 256.
Proof. unfold val. pose proof (N_ascii_bounded a). lia. Qed.
Lemma byteIn_val lo hi a : byteIn lo hi a = true -> lo <= val a <= hi.
Proof. unfold byteIn. fold (val a). lia. Qed.

Lemma byteIn_out lo hi a : byteIn lo hi a = false -> val a < lo \/ hi < val a.
Proof. unfold byteIn. fold (val a). lia. Qed.

Lemma decodeRune_scalar a s : scalar (decodeRune a s).1.
Proof.
  unfold decodeRune, low6, continues. cbv zeta. pose proof (val_bound a).
  repeat match goal with
  | |- context [match ?s with [] => _ | _ :: _ => _ end] => is_var s; destruct s
  | |- context [byteIn ?l ?h a] => let E := fresh in destruct (byteIn l h a) eqn:E
  | |- context [if ?b then _ else _] => let E := fresh in destruct b eqn:E
  end; cbn [fst];
  repeat match goal with
  | H : _ && _ = true |- _ => apply andb_true_iff in H as [? ?]
  | H : byteIn _ _ _ = true |- _ => apply byteIn_val in H
  | H : byteIn _ _ a = false |- _ => apply byteIn_out in H
  end; unfold scalar, replacement; lia.
Qed.

Lemma hexVal_bound a n : hexVal a = Some n -> 0 <= n < 16.
Proof.
  unfold hexVal. destruct (byteIn 48 57 a) eqn:E; [apply byteIn_val in E; intros [= <-]; lia|].
  destruct (byteIn 97 102 a) eqn:E1; [apply byteIn_val in E1; intros [= <-]; lia|].
  destruct (byteIn 65 70 a) eqn:E2; [apply byteIn_val in E2; intros [= <-]; lia|done].
Qed.
Lemma readHex4_bound s n rest : readHex4 s = Some (n, rest) -> 0 <= n < 65536.
Proof.
  destruct s as [|a [|b [|c [|d s]]]]; try done. cbn.
  destruct (hexVal a) eqn:Ha; [|done]. destruct (hexVal b) eqn:Hb; [|done]. destruct (hexVal c) eqn:Hc; [|done].
  destruct (hexVal d) eqn:Hd; [|done]. apply hexVal_bound in Ha, Hb, Hc, Hd. cbn. intros [= <- _]. lia.
Qed.
Lemma readEscape_scalar s r rest : readEscape s = Some (r, rest) -> scalar r.
Proof.
  destruct s as [|a s]; [done|]. unfold readEscape, scalar.
  repeat (destruct (Ascii.eqb a _); [intros H; first [injection H as <- _; lia|revert H]|]); [|done].
  destruct (readHex4 s) as [[u s1]|] eqn:E; [|done]. apply readHex4_bound in E. cbn [mbind option_bind].
  destruct ((55296 <=? u) && (u <? 57344)) eqn:Es; [|intros [= <- _]; lia].
  assert (scalar replacement) as Hr by (unfold scalar, replacement; lia). unfold scalar in Hr.
  destruct s1 as [|b [|c s2]]; try (by intros [= <- _]).
  destruct (Ascii.eqb b backslash && _); [|by intros [= <- _]].
  destruct (readHex4 s2) as [[l s3]|] eqn:E2; [|by intros [= <- _]]. apply readHex4_bound in E2.
  destruct ((u <? 56320) && _ && _) eqn:El; [|by intros [= <- _]]. intros [= <- _]. lia.
Qed.

Lemma readString_scalar fuel s r rest : readString fuel s = Some (r, rest) -> Forall scalar r.
Proof.
  revert s r. induction fuel as [|fuel IH]; intros [|a s] r; try done. cbn [readString].
  destruct (Ascii.eqb a quote); [by intros [= <- _]|]. destruct (Ascii.eqb a backslash).
  - destruct (readEscape s) as [[x s']|] eqn:E; [|done]. cbn [mbind option_bind]. destruct (readString fuel s') as [[rs s'']|] eqn:E'; [|done].
    intros [= <- ->]. constructor; [by eapply readEscape_scalar|by eapply IH].
  - destruct (val a <? 32); [done|]. destruct (decodeRune a s) as [x s'] eqn:E.
    destruct (readString fuel s') as [[rs s'']|] eqn:E'; [|done]. intros [= <- ->]. constructor; [|by eapply IH].
    pose proof (decodeRune_scalar a s) as H. by rewrite E in H.
Qed.

Lemma readDigits_digits s : Forall isDigit (readDigits s).1.
Proof.
  induction s as [|a s IH]; [constructor|]. cbn. destruct (digitVal a) as [n|] eqn:E; [|constructor].
  destruct (readDigits s) as [ds s']. constructor; [|done]. revert E. unfold digitVal. destruct (byteIn 48 57 a) eqn:B; [|done].
  apply byteIn_val in B. unfold val in B. intros [= <-]. unfold isDigit. lia.
Qed.
Lemma valueOf_nonneg ds : Forall isDigit ds -> 0 <= valueOf ds.
Proof.
  unfold valueOf. assert (forall v, 0 <= v -> Forall isDigit ds -> 0 <= foldl (fun v d => 10 * v + d) v ds) as H; [|by apply H].
  induction ds as [|d ds IH]; [done|]. intros v Hv [Hd Hds]%Forall_cons. cbn. apply IH; [|done]. unfold isDigit in Hd. lia.
Qed.
Lemma readNumber_nonneg s neg c x rest : readNumber s = Some (neg, c, x, rest) -> 0 <= c.
Proof.
  unfold readNumber. destruct (match s with [] => _ | _ :: _ => _ end) as [n' s'].
  pose proof (readDigits_digits s') as Hd. destruct (readDigits s') as [ds s1]. cbn [fst] in Hd.
  assert (forall o, ('(frac, s) ← readFraction s1; '(x, s) ← readExp s; Some (n', valueOf (ds ++ frac), x - Z.of_nat (length frac), s)) = o ->
    o = Some (neg, c, x, rest) -> 0 <= c) as H.
  { intros o <-. destruct (readFraction s1) as [[fr s2]|] eqn:E; [|done]. cbn. destruct (readExp s2) as [[x' s3]|]; [|done].
    intros [= _ <- _ _]. apply valueOf_nonneg, Forall_app. split; [done|]. revert E. unfold readFraction.
    destruct s1 as [|a s1']; [by intros [= <- _]|]. destruct (Ascii.eqb a "."); [|by intros [= <- _]].
    pose proof (readDigits_digits s1') as Hd'. destruct (readDigits s1') as [[|d ds'] s4]; [done|]. intros [= <- _]. done. }
  intros Hr. eapply H; [reflexivity|]. destruct ds as [|[| |] [|]]; done.
Qed.

(** The members of an object being read: each name once, every one valid. *)
Definition goodMembers (deep : nat) (m : members) : Prop :=
  NoDup (map fst m) /\ Forall (fun kv => Forall scalar kv.1 /\ wf kv.2 /\ (nesting kv.2 <= deep)%nat) m.

Lemma setMember_good deep k v m : Forall scalar k -> wf v -> (nesting v <= deep)%nat -> goodMembers deep m -> goodMembers deep (setMember k v m).
Proof.
  intros Hk Hv Hd. unfold goodMembers. induction m as [|[k' v'] m IH]; cbn; [intros _; by repeat constructor; [apply not_elem_of_nil|..]|].
  intros [[Hn Hu]%NoDup_cons [H Hm]%Forall_cons]. case_bool_decide as E; cbn.
  - subst. split; [by constructor|]. by constructor.
  - destruct (IH (conj Hu Hm)) as [Hu' Hm']. split; [|by constructor]. constructor; [|done]. intros Hi.
    apply Hn. revert Hi. clear -E. induction m as [|[k'' v''] m IH]; cbn; [by intros [->|?%not_elem_of_nil]%elem_of_cons|].
    case_bool_decide; cbn; [by subst|]. intros [->|Hi]%elem_of_cons; [left|right; by apply IH].
Qed.

Lemma max_list_le {A} (f : A -> nat) l n : Forall (fun x => (f x <= n)%nat) l -> (max_list (map f l) <= n)%nat.
Proof. induction 1 as [|x l Hx _ IH]; [cbn; lia|]. change (Nat.max (f x) (max_list (map f l)) <= n)%nat. lia. Qed.

Lemma goodMembers_object deep m : goodMembers deep m -> wf (JObject m) /\ (nesting (JObject m) <= S deep)%nat.
Proof.
  intros [Hn Hm]. split.
  - constructor; [done|..]; (eapply Forall_impl; [exact Hm|]); naive_solver.
  - cbn. apply le_n_S, max_list_le. eapply Forall_impl; [exact Hm|]. naive_solver.
Qed.

Lemma decoder_wf fuel :
  (forall deep s v rest, readValue fuel deep s = Some (v, rest) -> wf v /\ (nesting v <= deep)%nat) /\
  (forall deep s l rest, readElements fuel deep s = Some (l, rest) -> Forall (fun v => wf v /\ (nesting v <= deep)%nat) l) /\
  (forall deep m s m' rest, goodMembers deep m -> readMembers fuel deep m s = Some (m', rest) -> goodMembers deep m').
Proof.
  induction fuel as [|fuel (IHv & IHe & IHm)]; [done|]. split_and!.
  - intros deep s v rest. cbn [readValue]. destruct (skipSpace s) as [|a s']; [done|].
    destruct (Ascii.eqb a "n"); [destruct (readLiteral _ _); [|done]; intros [= <- _]; split; [constructor|cbn; lia]|].
    destruct (Ascii.eqb a "t"); [destruct (readLiteral _ _); [|done]; intros [= <- _]; split; [constructor|cbn; lia]|].
    destruct (Ascii.eqb a "f"); [destruct (readLiteral _ _); [|done]; intros [= <- _]; split; [constructor|cbn; lia]|].
    destruct (Ascii.eqb a quote).
    { destruct (readString _ _) as [[r s1]|] eqn:E; [|done]. intros [= <- _]. split; [|cbn; lia]. constructor. by eapply readString_scalar. }
    destruct (Ascii.eqb a "[").
    { destruct deep as [|deep], (skipSpace s') as [|b s'']; try done. destruct (Ascii.eqb b "]"); [intros [= <- _]; split; [by repeat constructor|cbn; lia]|].
      destruct (readElements _ _ _) as [[l s1]|] eqn:E; [|done]. intros [= <- _]. apply IHe in E. split.
      - constructor. eapply Forall_impl; [exact E|]. naive_solver.
      - cbn. apply le_n_S, max_list_le. eapply Forall_impl; [exact E|]. naive_solver. }
    destruct (Ascii.eqb a "{").
    { destruct deep as [|deep], (skipSpace s') as [|b s'']; try done.
      assert (goodMembers deep []) as H0 by (split; constructor).
      destruct (Ascii.eqb b "}"); [intros [= <- _]; by apply goodMembers_object|].
      destruct (readMembers _ _ _ _) as [[m s1]|] eqn:E; [|done]. intros [= <- _]. apply goodMembers_object. by eapply IHm. }
    destruct (readNumber _) as [[[[neg c] x] s1]|] eqn:E; [|done]. intros [= <- _]. split; [|cbn; lia].
    constructor. by eapply readNumber_nonneg.
  - intros deep s l rest. cbn [readElements]. destruct (readValue _ _ _) as [[v s1]|] eqn:E; [|done]. apply IHv in E.
    cbn [mbind option_bind]. destruct (skipSpace s1) as [|b s2]; [done|].
    destruct (Ascii.eqb b "]"); [intros [= <- _]; by constructor|]. destruct (Ascii.eqb b ","); [|done].
    destruct (readElements _ _ _) as [[l' s3]|] eqn:E'; [|done]. intros [= <- _]. constructor; [done|by eapply IHe].
  - intros deep m s m' rest Hm. cbn [readMembers]. destruct (skipSpace s) as [|a s1]; [done|]. destruct (Ascii.eqb a quote); [|done].
    destruct (readString _ _) as [[k s2]|] eqn:Ek; [|done]. apply readString_scalar in Ek. cbn [mbind option_bind].
    destruct (skipSpace s2) as [|b s3]; [done|]. destruct (Ascii.eqb b ":"); [|done].
    destruct (readValue _ _ _) as [[v s4]|] eqn:E; [|done]. apply IHv in E as [Hv Hd]. cbn [mbind option_bind].
    pose proof (setMember_good deep k v m Ek Hv Hd Hm) as Hs. destruct (skipSpace s4) as [|b' s5]; [done|].
    destruct (Ascii.eqb b' "}"); [by intros [= <- _]|]. destruct (Ascii.eqb b' ","); [|done]. by apply IHm.
Qed.

Lemma max_list_elem {A} (f : A -> nat) l x : x ∈ l -> (f x <= max_list (map f l))%nat.
Proof.
  induction l as [|y l IH]; [by intros ?%not_elem_of_nil|]. change (max_list (map f (y :: l))) with (Nat.max (f y) (max_list (map f l))).
  intros [->|Hi]%elem_of_cons; [lia|]. specialize (IH Hi). lia.
Qed.

Lemma valueIn_depth v d : valueIn v = Some d -> (depth d <= nesting v)%nat.
Proof.
  revert d. induction v as [| | | |l IH|m IH] using json_rect_list; intros d; cbn.
  - by intros [= <-].
  - by intros [= <-].
  - destruct (parseFloat neg c x); [|done]. by intros [= <-].
  - by intros [= <-].
  - destruct (traverse valueIn l) as [ds|] eqn:E; [|done]. intros [= <-]. cbn. apply le_n_S, max_list_le, Forall_forall. intros y Hy.
    destruct (traverse_elem _ _ _ _ E Hy) as (x & Hx & Hi). rewrite Forall_forall in IH. etrans; [by apply (IH x)|].
    by apply (max_list_elem nesting).
  - destruct (traverse (second valueIn) m) as [ds|] eqn:E; [|done]. intros [= <-]. cbn. apply le_n_S, max_list_le, Forall_forall.
    intros kd (x & Hi & Hx)%sortMembers_elem%(traverse_member _ _ _ _ E). rewrite Forall_forall in IH. etrans; [by apply (IH (kd.1, x))|].
    by apply (max_list_elem (fun kv => nesting kv.2) m (kd.1, x)).
Qed.

(** ** The canonical form *)

(** The value a text has: of its one document, with no other after it. *)
Definition valueOfText (data : list ascii) : option value :=
  '(v, rest) ← Decode data; if More rest then None else valueIn v.

Lemma canonicalJSON_value data : canonicalJSON data = write <$> valueOfText data.
Proof.
  unfold canonicalJSON, valueOfText. destruct (Decode data) as [[v rest]|]; [|done]. cbn. destruct (More rest); [done|].
  apply writeCanonical_value.
Qed.

Lemma valueOfText_canon data d : valueOfText data = Some d -> canon d /\ (depth d <= maxNesting)%nat.
Proof.
  unfold valueOfText. destruct (Decode data) as [[v rest]|] eqn:E; [|done]. cbn. destruct (More rest); [done|]. intros Hd.
  apply (proj1 (decoder_wf _)) in E as [Hw Hn]. split; [by eapply valueIn_canon|]. apply valueIn_depth in Hd. lia.
Qed.

Lemma write_value d : canon d -> (depth d <= maxNesting)%nat -> valueOfText (write d) = Some d.
Proof.
  intros Hc Hd. destruct (write_read d Hc (2 * length (write d) + 1)%nat maxNesting [] I (le_n _) Hd) as (v & Hv & Hvd).
  rewrite app_nil_r in Hv. unfold valueOfText, Decode. by rewrite Hv.
Qed.

Lemma valueOfText_write data data' d d' : valueOfText data = Some d -> valueOfText data' = Some d' -> write d = write d' -> d = d'.
Proof.
  intros [? ?]%valueOfText_canon [? ?]%valueOfText_canon Hw. apply (inj Some). rewrite <- (write_value d), <- (write_value d') by done.
  by rewrite Hw.
Qed.

(** C25: the canonical form of a document stands for its value: two texts have the same
    canonical form exactly when they hold the same value, as numbers are doubles, strings
    their characters and objects their members by name, whatever the space, the escapes,
    the numbers' spelling and the members' order of either. *)
Theorem canonical_iff_value data data' t : canonicalJSON data = Some t ->
  canonicalJSON data' = Some t <-> valueOfText data' = valueOfText data.
Proof.
  rewrite !canonicalJSON_value. intros Ht. split; [|by intros ->].
  destruct (valueOfText data) as [d|] eqn:E; [|done]. injection Ht as <-.
  destruct (valueOfText data') as [d'|] eqn:E'; [|done]. cbn. intros [= Hw]. f_equal.
  by apply (valueOfText_write data' data).
Qed.

(** The canonical form is a text of the same value and its own canonical form, of
    every document the decoder takes whose numbers are in range. *)
Theorem canonical_fixed data t : canonicalJSON data = Some t ->
  valueOfText t = valueOfText data /\ canonicalJSON t = Some t.
Proof.
  rewrite !canonicalJSON_value. destruct (valueOfText data) as [d|] eqn:E; [|done]. intros [= <-].
  destruct (valueOfText_canon _ _ E). by rewrite write_value.
Qed.

(** ** Witnesses *)

Module Documents.
(** A text written with the apostrophe for the quotation mark. *)
Definition doc (s : string) : list ascii := map (fun a => if Ascii.eqb a "'" then quote else a) (str s).

(** Two spellings of one value, and its canonical form. *)
Definition spelled := doc "{ 'b' : [1.50, 2e3], 'a':{}, 'b':[15e-1,2000,-0,'\u00e9'] }".
Definition respelled := doc "{'a' : {  }, 'b':[1.5, 20E+2, 0.0, '\u00E9']}".
Definition canonical : list ascii := doc "{'a':{},'b':[1.5,2000,0,'" ++ encodeRune 233 ++ doc "']}".

Example canonical_iff_value_witness :
  canonicalJSON spelled = Some canonical /\ canonicalJSON respelled = Some canonical /\ valueOfText respelled = valueOfText spelled.
Proof.
  assert (canonicalJSON spelled = Some canonical) as H by (vm_compute; reflexivity).
  assert (canonicalJSON respelled = Some canonical) as H' by (vm_compute; reflexivity).
  split_and!; [exact H|exact H'|]. apply (canonical_iff_value spelled respelled canonical H), H'.
Defined.

Example canonical_fixed_witness : canonicalJSON spelled = Some canonical /\ canonicalJSON canonical = Some canonical.
Proof.
  assert (canonicalJSON spelled = Some canonical) as H by (vm_compute; reflexivity).
  split; [exact H|]. exact (proj2 (canonical_fixed spelled canonical H)).
Defined.

(** What follows a document is an error, unless it begins with a closing bracket. *)
Example trailing_bracket_taken :
  canonicalJSON (doc "{'a':1} {'b':2}") = None /\ canonicalJSON (doc "{'a':1}]{'b':2}") = Some (doc "{'a':1}").
Proof. vm_compute. by split. Qed.

(** A number out of range is an error. *)
Example overflow_refused : canonicalJSON (doc "[1e309]") = None.
Proof. vm_compute. reflexivity. Qed.
End Documents.
