(* ===== verification/Hash.v ===== *)
(** * Hash: the hash of a request, from its document or member by member
    ([session/hash.go]; [sameJSON], [equalJSON] and [canonicalValue] of
    [session/session.go]).

    The hash of a request's input is computed of the items' canonical forms as they were
    kept, written where the input's member falls among the others: it is the hash of the
    whole request's canonical form. SHA-256 and the encoding of a request and of an item
    are the environment's. *)

From S2P Require Export Types Readback.
From S2P Require Import Toy.

(** ** The encoding of requests and items, and the digest *)

Class Encoding := {
  marshalRequest : Request -> option (list ascii);
  marshalItem : item -> option (list ascii);
  sha256 : list ascii -> list ascii;
}.

(** The document a text is. *)
Definition document (data : list ascii) : option json := '(v, rest) ← Decode data; if More rest then None else Some v.

Definition runesOf (s : string) : runes := map val (list_ascii_of_string s).
Definition input : runes := runesOf "input".

Section Hashing.
Context `{Enc : !Encoding}.

(** ** Operations *)

Definition HashPrefix : string := "sha256:".
Definition hex (s : list ascii) : string :=
  string_of_list_ascii (s ≫= fun a => [hexDigit (val a / 16); hexDigit (val a mod 16)]).

Definition HashJSON (data : list ascii) : option string :=
  c ← canonicalJSON data; Some (HashPrefix ++ hex (sha256 c))%string.

Definition RequestHash (req : Request) : option string := data ← marshalRequest req; HashJSON data.

(** [canonicalValue] of an item. *)
Definition canonicalItem (it : item) : option (list ascii) := data ← marshalItem it; canonicalJSON data.

(** What has been written to the digest, and what is buffered. *)
Record writing := { wr_hashed : list ascii; wr_buf : list ascii }.
Definition bufWrite (t : list ascii) (w : writing) : writing := {| wr_hashed := wr_hashed w; wr_buf := wr_buf w ++ t |}.
Definition hashWrite (t : list ascii) (w : writing) : writing := {| wr_hashed := wr_hashed w ++ t; wr_buf := wr_buf w |}.
Definition bufFlush (w : writing) : writing := {| wr_hashed := wr_hashed w ++ wr_buf w; wr_buf := [] |}.

(** The items' canonical forms, a comma before each but the first. *)
Fixpoint writeItems (j : nat) (items : list (list ascii)) (w : writing) : writing :=
  match items with
  | [] => w
  | it :: items =>
      let w := if (0 <? j)%nat then hashWrite [","%char] w else w in
      writeItems (S j) items (hashWrite it w)
  end.

(** The members in the order of [keys]. *)
Fixpoint writeMembers (m : members) (items : list (list ascii)) (i : nat) (keys : list runes) (w : writing) : option writing :=
  match keys with
  | [] => Some w
  | k :: keys =>
      let w := if (0 <? i)%nat then bufWrite [","%char] w else w in
      let w := bufWrite [":"%char] (bufWrite (writeString k) w) in
      if bool_decide (k = input)
      then
        let w := bufFlush (bufWrite ["["%char] w) in
        writeMembers m items (S i) keys (bufWrite ["]"%char] (writeItems 0 items w))
      else
        t ← writeCanonical (default JNull (member k m));
        writeMembers m items (S i) keys (bufWrite t w)
  end.

(** [requestHashOf]. A request that is not an object is an error of the decoder's. *)
Definition requestHashOf (req : Request) (items : list (list ascii)) : option string :=
  let req := req <| rq_Input := [] |> in
  if bool_decide (items = []) then RequestHash req
  else
    data ← marshalRequest req;
    '(v, _) ← Decode data;
    m ← match v with JObject m => Some m | _ => None end;
    let m := setMember input JNull m in
    w ← writeMembers m items 0 (sortedKeys m) (bufWrite ["{"%char] {| wr_hashed := []; wr_buf := [] |});
    let w := bufFlush (bufWrite ["}"%char] w) in
    Some (HashPrefix ++ hex (sha256 (wr_hashed w)))%string.

(** [sameJSON] of two argument texts, the empty one standing for the empty object. *)
Definition sameJSON (a b : string) : bool :=
  let text s := if bool_decide (s = "") then str "{}" else str s in
  match canonicalJSON (text a), canonicalJSON (text b) with
  | Some ca, Some cb => bool_decide (ca = cb)
  | _, _ => bool_decide (text a = text b)
  end.

(** What encoding a structure comes to: a request is an object, and its input the array of
    its items, each as it is encoded alone. *)
Definition encodedAsObject (r : Request) : Prop :=
  exists data data' m m' vs,
    marshalRequest (r <| rq_Input := [] |>) = Some data /\ document data = Some (JObject m) /\
    marshalRequest r = Some data' /\ document data' = Some (JObject m') /\
    Forall2 (fun it v => (d ← marshalItem it; document d) = Some v) (rq_Input r) vs /\
    m' ≡ₚ setMember input (JArray vs) m.

(** ** Objects by their keys *)

(** The text of a member of [m]. *)
Definition memberText (m : members) (k : runes) : option (list ascii) :=
  t ← writeCanonical (default JNull (member k m)); Some (writeString k ++ [":"%char] ++ t).

Lemma member_traverse {A B} (f : A -> option B) m ts k : traverse (second f) m = Some ts -> member k ts = (v ← member k m; f v).
Proof.
  rewrite traverse_Some. induction 1 as [|[k' v] [k'' t] m ts Hk _ IH]; [done|]. unfold second in Hk. cbn in *.
  destruct (f v) eqn:E; [|done]. injection Hk as -> ->. case_bool_decide; cbn; congruence.
Qed.
Lemma traverse_cons {A B} (f : A -> option B) x l : traverse f (x :: l) = y ← f x; ys ← traverse f l; Some (y :: ys).
Proof. done. Qed.
Lemma traverse_None {A B} (f : A -> option B) l : traverse f l = None <-> exists x, x ∈ l /\ f x = None.
Proof.
  induction l as [|x l IH]; cbn; [split; [done|by intros (? & ?%not_elem_of_nil & _)]|].
  destruct (f x) eqn:E; cbn.
  - destruct (traverse f l); cbn; split; try done.
    + intros (y & [->|Hy]%elem_of_cons & Hn); [congruence|]. destruct IH as [_ IH]. by discriminate IH; eauto.
    + intros _. destruct IH as [IH _]. destruct IH as (y & Hy & Hn); [done|]. exists y. split; [by right|done].
  - split; [|done]. intros _. exists x. split; [left|done].
Qed.

Lemma writeCanonical_keys m : NoDup (map fst m) ->
  writeCanonical (JObject m) = ts ← traverse (memberText m) (sortedKeys m); Some (["{"%char] ++ commas ts ++ ["}"%char]).
Proof.
  intros Hd. cbn [writeCanonical]. destruct (traverse (second writeCanonical) m) as [ts|] eqn:E; cbn.
  - assert (traverse (memberText m) (sortedKeys m) = Some (map (writeMember ts) (sortedKeys ts))) as ->; [|done].
    assert (sortedKeys ts = sortedKeys m) as -> by (unfold sortedKeys; by rewrite (traverse_names _ _ _ E)).
    apply traverse_Some. pose proof (sortedKeys_perm m) as Hp. assert (Forall (fun k => k ∈ map fst m) (sortedKeys m)) as Hk.
    { rewrite Forall_forall. intros k Hk. by rewrite <- Hp. }
    clear Hp. induction Hk as [|k ks Hk _ IH]; constructor; [|done]. unfold memberText, writeMember.
    rewrite (member_traverse _ _ _ _ E). apply member_is_Some in Hk as [v Hv]. rewrite Hv. cbn.
    assert (is_Some (writeCanonical v)) as [t Ht]; [|by rewrite Ht].
    pose proof (member_traverse _ _ _ k E) as Hm. rewrite Hv in Hm. cbn in Hm. rewrite <- Hm. apply member_is_Some.
    rewrite (traverse_names _ _ _ E). apply member_is_Some. by eexists.
  - assert (traverse (memberText m) (sortedKeys m) = None) as ->; [|done]. apply traverse_None in E as ([k v] & Hi & Hn).
    unfold second in Hn. cbn in Hn. destruct (writeCanonical v) eqn:Hv; [done|]. apply traverse_None. exists k. split.
    + rewrite sortedKeys_perm. by apply (list_elem_of_fmap_2 fst) in Hi.
    + unfold memberText. rewrite (member_elem k v m) by done. cbn. by rewrite Hv.
Qed.

(** ** The hash written member by member *)

(** What is hashed once the buffer is flushed. *)
Definition written (w : writing) : list ascii := wr_hashed w ++ wr_buf w.
Lemma written_buf t w : written (bufWrite t w) = written w ++ t.
Proof. unfold written. cbn. by rewrite app_assoc. Qed.
Lemma written_hash t w : wr_buf w = [] -> written (hashWrite t w) = written w ++ t /\ wr_buf (hashWrite t w) = [].
Proof. unfold written. cbn. intros ->. by rewrite !app_nil_r. Qed.
Lemma written_flush w : written (bufFlush w) = written w /\ wr_buf (bufFlush w) = [].
Proof. unfold written. cbn. by rewrite app_nil_r. Qed.

(** The texts of a list, a comma before each but the first of all. *)
Fixpoint commasFrom (i : nat) (ts : list (list ascii)) : list ascii :=
  match ts with [] => [] | t :: ts => (if (0 <? i)%nat then [","%char] else []) ++ t ++ commasFrom (S i) ts end.
Lemma commasFrom_S i ts : commasFrom (S i) ts = match ts with [] => [] | _ => ","%char :: commas ts end.
Proof.
  revert i. induction ts as [|t ts IH]; intros i; [done|]. cbn -[commas]. rewrite IH.
  destruct ts; [cbn; by rewrite app_nil_r|]. by rewrite (commas_cons t).
Qed.
Lemma commasFrom_0 ts : commasFrom 0 ts = commas ts.
Proof. destruct ts as [|t ts]; [done|]. cbn -[commas]. rewrite commasFrom_S. destruct ts; [cbn; by rewrite app_nil_r|]. by rewrite (commas_cons t). Qed.

Lemma written_items items j w : wr_buf w = [] ->
  written (writeItems j items w) = written w ++ commasFrom j items /\ wr_buf (writeItems j items w) = [].
Proof.
  revert j w. induction items as [|it items IH]; intros j w Hw; [by rewrite app_nil_r|]. cbn [writeItems commasFrom].
  destruct (written_hash [","%char] w Hw) as [H1 H2].
  destruct (0 <? j)%nat.
  - destruct (written_hash it _ H2) as [H3 H4]. destruct (IH (S j) _ H4) as [-> ->]. split; [|done].
    rewrite H3, H1. by rewrite <- !app_assoc.
  - destruct (written_hash it _ Hw) as [H3 H4]. destruct (IH (S j) _ H4) as [-> ->]. split; [|done].
    rewrite H3. by rewrite <- !app_assoc.
Qed.

(** A member's text, the input's written from its items. *)
Definition memberWith (m : members) (items : list (list ascii)) (k : runes) : option (list ascii) :=
  if bool_decide (k = input) then Some (writeString k ++ [":"%char] ++ writeArray items) else memberText m k.

Lemma written_members m items keys i w :
  match writeMembers m items i keys w with
  | Some w' => exists ts, traverse (memberWith m items) keys = Some ts /\ written w' = written w ++ commasFrom i ts
  | None => traverse (memberWith m items) keys = None
  end.
Proof.
  revert i w. induction keys as [|k keys IH]; intros i w; [exists []; by rewrite app_nil_r|].
  rewrite traverse_cons. cbn [writeMembers].
  set (w1 := bufWrite [":"%char] _).
  assert (written w1 = written w ++ (if (0 <? i)%nat then [","%char] else []) ++ writeString k ++ [":"%char]) as Hw1.
  { unfold w1. destruct (0 <? i)%nat; rewrite !written_buf, <- ?app_assoc; done. }
  case_bool_decide as Hk.
  - assert (memberWith m items k = Some (writeString k ++ [":"%char] ++ writeArray items)) as ->
      by (unfold memberWith; by rewrite bool_decide_true).
    destruct (written_flush (bufWrite ["["%char] w1)) as [Hf Hb]. destruct (written_items items 0 _ Hb) as [Hi _].
    rewrite commasFrom_0 in Hi.
    specialize (IH (S i) (bufWrite ["]"%char] (writeItems 0 items (bufFlush (bufWrite ["["%char] w1))))).
    destruct (writeMembers _ _ _ _ _) as [w'|]; [|cbn; by rewrite IH]. destruct IH as (ts & -> & ->). eexists. split; [done|].
    rewrite written_buf, Hi, Hf, written_buf, Hw1. cbn [commasFrom]. unfold writeArray. by rewrite <- !app_assoc.
  - assert (memberWith m items k = memberText m k) as -> by (unfold memberWith; by rewrite bool_decide_false).
    unfold memberText at 1 2. destruct (writeCanonical _) as [t|]; [|by cbn]. cbn [mbind option_bind].
    specialize (IH (S i) (bufWrite t w1)). destruct (writeMembers _ _ _ _ _) as [w'|]; [|by rewrite IH].
    destruct IH as (ts & -> & ->). eexists. split; [done|]. rewrite written_buf, Hw1. cbn [commasFrom]. by rewrite <- !app_assoc.
Qed.

Lemma setMember_names {A} k (v v' : A) m : map fst (setMember k v m) = map fst (setMember k v' m).
Proof. induction m as [|[k' x] m IH]; [done|]. cbn. case_bool_decide; cbn; [done|]. by rewrite IH. Qed.
Lemma member_setMember {A} k (v : A) k' m : member k' (setMember k v m) = if bool_decide (k = k') then Some v else member k' m.
Proof.
  induction m as [|[k'' x] m IH]; cbn; [done|]. repeat (case_bool_decide; cbn); subst; try done; rewrite ?IH;
    by rewrite ?bool_decide_true, ?bool_decide_false by done.
Qed.

(** Objects of the same members are written alike. *)
Lemma writeCanonical_perm m m' : wf (JObject m) -> m ≡ₚ m' -> writeCanonical (JObject m) = writeCanonical (JObject m').
Proof.
  intros Hw Hp. inversion Hw as [| | | | |? Hd Hs Hv]; subst.
  rewrite !writeCanonical_keys by (try done; by rewrite <- Hp).
  assert (sortedKeys m = sortedKeys m') as <-.
  { apply sorted_unique; [|apply sortedKeys_sorted..|by rewrite !sortedKeys_perm, Hp]. rewrite sortedKeys_perm, Forall_map. done. }
  assert (forall k, member k m = member k m') as He.
  { intros k. destruct (member k m) as [v|] eqn:E.
    - symmetry. apply member_elem; [by rewrite <- Hp|]. rewrite <- Hp. by apply elem_member.
    - destruct (member k m') as [v|] eqn:E'; [|done]. apply elem_member in E'. rewrite <- Hp in E'.
      apply member_elem in E'; [congruence|done]. }
  assert (forall ks, traverse (memberText m) ks = traverse (memberText m') ks) as ->; [|done].
  intros ks. induction ks as [|k ks IH]; [done|]. rewrite !traverse_cons, IH. unfold memberText. by rewrite He.
Qed.

Lemma traverse_ext {A B} (f g : A -> option B) l : (forall x, f x = g x) -> traverse f l = traverse g l.
Proof. intros H. induction l as [|x l IH]; [done|]. by rewrite !traverse_cons, H, IH. Qed.

Lemma document_wf data v : document data = Some v -> wf v.
Proof.
  unfold document. destruct (Decode data) as [[u rest]|] eqn:E; [|done]. cbn. destruct (More rest); [done|]. intros [= <-].
  by apply (proj1 (decoder_wf _)) in E as [? _].
Qed.

Lemma items_written its vs items :
  Forall2 (fun it v => (d ← marshalItem it; document d) = Some v) its vs ->
  Forall2 (fun it c => canonicalItem it = Some c) its items -> traverse writeCanonical vs = Some items.
Proof.
  intros H. revert items. induction H as [|it v its vs Hv _ IH]; intros items Hi; inversion Hi as [|? c ? items' Hc Hi']; subst; [done|].
  rewrite traverse_cons, (IH items') by done. unfold canonicalItem, canonicalJSON, document in *.
  destruct (marshalItem it) as [d|]; [|done]. cbn [mbind option_bind] in Hv, Hc. destruct (Decode d) as [[u rest]|]; [|done]. cbn [mbind option_bind] in Hv, Hc.
  destruct (More rest); [done|]. injection Hv as ->. by rewrite Hc.
Qed.

(** C26: the hash written member by member is the hash of the request: of any request with
    an input that is encoded as an object, the hash computed from the items' canonical
    forms as they were kept is the hash of its whole encoding's canonical form, an error
    when that is one. *)
Theorem requestHashOf_RequestHash req items : encodedAsObject req -> rq_Input req <> [] ->
  Forall2 (fun it c => canonicalItem it = Some c) (rq_Input req) items ->
  requestHashOf req items = RequestHash req.
Proof.
  intros (data & data' & m & m' & vs & Hd & Hm & Hd' & Hm' & Hvs & Hp) Hn Hi.
  unfold requestHashOf. rewrite bool_decide_false by (intros ->; by inversion Hi).
  rewrite Hd. cbn [mbind option_bind]. pose proof (document_wf _ _ Hm') as Hw.
  unfold document in Hm. destruct (Decode data) as [[u rest]|]; [|done]. cbn in Hm. destruct (More rest); [done|]. injection Hm as ->.
  cbn [mbind option_bind]. unfold RequestHash. rewrite Hd'. cbn [mbind option_bind]. unfold HashJSON, canonicalJSON.
  unfold document in Hm'. destruct (Decode data') as [[u' rest']|]; [|done]. cbn in Hm'. destruct (More rest') eqn:Em; [done|]. injection Hm' as ->.
  cbn [mbind option_bind]. rewrite Em, (writeCanonical_perm m' _ Hw Hp).
  assert (NoDup (map fst (setMember input (JArray vs) m))) as Hnd by (inversion Hw; subst; by rewrite <- Hp).
  rewrite writeCanonical_keys by done.
  assert (sortedKeys (setMember input JNull m) = sortedKeys (setMember input (JArray vs) m)) as ->
    by (unfold sortedKeys; by rewrite (setMember_names _ _ (JArray vs))).
  rewrite (traverse_ext (memberText _) (memberWith (setMember input JNull m) items)).
  2: { intros k. unfold memberWith, memberText. rewrite !member_setMember. case_bool_decide as Hk.
       - subst. rewrite bool_decide_true by done. cbn [default from_option writeCanonical id]. by rewrite (items_written _ _ _ Hvs Hi).
       - by rewrite bool_decide_false. }
  pose proof (written_members (setMember input JNull m) items (sortedKeys (setMember input (JArray vs) m)) 0
    (bufWrite ["{"%char] {| wr_hashed := []; wr_buf := [] |})) as Hs.
  destruct (writeMembers _ _ _ _ _) as [w|]; [|by rewrite Hs]. destruct Hs as (ts & -> & Hs).
  cbn [mbind option_bind]. do 3 f_equal. rewrite commasFrom_0 in Hs. cbn. fold (written w).
  rewrite app_assoc. fold (written w). by rewrite Hs, <- !app_assoc.
Qed.
End Hashing.

(** Two argument texts are the same exactly when they are one text, or documents of
    one value, the empty text standing for the empty object: however a store spaces them,
    orders their members, writes their numbers or escapes their strings. *)
Theorem sameJSON_iff a b :
  let text s := if bool_decide (s = "") then str "{}" else str s in
  sameJSON a b = true <->
    text a = text b \/ exists d, valueOfText (text a) = Some d /\ valueOfText (text b) = Some d.
Proof.
  cbv zeta. unfold sameJSON. cbv zeta. generalize (if bool_decide (a = "") then str "{}" else str a) as ta.
  generalize (if bool_decide (b = "") then str "{}" else str b) as tb. intros tb ta. rewrite !canonicalJSON_value.
  destruct (valueOfText ta) as [d|] eqn:Ea, (valueOfText tb) as [d'|] eqn:Eb; cbn; rewrite bool_decide_eq_true.
  2-4: split; [by left|intros [?|(? & ? & ?)]; congruence].
  split.
  - intros Hw. right. exists d. split; [done|]. f_equal. symmetry. by apply (valueOfText_write ta tb).
  - intros [->|(d'' & ? & ?)]; congruence.
Qed.

(** ** Witness *)

Module HashToy.
Import Documents Toy.
(** Items are encoded as their names, a request by its model and its items. *)
#[export] Instance encoding : Encoding := {|
  marshalItem it := Some (doc "{'type':'message', 'n':1.0}");
  marshalRequest r := Some (doc "{'model':'" ++ str (rq_Model r) ++ doc "'" ++
    (if bool_decide (rq_Input r = []) then []
     else doc ", 'input':[" ++ commas (map (fun _ => doc "{'type':'message', 'n':1.0}") (rq_Input r)) ++ doc "]") ++
    doc ", 'a':{}}");
  sha256 s := [byte (Z.of_nat (length s))];
|}.

Definition req : Request := request <| rq_Input := [message "a"; message "b"] |>.
Definition kept : list (list ascii) := [doc "{'n':1,'type':'message'}"; doc "{'n':1,'type':'message'}"].
Definition dataOf (r : Request) : list ascii := default [] (marshalRequest r).
Definition membersOf (data : list ascii) : members := match document data with Some (JObject m) => m | _ => [] end.
Definition itemOf (it : item) : json := default JNull (d ← marshalItem it; document d).

(** The members' order is the canonical one, and the hash the whole text's. *)
Example requestHashOf_witness :
  encodedAsObject req /\ canonicalJSON (dataOf req) =
    Some (doc "{'a':{},'input':[{'n':1,'type':'message'},{'n':1,'type':'message'}],'model':'model'}") /\
  requestHashOf req kept = RequestHash req /\ RequestHash req = Some "sha256:54"%string.
Proof.
  assert (encodedAsObject req) as He.
  { exists (dataOf (req <| rq_Input := [] |>)), (dataOf req), (membersOf (dataOf (req <| rq_Input := [] |>))), (membersOf (dataOf req)),
      (map itemOf (rq_Input req)).
    split; [reflexivity|]. split; [vm_compute; reflexivity|]. split; [reflexivity|]. split; [vm_compute; reflexivity|].
    split; [repeat constructor|]. vm_compute. constructor. constructor. }
  split; [exact He|]. split; [vm_compute; reflexivity|]. split; [|vm_compute; reflexivity].
  apply (requestHashOf_RequestHash req kept He); [discriminate|]. repeat constructor.
Defined.
End HashToy.
