(* ===== verification/Entries.v ===== *)
(** * Entries: what a session record holds ([session/session.go])

    The entries the recorder appends, as records of the members it sets or reads, and the
    forms a trigger and a queued input's marks have in them. The record's format, its
    store and the JSON of its members belong to the agentsession library: what the
    recorder asks of them is [Format]. *)

From S2P Require Export Types.

(** ** Triggers *)

(** [agentsession.Trigger]: its members of its own as JSON. *)
Record sTrigger := { tg_Kind : string; tg_Ref : string; tg_Source : string; tg_Unknown : gmap string string }.
#[export] Instance sTrigger_eq_dec : EqDecision sTrigger.
Proof. solve_decision. Defined.

(** [sessionTrigger]: nothing for a trigger that names nothing. *)
Definition sessionTrigger (t : Trigger) : option sTrigger + error :=
  if TriggerIsZero t then inl None
  else match Validate t with
       | Some e => inr e
       | None => inl (Some {| tg_Kind := Kind t; tg_Ref := Ref t; tg_Source := Items.Source t; tg_Unknown := omap id (Extra t) |})
       end.

(** [agentTrigger]. *)
Definition agentTrigger (t : sTrigger) : Trigger :=
  {| Kind := tg_Kind t; Ref := tg_Ref t; Items.Source := tg_Source t; Extra := Some <$> tg_Unknown t |}.

(** [inputTrigger]: the person's kind is not written for what the person did not type. *)
Definition inputTrigger (t : option sTrigger) (prov : option Provenance) (copied hidden : bool) : option sTrigger :=
  match t with
  | None => None
  | Some t =>
      if negb (bool_decide (tg_Kind t = TriggerHuman)) then Some t
      else if negb copied && negb hidden && bool_decide (from_option Layers [] prov = []) then Some t
      else
        let out := {| tg_Kind := ""; tg_Ref := tg_Ref t; tg_Source := tg_Source t; tg_Unknown := tg_Unknown t |} in
        if bool_decide (tg_Ref out = "") && bool_decide (tg_Source out = "") && bool_decide (tg_Unknown out = ∅) then None
        else Some out
  end.

(** [queuedTrigger]. *)
Definition queuedTrigger (q : Queued) : option sTrigger + error :=
  match sessionTrigger (qd_Trigger q) with
  | inl t => inl (inputTrigger t (qd_Provenance q) (qd_Copied q) (qd_Hidden q))
  | inr e => inr e
  end.

(** [itemTrigger]. *)
Definition itemTrigger (i : input) (trigger : option sTrigger) : option sTrigger + error :=
  let prov := ProvenanceOf i in
  let t := match prov with
           | Some p => if TriggerIsZero (PSource p) then inl trigger else sessionTrigger (PSource p)
           | None => inl trigger
           end in
  match t with
  | inl t => inl (inputTrigger t prov (IsCopied i) (Unhide i).2)
  | inr e => inr e
  end.

(** ** The members of entries *)

Inductive Verdict := VerdictProceed | VerdictHold | VerdictReject | VerdictAnswer.
#[export] Instance Verdict_eq_dec : EqDecision Verdict.
Proof. solve_decision. Defined.

(** A decision's members of its own are by their values: [SubjectMember], [HeldMember],
    [NoteMember] and [DeclineTextMember]. *)
Record DecisionEntry := { de_CallID : string; de_Target : string; de_Verdict : Verdict; de_By : string; de_Reason : string;
  de_Args : raw; de_Withdrawn : bool; de_Subject : string; de_Held : bool; de_Note : string; de_DeclineText : string }.
#[export] Instance eta_DecisionEntry : Eta DecisionEntry := fun r =>
  Build_DecisionEntry (de_CallID r) (de_Target r) (de_Verdict r) (de_By r) (de_Reason r) (de_Args r) (de_Withdrawn r)
    (de_Subject r) (de_Held r) (de_Note r) (de_DeclineText r).

Record DispatchEntry := { di_CallID : string; di_Target : string; di_IdempotencyKey : string }.
Record ResultEntry := { rt_CallID : string; rt_Target : string; rt_Item : FunctionCallOutput; rt_Failed : bool }.

Record LayerRef := { lr_ID : string; lr_Source : string }.
#[export] Instance LayerRef_eq_dec : EqDecision LayerRef.
Proof. solve_decision. Defined.
Record CopiedFrom := { cf_Session : string; cf_Entry : string }.
#[export] Instance CopiedFrom_eq_dec : EqDecision CopiedFrom.
Proof. solve_decision. Defined.

(** A trust, by what it reads. *)
Abbreviation sTrust := (list string).

Record ItemEntry := { it_Item : item; it_ResponseID : string; it_Failed : bool; it_CopiedFrom : option CopiedFrom;
  it_Trust : option sTrust; it_InstructionsPart : option LayerRef; it_InstructionsLayers : list LayerRef;
  it_Visible : option bool; it_ModelCallID : string; it_QueuedFrom : string; it_Source : option sTrigger; it_FromLink : string }.
#[export] Instance eta_ItemEntry : Eta ItemEntry := fun r =>
  Build_ItemEntry (it_Item r) (it_ResponseID r) (it_Failed r) (it_CopiedFrom r) (it_Trust r) (it_InstructionsPart r)
    (it_InstructionsLayers r) (it_Visible r) (it_ModelCallID r) (it_QueuedFrom r) (it_Source r) (it_FromLink r).

(** A custom entry; [cu_ResponseID] is [ResponseIDMember], none on an entry without it. *)
Record CustomEntry := { cu_NS : string; cu_Data : string; cu_CallID : string; cu_ResponseID : option string }.

Record QueuedEntry := { qe_Item : item; qe_Mode : QueueMode; qe_Deliver : bool; qe_Trigger : option sTrigger;
  qe_Visible : option bool; qe_Trust : option sTrust; qe_InstructionsPart : option LayerRef;
  qe_InstructionsLayers : option (list LayerRef); qe_Unknown : gmap string string }.
#[export] Instance eta_QueuedEntry : Eta QueuedEntry := fun r =>
  Build_QueuedEntry (qe_Item r) (qe_Mode r) (qe_Deliver r) (qe_Trigger r) (qe_Visible r) (qe_Trust r) (qe_InstructionsPart r)
    (qe_InstructionsLayers r) (qe_Unknown r).

Inductive Rel := RelSubsession | RelPeer | RelOther (s : string).
#[export] Instance Rel_eq_dec : EqDecision Rel.
Proof. solve_decision. Defined.
Record LinkEntry := { li_ID : string; li_Rel : Rel; li_Session : string; li_CallID : string; li_URL : string; li_Task : string;
  li_Context : string; li_Cancel : string; li_Target : string; li_Unknown : gmap string string }.
#[export] Instance eta_LinkEntry : Eta LinkEntry := fun r =>
  Build_LinkEntry (li_ID r) (li_Rel r) (li_Session r) (li_CallID r) (li_URL r) (li_Task r) (li_Context r) (li_Cancel r)
    (li_Target r) (li_Unknown r).

(** The reasons a run ends with, in the format's terms. *)
Inductive EndReason := EndDone | EndStopped | EndInputRequired | EndInterrupted | EndAborted | EndError.
#[export] Instance EndReason_eq_dec : EqDecision EndReason.
Proof. solve_decision. Defined.

Record RunStartEntry := { rs_ID : string; rs_From : Source; rs_Text : string; rs_By : option sTrigger; rs_ConfigBase : option string }.
Record RunEndEntry := { rn_ID : string; rn_Reason : EndReason; rn_Ref : string; rn_Open : list string }.
Record ResponseEntry := { ro_ID : string; ro_Status : ResponseStatus; ro_Usage : option Usage; ro_Incomplete : string;
  ro_Error : option error; ro_Hash : string; ro_LatencyMS : Z; ro_Attempts : Z }.

(** An entry; one of a kind the recorder's ledger does not read is by its kind. *)
Inductive entry :=
| EItem (e : ItemEntry) | ECustom (e : CustomEntry) | EQueued (e : QueuedEntry)
| EDecision (e : DecisionEntry) | EDispatch (e : DispatchEntry) | EResult (e : ResultEntry) | ELink (e : LinkEntry)
| ERunStart (e : RunStartEntry) | ERunEnd (e : RunEndEntry) | EResponse (e : ResponseEntry) | EOther (kind : string).

(** ** A queued input's marks *)

Definition VisibleMember : string := "agentturn:visible".
Definition TrustMember : string := "agentturn:trust".
Definition InstructionsPartMember : string := "agentturn:instructions_part".

(** What reading an entry's members asks of the library and of the JSON decoder: the
    layers an entry carries in either member, and the forms members may have. *)
Class Format := {
  queuedLayers : QueuedEntry -> option (list LayerRef);
  unmarshalBool : string -> option bool;
  unmarshalTrust : string -> option sTrust;
  unmarshalLayer : string -> option LayerRef;
  unmarshalLayers : string -> option (option (list LayerRef));
}.
(** [QueuedEntry.Layers]: the single layer, or the list, nil when the entry has neither. *)
Class FormatLaws `{Format} := {
  queuedLayers_spec : forall q,
    queuedLayers q = match qe_InstructionsPart q with Some l => Some [l] | None => qe_InstructionsLayers q end;
}.

Section Marks.
Context `{Format}.

Definition layerRef (l : Layer) : LayerRef := {| lr_ID := LayerID l; lr_Source := LayerSource l |}.
Definition layerOf (l : LayerRef) : Layer := {| LayerID := lr_ID l; LayerSource := lr_Source l |}.

(** One layer alone, or the list of several. *)
Definition withLayers (q : QueuedEntry) (layers : list LayerRef) : QueuedEntry :=
  match layers with [l] => q <| qe_InstructionsPart := Some l |> | _ => q <| qe_InstructionsLayers := Some layers |> end.

(** [setQueuedMarks]. *)
Definition setQueuedMarks (q : QueuedEntry) (hidden : bool) (prov : option Provenance) : QueuedEntry :=
  let q := if hidden then q <| qe_Visible := Some false |> else q in
  match prov with
  | None => q
  | Some prov =>
      let q := match Trust prov with Some reads => q <| qe_Trust := Some reads |> | None => q end in
      if isMessage (qe_Item q) && negb (bool_decide (Layers prov = [])) then withLayers q (map layerRef (Layers prov)) else q
  end.

(** [legacyVisible], [legacyTrust], [legacyLayers]. *)
Definition legacyVisible (q : QueuedEntry) : option bool := raw ← qe_Unknown q !! VisibleMember; unmarshalBool raw.
Definition legacyTrust (q : QueuedEntry) : option sTrust := raw ← qe_Unknown q !! TrustMember; unmarshalTrust raw.
Definition legacyLayers (q : QueuedEntry) : option (list LayerRef) :=
  raw ← qe_Unknown q !! InstructionsPartMember;
  match unmarshalLayer raw with
  | Some one => if negb (bool_decide (lr_Source one = "")) then Some [one] else default None (unmarshalLayers raw)
  | None => default None (unmarshalLayers raw)
  end.

(** [queuedMarks]. *)
Definition queuedMarks (q : QueuedEntry) : bool * option Provenance :=
  let hidden := match qe_Visible q with
                | Some v => negb v
                | None => match legacyVisible q with Some v => negb v | None => false end
                end in
  let t := match qe_Trust q with Some t => Some t | None => legacyTrust q end in
  let layers := match queuedLayers q with Some l => Some l | None => legacyLayers q end in
  let p := {| Layers := map layerOf (default [] layers); PSource := noTrigger; Trust := t |} in
  if bool_decide (Trust p = None) && bool_decide (Layers p = []) then (hidden, None) else (hidden, Some p).

(** [upgradeQueuedMarks]. *)
Definition upgradeVisible (q : QueuedEntry) : QueuedEntry :=
  match legacyVisible q with
  | Some v =>
      let q := match qe_Visible q with None => q <| qe_Visible := Some v |> | Some _ => q end in
      q <| qe_Unknown ::= delete VisibleMember |>
  | None => q
  end.
Definition upgradeTrust (q : QueuedEntry) : QueuedEntry :=
  match legacyTrust q with
  | Some t =>
      let q := match qe_Trust q with None => q <| qe_Trust := Some t |> | Some _ => q end in
      q <| qe_Unknown ::= delete TrustMember |>
  | None => q
  end.
Definition upgradeLayers (q : QueuedEntry) : QueuedEntry :=
  if isMessage (qe_Item q)
  then match legacyLayers q with
       | Some layers =>
           let q := match queuedLayers q with None => withLayers q layers | Some _ => q end in
           q <| qe_Unknown ::= delete InstructionsPartMember |>
       | None => q
       end
  else q.
Definition upgradeQueuedMarks (q : QueuedEntry) : QueuedEntry := upgradeLayers (upgradeTrust (upgradeVisible q)).
End Marks.

(** ** Round trips *)

(** A trigger the recorder takes is read back as it was, its members as their JSON. *)
Lemma firstExtraError_none l : firstExtraError l = None -> Forall (fun nv => is_Some nv.2) l.
Proof.
  induction l as [|[name v] l IH]; [constructor|]. cbn. unfold extraError at 1. intros He.
  destruct (_ || _); [done|]. destruct v; [|done]. constructor; [by eexists|by apply IH].
Qed.

Lemma sessionTrigger_back t :
  match sessionTrigger t with
  | inl None => t = noTrigger
  | inl (Some s) => t <> noTrigger /\ agentTrigger s = t
  | inr _ => is_Some (Validate t)
  end.
Proof.
  unfold sessionTrigger. destruct (TriggerIsZero t) eqn:Ez.
  - unfold TriggerIsZero in Ez. rewrite !andb_true_iff, !bool_decide_eq_true in Ez. destruct Ez as [[[Hk Hr] Hs] Hx].
    apply map_to_list_empty_iff in Hx. destruct t. cbn in *. by subst.
  - destruct (Validate t) as [e|] eqn:Ev; [by eexists|]. split; [by intros ->|].
    destruct t as [k r s x]. unfold agentTrigger. cbn. f_equal. apply map_eq. intros name. rewrite lookup_fmap, lookup_omap.
    destruct (x !! name) as [v|] eqn:Ex; [|done]. unfold Validate in Ev. cbn in Ev. apply firstExtraError_none in Ev.
    rewrite Forall_forall in Ev. apply elem_of_map_to_list in Ex. destruct (Ev _ Ex) as [w Hw]. cbn in Hw. by subst.
Qed.

(** A trigger survives the record: one the recorder writes names something and is read
    back with its kind, its ref, its source and every member of its own, and one it does
    not write names nothing or cannot be written. *)
Theorem sessionTrigger_roundtrip t :
  match sessionTrigger t with
  | inl None => t = noTrigger
  | inl (Some s) => t <> noTrigger /\ agentTrigger s = t
  | inr _ => is_Some (Validate t)
  end.
Proof. exact (sessionTrigger_back t). Qed.

Section MarksLaws.
Context `{Laws : FormatLaws}.

(** What the record can hold of a provenance: the layers of a message, and the trust. *)
Definition recordable (i : item) (prov : option Provenance) : option Provenance :=
  p ← prov;
  let layers := if isMessage i then Layers p else [] in
  if bool_decide (Trust p = None) && bool_decide (layers = []) then None
  else Some {| Layers := layers; PSource := noTrigger; Trust := Trust p |}.

Lemma layers_back l : map layerOf (map layerRef l) = l.
Proof. rewrite map_map. etrans; [|apply map_id]. apply map_ext. by intros []. Qed.

Lemma queuedLayers_with q l : queuedLayers q = None -> queuedLayers (withLayers q l) = Some l.
Proof.
  rewrite !queuedLayers_spec. destruct (qe_InstructionsPart q) eqn:E; [done|]. intros _.
  unfold withLayers. destruct l as [|x [|y l]]; upd; by rewrite ?E.
Qed.
Lemma withLayers_other q l :
  qe_Item (withLayers q l) = qe_Item q /\ qe_Visible (withLayers q l) = qe_Visible q /\ qe_Trust (withLayers q l) = qe_Trust q /\
  qe_Unknown (withLayers q l) = qe_Unknown q.
Proof. by destruct l as [|x [|y l]]. Qed.

(** An input's marks survive the record: a queued entry written with them is read back
    as hidden exactly when it was, and with the trust and the layers the record can hold,
    which are all a message has. *)
Theorem marks_roundtrip q hidden prov :
  qe_Visible q = None -> qe_Trust q = None -> qe_InstructionsPart q = None -> qe_InstructionsLayers q = None -> qe_Unknown q = ∅ ->
  queuedMarks (setQueuedMarks q hidden prov) = (hidden, recordable (qe_Item q) prov).
Proof.
  intros Hv Ht Hp Hl Hu. unfold setQueuedMarks, queuedMarks, legacyVisible, legacyTrust, legacyLayers, recordable. cbv zeta.
  assert (queuedLayers q = None) as Hq by (rewrite queuedLayers_spec, Hp; done).
  set (q1 := if hidden then q <| qe_Visible := Some false |> else q).
  assert (qe_Visible q1 = (if hidden then Some false else None) /\ qe_Trust q1 = None /\ queuedLayers q1 = None /\
    qe_Unknown q1 = ∅ /\ qe_Item q1 = qe_Item q) as (Hv1 & Ht1 & Hq1 & Hu1 & Hi1).
  { unfold q1. destruct hidden; [|done]. rewrite queuedLayers_spec. upd. by rewrite Hp, Hl. }
  destruct prov as [p|]; cbn [mbind option_bind].
  2: { rewrite Hv1, Ht1, Hq1, Hu1, !lookup_empty. cbn. by destruct hidden. }
  set (q2 := match Trust p with Some reads => q1 <| qe_Trust := Some reads |> | None => q1 end).
  assert (qe_Visible q2 = qe_Visible q1 /\ qe_Trust q2 = Trust p /\ queuedLayers q2 = None /\ qe_Unknown q2 = ∅ /\ qe_Item q2 = qe_Item q)
    as (Hv2 & Ht2 & Hq2 & Hu2 & Hi2).
  { unfold q2. destruct (Trust p); [|done]. rewrite queuedLayers_spec in *. by upd. }
  rewrite Hi2. destruct (isMessage (qe_Item q) && negb (bool_decide (Layers p = []))) eqn:E.
  - destruct (withLayers_other q2 (map layerRef (Layers p))) as (_ & -> & -> & ->). rewrite queuedLayers_with by done.
    apply andb_true_iff in E as [-> _]. rewrite Hv2, Hv1, Ht2, Hu2, !lookup_empty. cbn. rewrite layers_back.
    destruct (Trust p), (Layers p), hidden; done.
  - rewrite Hv2, Hv1, Ht2, Hq2, Hu2, !lookup_empty. cbn.
    assert ((if isMessage (qe_Item q) then Layers p else []) = []) as ->.
    { destruct (isMessage _); [|done]. cbn in E. by destruct (decide (Layers p = [])); [|rewrite bool_decide_false in E]. }
    destruct (Trust p); by destruct hidden.
Qed.

Lemma queuedMarks_ext q q' :
  match qe_Visible q with Some v => Some v | None => legacyVisible q end = match qe_Visible q' with Some v => Some v | None => legacyVisible q' end ->
  match qe_Trust q with Some v => Some v | None => legacyTrust q end = match qe_Trust q' with Some v => Some v | None => legacyTrust q' end ->
  match queuedLayers q with Some v => Some v | None => legacyLayers q end = match queuedLayers q' with Some v => Some v | None => legacyLayers q' end ->
  queuedMarks q = queuedMarks q'.
Proof.
  intros Hv Ht Hl. unfold queuedMarks. rewrite Ht, Hl.
  assert (match qe_Visible q with Some v => negb v | None => match legacyVisible q with Some v => negb v | None => false end end =
    match qe_Visible q' with Some v => negb v | None => match legacyVisible q' with Some v => negb v | None => false end end) as ->; [|done].
  destruct (qe_Visible q), (qe_Visible q'), (legacyVisible q), (legacyVisible q'); congruence.
Qed.

Lemma upgradeVisible_marks q : queuedMarks (upgradeVisible q) = queuedMarks q.
Proof.
  unfold upgradeVisible. destruct (legacyVisible q) as [v|] eqn:E; [|done].
  apply queuedMarks_ext; unfold legacyVisible, legacyTrust, legacyLayers in *; rewrite ?queuedLayers_spec;
    destruct (qe_Visible q) eqn:Ev; upd; rewrite ?Ev; try done; by rewrite lookup_delete_ne.
Qed.
Lemma upgradeTrust_marks q : queuedMarks (upgradeTrust q) = queuedMarks q.
Proof.
  unfold upgradeTrust. destruct (legacyTrust q) as [t|] eqn:E; [|done].
  apply queuedMarks_ext; unfold legacyVisible, legacyTrust, legacyLayers in *; rewrite ?queuedLayers_spec;
    destruct (qe_Trust q) eqn:Ev; upd; rewrite ?Ev; try done; by rewrite lookup_delete_ne.
Qed.
Lemma upgradeLayers_marks q : queuedMarks (upgradeLayers q) = queuedMarks q.
Proof.
  unfold upgradeLayers. destruct (isMessage _); [|done]. destruct (legacyLayers q) as [l|] eqn:E; [|done].
  destruct (queuedLayers q) as [l'|] eqn:Eq.
  - apply queuedMarks_ext; unfold legacyVisible, legacyTrust in *; rewrite ?queuedLayers_spec; upd;
      rewrite ?lookup_delete_ne by done; try done. rewrite queuedLayers_spec in Eq. by rewrite Eq.
  - destruct (withLayers_other q l) as (_ & Hv & Ht & Hu). pose proof (queuedLayers_with q l Eq) as Hl.
    apply queuedMarks_ext; unfold legacyVisible, legacyTrust in *; upd; rewrite ?Hv, ?Ht, ?Hu, ?lookup_delete_ne by done; try done.
    rewrite !queuedLayers_spec in *. upd. by rewrite Hl, Eq, E.
Qed.

Lemma upgradeVisible_other q k : k <> VisibleMember ->
  qe_Unknown (upgradeVisible q) !! k = qe_Unknown q !! k /\ qe_Item (upgradeVisible q) = qe_Item q.
Proof.
  intros Hk. unfold upgradeVisible. destruct (legacyVisible q); [|done]. destruct (qe_Visible q); upd; by rewrite lookup_delete_ne.
Qed.
Lemma upgradeTrust_other q k : k <> TrustMember ->
  qe_Unknown (upgradeTrust q) !! k = qe_Unknown q !! k /\ qe_Item (upgradeTrust q) = qe_Item q.
Proof.
  intros Hk. unfold upgradeTrust. destruct (legacyTrust q); [|done]. destruct (qe_Trust q); upd; by rewrite lookup_delete_ne.
Qed.
Lemma upgradeLayers_other q k : k <> InstructionsPartMember ->
  qe_Unknown (upgradeLayers q) !! k = qe_Unknown q !! k /\ qe_Item (upgradeLayers q) = qe_Item q.
Proof.
  intros Hk. unfold upgradeLayers. destruct (isMessage _); [|done]. destruct (legacyLayers q) as [l|]; [|done].
  destruct (withLayers_other q l) as (Hi & _ & _ & Hu).
  destruct (queuedLayers q); upd; by rewrite lookup_delete_ne, ?Hu.
Qed.

Lemma upgradeVisible_done q : legacyVisible (upgradeVisible q) = None.
Proof.
  unfold upgradeVisible. destruct (legacyVisible q) eqn:E; [|done]. unfold legacyVisible. destruct (qe_Visible q); upd; by rewrite lookup_delete_eq.
Qed.
Lemma upgradeTrust_done q : legacyTrust (upgradeTrust q) = None.
Proof.
  unfold upgradeTrust. destruct (legacyTrust q) eqn:E; [|done]. unfold legacyTrust. destruct (qe_Trust q); upd; by rewrite lookup_delete_eq.
Qed.
Lemma upgradeLayers_done q : isMessage (qe_Item q) = true -> legacyLayers (upgradeLayers q) = None.
Proof.
  intros Hm. unfold upgradeLayers. rewrite Hm. destruct (legacyLayers q) as [l|] eqn:E; [|done].
  unfold legacyLayers. destruct (queuedLayers q); upd; by rewrite lookup_delete_eq.
Qed.

(** An entry queued again under the format's own members says what it said: upgrading
    the interim members of an entry changes none of the marks read from it, leaves none
    of those it could read behind, and upgrading again changes nothing. *)
Theorem upgrade_keeps_marks q :
  queuedMarks (upgradeQueuedMarks q) = queuedMarks q /\
  legacyVisible (upgradeQueuedMarks q) = None /\ legacyTrust (upgradeQueuedMarks q) = None /\
  (~ (isMessage (qe_Item q) = true /\ legacyLayers (upgradeQueuedMarks q) <> None)) /\
  upgradeQueuedMarks (upgradeQueuedMarks q) = upgradeQueuedMarks q.
Proof.
  set (q' := upgradeQueuedMarks q).
  assert (legacyVisible q' = None) as Hv.
  { unfold q', upgradeQueuedMarks, legacyVisible. destruct (upgradeLayers_other (upgradeTrust (upgradeVisible q)) VisibleMember) as [-> _]; [done|].
    destruct (upgradeTrust_other (upgradeVisible q) VisibleMember) as [-> _]; [done|]. apply upgradeVisible_done. }
  assert (legacyTrust q' = None) as Ht.
  { unfold q', upgradeQueuedMarks, legacyTrust. destruct (upgradeLayers_other (upgradeTrust (upgradeVisible q)) TrustMember) as [-> _]; [done|].
    apply upgradeTrust_done. }
  assert (qe_Item (upgradeTrust (upgradeVisible q)) = qe_Item q) as Hi.
  { destruct (upgradeTrust_other (upgradeVisible q) VisibleMember) as [_ ->]; [done|].
    by destruct (upgradeVisible_other q TrustMember) as [_ ->]. }
  assert (isMessage (qe_Item q) = true -> legacyLayers q' = None) as Hl by (intros Hm; apply upgradeLayers_done; by rewrite Hi).
  split; [unfold q', upgradeQueuedMarks; by rewrite upgradeLayers_marks, upgradeTrust_marks, upgradeVisible_marks|].
  split; [done|]. split; [done|]. split; [by intros [Hm ?]; rewrite Hl in *|].
  assert (upgradeVisible q' = q') as E1 by (unfold upgradeVisible; by rewrite Hv).
  assert (upgradeTrust q' = q') as E2 by (unfold upgradeTrust; by rewrite Ht).
  unfold upgradeQueuedMarks at 1. rewrite E1, E2. unfold upgradeLayers.
  assert (qe_Item q' = qe_Item q) as -> by (unfold q', upgradeQueuedMarks; destruct (upgradeLayers_other (upgradeTrust (upgradeVisible q)) TrustMember) as [_ ->]; done).
  destruct (isMessage (qe_Item q)); [|done]. by rewrite Hl.
Qed.
End MarksLaws.
