(* ===== verification/Writer.v ===== *)
(** * Writer: a session's writer and the entries it appends ([session/session.go])

    The writer's state, its appends, the inputs it holds and the copies it names. An
    action may fail and keeps what it did until then, as a Go method that returns an error
    does. The store, other sessions and the recorder's other writers belong to the world;
    [wr_written] is what the store acknowledged, which the code does not keep. *)

From S2P Require Export Entries Hash Transcript.

(** ** Actions *)

Definition act (S A : Type) := S -> (A + error) * S.
Definition ret {S A} (x : A) : act S A := fun s => (inl x, s).
Definition bind {S A B} (m : act S A) (f : A -> act S B) : act S B := fun s =>
  match m s with (inl x, s) => f x s | (inr e, s) => (inr e, s) end.
Definition throw {S A} (e : error) : act S A := fun s => (inr e, s).
Definition fallible {S A} (r : A + error) : act S A := fun s => (r, s).

Declare Scope act_scope.
Delimit Scope act_scope with act.
Notation "x ← y ; z" := (bind y (fun x => z)) (at level 20, y at level 100, z at level 200, only parsing) : act_scope.
Notation "' x ← y ; z" := (bind y (fun x => z)) (at level 20, x pattern, y at level 100, z at level 200, only parsing) : act_scope.
Notation "y ;; z" := (bind y (fun _ => z)) (at level 100, z at level 200, only parsing) : act_scope.
Open Scope act_scope.

(** [act] on each element in turn, until one fails. *)
Fixpoint forEach {S A} (f : A -> act S unit) (l : list A) : act S unit :=
  match l with [] => ret tt | x :: l => f x ;; forEach f l end.

(** ** State *)

Record dispatchState := { ds_dispatched : bool; ds_unknown : bool; ds_run : string; ds_entry : string; ds_handedOff : nat }.

(** A callee's link in another system, and whether a cancel notice names it. *)
Record CalleeLink := { cl_Link : LinkEntry; cl_Cancelled : bool }.

Record callRecord := {
  c_entry : string; c_args : string; c_decided : string;
  c_held : bool; c_dispatched : bool; c_rejected : bool; c_ended : bool; c_answered : bool; c_unknown : bool;
  c_dispatchRun : string; c_again : option string; c_settledRun : string;
  c_ranEntry : string; c_childOff : string; c_calleesOff : list CalleeLink;
  c_ranSession : string; c_ranTrust : option sTrust; c_ranPathTrust : option sTrust; c_ranItem : item;
  c_dispatchEntry : string; c_lastWithdrawn : bool; c_handedOff : nat; c_before : option dispatchState;
  c_failed : bool; c_result : option ResultEntry;
}.
#[export] Instance eta_callRecord : Eta callRecord := fun r =>
  Build_callRecord (c_entry r) (c_args r) (c_decided r) (c_held r) (c_dispatched r) (c_rejected r) (c_ended r) (c_answered r)
    (c_unknown r) (c_dispatchRun r) (c_again r) (c_settledRun r) (c_ranEntry r) (c_childOff r) (c_calleesOff r) (c_ranSession r)
    (c_ranTrust r) (c_ranPathTrust r) (c_ranItem r) (c_dispatchEntry r) (c_lastWithdrawn r) (c_handedOff r) (c_before r)
    (c_failed r) (c_result r).

(** [&callRecord{entry: id, args: args}]. *)
Definition newCallRecord (id args : string) : callRecord := {|
  c_entry := id; c_args := args; c_decided := ""; c_held := false; c_dispatched := false; c_rejected := false; c_ended := false;
  c_answered := false; c_unknown := false; c_dispatchRun := ""; c_again := None; c_settledRun := ""; c_ranEntry := "";
  c_childOff := ""; c_calleesOff := []; c_ranSession := ""; c_ranTrust := None; c_ranPathTrust := None; c_ranItem := Nil;
  c_dispatchEntry := ""; c_lastWithdrawn := false; c_handedOff := 0; c_before := None; c_failed := false; c_result := None |}.

(** Where a copied item was taken from. *)
Record copySource := { cs_from : CopiedFrom; cs_trust : option sTrust; cs_pathTrust : option sTrust; cs_item : item }.

Record inboxItem := { in_item : item; in_mode : QueueMode; in_trigger : option sTrigger; in_deliver : bool; in_entry : string;
  in_held : bool; in_awaiting : bool; in_hidden : bool; in_prov : option Provenance; in_copied : bool; in_from : option copySource }.
#[export] Instance eta_inboxItem : Eta inboxItem := fun r =>
  Build_inboxItem (in_item r) (in_mode r) (in_trigger r) (in_deliver r) (in_entry r) (in_held r) (in_awaiting r) (in_hidden r)
    (in_prov r) (in_copied r) (in_from r).

(** What the writer knows of an item's entry: the item as its entry holds it when that is
    not the item, and its canonical form. *)
Record itemMeta := { im_recorded : option item; im_canon : option (list ascii) }.

(** A session as a reader opens it: its entries by ID and the trust of its path. *)
Record view := { vw_Entry : string -> option entry; vw_PathTrust : option sTrust }.

(** An entry the store acknowledged, with its ID and the run being written. *)
Record acknowledged := { ak_run : string; ak_id : string; ak_entry : entry }.

Record writer := {
  wr_id : string; wr_parentID : string; wr_parentSession : option view;
  wr_reopenOwed : bool; wr_replay : bool; wr_model : string;
  wr_run : string; wr_open : list string; wr_answeredCall : bool; wr_withheld : bool; wr_unsettled : gset string;
  wr_calls : gmap string callRecord; wr_parents : gmap string string; wr_appOnly : gset string; wr_copied : gset string;
  wr_linked : gset string; wr_callees : list LinkEntry; wr_cancelled : gset string;
  wr_items : list string; wr_values : Items; wr_custom : list bool; wr_meta : list itemMeta; wr_models : list string;
  wr_inbox : list inboxItem;
  wr_written : list acknowledged;
}.
#[export] Instance eta_writer : Eta writer := fun r =>
  Build_writer (wr_id r) (wr_parentID r) (wr_parentSession r) (wr_reopenOwed r) (wr_replay r) (wr_model r) (wr_run r) (wr_open r)
    (wr_answeredCall r) (wr_withheld r) (wr_unsettled r) (wr_calls r) (wr_parents r) (wr_appOnly r) (wr_copied r) (wr_linked r)
    (wr_callees r) (wr_cancelled r) (wr_items r) (wr_values r) (wr_custom r) (wr_meta r) (wr_models r) (wr_inbox r) (wr_written r).

(** ** The store, the libraries and the recorder's other writers *)

Class Recording (W : Type) := {
  (** [Writer.Write] or [Store.Append]: the entry's ID and whether the session is to be
      opened again. *)
  storeWrite : string -> entry -> W -> (string * bool + error) * W;
  (** [Store.Open] of the writer's session, handed to the host when it is the root's. *)
  storeOpen : string -> W -> (unit + error) * W;
  (** [Store.Open] of the parent's session. *)
  openParent : string -> W -> (view + error) * W;
  (** The parent's writer, when this process holds it: its items, their entries and
      whether each is a custom entry. *)
  parentWriter : W -> option (list (item * string * bool));
  (** [writer.sidecar] and [writer.recordForm] ([session/media.go]). *)
  sidecar : string -> item -> W -> (item + error) * W;
  recordForm : item -> item;
  (** The filter in force: whether it keeps an item. *)
  filterKeeps : item -> bool;
  (** [json.Marshal] of an item, of an output's parts and of a nested call's record. *)
  marshalText : item -> option string;
  marshalParts : list string -> option string;
  (** [json.Unmarshal] into a string. *)
  unmarshalString : string -> option string;
}.

Section Writer.
Context {W : Type} `{Enc : !Encoding} `{Rec : !Recording W}.
Abbreviation st := (writer * W)%type.
Abbreviation act := (act st).

Definition get {A} (f : writer -> A) : act A := fun s => (inl (f s.1), s).
Definition modify (f : writer -> writer) : act unit := fun s => (inl tt, (f s.1, s.2)).
Definition world {A} (f : W -> (A + error) * W) : act A := fun s => let '(r, h) := f s.2 in (r, (s.1, h)).
Definition worldGet {A} (f : W -> A) : act A := fun s => (inl (f s.2), s).

(** The record of a call, and it changed. *)
Definition call (id : string) : act (option callRecord) := get (fun w => wr_calls w !! id).
Definition setCall (id : string) (f : callRecord -> callRecord) : act unit := modify (fun w => w <| wr_calls ::= alter f id |>).

(** Go's [==] of two items; it panics on a value whose type cannot be compared. *)
Definition same (a b : item) : bool :=
  match identity a, identity b with
  | Some x, Some y => bool_decide (x = y)
  | _, _ => isNil a && isNil b
  end.

(** [equalJSON] of two items. *)
Definition equalJSON (a b : item) : bool :=
  match canonicalItem a, canonicalItem b with Some x, Some y => bool_decide (x = y) | _, _ => false end.

Definition errText (e : option error) (text : error -> string) : string := from_option text "" e.

(** ** Appends *)

(** [writer.reopen]. *)
Definition reopen : act unit :=
  owed ← get wr_reopenOwed;
  if negb owed then ret tt
  else
    id ← get wr_id;
    world (storeOpen id) ;;
    modify (fun w => w <| wr_reopenOwed := false |>).

(** Whether an entry is one a run that answered a call has: a decision, or an output. *)
Definition answers (e : entry) : bool :=
  match e with
  | EDecision d => negb (de_Withdrawn d)
  | EItem i => match it_Item i with IOutput _ _ => true | _ => false end
  | _ => false
  end.

(** An action whose failure is let go. *)
Definition attempt (m : act unit) : act unit := fun s => (inl tt, (m s).2).

(** [writer.append]: a failed reopen is the next entry's. *)
Definition acknowledge (again : bool) (e : entry) (id : string) : act string :=
  (if again then modify (fun w => w <| wr_reopenOwed := true |>) ;; attempt reopen else ret tt) ;;
  (if answers e then modify (fun w => w <| wr_answeredCall := true |>) else ret tt) ;;
  ret id.
Definition append (e : entry) : act string :=
  reopen ;;
  session ← get wr_id;
  r ← world (storeWrite session e);
  modify (fun w => w <| wr_written ::= (fun l => l ++ [{| ak_run := wr_run w; ak_id := r.1; ak_entry := e |}]) |>) ;;
  acknowledge r.2 e r.1.

(** ** Copies *)

(** [copySource.entryFor]. *)
Definition entryFor (src : copySource) (recorded : item) : CopiedFrom * option sTrust :=
  let cf := cs_from src in
  if negb (bool_decide (cf_Entry cf = "")) && (isNil (cs_item src) || negb (equalJSON (cs_item src) recorded))
  then ({| cf_Session := cf_Session cf; cf_Entry := "" |}, cs_pathTrust src)
  else (cf, cs_trust src).

(** [writer.parentPath]. *)
Definition parentPath (fresh : bool) : act view :=
  have ← get wr_parentSession;
  match have, fresh with
  | Some v, false => ret v
  | _, _ =>
      parent ← get wr_parentID;
      v ← world (openParent parent);
      modify (fun w => w <| wr_parentSession := Some v |>) ;;
      ret v
  end.

Definition copyOf (session : string) (v : view) : copySource :=
  {| cs_from := {| cf_Session := session; cf_Entry := "" |}; cs_trust := vw_PathTrust v; cs_pathTrust := vw_PathTrust v; cs_item := Nil |}.
Definition copyNaming (src : copySource) (id : string) (e : option entry) : copySource :=
  match e with
  | Some (EItem ie) =>
      {| cs_from := {| cf_Session := cf_Session (cs_from src); cf_Entry := id |}; cs_trust := it_Trust ie;
         cs_pathTrust := cs_pathTrust src; cs_item := it_Item ie |}
  | _ => src
  end.

(** [writer.copiedFrom]; the parent's last entry holding the very item is the one named. *)
Definition copiedFrom (i : item) : act (option copySource) :=
  parent ← get wr_parentID;
  if bool_decide (parent = "") then ret None
  else
    v ← parentPath false;
    p ← worldGet parentWriter;
    match p with
    | Some p =>
        if isNil i || negb (comparable i) then ret (Some (copyOf parent v))
        else
          match find_first (fun '(x, _, custom) => same x i && negb custom) (reverse p) with
          | None => ret (Some (copyOf parent v))
          | Some (_, id, _) =>
              match vw_Entry v id with
              | Some e => ret (Some (copyNaming (copyOf parent v) id (Some e)))
              | None =>
                  v ← parentPath true;
                  ret (Some (copyNaming (copyOf parent v) id (vw_Entry v id)))
              end
          end
    | None => ret (Some (copyOf parent v))
    end.

(** The layers a message's entry carries, and the trust merged into a copy's. *)
Definition mergeTrust (have reads : sTrust) : sTrust :=
  foldl (fun merged l => if bool_decide (l ∈ merged) then merged else merged ++ [l]) have reads.
(** [recordProvenance], which refuses nothing. *)
Definition recordProvenance (e : ItemEntry) (prov : option Provenance) : ItemEntry :=
  match prov with
  | None => e
  | Some prov =>
      let e := if isMessage (it_Item e) && negb (bool_decide (Layers prov = []))
               then match map layerRef (Layers prov) with
                    | [l] => e <| it_InstructionsPart := Some l |>
                    | ls => e <| it_InstructionsLayers := ls |>
                    end
               else e in
      match Trust prov with
      | None => e
      | Some reads =>
          match it_CopiedFrom e with
          | None => e <| it_Trust := Some reads |>
          | Some _ =>
              let have := default [] (it_Trust e) in
              if forallb (fun l => bool_decide (l ∈ have)) reads then e else e <| it_Trust := Some (mergeTrust have reads) |>
          end
      end
  end.

(** ** The inbox *)

Definition newItemEntry (i : item) : ItemEntry := {|
  it_Item := i; it_ResponseID := ""; it_Failed := false; it_CopiedFrom := None; it_Trust := None; it_InstructionsPart := None;
  it_InstructionsLayers := []; it_Visible := None; it_ModelCallID := ""; it_QueuedFrom := ""; it_Source := None; it_FromLink := "" |}.

(** The queued entry of an input whose item is recorded as [i]. *)
Definition queuedEntry (inp : inboxItem) (i : item) : QueuedEntry :=
  let q := {| qe_Item := i; qe_Mode := in_mode inp; qe_Deliver := in_deliver inp && bool_decide (in_mode inp = QueueSteer);
    qe_Trigger := in_trigger inp; qe_Visible := None; qe_Trust := None; qe_InstructionsPart := None; qe_InstructionsLayers := None;
    qe_Unknown := ∅ |} in
  let q := setQueuedMarks q (in_hidden inp) (in_prov inp) in
  match in_from inp with
  | Some from =>
      let '(cf, trust) := entryFor from i in
      let e := (newItemEntry i) <| it_CopiedFrom := Some cf |> <| it_Trust := trust |> in
      q <| qe_Trust := it_Trust (recordProvenance e (in_prov inp)) |>
  | None => q
  end.

(** [writer.requeue]: the entries before [i] are written. *)
Definition setInbox (i : nat) (f : inboxItem -> inboxItem) : act unit := modify (fun w => w <| wr_inbox ::= alter f i |>).
Fixpoint requeueFrom (i : nat) (todo : list inboxItem) : act unit :=
  match todo with
  | [] => ret tt
  | inp :: todo =>
      (if negb (bool_decide (in_entry inp = "")) then ret tt
       else
         session ← get wr_id;
         it ← world (sidecar session (in_item inp));
         id ← append (EQueued (queuedEntry inp it));
         setInbox i (fun inp => inp <| in_entry := id |>)) ;;
      requeueFrom (S i) todo
  end.
Definition requeue : act unit := inbox ← get wr_inbox; requeueFrom 0 inbox.

(** [writer.endInbox]. *)
Definition endInbox : act unit :=
  modify (fun w => w <| wr_inbox ::= (fun l => map (fun inp => inp <| in_entry := "" |>) (filter (fun inp => in_held inp = true) l)) |>) ;;
  requeue.

(** [writer.resolveCopy]. *)
Definition resolveCopy (inp : inboxItem) : act inboxItem :=
  if negb (in_copied inp) || bool_decide (is_Some (in_from inp)) then ret inp
  else from ← copiedFrom (in_item inp); ret (inp <| in_from := from |>).

(** [writer.queued]. *)
Definition queued (e : Queued) : act unit :=
  if isNil (qd_Item e) then ret tt
  else
    inbox ← get wr_inbox;
    match list_find (fun inp => (in_awaiting inp && same (in_item inp) (qd_Item e)) = true) inbox with
    | Some (i, _) => setInbox i (fun inp => inp <| in_awaiting := false |>)
    | None =>
        trigger ← fallible (queuedTrigger e);
        inp ← resolveCopy {| in_item := qd_Item e; in_mode := qd_Mode e; in_trigger := trigger;
          in_deliver := bool_decide (qd_Input e = InputDeliver); in_entry := ""; in_held := true; in_awaiting := false;
          in_hidden := qd_Hidden e; in_prov := qd_Provenance e; in_copied := qd_Copied e; in_from := None |};
        modify (fun w => w <| wr_inbox ::= (fun l => l ++ [inp]) |>) ;;
        requeue
    end.

(** [writer.drained]. *)
Definition holds (i : item) (inp : inboxItem) : bool := in_held inp && same (in_item inp) i.
Definition drained (i : item) : act (option inboxItem) :=
  inbox ← get wr_inbox;
  match list_find (fun inp => holds i inp = true) inbox with
  | Some (at_, inp) =>
      modify (fun w => w <| wr_inbox ::= (fun l => take at_ l ++ drop (S at_) l) |>) ;;
      ret (Some inp)
  | None => ret None
  end.

(** [writer.heldCopy]. *)
Definition heldCopy (i : item) : act (option copySource) :=
  inbox ← get wr_inbox;
  ret (from_option in_from None (find_first (holds i) inbox)).
End Writer.
