(* ===== verification/Ledger.v ===== *)
(** * Ledger: what the record holds of each call ([session/session.go], [session/callee.go])

    A call's item, the decisions on it, its hand-offs to its tool and their withdrawal, its
    result and its output, written as the loop reports them; and the links to the runs
    and the callees the call's tool reached. *)

From S2P Require Export Writer.

(** [NestedCall], and its details. *)
Record NestedDetails := { nd_NS : string; nd_Data : string }.
Record NestedCall := { nc_Phase : string; nc_CallID : string; nc_Parent : string; nc_Name : string; nc_Args : raw; nc_Invoked : raw;
  nc_IdempotencyKey : string; nc_Verdict : option Verdict; nc_Reason : string; nc_By : string; nc_Output : OutputData;
  nc_Error : string; nc_Terminate : bool; nc_Blocked : bool; nc_Details : option NestedDetails; nc_Cut : bool; nc_Withdrawn : bool }.

Definition NestedCallNS : string := "agentturn:nested_call".
Definition nestedDispatch : string := "dispatch".
Definition phaseStart : string := "start".
Definition phaseEnd : string := "end".

(** What a callee or a cancel record says ([a2aCallee], [a2aCancel]). *)
Definition a2aCalleeNS : string := "agentturn:a2a_callee".
Definition a2aCancelNS : string := "agentturn:a2a_cancel".
Record a2aCallee := { ca_URL : string; ca_Task : string; ca_Context : string; ca_Relation : string }.
Record a2aCancel := { cn_URL : string; cn_Task : string }.

(** [agent.ChildInfo]. *)
Record ChildInfo := { ch_Agent : string; ch_RunID : string; ch_Items : Transcript; ch_Reason : option Reason }.

(** What the ledger asks of the libraries and of the recorder's writers of other sessions. *)
Class Tooling (W : Type) := {
  (** [error.Error()] *)
  errorText : error -> string;
  (** [agenttool.RecordOf], and a result's details as a child run's. *)
  RecordOf : any -> option (string * string) + error;
  childInfo : any -> option ChildInfo;
  (** [json.Marshal] of a [NestedCall]. *)
  marshalNested : NestedCall -> option string;
  (** [decodeStrict] *)
  decodeCallee : string -> option a2aCallee;
  decodeCancel : string -> option a2aCancel;
  (** [agentsession.ClearRedacted] of a link's members of its own. *)
  clearRedacted : gmap string string -> gmap string string;
  (** [agentsession.NewCancelSentLink] *)
  cancelSent : LinkEntry -> LinkEntry;
  (** The recorder keeps child sessions. *)
  children : bool;
  (** The session of an observed run and the run its writer writes, that writer detached
      or released, the call's child session when it holds the run, and a new session
      holding the items of a run that was not observed. *)
  runs : W -> string -> option (string * string);
  detach : string -> W -> W;
  release : string -> W -> W;
  holdsRun : string -> string -> string -> W -> string * W;
  copyChild : string -> string -> ChildInfo -> W -> (string + error) * W;
}.

Section Ledger.
Context {W : Type} `{Enc : !Encoding} `{Rec : !Recording W} `{Tools : !Tooling W}.
Abbreviation st := (writer * W)%type.
Abbreviation act := (act st).

(** ** Calls *)

(** [callRecord.withdraw], [callRecord.neverRan] and [callRecord.carries]. *)
Definition withdraw (c : callRecord) : callRecord :=
  let c := match c_before c with
           | Some b =>
               c <| c_dispatched := ds_dispatched b |> <| c_unknown := ds_unknown b |> <| c_dispatchRun := ds_run b |>
                 <| c_dispatchEntry := ds_entry b |> <| c_handedOff := ds_handedOff b |> <| c_before := None |>
           | None => c
           end in
  c <| c_lastWithdrawn := true |>.
Definition neverRan (c : callRecord) : bool := c_dispatched c && bool_decide (c_handedOff c = 0%nat).
Definition carries (c : callRecord) (args : raw) : bool :=
  negb (Hash.sameJSON (bytesOf args) (c_args c)) ||
  (negb (bool_decide (c_decided c = "")) && negb (Hash.sameJSON (bytesOf args) (c_decided c))).

(** [writer.close] and [writer.takeUp]. *)
Fixpoint removeFirst (id : string) (l : list string) : list string :=
  match l with [] => [] | x :: l => if bool_decide (x = id) then l else x :: removeFirst id l end.
Definition close (id : string) : act unit :=
  setCall id (fun c => c <| c_answered := true |>) ;;
  modify (fun w => w <| wr_open ::= removeFirst id |>).
Definition takeUp (id : string) : act unit :=
  modify (fun w =>
    match wr_calls w !! id with
    | Some c => if c_answered c || bool_decide (id ∈ wr_open w) then w else w <| wr_open ::= (fun l => l ++ [id]) |>
    | None => w
    end).

(** [writer.heldCall]: up the chain of a nested call's parents. *)
Fixpoint heldCallUp (fuel : nat) (w : writer) (id : string) : string :=
  match fuel with
  | O => ""
  | S fuel =>
      if bool_decide (is_Some (wr_calls w !! id)) then id
      else match wr_parents w !! id with Some parent => heldCallUp fuel w parent | None => "" end
  end.
Definition heldCall (w : writer) (id : string) : string := heldCallUp (size (wr_parents w) + 1) w id.

(** [writer.nested]. *)
Definition nested (n : NestedCall) (parent : string) : act unit :=
  match marshalNested n with
  | None => throw (Errorf "session: encode nested call")
  | Some raw =>
      owner ← get (fun w => heldCall w parent);
      append (ECustom {| cu_NS := NestedCallNS; cu_Data := raw; cu_CallID := owner; cu_ResponseID := None |}) ;;
      ret tt
  end.
Definition noNested (phase id parent name : string) : NestedCall := {|
  nc_Phase := phase; nc_CallID := id; nc_Parent := parent; nc_Name := name; nc_Args := None; nc_Invoked := None;
  nc_IdempotencyKey := ""; nc_Verdict := None; nc_Reason := ""; nc_By := ""; nc_Output := {| Text_ := ""; Parts := [] |};
  nc_Error := ""; nc_Terminate := false; nc_Blocked := false; nc_Details := None; nc_Cut := false; nc_Withdrawn := false |}.
#[export] Instance eta_NestedCall : Eta NestedCall := fun r =>
  Build_NestedCall (nc_Phase r) (nc_CallID r) (nc_Parent r) (nc_Name r) (nc_Args r) (nc_Invoked r) (nc_IdempotencyKey r)
    (nc_Verdict r) (nc_Reason r) (nc_By r) (nc_Output r) (nc_Error r) (nc_Terminate r) (nc_Blocked r) (nc_Details r) (nc_Cut r)
    (nc_Withdrawn r).

(** [decisionReason] and [decisionBy]. *)
Definition decisionReason (d : option ToolDecision) : string := from_option td_Reason "" d.
Definition decisionBy (d : option ToolDecision) : string := from_option td_By "" d.

(** [agentsession.NewDecision(...).WithReason(reason)], and a withdrawal. *)
Definition ByPolicy : string := "policy".
Definition decision (id : string) (c : callRecord) (v : Verdict) (by_ reason : string) : DecisionEntry := {|
  de_CallID := id; de_Target := c_entry c; de_Verdict := v; de_By := by_; de_Reason := reason; de_Args := None; de_Withdrawn := false;
  de_Subject := ""; de_Held := false; de_Note := ""; de_DeclineText := "" |}.
Definition withdrawal (id : string) (c : callRecord) (reason : string) : DecisionEntry :=
  (decision id c VerdictReject "" reason) <| de_Withdrawn := true |>.

(** [holdMembers]. *)
Definition holdMembers (e : DecisionEntry) (d : ToolDecision) : DecisionEntry :=
  e <| de_Subject := td_Subject d |> <| de_Held := td_Held d |> <| de_Note := td_Note d |> <| de_DeclineText := td_DeclineText d |>.

(** ** Links *)

Definition subsessionLink (session id : string) : LinkEntry := {|
  li_ID := ""; li_Rel := RelSubsession; li_Session := session; li_CallID := id; li_URL := ""; li_Task := ""; li_Context := "";
  li_Cancel := ""; li_Target := ""; li_Unknown := ∅ |}.
Definition calleeLinkOf (rel : Rel) (id : string) (c : a2aCallee) : LinkEntry := {|
  li_ID := ""; li_Rel := rel; li_Session := ""; li_CallID := id; li_URL := ca_URL c; li_Task := ca_Task c; li_Context := ca_Context c;
  li_Cancel := ""; li_Target := ""; li_Unknown := ∅ |}.

(** [writer.link]. *)
Definition link (child id : string) : act unit :=
  linked ← get (fun w => bool_decide (id ∈ wr_linked w));
  if linked then ret tt
  else
    append (ELink (subsessionLink child id)) ;;
    modify (fun w => w <| wr_linked ::= (fun s => {[ id ]} ∪ s) |>).

(** [calleeCopy] and [sameCallee]. *)
Definition calleeCopy (l : LinkEntry) (id : string) : LinkEntry := {|
  li_ID := id; li_Rel := li_Rel l; li_Session := li_Session l; li_CallID := li_CallID l; li_URL := li_URL l; li_Task := li_Task l;
  li_Context := li_Context l; li_Cancel := ""; li_Target := "";
  li_Unknown := if bool_decide (li_Unknown l = ∅) then ∅ else clearRedacted (delete "cancel" (delete "target" (li_Unknown l))) |}.
Definition sameCallee (a b : LinkEntry) : bool :=
  bool_decide (li_Rel a = li_Rel b) && bool_decide (li_Session a = li_Session b) && bool_decide (li_CallID a = li_CallID b) &&
  bool_decide (li_URL a = li_URL b) && bool_decide (li_Task a = li_Task b) && bool_decide (li_Context a = li_Context b).

(** [writer.noteCallee]. *)
Definition noteCallee (l : LinkEntry) (id : string) : act unit :=
  modify (fun w =>
    if negb (bool_decide (li_Cancel l = "")) then w <| wr_cancelled ::= (fun s => {[ li_Target l ]} ∪ s) |>
    else w <| wr_callees ::= (fun ls => ls ++ [calleeCopy l id]) |>).

(** [calleeElsewhere], and [calleesOf]: the links to callees on a path, and those a cancel
    notice names. *)
Definition calleeElsewhere (l : LinkEntry) : bool :=
  (bool_decide (li_Rel l = RelSubsession) || bool_decide (li_Rel l = RelPeer)) && negb (bool_decide (li_URL l = "")) &&
  bool_decide (li_Cancel l = "").
Fixpoint calleesOf (path : list entry) : list LinkEntry * gset string :=
  match path with
  | [] => ([], ∅)
  | ELink l :: path =>
      let '(out, cancelled) := calleesOf path in
      if calleeElsewhere l then (l :: out, cancelled)
      else if negb (bool_decide (li_Cancel l = "")) && negb (bool_decide (li_Target l = "")) then (out, {[li_Target l]} ∪ cancelled)
      else (out, cancelled)
  | _ :: path => calleesOf path
  end.

(** [writer.calleeLink]. *)
Definition calleeLink (w : writer) (ns data id : string) : option LinkEntry :=
  if bool_decide (id = "") then None
  else if bool_decide (ns = a2aCalleeNS)
  then match decodeCallee data with
       | Some c =>
           if bool_decide (ca_URL c = "") then None
           else if bool_decide (ca_Relation c = "subsession") then Some (calleeLinkOf RelSubsession id c)
           else if bool_decide (ca_Relation c = "peer") then Some (calleeLinkOf RelPeer id c)
           else None
       | None => None
       end
  else if bool_decide (ns = a2aCancelNS)
  then match decodeCancel data with
       | Some c =>
           if bool_decide (cn_Task c = "") then None
           else option_map cancelSent
             (find_first (fun l => bool_decide (li_CallID l = id) && bool_decide (li_Task l = cn_Task c) && bool_decide (li_URL l = cn_URL c))
               (reverse (wr_callees w)))
       | None => None
       end
  else None.

(** [writer.record]: a link the store refuses as one is written as the record it came from. *)
Definition tryAppend (e : entry) : act (string + error) := fun s =>
  match append e s with (inl id, s) => (inl (inl id), s) | (inr err, s) => (inl (inr err), s) end.
Definition record (ns data id : string) (own : bool) : act string :=
  l ← get (fun w => if own then calleeLink w ns data id else None);
  let custom := append (ECustom {| cu_NS := ns; cu_Data := data; cu_CallID := id; cu_ResponseID := None |}) in
  match l with
  | Some l =>
      r ← tryAppend (ELink l);
      match r with
      | inl lid => noteCallee l lid ;; ret lid
      | inr e => if errIs e ErrCalleeLink then custom else throw e
      end
  | None => custom
  end.

(** [writer.copyCallees]: [used] are the copies already taken, by their entries' IDs. *)
Fixpoint copyCallees (id : string) (links : list CalleeLink) (used : gset string) : act unit :=
  match links with
  | [] => ret tt
  | c :: links =>
      have ← get (fun w => find_first (fun h => bool_decide (li_CallID h = id) && negb (bool_decide (li_ID h ∈ used)) && sameCallee h (cl_Link c))
                             (wr_callees w));
      l ← match have with
          | Some l => ret l
          | None =>
              let cp := calleeCopy (cl_Link c) "" in
              lid ← append (ELink cp);
              noteCallee cp lid ;;
              ret (calleeCopy cp lid)
          end;
      named ← get (fun w => bool_decide (li_ID l ∈ wr_cancelled w));
      (if negb (cl_Cancelled c) || named then ret tt
       else
         let n := cancelSent l in
         nid ← append (ELink n);
         noteCallee n nid) ;;
      copyCallees id links ({[ li_ID l ]} ∪ used)
  end.

(** [writer.fromLink]: a member that is not a string names no task this writer linked. *)
Definition fromLink (w : writer) (source : option sTrigger) : string :=
  match source with
  | Some t =>
      if negb (bool_decide (tg_Kind t = TriggerCallee)) || bool_decide (tg_Ref t = "") then ""
      else
        let found task := from_option li_ID "" (find_first (fun l =>
          bool_decide (li_Rel l = RelPeer) && bool_decide (li_CallID l = tg_Ref t) &&
          (bool_decide (task = "") || bool_decide (li_Task l = task))) (reverse (wr_callees w))) in
        match tg_Unknown t !! "task" with
        | Some data => from_option found "" (unmarshalString data)
        | None => found ""
        end
  | None => ""
  end.

(** ** What the loop reports of a call *)

Definition when (b : bool) (m : act unit) : act unit := if b then m else ret tt.
Definition appendOnly (e : entry) : act unit := append e ;; ret tt.

(** The entry of a nested call's start: what was decided of it. *)
Definition nestedVerdict (d : option ToolDecision) : option Verdict :=
  match d with
  | None => None
  | Some d =>
      if negb (bool_decide (Action d = Allow)) then Some VerdictReject
      else if bool_decide (is_Some (td_Args d)) || negb (bool_decide (td_Reason d = "")) then Some VerdictProceed
      else None
  end.
Definition nestedStart (e : ToolStart) : NestedCall :=
  (noNested phaseStart (tst_CallID e) (tst_Parent e) (tst_Name e))
    <| nc_Args := tst_Args e |>
    <| nc_Invoked := if bool_decide (is_Some (tst_Invoked e)) && negb (Hash.sameJSON (bytesOf (tst_Invoked e)) (bytesOf (tst_Args e)))
                     then tst_Invoked e else None |>
    <| nc_Verdict := nestedVerdict (tst_Decision e) |>
    <| nc_Reason := decisionReason (tst_Decision e) |> <| nc_By := decisionBy (tst_Decision e) |>.

(** A block: the answer or the reject that ends the call. *)
Definition blockCall (id : string) (c : callRecord) (by_ reason : string) : act unit :=
  let reason := if bool_decide (reason = "") then "call blocked" else reason in
  if c_dispatched c || c_unknown c
  then
    append (EDecision (decision id c VerdictAnswer by_ reason)) ;;
    takeUp id ;;
    setCall id (fun c => c <| c_held := false |> <| c_ended := true |>)
  else
    append (EDecision (decision id c VerdictReject by_ reason)) ;;
    takeUp id ;;
    setCall id (fun c => c <| c_held := false |> <| c_rejected := true |>).

(** A deferral: the hold. *)
Definition holdCall (id : string) (c : callRecord) (by_ : string) (d : ToolDecision) (args : raw) : act unit :=
  let hold := holdMembers (decision id c VerdictHold by_ (td_Reason d)) d in
  let carried := carries c args in
  let hold := if carried then hold <| de_Args := args |> else hold in
  append (EDecision hold) ;;
  takeUp id ;;
  setCall id (fun c => c <| c_held := true |>) ;;
  when carried (setCall id (fun c => c <| c_decided := bytesOf args |>)).

(** A call that goes on: the proceed, when something was decided of it. *)
Definition proceedCall (id : string) (c : callRecord) (by_ reason : string) (again : bool) (args : raw) : act unit :=
  let rewritten := carries c args in
  (if c_held c || rewritten || negb (bool_decide (reason = ""))
   then
     let dec := decision id c VerdictProceed by_ reason in
     let dec := if rewritten then dec <| de_Args := args |> else dec in
     when rewritten (setCall id (fun c => c <| c_decided := bytesOf args |>)) ;;
     append (EDecision dec) ;;
     takeUp id
   else when again (setCall id (fun c => c <| c_again := Some by_ |>))) ;;
  setCall id (fun c => c <| c_held := false |>).

(** [writer.toolStart]. *)
Definition toolStart (e : ToolStart) : act unit :=
  let id := tst_CallID e in
  if negb (bool_decide (tst_Parent e = ""))
  then
    modify (fun w => w <| wr_parents ::= <[id := tst_Parent e]> |>) ;;
    if tst_Replayed e then ret tt else nested (nestedStart e) (tst_Parent e)
  else
    modify (fun w => w <| wr_unsettled ::= (fun s => {[ id ]} ∪ s) |>) ;;
    c ← call id;
    match c with
    | None => ret tt
    | Some c =>
        if c_answered c then throw (Wrap "session: decision on call" (Sentinel ErrCallCompleted))
        else if bool_decide (is_Some (c_result c)) then throw (Wrap "session: decision on call" (Sentinel ErrCallReturned))
        else if c_rejected c || c_ended c then ret tt
        else
          run ← get wr_run;
          let again := c_dispatched c && negb (neverRan c) && negb (bool_decide (c_dispatchRun c = run)) in
          setCall id (fun c => c <| c_again := None |>) ;;
          let by_ := match tst_Decision e with
                     | Some d => if bool_decide (td_By d = "") && negb (c_held c) && negb again then ByPolicy else td_By d
                     | None => ""
                     end in
          match tst_Decision e with
          | Some d =>
              match Action d with
              | Block => blockCall id c by_ (td_Reason d)
              | Defer => holdCall id c by_ d (tst_Args e)
              | Allow => proceedCall id c by_ (td_Reason d) again (tst_Args e)
              end
          | None => proceedCall id c by_ "" again (tst_Args e)
          end
    end.

Definition agentRunAgain : string := "run again".

(** [writer.toolDispatch]. *)
Definition nestedHandOff (e : ToolDispatch) : NestedCall :=
  (noNested nestedDispatch (tdi_CallID e) (tdi_Parent e) (tdi_Name e)) <| nc_IdempotencyKey := tdi_IdempotencyKey e |>.
Definition dispatched (id entry : string) (run : string) (c : callRecord) : callRecord :=
  c <| c_before := Some {| ds_dispatched := c_dispatched c; ds_unknown := c_unknown c; ds_run := c_dispatchRun c;
         ds_entry := c_dispatchEntry c; ds_handedOff := c_handedOff c |} |>
    <| c_dispatched := true |> <| c_dispatchRun := run |> <| c_unknown := false |>
    <| c_dispatchEntry := entry |> <| c_lastWithdrawn := false |> <| c_handedOff ::= S |>.
Definition toolDispatch (e : ToolDispatch) : act unit :=
  let id := tdi_CallID e in
  if negb (bool_decide (tdi_Parent e = ""))
  then nested (nestedHandOff e) (tdi_Parent e)
  else
    c ← call id;
    app ← get (fun w => bool_decide (id ∈ wr_appOnly w));
    run ← get wr_run;
    match c with
    | None => if app then ret tt else throw (Errorf "session: dispatch of call: no function call on the path")
    | Some c =>
        if c_rejected c || (c_dispatched c && bool_decide (c_dispatchRun c = run)) then ret tt
        else if c_answered c then throw (Wrap "session: dispatch of call" (Sentinel ErrCallCompleted))
        else if bool_decide (is_Some (c_result c)) then throw (Wrap "session: dispatch of call" (Sentinel ErrCallReturned))
        else
          match c_again c with
          | Some by_ =>
              append (EDecision (decision id c VerdictProceed by_ agentRunAgain)) ;;
              takeUp id ;;
              setCall id (fun c => c <| c_again := None |>)
          | None => ret tt
          end ;;
          did ← append (EDispatch {| di_CallID := id; di_Target := c_entry c; di_IdempotencyKey := tdi_IdempotencyKey e |});
          takeUp id ;;
          setCall id (dispatched id did run)
    end.

(** A child run's link ([writer.child]). *)
Definition child (id : string) (info : ChildInfo) : act unit :=
  let running := bool_decide (ch_Reason info = None) in
  seen ← worldGet (fun h => runs h (ch_RunID info));
  match seen with
  | Some (session, run) =>
      world (fun h => (inl tt, if running && negb (bool_decide (run = "")) then detach (ch_RunID info) h else release (ch_RunID info) h)) ;;
      link session id
  | None =>
      if running then ret tt
      else
        self ← get wr_id;
        held ← world (fun h => let '(session, h) := holdsRun self id (ch_RunID info) h in (inl session, h));
        if negb (bool_decide (held = "")) then link held id
        else
          session ← world (copyChild self id info);
          link session id
  end.

(** [writer.toolEnd]: the settlement of a call, and what its result carries. *)
Definition refusedHere (c : callRecord) (e : ToolEnd) : bool :=
  negb (te_Deferred e) && negb (c_dispatched c) && negb (c_rejected c).
Definition withdrawn (run : string) (c : callRecord) (e : ToolEnd) : bool :=
  te_Withdrawn e && c_dispatched c && bool_decide (c_dispatchRun c = run) && negb (c_lastWithdrawn c).
Definition ranHere (run : string) (c : callRecord) (e : ToolEnd) : bool :=
  negb (te_Blocked e) && negb (te_Deferred e) && negb (te_Withdrawn e) && negb (te_Cut e) &&
  c_dispatched c && bool_decide (c_dispatchRun c = run).

Definition noteRefusal (e : ToolEnd) : act unit :=
  c ← call (te_CallID e);
  run ← get wr_run;
  match c with
  | Some c => when (refusedHere c e) (setCall (te_CallID e) (fun c => c <| c_settledRun := run |>))
  | None => ret tt
  end.
Definition noteWithdrawal (e : ToolEnd) : act unit :=
  c ← call (te_CallID e);
  run ← get wr_run;
  match c with
  | Some c =>
      when (withdrawn run c e)
        (let reason := from_option errorText "" (te_Err e) in
         let reason := if bool_decide (reason = "") then "dispatch withdrawn" else reason in
         append (EDecision (withdrawal (te_CallID e) c reason)) ;;
         setCall (te_CallID e) withdraw)
  | None => ret tt
  end.
Definition noteResult (e : ToolEnd) : act unit :=
  let id := te_CallID e in
  c ← call id;
  run ← get wr_run;
  match c with
  | Some c =>
      let ran := ranHere run c e in
      let failed := ran && bool_decide (is_Some (te_Err e)) in
      setCall id (fun c => c <| c_failed := failed |>) ;;
      left ← get wr_unsettled;
      when (ran && negb (bool_decide (left = ∅)))
        (session ← get wr_id;
         let out := {| OutID := ""; OutCallID := id; Output := res_Output (te_Result e); OutStatus := "" |} in
         it ← world (sidecar session (IOutput 1 out));
         let r := {| rt_CallID := id; rt_Target := c_entry c; rt_Item := match it with IOutput _ o => o | _ => out end; rt_Failed := failed |} in
         append (EResult r) ;;
         setCall id (fun c => c <| c_result := Some r |>))
  | None => ret tt
  end.
Definition settle (e : ToolEnd) : act unit :=
  noteRefusal e ;;
  noteWithdrawal e ;;
  modify (fun w => w <| wr_unsettled ::= (fun s => s ∖ {[ te_CallID e ]}) |>) ;;
  noteResult e.

Definition nestedEnd (e : ToolEnd) : NestedCall :=
  (noNested phaseEnd (te_CallID e) (te_Parent e) (te_Name e))
    <| nc_Output := res_Output (te_Result e) |> <| nc_Error := from_option errorText "" (te_Err e) |>
    <| nc_Cut := te_Cut e |> <| nc_Withdrawn := te_Withdrawn e |> <| nc_Terminate := res_Terminate (te_Result e) |>
    <| nc_Blocked := te_Blocked e |> <| nc_Reason := if te_Blocked e then te_Reason e else "" |>
    <| nc_Details := match RecordOf (res_Details (te_Result e)) with
                     | inl (Some (ns, data)) => Some {| nd_NS := ns; nd_Data := data |}
                     | _ => None
                     end |>.

(** The record a result's details are. *)
Definition details (e : ToolEnd) : act unit :=
  let id := te_CallID e in
  let top := bool_decide (te_Parent e = "") in
  match childInfo (res_Details (te_Result e)), children with
  | Some info, true => child id info
  | _, _ =>
      r ← fallible (match RecordOf (res_Details (te_Result e)) with inr err => inr (Wrap "session: call" err) | r => r end);
      match r with
      | None => ret tt
      | Some (ns, data) =>
          owner ← get (fun w => heldCall w (if top then id else te_Parent e));
          record ns data owner top ;;
          ret tt
      end
  end.

Definition toolEnd (e : ToolEnd) : act unit :=
  if bool_decide (te_Parent e = "") then settle e ;; details e
  else if te_Replayed e then ret tt
  else nested (nestedEnd e) (te_Parent e) ;; details e.

(** ** Items *)

(** [outputText]. *)
Definition outputText (o : FunctionCallOutput) : string :=
  if negb (bool_decide (Text_ (Output o) = "")) || bool_decide (Parts (Output o) = []) then Text_ (Output o)
  else default "" (marshalParts (Parts (Output o))).

(** The context's marks of an answer ([DeciderFromContext] and the others). *)
Definition fromContext (m : gmap string string) (id : string) : string := default "" (m !! id).

(** The links to the work an answer repeats, done on the branch left. *)
Definition copyLinks (id : string) (c : callRecord) : act unit :=
  when (negb (bool_decide (c_childOff c = "")))
    (append (ELink (subsessionLink (c_childOff c) id)) ;;
     modify (fun w => w <| wr_linked ::= (fun s => {[ id ]} ∪ s) |>)) ;;
  copyCallees id (c_calleesOff c) ∅.

(** An answer to a call that may have run. *)
Definition answerCall (cx : AnswerContext) (o : FunctionCallOutput) (c : callRecord) (from : option copySource) : act (option copySource) :=
  let id := OutCallID o in
  run ← get wr_run;
  let refused := negb (bool_decide (c_settledRun c = "")) && bool_decide (c_settledRun c = run) in
  let by_ := if refused then ByPolicy else fromContext (ac_deciders cx) id in
  let reason := if refused then outputText o else fromContext (ac_reasons cx) id in
  let origin := fromContext (ac_origins cx) id in
  let repeats := negb (bool_decide (origin = "")) && bool_decide (origin = c_ranEntry c) in
  when (repeats && negb (c_dispatched c)) (copyLinks id c) ;;
  let from := if repeats && negb (bool_decide (c_ranSession c = "")) && bool_decide (from = None)
              then Some {| cs_from := {| cf_Session := c_ranSession c; cf_Entry := origin |}; cs_trust := c_ranTrust c;
                           cs_pathTrust := c_ranPathTrust c; cs_item := c_ranItem c |}
              else from in
  append (EDecision (decision id c VerdictAnswer by_ reason)) ;;
  takeUp id ;;
  setCall id (fun c => c <| c_held := false |> <| c_ended := true |>) ;;
  ret from.

(** A refusal of a call that never reached its tool. *)
Definition rejectCall (cx : AnswerContext) (o : FunctionCallOutput) (c : callRecord) : act unit :=
  let id := OutCallID o in
  run ← get wr_run;
  withheld ← get wr_withheld;
  let by_ := if (negb (bool_decide (c_settledRun c = "")) && bool_decide (c_settledRun c = run)) || withheld
             then ByPolicy else fromContext (ac_deciders cx) id in
  append (EDecision (decision id c VerdictReject by_ (outputText o))) ;;
  takeUp id ;;
  setCall id (fun c => c <| c_held := false |> <| c_rejected := true |>).

(** The decision an output needs before it, whether it says the call failed, and where it
    was copied from. *)
Definition returned (c : callRecord) (i : item) : bool :=
  match c_result c with Some r => equalJSON (IOutput 1 (rt_Item r)) (recordForm i) | None => false end.
Definition accountFor (cx : AnswerContext) (i : item) (o : FunctionCallOutput) (from : option copySource) : act (bool * option copySource) :=
  let id := OutCallID o in
  run ← get wr_run;
  c ← call id;
  match c with
  | None => ret (bool_decide (id ∈ ac_failures cx), from)
  | Some c =>
      if c_answered c then throw (Wrap "session: output of call" (Sentinel ErrCallCompleted))
      else if c_ended c then ret (bool_decide (id ∈ ac_failures cx), from)
      else if c_rejected c then ret (false, from)
      else if returned c i then ret (from_option rt_Failed false (c_result c), from)
      else if c_dispatched c && negb (bool_decide (c_dispatchRun c = "")) && bool_decide (c_dispatchRun c = run) then ret (c_failed c, from)
      else if c_dispatched c || c_unknown c
      then from ← answerCall cx o c from; ret (bool_decide (id ∈ ac_failures cx), from)
      else rejectCall cx o c ;; ret (false, from)
  end.

(** The item's entry: outside the context when the filter keeps the item from the model. *)
Definition itemEntry (i recorded : item) (responseID modelCallID : string) (failed hidden : bool) (from : option copySource)
    (prov : option Provenance) : ItemEntry :=
  let e := (newItemEntry recorded) <| it_ResponseID := responseID |> <| it_Failed := failed |> in
  let e := match from with
           | Some from => let '(cf, trust) := entryFor from recorded in e <| it_CopiedFrom := Some cf |> <| it_Trust := trust |>
           | None => e
           end in
  let e := recordProvenance e prov in
  let e := if hidden then e <| it_Visible := Some false |> else e in
  if bool_decide (modelCallID = "") then e else e <| it_ModelCallID := modelCallID |>.

(** An input's entry names the queued entry it was accepted as, or what prompted it. *)
Definition inputEntry (w : writer) (inp : option inboxItem) (source : option sTrigger) (e : entry) : entry :=
  match e with
  | EItem ie =>
      let ie := match inp with
                | Some inp => if negb (bool_decide (in_entry inp = ""))
                              then ie <| it_QueuedFrom := in_entry inp |> <| it_Source := in_trigger inp |> else ie
                | None => match source with Some s => ie <| it_Source := Some s |> | None => ie end
                end in
      EItem (ie <| it_FromLink := fromLink w (it_Source ie) |>)
  | e => e
  end.

(** What the writer keeps of an entry it appended for an item, and what the entry makes of
    the item's call. *)
Definition noteEntry (i recorded : item) (responseID id : string) (appOnly : bool) : act unit :=
  modify (fun w => w
    <| wr_items ::= (fun l => l ++ [id]) |>
    <| wr_values ::= (fun l => l ++ [i]) |>
    <| wr_custom ::= (fun l => l ++ [appOnly]) |>
    <| wr_meta ::= (fun l => l ++ [{| im_recorded := if same recorded i then None else Some recorded; im_canon := canonicalItem recorded |}]) |>
    <| wr_models ::= (fun l => l ++ [match i with
                                     | IReasoning _ _ => if bool_decide (responseID = "") then "" else wr_model w
                                     | _ => ""
                                     end]) |>).
Definition noteCall (i : item) (id : string) (appOnly copied : bool) : act unit :=
  match i with
  | ICall _ v =>
      if copied && negb appOnly then modify (fun w => w <| wr_copied ::= (fun s => {[ CallID v ]} ∪ s) |>)
      else if appOnly then modify (fun w => w <| wr_appOnly ::= (fun s => {[ CallID v ]} ∪ s) |>)
      else modify (fun w => w <| wr_calls ::= <[CallID v := newCallRecord id (Arguments v)]> |>
                              <| wr_open ::= (fun l => l ++ [CallID v]) |>)
  | IOutput _ o => close (OutCallID o)
  | _ => ret tt
  end.

(** [writer.itemFrom]. *)
Definition itemFrom (cx : AnswerContext) (i : item) (responseID : string) (hidden : bool) (source : option sTrigger)
    (modelCallID : string) (from : option copySource) (prov : option Provenance) : act unit :=
  if isNil i then ret tt
  else
    from ← (w ← get id;
            match i with
            | IOutput _ o =>
                if bool_decide (from = None) && bool_decide (OutCallID o ∈ wr_copied w) && negb (bool_decide (wr_parentID w = ""))
                then copiedFrom Nil else ret from
            | _ => ret from
            end);
    '(failed, from) ← (w ← get id;
                       match i with
                       | IOutput _ o =>
                           if negb (wr_replay w) && negb (bool_decide (OutCallID o ∈ wr_copied w)) then accountFor cx i o from
                           else ret (false, from)
                       | _ => ret (false, from)
                       end);
    session ← get wr_id;
    recorded ← world (sidecar session i);
    let appOnly := negb (filterKeeps i) in
    e ← (if appOnly
         then match marshalText recorded with
              | None => throw (Errorf "session: encode item")
              | Some data => ret (ECustom {| cu_NS := ItemType i; cu_Data := data; cu_CallID := ""; cu_ResponseID := Some responseID |})
              end
         else ret (EItem (itemEntry i recorded responseID modelCallID failed hidden from prov)));
    e ← (if bool_decide (responseID = "") then inp ← drained i; w ← get id; ret (inputEntry w inp source e) else ret e);
    id ← append e;
    noteEntry i recorded responseID id appOnly ;;
    noteCall i id appOnly (negb (bool_decide (from = None))).

(** ** A run's end *)

(** [writer.pendingOnPath]. *)
Definition pendingOnPath (w : writer) : bool := negb (forallb (fun '(_, c) => c_answered c) (map_to_list (wr_calls w))).
End Ledger.
