(* ===== verification/Grammar.v ===== *)
(** * Grammar: the order of the entries about a call ([session/session.go])

    What the format allows of a call's entries, as a machine over the path, and that the
    ledger writes no entry out of that order, whatever the loop reports, wherever an
    append fails and whatever else is written in between. *)

From S2P Require Export Ledger.

Create HintDb ledger.

(** ** The format's order

    A call's standing: the hand-offs to its tool not withdrawn, whether a reject, an answer,
    a result or its output is on the path, and whether it may have run where the path
    cannot say. *)
Record standing := { h_handOffs : nat; h_unknown : bool; h_rejected : bool; h_answer : bool; h_result : bool; h_output : bool }.
#[export] Instance eta_standing : Eta standing := fun r =>
  Build_standing (h_handOffs r) (h_unknown r) (h_rejected r) (h_answer r) (h_result r) (h_output r).

Inductive status := NoCall | Live (h : standing) | Bad.

Definition made : standing :=
  {| h_handOffs := 0; h_unknown := false; h_rejected := false; h_answer := false; h_result := false; h_output := false |}.

(** The call an entry is about. *)
Definition about (e : entry) : option string :=
  match e with
  | EDecision d => Some (de_CallID d)
  | EDispatch d => Some (di_CallID d)
  | EResult r => Some (rt_CallID r)
  | EItem i =>
      match it_Item i with
      | ICall _ c => if bool_decide (it_CopiedFrom i = None) then Some (CallID c) else None
      | IOutput _ o => Some (OutCallID o)
      | _ => None
      end
  | _ => None
  end.

(** Only the output may follow a reject or an answer. *)
Definition closed (h : standing) : bool := h_rejected h || h_answer h || h_output h.

(** What an entry about a live call makes of it. *)
Definition after (h : standing) (e : entry) : status :=
  match e with
  | EDecision d =>
      if de_Withdrawn d
      then match h_handOffs h with
           | S n => if closed h || h_result h then Bad else Live (h <| h_handOffs := n |>)
           | O => Bad
           end
      else if closed h then Bad
      else match de_Verdict d with
           | VerdictProceed | VerdictHold => if h_result h then Bad else Live h
           | VerdictReject =>
               if bool_decide (h_handOffs h = 0%nat) && negb (h_unknown h) && negb (h_result h)
               then Live (h <| h_rejected := true |>) else Bad
           | VerdictAnswer =>
               if negb (bool_decide (h_handOffs h = 0%nat)) || h_unknown h then Live (h <| h_answer := true |>) else Bad
           end
  | EDispatch _ => if closed h || h_result h then Bad else Live (h <| h_handOffs ::= S |>)
  | EResult _ => if closed h || h_result h || bool_decide (h_handOffs h = 0%nat) then Bad else Live (h <| h_result := true |>)
  | EItem i =>
      match it_Item i with
      | ICall _ _ => Live made
      | _ =>
          if negb (h_output h) && (h_rejected h || h_answer h || h_result h || negb (bool_decide (h_handOffs h = 0%nat)))
          then Live (h <| h_output := true |>) else Bad
      end
  | _ => Live h
  end.

Definition step (id : string) (s : status) (e : entry) : status :=
  if bool_decide (about e = Some id)
  then match s with
       | Live h => after h e
       | NoCall => match e with EItem i => match it_Item i with ICall _ _ => Live made | _ => NoCall end | _ => NoCall end
       | Bad => Bad
       end
  else s.

(** The status of a call after the entries of a path, from what it was. *)
Definition statusOf (seed : string -> status) (id : string) (path : list entry) : status := foldl (step id) (seed id) path.

(** ** What the writer knows of it *)

(** A record that agrees with the standing of its call, in the run [run]. *)
Record agrees (run : string) (c : callRecord) (h : standing) : Prop := {
  ag_output : h_output h = true -> c_answered c = true;
  ag_rejected : c_rejected c = h_rejected h;
  ag_answer : c_ended c = h_answer h;
  ag_result : bool_decide (is_Some (c_result c)) = h_result h;
  ag_dispatched : c_dispatched c = negb (bool_decide (h_handOffs h = 0%nat));
  ag_unknown : c_dispatched c = false -> c_unknown c = h_unknown h;
  ag_maybe : c_unknown c = true -> h_unknown h = true;
  ag_before : forall b, c_before c = Some b ->
    ds_dispatched b = negb (bool_decide (h_handOffs h = 0 \/ h_handOffs h = 1)%nat) /\
    (ds_dispatched b = false -> ds_unknown b = h_unknown h) /\ (ds_unknown b = true -> h_unknown h = true);
  ag_written : c_dispatched c = true -> c_dispatchRun c <> "" -> c_lastWithdrawn c = false -> c_before c <> None;
  ag_run : c_dispatched c = true -> c_dispatchRun c = run -> run <> "" -> c_ended c = false;
  ag_closed : h_result h = true -> h_rejected h = false;
  ag_ran : h_rejected h = true -> h_handOffs h = 0%nat;
  ag_returned : h_result h = true -> h_handOffs h <> 0%nat;
}.

Definition agreed (run : string) (c : option callRecord) (s : status) : Prop :=
  match c, s with
  | Some c, Live h => agrees run c h
  | None, NoCall => True
  | _, _ => False
  end.

Section Grammar.
Context {W : Type} `{Enc : !Encoding} `{Rec : !Recording W} `{Tools : !Tooling W}.
Abbreviation st := (writer * W)%type.
Abbreviation act := (act st).
Variable seed : string -> status.

Definition path (w : writer) : list entry := map ak_entry (wr_written w).

(** The invariant of a writer of a live run. *)
Definition kept (w : writer) : Prop :=
  wr_replay w = false /\
  (forall id, agreed (wr_run w) (wr_calls w !! id) (statusOf seed id (path w))) /\
  (forall id, id ∈ wr_copied w -> wr_calls w !! id = None).

(** The ledger's part of a writer. *)
Definition sameLedger (w w' : writer) : Prop :=
  wr_calls w' = wr_calls w /\ wr_run w' = wr_run w /\ wr_copied w' = wr_copied w /\ wr_replay w' = wr_replay w.
Definition appended (es : list entry) (w w' : writer) : Prop := sameLedger w w' /\ path w' = path w ++ es.

#[export] Instance sameLedger_refl : Reflexive sameLedger.
Proof. by intros w. Qed.
#[export] Instance sameLedger_trans : Transitive sameLedger.
Proof. intros a b c (H1 & H2 & H3 & H4) (G1 & G2 & G3 & G4). unfold sameLedger. by rewrite G1, G2, G3, G4. Qed.
Lemma appended_nil w w' : sameLedger w w' -> path w' = path w -> appended [] w w'.
Proof. intros H E. split; [done|]. by rewrite app_nil_r. Qed.
Lemma appended_trans es es' w w1 w2 : appended es w w1 -> appended es' w1 w2 -> appended (es ++ es') w w2.
Proof. intros [H1 E1] [H2 E2]. split; [by etrans|]. by rewrite E2, E1, app_assoc. Qed.

Lemma reopen_spec s : appended [] s.1 (reopen s).2.1.
Proof.
  unfold reopen, bind, get. destruct (negb _); [by apply appended_nil|]. unfold world.
  destruct (storeOpen _ _) as [[r|e] h]; by apply appended_nil.
Qed.

Lemma acknowledge_spec again e id s : exists s', acknowledge again e id s = (inl id, s') /\ appended [] s.1 s'.1.
Proof.
  unfold acknowledge. destruct again.
  - pose proof (reopen_spec (s.1 <| wr_reopenOwed := true |>, s.2)) as [Hl Hp].
    destruct (answers e); eexists; (split; [reflexivity|]); by split.
  - destruct (answers e); eexists; (split; [reflexivity|]); by apply appended_nil.
Qed.

Lemma append_spec e s :
  match append e s with
  | (inl _, s') => appended [e] s.1 s'.1
  | (inr _, s') => appended [] s.1 s'.1
  end.
Proof.
  unfold append, bind at 1. pose proof (reopen_spec s) as Ho. destruct (reopen s) as [[u|err] s1]; [|done].
  unfold bind, get, world. destruct (storeWrite _ _ _) as [[r|err] h]; [|done]. cbn [fst snd] in *. unfold modify.
  set (s2 := (_, _)). destruct (acknowledge_spec r.2 e r.1 s2) as (s' & -> & Hr).
  change [e] with ([] ++ [e] ++ []). apply (appended_trans _ _ _ _ _ Ho).
  apply (appended_trans _ _ _ s2.1); [|done]. split; [done|]. unfold path. cbn. upd. by rewrite map_app.
Qed.

(** ** What keeps the invariant *)

Lemma statusOf_app id l l' : statusOf seed id (l ++ l') = foldl (step id) (statusOf seed id l) l'.
Proof. unfold statusOf. by rewrite foldl_app. Qed.
Lemma step_other id s e : about e <> Some id -> step id s e = s.
Proof. intros H. unfold step. by rewrite bool_decide_false. Qed.

Lemma kept_appended w w' es : kept w -> appended es w w' -> Forall (fun e => about e = None) es -> kept w'.
Proof.
  intros (Hr & Ha & Hc) [(E1 & E2 & E3 & E4) Ep] Hes. unfold kept. rewrite E1, E2, E3, E4, Ep. split_and!; [done| |done].
  intros id. rewrite statusOf_app. assert (forall s, foldl (step id) s es = s) as ->; [|done].
  clear Ep. induction Hes as [|e es He _ IH]; [done|]. intros s. cbn. rewrite IH. by rewrite step_other by congruence.
Qed.

(** One entry about the call [id], whose record [f] changes. *)
Definition becomes (id : string) (f : callRecord -> callRecord) (es : list entry) (w w' : writer) : Prop :=
  wr_calls w' = alter f id (wr_calls w) /\ wr_run w' = wr_run w /\ wr_copied w' = wr_copied w /\ wr_replay w' = wr_replay w /\
  path w' = path w ++ es.

Lemma kept_becomes w w' id f e c : kept w -> becomes id f [e] w w' -> wr_calls w !! id = Some c -> about e = Some id ->
  (forall h, agrees (wr_run w) c h -> exists h', after h e = Live h' /\ agrees (wr_run w) (f c) h') -> kept w'.
Proof.
  intros (Hr & Ha & Hc) (E1 & E2 & E3 & E4 & Ep) Hid He Hf. unfold kept. rewrite E1, E2, E3, E4, Ep. split_and!; [done| |].
  - intros id'. rewrite statusOf_app. cbn. destruct (decide (id = id')) as [<-|Hne].
    + specialize (Ha id). rewrite Hid in Ha. rewrite lookup_alter_eq, Hid. cbn in *.
      destruct (statusOf seed id (path w)) as [|h|]; [done| |done]. destruct (Hf h Ha) as (h' & Eh & Hh).
      unfold step. rewrite bool_decide_true by done. by rewrite Eh.
    + rewrite lookup_alter_ne by done. rewrite step_other by congruence. apply Ha.
  - intros id' Hi. destruct (decide (id = id')) as [<-|Hne]; [by rewrite (Hc _ Hi) in Hid|].
    rewrite lookup_alter_ne by done. by apply Hc.
Qed.

Lemma kept_set w w' id f : kept w -> becomes id f [] w w' ->
  (forall c h, wr_calls w !! id = Some c -> agrees (wr_run w) c h -> agrees (wr_run w) (f c) h) -> kept w'.
Proof.
  intros (Hr & Ha & Hc) (E1 & E2 & E3 & E4 & Ep) Hf. unfold kept. rewrite E1, E2, E3, E4, Ep, app_nil_r. split_and!; [done| |].
  - intros id'. destruct (decide (id = id')) as [<-|Hne]; [|rewrite lookup_alter_ne by done; apply Ha].
    specialize (Ha id). rewrite lookup_alter_eq. destruct (wr_calls w !! id) as [c|] eqn:E; [|done]. cbn in *.
    destruct (statusOf _ _ _) as [|h|]; [done| |done]. by apply Hf.
  - intros id' Hi. destruct (decide (id = id')) as [<-|Hne]; [by rewrite lookup_alter_eq, (Hc _ Hi)|].
    rewrite lookup_alter_ne by done. by apply Hc.
Qed.

(** Actions that change nothing of the ledger, or append what is about no call. *)
Definition plain {A} (m : act A) : Prop := forall s, exists es, appended es s.1 (m s).2.1 /\ Forall (fun e => about e = None) es.

Lemma plain_quiet {A} (m : act A) : (forall s, appended [] s.1 (m s).2.1) -> plain m.
Proof. intros H s. exists []. by split. Qed.
Lemma plain_bind {A B} (m : act A) (f : A -> act B) : plain m -> (forall x, plain (f x)) -> plain (bind m f).
Proof.
  intros Hm Hf s. unfold bind. destruct (Hm s) as (es & He & Hes). destruct (m s) as [[x|e] s1]; [|by exists es].
  destruct (Hf x s1) as (es' & He' & Hes'). exists (es ++ es'). split; [by eapply appended_trans|by apply Forall_app].
Qed.
Lemma plain_ret {A} (x : A) : plain (ret x).
Proof. apply plain_quiet. intros s. by apply appended_nil. Qed.
Lemma plain_throw {A} e : plain (throw (A := A) e).
Proof. apply plain_quiet. intros s. by apply appended_nil. Qed.
Lemma plain_fallible {A} (r : A + error) : plain (fallible r).
Proof. apply plain_quiet. intros s. by apply appended_nil. Qed.
Lemma plain_get {A} (f : writer -> A) : plain (get f).
Proof. apply plain_quiet. intros s. by apply appended_nil. Qed.
Lemma plain_worldGet {A} (f : W -> A) : plain (worldGet f).
Proof. apply plain_quiet. intros s. by apply appended_nil. Qed.
Lemma plain_world {A} (f : W -> (A + error) * W) : plain (world f).
Proof. apply plain_quiet. intros s. unfold world. destruct (f s.2). by apply appended_nil. Qed.
Lemma plain_modify f : (forall w, sameLedger w (f w) /\ path (f w) = path w) -> plain (modify f).
Proof. intros H. apply plain_quiet. intros s. destruct (H s.1). by apply appended_nil. Qed.
Lemma plain_append e : about e = None -> plain (append e).
Proof.
  intros He s. pose proof (append_spec e s) as H. destruct (append e s) as [[id|err] s'].
  - exists [e]. split; [done|]. by repeat constructor.
  - exists []. by split.
Qed.
Lemma plain_call id : plain (call id).
Proof. apply plain_get. Qed.
Lemma plain_takeUp id : plain (takeUp id).
Proof. apply plain_modify. intros w. destruct (wr_calls w !! id); [|done]. by destruct (_ || _). Qed.

Lemma kept_plain {A} (m : act A) s : plain m -> kept s.1 -> kept (m s).2.1.
Proof. intros Hm Hk. destruct (Hm s) as (es & He & Hes). by eapply kept_appended. Qed.
End Grammar.

#[export] Hint Resolve plain_bind plain_ret plain_throw plain_fallible plain_get plain_worldGet plain_world plain_append plain_call
  plain_takeUp : ledger.
#[export] Hint Extern 1 (plain (modify _)) => (apply plain_modify; intros ?; by split) : ledger.

(** Plain actions, by their parts. *)
Ltac plain :=
  repeat first
  [ simple apply plain_append; reflexivity | simple apply plain_bind; [|intros ?] | progress eauto with ledger
  | match goal with |- plain (match ?x with _ => _ end) => destruct x | |- plain (let _ := _ in _) => cbv zeta end ].

Section Plain.
Context {W : Type} `{Enc : !Encoding} `{Rec : !Recording W} `{Tools : !Tooling W}.
Abbreviation st := (writer * W)%type.
Abbreviation act := (act st).

Lemma plain_reopen : plain (W := W) reopen.
Proof. apply plain_quiet, reopen_spec. Qed.
Lemma plain_noteCallee l id : plain (W := W) (noteCallee l id).
Proof. apply plain_modify. intros w. by destruct (negb _). Qed.
#[local] Hint Resolve plain_noteCallee : ledger.
Lemma plain_nested n parent : plain (W := W) (nested n parent).
Proof. unfold nested. plain. Qed.
Lemma plain_link child id : plain (W := W) (link child id).
Proof. unfold link. plain. Qed.
#[local] Hint Resolve plain_link : ledger.
Lemma plain_tryAppend e : about e = None -> plain (W := W) (tryAppend e).
Proof.
  intros He s. unfold tryAppend. destruct (plain_append (W := W) e He s) as (es & H & Hes). exists es.
  by destruct (append e s) as [[id|err] s'].
Qed.
#[local] Hint Resolve plain_tryAppend : ledger.
Lemma plain_record ns data id own : plain (W := W) (record ns data id own).
Proof. unfold record. plain. Qed.
Lemma plain_copyCallees id links used : plain (W := W) (copyCallees id links used).
Proof. revert used. induction links as [|c links IH]; intros used; cbn [copyCallees]; plain. Qed.
Lemma plain_copyLinks id c : plain (W := W) (copyLinks id c).
Proof. unfold copyLinks, when. plain. apply plain_copyCallees. Qed.
Lemma plain_child id info : plain (W := W) (child id info).
Proof. unfold child. plain. Qed.
Lemma plain_details e : plain (W := W) (details e).
Proof.
  unfold details. destruct (childInfo _) as [info|]; [destruct children; [apply plain_child|]|];
    (plain; try apply plain_record; destruct (RecordOf _); plain).
Qed.
Lemma plain_parentPath fresh : plain (W := W) (parentPath fresh).
Proof. unfold parentPath. plain. Qed.
#[local] Hint Resolve plain_parentPath : ledger.
Lemma plain_copiedFrom i : plain (W := W) (copiedFrom i).
Proof. unfold copiedFrom. plain. Qed.
Lemma plain_drained i : plain (W := W) (drained i).
Proof. unfold drained. plain. Qed.
Lemma plain_requeue : plain (W := W) requeue.
Proof.
  unfold requeue. apply plain_bind; [plain|]. intros l. generalize 0%nat. induction l as [|inp l IH]; intros i; cbn [requeueFrom]; [plain|].
  unfold setInbox. plain.
Qed.
End Plain.
#[export] Hint Resolve plain_reopen plain_noteCallee plain_nested plain_link plain_record plain_copyCallees plain_copyLinks plain_child
  plain_details plain_copiedFrom plain_drained plain_requeue : ledger.

(** ** Decisions, hand-offs and results *)

Section Steps.
Context {W : Type} `{Enc : !Encoding} `{Rec : !Recording W} `{Tools : !Tooling W}.
Abbreviation st := (writer * W)%type.
Abbreviation act := (act st).
Variable seed : string -> status.
Abbreviation kept := (kept seed).

(** Records that agree alike. *)
Lemma agrees_like run c c' h :
  c_answered c' = c_answered c -> c_rejected c' = c_rejected c -> c_ended c' = c_ended c -> c_result c' = c_result c ->
  c_dispatched c' = c_dispatched c -> c_unknown c' = c_unknown c -> c_before c' = c_before c ->
  c_dispatchRun c' = c_dispatchRun c -> c_lastWithdrawn c' = c_lastWithdrawn c -> agrees run c h -> agrees run c' h.
Proof. intros E1 E2 E3 E4 E5 E6 E7 E8 E9 []. constructor; rewrite ?E1, ?E2, ?E3, ?E4, ?E5, ?E6, ?E7, ?E8, ?E9; done. Qed.

Lemma agrees_open run c h : agrees run c h -> c_answered c = false -> c_rejected c = false -> c_ended c = false -> closed h = false.
Proof.
  intros [] Ha Hr He. unfold closed. rewrite <- ag_rejected0, <- ag_answer0, Hr, He. destruct (h_output h); [|done].
  by rewrite ag_output0 in Ha.
Qed.
Lemma agrees_unreturned run c h : agrees run c h -> c_result c = None -> h_result h = false.
Proof. intros [] Hr. rewrite <- ag_result0, Hr. done. Qed.
Lemma agrees_standing run c h : agrees run c h -> c_dispatched c = true -> exists n, h_handOffs h = S n.
Proof. intros [] Hd. rewrite ag_dispatched0 in Hd. destruct (h_handOffs h) as [|n]; [done|by exists n]. Qed.
Lemma agrees_none run c h : agrees run c h -> c_dispatched c = false -> h_handOffs h = 0%nat /\ h_result h = false.
Proof.
  intros [] Hd. rewrite ag_dispatched0 in Hd. destruct (decide (h_handOffs h = 0%nat)) as [E|]; [|by rewrite bool_decide_false in Hd].
  split; [done|]. destruct (h_result h); [|done]. by destruct ag_returned0.
Qed.

(** An entry about a call, and then its record changed. *)
Lemma writes_spec e id s :
  match (append e ;; takeUp id) s with
  | (inl _, s') => appended [e] s.1 s'.1
  | (inr _, s') => appended [] s.1 s'.1
  end.
Proof.
  unfold bind. pose proof (append_spec e s) as Ha. destruct (append e s) as [[x|err] s1]; [|done].
  unfold takeUp, modify. cbn [fst snd]. destruct (wr_calls s1.1 !! id) as [c|]; [destruct (_ || _)|]; done.
Qed.

Lemma kept_written w w' id e c : kept w -> appended [e] w w' -> wr_calls w !! id = Some c -> about e = Some id ->
  (forall h, agrees (wr_run w) c h -> exists h', after h e = Live h' /\ agrees (wr_run w) c h') -> kept w'.
Proof.
  intros Hk [(E1 & E2 & E3 & E4) Ep] Hid He Hf. eapply (kept_becomes seed w w' id (fun c => c) e c); [done| |done..].
  unfold becomes. rewrite E1, E2, E3, E4, Ep. split_and!; try done. apply map_eq. intros i.
  destruct (decide (id = i)) as [<-|]; [rewrite lookup_alter_eq|by rewrite lookup_alter_ne]. by destruct (wr_calls w !! id).
Qed.

Lemma decides id e (f : callRecord -> callRecord) s c : kept s.1 -> wr_calls s.1 !! id = Some c -> about e = Some id ->
  (forall h, agrees (wr_run s.1) c h -> exists h', after h e = Live h' /\ agrees (wr_run s.1) (f c) h') ->
  kept ((append e ;; takeUp id ;; setCall id f) s).2.1.
Proof.
  intros Hk Hid He Hf. pose proof (writes_spec e id s) as Ha. unfold bind in *.
  destruct (append e s) as [[x|err] s1]; [|by apply (kept_appended seed s.1 _ [])].
  destruct (takeUp id s1) as [[u|err] s2]; [|by apply (kept_appended seed s.1 _ [])].
  destruct Ha as [(E1 & E2 & E3 & E4) Ep]. eapply (kept_becomes seed s.1 _ id f e c); [done| |done..].
  unfold setCall, modify, becomes, path in *. cbn [fst snd]. upd. by rewrite E1, E2, E3, E4, Ep.
Qed.

Lemma kept_setCall id f (s : st) : kept s.1 ->
  (forall c h, wr_calls s.1 !! id = Some c -> agrees (wr_run s.1) c h -> agrees (wr_run s.1) (f c) h) -> kept (setCall id f s).2.1.
Proof. intros Hk Hf. apply (kept_set seed s.1 _ id f); [done| |done]. repeat split. unfold path. cbn. upd. by rewrite app_nil_r. Qed.

(** A call no decision has closed, that is not handed over in this run. *)
Definition undecided (w : writer) (id : string) (c : callRecord) : Prop :=
  wr_calls w !! id = Some c /\ c_answered c = false /\ c_rejected c = false /\ c_ended c = false /\
  (c_dispatched c = true -> wr_run w = "" \/ c_dispatchRun c <> wr_run w).

Lemma answer_allowed run c h id by_ reason c0 : agrees run c h ->
  c_answered c = false -> c_rejected c = false -> c_ended c = false -> (c_dispatched c = true -> run = "" \/ c_dispatchRun c <> run) ->
  c_dispatched c || c_unknown c = true ->
  exists h', after h (EDecision (decision id c0 VerdictAnswer by_ reason)) = Live h' /\
    agrees run (c <| c_held := false |> <| c_ended := true |>) h'.
Proof.
  intros Ag Ha Hr He Hd Hm. pose proof (agrees_open _ _ _ Ag Ha Hr He) as Hc. exists (h <| h_answer := true |>). split.
  - cbn. rewrite Hc. apply orb_true_iff in Hm as [Hm|Hm].
    + destruct (agrees_standing _ _ _ Ag Hm) as [n ->]. done.
    + by rewrite (ag_maybe _ _ _ Ag Hm), orb_true_r.
  - destruct Ag. constructor; upd; try done. intros Hdd Hrun Hne. destruct (Hd Hdd); congruence.
Qed.

Lemma reject_allowed run c h id by_ reason c0 : agrees run c h ->
  c_answered c = false -> c_rejected c = false -> c_ended c = false -> c_dispatched c || c_unknown c = false ->
  exists h', after h (EDecision (decision id c0 VerdictReject by_ reason)) = Live h' /\
    agrees run (c <| c_held := false |> <| c_rejected := true |>) h'.
Proof.
  intros Ag Ha Hr He Hm. pose proof (agrees_open _ _ _ Ag Ha Hr He) as Hc. apply orb_false_iff in Hm as [Hd Hu].
  destruct (agrees_none _ _ _ Ag Hd) as [Hn Hres]. exists (h <| h_rejected := true |>). split.
  - cbn. rewrite Hc, Hn, Hres. by rewrite <- (ag_unknown _ _ _ Ag Hd), Hu.
  - destruct Ag. constructor; upd; try done. by rewrite Hres.
Qed.

Lemma kept_block id c c0 by_ reason s : kept s.1 -> undecided s.1 id c ->
  c_dispatched c0 = c_dispatched c -> c_unknown c0 = c_unknown c -> kept (blockCall id c0 by_ reason s).2.1.
Proof.
  intros Hk (Hid & Ha & Hr & He & Hd) E1 E2. unfold blockCall. rewrite E1, E2. destruct (_ || _) eqn:Em.
  - eapply decides; [done|done|done|]. intros h Ag. by apply answer_allowed.
  - eapply decides; [done|done|done|]. intros h Ag. by apply reject_allowed.
Qed.

Lemma goes_on run c h d : agrees run c h -> c_answered c = false -> c_rejected c = false -> c_ended c = false -> c_result c = None ->
  de_Withdrawn d = false -> de_Verdict d = VerdictProceed \/ de_Verdict d = VerdictHold -> after h (EDecision d) = Live h.
Proof.
  intros Ag Ha Hr He Hres Hw Hv. cbn. rewrite Hw, (agrees_open _ _ _ Ag Ha Hr He), (agrees_unreturned _ _ _ Ag Hres).
  by destruct Hv as [-> | ->].
Qed.

Lemma kept_hold id c c0 by_ d args s : kept s.1 -> undecided s.1 id c -> c_result c = None -> kept (holdCall id c0 by_ d args s).2.1.
Proof.
  intros Hk (Hid & Ha & Hr & He & Hd) Hres. unfold holdCall.
  set (hold := if carries c0 args then _ else _).
  assert (about (EDecision hold) = Some id /\ de_Withdrawn hold = false /\ de_Verdict hold = VerdictHold) as (H1 & H2 & H3)
    by (unfold hold; by destruct (carries c0 args)).
  assert (kept ((append (EDecision hold) ;; takeUp id ;; setCall id (fun c => c <| c_held := true |>)) s).2.1) as Hkk.
  { eapply decides; [done..|]. intros h Ag. exists h. split; [eapply goes_on; [done..|by right]|]. by eapply agrees_like; [..|exact Ag]. }
  unfold bind in Hkk |- *. destruct (append _ s) as [[x|err] s1]; [|done].
  destruct (takeUp id s1) as [[u|err] s2]; [|done]. destruct (setCall id _ s2) as [[u'|err] s3]; [|done]. unfold when.
  destruct (carries c0 args); [|done]. apply kept_setCall; [done|]. intros c' h _ Ag. by eapply agrees_like; [..|exact Ag].
Qed.

Lemma undecided_set id c f (s : st) : undecided s.1 id c ->
  (forall c, c_answered (f c) = c_answered c /\ c_rejected (f c) = c_rejected c /\ c_ended (f c) = c_ended c /\
    c_dispatched (f c) = c_dispatched c /\ c_dispatchRun (f c) = c_dispatchRun c) ->
  undecided (setCall id f s).2.1 id (f c).
Proof.
  intros (Hid & Ha & Hr & He & Hd) Hf. destruct (Hf c) as (E1 & E2 & E3 & E4 & E5). unfold undecided.
  rewrite E1, E2, E3, E4, E5. split; [|done]. cbn. upd. by rewrite lookup_alter_eq, Hid.
Qed.

Lemma kept_proceed id c c0 by_ reason again args s : kept s.1 -> undecided s.1 id c -> c_result c = None ->
  kept (proceedCall id c0 by_ reason again args s).2.1.
Proof.
  intros Hk Hu Hres. unfold proceedCall. set (rewritten := carries c0 args).
  assert (forall s1 : st, kept s1.1 -> kept (setCall id (fun c => c <| c_held := false |>) s1).2.1) as Hlast.
  { intros s1 Hk1. apply kept_setCall; [done|]. intros c' h _ Ag. by eapply agrees_like; [..|exact Ag]. }
  destruct (_ || _).
  - set (dec := if rewritten then _ else _).
    assert (about (EDecision dec) = Some id /\ de_Withdrawn dec = false /\ de_Verdict dec = VerdictProceed) as (H1 & H2 & H3)
      by (unfold dec; by destruct rewritten).
    assert (exists s1 c1, when rewritten (setCall id (fun c => c <| c_decided := bytesOf args |>)) s = (inl tt, s1) /\ kept s1.1 /\
      undecided s1.1 id c1 /\ c_result c1 = None) as (s1 & c1 & E1 & Hk1 & (Hid & Ha & Hr & He & Hd) & Hres1).
    { unfold when. destruct rewritten; [|by exists s, c].
      eexists _, (c <| c_decided := bytesOf args |>). split; [reflexivity|]. split; [|split; [|done]].
      - apply (kept_setCall id (fun c => c <| c_decided := bytesOf args |>) s); [done|]. intros c' h _ Ag. by eapply agrees_like; [..|exact Ag].
      - by apply (undecided_set id c (fun c => c <| c_decided := bytesOf args |>)). }
    pose proof (writes_spec (EDecision dec) id s1) as Hw. unfold bind in *. rewrite E1.
    destruct (append (EDecision dec) s1) as [[x|err] s2]; [|by apply (kept_appended seed s1.1 _ [])].
    destruct (takeUp id s2) as [[u|err] s3]; [|by apply (kept_appended seed s1.1 _ [])]. apply Hlast.
    eapply (kept_written s1.1 s3.1); [done..|]. intros h Ag. exists h. split; [eapply goes_on; [done..|by left]|done].
  - unfold bind, when. destruct again; [|by apply Hlast]. apply Hlast. cbn.
    apply (kept_setCall id (fun c => c <| c_again := Some by_ |>) s); [done|]. intros c' h _ Ag. by eapply agrees_like; [..|exact Ag].
Qed.

(** A call is started before it is handed over in its run. *)
Definition notYetHandedOver (w : writer) (id : string) : Prop :=
  forall c, wr_calls w !! id = Some c -> c_dispatched c = true -> wr_run w = "" \/ c_dispatchRun c <> wr_run w.

Lemma kept_toolStart e s : kept s.1 -> (tst_Parent e = "" -> notYetHandedOver s.1 (tst_CallID e)) -> kept (toolStart e s).2.1.
Proof.
  intros Hk Hn. unfold toolStart. destruct (bool_decide_reflect (tst_Parent e = "")) as [Hp|_]; cbn [negb].
  2: { apply (kept_plain seed); [|done]. plain. }
  specialize (Hn Hp).
  unfold bind, modify. set (s1 := (set wr_unsettled _ _, _)).
  assert (kept s1.1) as Hk1 by (by apply (kept_appended seed s.1 _ []); [|apply appended_nil|]).
  assert (wr_calls s1.1 = wr_calls s.1 /\ wr_run s1.1 = wr_run s.1) as [Ec Er] by done. unfold call, get. rewrite Ec.
  specialize (Hn). destruct (wr_calls s.1 !! tst_CallID e) as [c|] eqn:Hid; [|done].
  destruct (c_answered c) eqn:Ha; [done|]. destruct (bool_decide (is_Some (c_result c))) eqn:Hres; [done|].
  apply bool_decide_eq_false in Hres. rewrite <- eq_None_not_Some in Hres.
  destruct (c_rejected c || c_ended c) eqn:Hre; [done|]. apply orb_false_iff in Hre as [Hr He].
  set (again := _ && _ && _).
  assert (undecided s1.1 (tst_CallID e) c) as Hu by (split; [by rewrite Ec|]; split_and!; [done..|]; rewrite Er; by apply Hn).
  assert (kept (setCall (tst_CallID e) (fun c => c <| c_again := None |>) s1).2.1) as Hk2.
  { apply kept_setCall; [done|]. intros c' h _ Ag. by eapply agrees_like; [..|exact Ag]. }
  apply (undecided_set _ _ (fun c => c <| c_again := None |>)) in Hu; [|done].
  destruct (setCall _ _ s1) as [[u|err] s2] eqn:Es; [|done]. cbn [fst snd] in *.
  destruct (tst_Decision e) as [d|]; [destruct (Action d)|].
  - by eapply kept_proceed.
  - by eapply kept_block.
  - by eapply kept_hold.
  - by eapply kept_proceed.
Qed.

(** No hand-off of a call whose answer the path holds; or the store, which checks an entry
    against its session's path, takes neither a hand-off of it nor a decision on it. *)
Definition notAnswered (w : writer) (id : string) : Prop := forall c, wr_calls w !! id = Some c -> c_ended c = false.
Definition decides_ (e : entry) : bool := match e with EDispatch _ | EDecision _ => true | _ => false end.
Definition refused (id : string) (s : st) : Prop := forall e x, about e = Some id -> decides_ e = true -> (append e s).1 <> inl x.
Definition handedOnce (s : st) (id : string) : Prop := notAnswered s.1 id \/ refused id s.

Lemma refused_kept id e (s : st) : kept s.1 -> refused id s -> about e = Some id -> decides_ e = true ->
  exists err, (append e s).1 = inr err /\ kept (append e s).2.1.
Proof.
  intros Hk Hr He Hd. pose proof (append_spec e s) as Ha. specialize (Hr e). destruct (append e s) as [[x|err] s1].
  - by destruct (Hr x He Hd).
  - exists err. split; [done|]. by apply (kept_appended seed s.1 _ []).
Qed.

(** The fields of a standing whose hand-offs are counted anew. *)
Ltac count_fields :=
  match goal with |- context [set h_handOffs ?f ?h] =>
    change (h_output (set h_handOffs f h)) with (h_output h); change (h_rejected (set h_handOffs f h)) with (h_rejected h);
    change (h_answer (set h_handOffs f h)) with (h_answer h); change (h_result (set h_handOffs f h)) with (h_result h);
    change (h_unknown (set h_handOffs f h)) with (h_unknown h); change (h_handOffs (set h_handOffs f h)) with (f (h_handOffs h)); cbv beta
  end.

Lemma dispatched_fields id entry run c :
  c_answered (dispatched id entry run c) = c_answered c /\ c_rejected (dispatched id entry run c) = c_rejected c /\
  c_ended (dispatched id entry run c) = c_ended c /\ c_result (dispatched id entry run c) = c_result c /\
  c_dispatched (dispatched id entry run c) = true /\ c_lastWithdrawn (dispatched id entry run c) = false /\
  exists b, c_before (dispatched id entry run c) = Some b /\
    (ds_dispatched b = c_dispatched c /\ ds_unknown b = c_unknown c) /\ c_unknown (dispatched id entry run c) = false.
Proof. destruct c. unfold dispatched. repeat split. eexists. repeat split. Qed.

Lemma dispatch_allowed run c h id entry key target : agrees run c h -> c_answered c = false -> c_rejected c = false ->
  c_ended c = false -> c_result c = None ->
  exists h', after h (EDispatch {| di_CallID := id; di_Target := target; di_IdempotencyKey := key |}) = Live h' /\
    agrees run (dispatched id entry run c) h'.
Proof.
  intros Ag Ha Hr He Hres. exists (h <| h_handOffs ::= S |>). split.
  - cbn. by rewrite (agrees_open _ _ _ Ag Ha Hr He), (agrees_unreturned _ _ _ Ag Hres).
  - pose proof (agrees_unreturned _ _ _ Ag Hres) as Hhr.
    destruct (dispatched_fields id entry run c) as (E1 & E2 & E3 & E4 & E5 & E6 & b & E7 & (B1 & B2) & E8).
    generalize dependent (dispatched id entry run c). intros c' **. destruct Ag.
    constructor; try count_fields; rewrite ?E1, ?E2, ?E3, ?E4, ?E5, ?E6, ?E7, ?E8; try done.
    + intros b' [= <-]. rewrite B1, B2. split_and!; [|done|done]. rewrite ag_dispatched0. f_equal. apply bool_decide_ext. lia.
    + congruence.
Qed.

Lemma kept_toolDispatch e s : kept s.1 -> (tdi_Parent e = "" -> handedOnce s (tdi_CallID e)) -> kept (toolDispatch e s).2.1.
Proof.
  intros Hk Hn. unfold toolDispatch. destruct (bool_decide_reflect (tdi_Parent e = "")) as [Hp|_]; cbn [negb].
  2: { apply (kept_plain seed); [|done]. plain. }
  specialize (Hn Hp).
  set (id := tdi_CallID e). unfold bind at 1 2 3, call, get. destruct (wr_calls s.1 !! id) as [c|] eqn:Hid.
  2: { by destruct (bool_decide _). }
  destruct (_ || _) eqn:Hrd; [done|]. apply orb_false_iff in Hrd as [Hr Hd].
  destruct (c_answered c) eqn:Ha; [done|]. destruct (bool_decide (is_Some (c_result c))) eqn:Hres; [done|].
  apply bool_decide_eq_false in Hres. rewrite <- eq_None_not_Some in Hres.
  destruct Hn as [Hn|Hn].
  2: { destruct (c_again c) as [by_|].
    - unfold bind at 1 2. destruct (refused_kept id (EDecision (decision id c VerdictProceed by_ agentRunAgain)) s) as (err & He & Hk1); [done..|].
      destruct (append _ s) as [r s1]. cbn [fst snd] in *. by subst r.
    - unfold bind at 1 2, ret. match goal with |- context [append ?d s] => destruct (refused_kept id d s) as (err & He & Hk1); [done..|] end.
      destruct (append _ s) as [r s1]. cbn [fst snd] in *. by subst r. }
  specialize (Hn c Hid) as He.
  set (m := match c_again c with Some _ => _ | None => _ end).
  assert (match m s with (inl _, s1) => kept s1.1 /\ wr_run s1.1 = wr_run s.1 /\ exists c1, wr_calls s1.1 !! id = Some c1 /\
    c_answered c1 = false /\ c_rejected c1 = false /\ c_ended c1 = false /\ c_result c1 = None | (inr _, s1) => kept s1.1 end) as Hm.
  { unfold m. destruct (c_again c) as [by_|]; [|split_and!; [done..|]; by exists c].
    set (dec := decision _ _ _ _ _). pose proof (writes_spec (EDecision dec) id s) as Hw. unfold bind in *.
    destruct (append (EDecision dec) s) as [[x|err] s1]; [|by apply (kept_appended seed s.1 _ [])].
    destruct (takeUp id s1) as [[u|err] s2]; [|by apply (kept_appended seed s.1 _ [])].
    assert (kept s2.1) as Hk2.
    { eapply (kept_written s.1 s2.1 id (EDecision dec) c); [done..|]. intros h Ag. exists h.
      split; [eapply goes_on; [done..|by left]|done]. }
    destruct Hw as [(E1 & E2 & _) _]. cbn. split; [|split].
    - apply kept_setCall; [done|]. intros c' h _ Ag. by eapply agrees_like; [..|exact Ag].
    - done.
    - exists (c <| c_again := None |>). upd. rewrite E1, lookup_alter_eq, Hid. done. }
  unfold bind at 1. destruct (m s) as [[u|err] s1]; [|done]. destruct Hm as (Hk1 & Er & c1 & Hid1 & Ha1 & Hr1 & He1 & Hres1).
  set (d := EDispatch _). pose proof (writes_spec d id s1) as Hw. unfold bind in *.
  destruct (append d s1) as [[x|err] s2]; [|by apply (kept_appended seed s1.1 _ [])].
  destruct (takeUp id s2) as [[u'|err] s3]; [|by apply (kept_appended seed s1.1 _ [])].
  destruct Hw as [(E1 & E2 & E3 & E4) Ep]. eapply (kept_becomes seed s1.1 _ id (dispatched id x (wr_run s.1)) d c1); [done| |done|done|].
  - unfold setCall, modify, becomes, path in *. cbn [fst snd]. upd. by rewrite E1, E2, E3, E4, Ep.
  - intros h Ag. rewrite <- Er. by apply dispatch_allowed.
Qed.

(** A hand-off of a run is settled once, within the run and before the call's output. *)
Definition settledOnce (w : writer) (id : string) : Prop :=
  wr_run w <> "" /\
  forall c, wr_calls w !! id = Some c -> c_dispatched c = true -> c_dispatchRun c = wr_run w ->
    c_answered c = false /\ c_result c = None.

Lemma agrees_handed run c h : agrees run c h -> c_dispatched c = true -> c_dispatchRun c = run -> run <> "" ->
  c_answered c = false -> closed h = false.
Proof.
  intros Ag Hd Hrun Hne Ha. pose proof (ag_run _ _ _ Ag Hd Hrun Hne) as He. eapply agrees_open; [done..| |done].
  destruct (agrees_standing _ _ _ Ag Hd) as [n Hn]. rewrite (ag_rejected _ _ _ Ag).
  destruct (h_rejected h) eqn:E; [|done]. by rewrite (ag_ran _ _ _ Ag E) in Hn.
Qed.

Lemma withdraw_fields c b : c_before c = Some b ->
  c_answered (withdraw c) = c_answered c /\ c_rejected (withdraw c) = c_rejected c /\ c_ended (withdraw c) = c_ended c /\
  c_result (withdraw c) = c_result c /\ c_dispatched (withdraw c) = ds_dispatched b /\ c_unknown (withdraw c) = ds_unknown b /\
  c_before (withdraw c) = None /\ c_lastWithdrawn (withdraw c) = true.
Proof. intros H. destruct c. cbn in H. subst. unfold withdraw. repeat split. Qed.

Lemma withdraw_allowed run c h id c0 reason : agrees run c h -> c_dispatched c = true -> c_dispatchRun c = run -> run <> "" ->
  c_answered c = false -> c_result c = None -> c_lastWithdrawn c = false ->
  exists h', after h (EDecision (withdrawal id c0 reason)) = Live h' /\ agrees run (withdraw c) h'.
Proof.
  intros Ag Hd Hrun Hne Ha Hres Hl. pose proof (agrees_handed _ _ _ Ag Hd Hrun Hne Ha) as Hc.
  pose proof (agrees_unreturned _ _ _ Ag Hres) as Hhr. destruct (agrees_standing _ _ _ Ag Hd) as [n Hn].
  exists (h <| h_handOffs := n |>). split; [cbn; by rewrite Hn, Hc, Hhr|].
  pose proof (ag_run _ _ _ Ag Hd Hrun Hne) as He. destruct (c_before c) as [b|] eqn:Eb.
  2: { by destruct (ag_written _ _ _ Ag Hd); [rewrite Hrun|..]. }
  destruct (ag_before _ _ _ Ag b Eb) as (B1 & B2 & B3). destruct (withdraw_fields c b Eb) as (E1 & E2 & E3 & E4 & E5 & E6 & E7 & E8).
  generalize dependent (withdraw c). intros c' **. destruct Ag.
  constructor; try count_fields;
    rewrite ?E1, ?E2, ?E3, ?E4, ?E5, ?E6, ?E7, ?E8; try done.
  - rewrite B1, Hn. f_equal. apply bool_decide_ext. lia.
  - intros Hrej. specialize (ag_ran0 Hrej). congruence.
  - congruence.
Qed.

Lemma result_allowed run c h r : agrees run c h -> c_dispatched c = true -> c_dispatchRun c = run -> run <> "" ->
  c_answered c = false -> c_result c = None ->
  exists h', after h (EResult r) = Live h' /\ agrees run (c <| c_result := Some r |>) h'.
Proof.
  intros Ag Hd Hrun Hne Ha Hres. pose proof (agrees_handed _ _ _ Ag Hd Hrun Hne Ha) as Hc.
  pose proof (agrees_unreturned _ _ _ Ag Hres) as Hhr. destruct (agrees_standing _ _ _ Ag Hd) as [n Hn].
  exists (h <| h_result := true |>). split; [cbn; by rewrite Hc, Hhr, Hn|].
  destruct Ag. constructor; upd; try done; rewrite ?Hn; try done.
  intros _. destruct (h_rejected h) eqn:E; [|done]. by rewrite ag_ran0 in Hn.
Qed.

(** An entry about a call, and then its record changed, with nothing between. *)
Lemma marks id e (f : string -> callRecord -> callRecord) s c : kept s.1 -> wr_calls s.1 !! id = Some c -> about e = Some id ->
  (forall x h, agrees (wr_run s.1) c h -> exists h', after h e = Live h' /\ agrees (wr_run s.1) (f x c) h') ->
  kept ((x ← append e; setCall id (f x)) s).2.1.
Proof.
  intros Hk Hid He Hf. unfold bind. pose proof (append_spec e s) as Ha.
  destruct (append e s) as [[x|err] s1]; [|by apply (kept_appended seed s.1 _ [])].
  destruct Ha as [(E1 & E2 & E3 & E4) Ep]. eapply (kept_becomes seed s.1 _ id (f x) e c); [done| |done..|by apply Hf].
  unfold setCall, modify, becomes, path in *. cbn [fst snd]. upd. by rewrite E1, E2, E3, E4, Ep.
Qed.

Lemma kept_like id f (s : st) : kept s.1 ->
  (forall c, c_answered (f c) = c_answered c /\ c_rejected (f c) = c_rejected c /\ c_ended (f c) = c_ended c /\
    c_result (f c) = c_result c /\ c_dispatched (f c) = c_dispatched c /\ c_unknown (f c) = c_unknown c /\
    c_before (f c) = c_before c /\ c_dispatchRun (f c) = c_dispatchRun c /\ c_lastWithdrawn (f c) = c_lastWithdrawn c) ->
  kept (setCall id f s).2.1.
Proof. intros Hk Hf. apply kept_setCall; [done|]. intros c h _ Ag. destruct (Hf c) as (?&?&?&?&?&?&?&?&?). by apply (agrees_like _ c (f c) h). Qed.

(** A record that will be settled as [c] will. *)
Definition settling (w : writer) (id : string) (c : callRecord) : Prop :=
  wr_calls w !! id = Some c /\ (c_dispatched c = true -> c_dispatchRun c = wr_run w -> c_answered c = false /\ c_result c = None).

Lemma kept_noteWithdrawal e s c : kept s.1 -> wr_run s.1 <> "" -> settling s.1 (te_CallID e) c ->
  kept (noteWithdrawal e s).2.1.
Proof.
  intros Hk Hrun [Hid Hn]. unfold noteWithdrawal, bind at 1 2, call, get. rewrite Hid. unfold when.
  destruct (withdrawn _ _ _) eqn:E; [|done]. unfold withdrawn in E. rewrite !andb_true_iff, negb_true_iff, bool_decide_eq_true in E.
  destruct E as [[[_ Hd] Hr] Hl]. destruct (Hn Hd Hr) as [Ha Hres]. cbv zeta. set (d := EDecision _).
  apply (marks (te_CallID e) d (fun _ => withdraw) s c); [done..|]. intros _ h Ag. by apply withdraw_allowed.
Qed.

Lemma noteWithdrawal_settling e s c : wr_run s.1 <> "" -> settling s.1 (te_CallID e) c ->
  wr_run (noteWithdrawal e s).2.1 = wr_run s.1 /\
  ((te_Withdrawn e = false /\ noteWithdrawal e s = (inl tt, s)) \/ te_Withdrawn e = true).
Proof.
  intros Hrun [Hid _]. unfold noteWithdrawal, call, get, bind, when. rewrite Hid.
  destruct (withdrawn _ _ _) eqn:E; [|split; [done|]; destruct (te_Withdrawn e); [by right|by left]].
  split; [|right; unfold withdrawn in E; by destruct (te_Withdrawn e)].
  set (d := EDecision _). pose proof (append_spec d s) as Ha.
  destruct (append d s) as [[x|err] s1]; destruct Ha as [(_ & Er & _) _]; exact Er.
Qed.

Lemma kept_noteResult e s : kept s.1 -> wr_run s.1 <> "" ->
  (te_Withdrawn e = true \/ exists c, settling s.1 (te_CallID e) c) -> kept (noteResult e s).2.1.
Proof.
  intros Hk Hrun Hn. unfold noteResult. set (id := te_CallID e) in *. unfold bind at 1 2, call, get.
  destruct (wr_calls s.1 !! id) as [c|] eqn:Hid; [|done]. set (failed := _ && _). clearbody failed.
  unfold bind at 1. pose proof (kept_like id (fun c => c <| c_failed := failed |>) s Hk ltac:(done)) as Hk1.
  assert ((setCall id (fun c => c <| c_failed := failed |>) s).1 = inl tt) as E1 by done.
  assert (wr_calls (setCall id (fun c => c <| c_failed := failed |>) s).2.1 !! id = Some (c <| c_failed := failed |>) /\
    wr_run (setCall id (fun c => c <| c_failed := failed |>) s).2.1 = wr_run s.1) as [Hid1 Er1]
    by (cbn; upd; by rewrite lookup_alter_eq, Hid).
  destruct (setCall id _ s) as [r1 s1]. cbn [fst snd] in *. subst r1. unfold bind at 1, when. cbn [fst snd].
  destruct (ranHere (wr_run s.1) c e && negb _) eqn:Eran; [|exact Hk1]. apply andb_true_iff in Eran as [Eran _].
  unfold ranHere in Eran. rewrite !andb_true_iff, !negb_true_iff, bool_decide_eq_true in Eran.
  destruct Eran as [[[[[_ _] Hw] _] Hd] Hr]. destruct Hn as [Hn|(c' & Hid' & Hn)]; [congruence|].
  rewrite Hid in Hid'. injection Hid' as <-. destruct (Hn Hd Hr) as [Ha Hres].
  unfold bind at 1 2, world. cbn [fst snd]. destruct (sidecar _ _ _) as [[it|err] h]; [|by apply (kept_appended seed s1.1 _ []); [|apply appended_nil|]].
  cbv zeta. set (r := {| rt_CallID := id |}).
  apply (marks id (EResult r) (fun _ c => c <| c_result := Some r |>) (s1.1, h) (c <| c_failed := failed |>)); [done..|].
  cbn [fst]. rewrite Er1. intros _ h' Ag. by apply result_allowed.
Qed.

Lemma kept_settle e s : kept s.1 -> settledOnce s.1 (te_CallID e) -> kept (settle e s).2.1.
Proof.
  intros Hk [Hrun Hn]. unfold settle. set (id := te_CallID e) in *. unfold bind at 1.
  assert (exists s1, noteRefusal e s = (inl tt, s1) /\ kept s1.1 /\ wr_run s1.1 = wr_run s.1 /\
    (wr_calls s1.1 !! id = None \/ exists c, settling s1.1 id c)) as (s1 & -> & Hk1 & Er1 & Hs1).
  { unfold noteRefusal, bind, call, get. fold id. destruct (wr_calls s.1 !! id) as [c|] eqn:Hid; [|exists s; split_and!; auto].
    unfold when. destruct (refusedHere c e).
    - eexists. split; [reflexivity|]. split; [by apply (kept_like id (fun c => c <| c_settledRun := wr_run s.1 |>))|]. split; [done|].
      right. exists (c <| c_settledRun := wr_run s.1 |>). split; [cbn; upd; by rewrite lookup_alter_eq, Hid|]. exact (Hn c eq_refl).
    - exists s. split_and!; [done..|]. right. exists c. split; [done|]. exact (Hn c eq_refl). }
  assert (forall s2, kept s2.1 -> wr_run s2.1 = wr_run s.1 -> (te_Withdrawn e = true \/ wr_calls s2.1 !! id = None \/ exists c, settling s2.1 id c) ->
    kept ((modify (fun w => w <| wr_unsettled ::= (fun s => s ∖ {[ te_CallID e ]}) |>) ;; noteResult e) s2).2.1) as Hlast.
  { intros s2 Hk2 Er2 Hs2. unfold bind, modify. set (s3 := (_, s2.2)).
    assert (kept s3.1) as Hk3 by (by apply (kept_appended seed s2.1 _ []); [|apply appended_nil|]).
    assert (wr_run s3.1 = wr_run s.1 /\ wr_calls s3.1 = wr_calls s2.1) as [Er3 Ec3] by done.
    destruct Hs2 as [Hw|[Hnone|Hset]].
    - apply kept_noteResult; [done|by rewrite Er3|by left].
    - unfold noteResult, bind, call, get. rewrite Ec3. fold id. by rewrite Hnone.
    - apply kept_noteResult; [done|by rewrite Er3|by right]. }
  unfold bind at 1. destruct Hs1 as [Hnone|[c Hset]].
  - assert (noteWithdrawal e s1 = (inl tt, s1)) as -> by (unfold noteWithdrawal, bind, call, get; fold id; by rewrite Hnone).
    apply Hlast; auto.
  - assert (wr_run s1.1 <> "") as Hrun1 by (by rewrite Er1).
    pose proof (kept_noteWithdrawal e s1 c Hk1 Hrun1 Hset) as Hk2.
    destruct (noteWithdrawal_settling e s1 c Hrun1 Hset) as [Er2 [[_ E2]|Hw]].
    + rewrite E2. apply Hlast; [done..|]. right. right. by exists c.
    + destruct (noteWithdrawal e s1) as [[u|err] s2]; [|done]. cbn [fst snd] in *. apply Hlast; [done|congruence|by left].
Qed.

Lemma kept_toolEnd e s : kept s.1 -> (te_Parent e = "" -> settledOnce s.1 (te_CallID e)) -> kept (toolEnd e s).2.1.
Proof.
  intros Hk Hn. unfold toolEnd. case_bool_decide as Hp.
  - pose proof (kept_settle e s Hk (Hn Hp)) as H. unfold bind. destruct (settle e s) as [[u|err] s1]; [|done].
    apply (kept_plain seed); [plain|done].
  - destruct (te_Replayed e); [done|]. apply (kept_plain seed); [plain|done].
Qed.
End Steps.
