(* ===== verification/Order.v ===== *)
(** * Order: items, runs, and the order of a session's entries ([session/session.go])

    What [accountFor] makes of a call before its output, the item's append, and the steps
    of a writer under a run: from a writer that agrees with its path no step writes an
    entry the format does not allow, and a hand-off the tool runs after is on the path. *)

From S2P Require Export Grammar.

(** What a sidecar session's form of an item keeps: media are in messages and in the parts
    of an output, and replacing them changes no call's ID. *)
Definition callPart (i : item) : option (bool * string) :=
  match i with
  | ICall _ c => Some (true, CallID c)
  | IOutput _ o => Some (false, OutCallID o)
  | _ => None
  end.
Class RecordingLaws W `{Rec : !Recording W} := {
  sidecar_callPart : forall session i w r w', sidecar session i w = (inl r, w') -> callPart r = callPart i;
}.

Section Order.
Context {W : Type} `{Enc : !Encoding} `{Rec : !Recording W} `{Laws : !RecordingLaws W} `{Tools : !Tooling W}.
Abbreviation st := (writer * W)%type.
Abbreviation act := (act st).
Variable seed : string -> status.
Abbreviation kept := (kept seed).

(** ** An output's account *)

(** A record whose call's output may be written. *)
Definition outputReady (run : string) (c : callRecord) : Prop :=
  c_answered c = false /\ forall h, agrees run c h ->
    (h_rejected h || h_answer h || h_result h || negb (bool_decide (h_handOffs h = 0%nat))) = true.

Lemma answered_agrees run c h : agrees run c h -> agrees run (c <| c_answered := true |>) (h <| h_output := true |>).
Proof. intros []. constructor; upd; done. Qed.
Lemma closed_agrees run c h : agrees run c h -> agrees run (c <| c_answered := true |>) h.
Proof. intros []. constructor; upd; done. Qed.

(** What an account of the call [id] makes of a writer, when it makes one. *)
Definition accounted {A} (id : string) (s : st) (r : A + error) (s' : st) : Prop :=
  kept s'.1 /\ match r with
  | inl _ => wr_run s'.1 = wr_run s.1 /\ wr_copied s'.1 = wr_copied s.1 /\
      forall c, wr_calls s'.1 !! id = Some c -> outputReady (wr_run s.1) c
  | inr _ => True
  end.

(** A decision that ends the call. *)
Lemma decided id e f s c : kept s.1 -> wr_calls s.1 !! id = Some c -> about e = Some id -> outputReady (wr_run s.1) (f c) ->
  (forall h, agrees (wr_run s.1) c h -> exists h', after h e = Live h' /\ agrees (wr_run s.1) (f c) h') ->
  let '(r, s') := (append e ;; takeUp id ;; setCall id f) s in accounted id s r s'.
Proof.
  intros Hk Hid He Hx Hf. pose proof (decides seed id e f s c Hk Hid He Hf) as Hd. pose proof (writes_spec e id s) as Hw.
  unfold bind in *. destruct (append e s) as [[y|err] s1]; [|done]. destruct (takeUp id s1) as [[u|err] s2]; [|done].
  destruct Hw as [(E1 & E2 & E3 & E4) _]. unfold setCall, modify in *. cbn [fst snd] in *. split; [done|]. cbn [fst snd]. upd.
  split_and!; [done..|]. rewrite E1, lookup_alter_eq, Hid. by intros c' [= <-].
Qed.

Lemma ready_ended run c : c_answered c = false -> outputReady run (c <| c_held := false |> <| c_ended := true |>).
Proof. intros Ha. split; [done|]. intros h Ag. by rewrite <- (ag_answer _ _ _ Ag), !orb_true_r. Qed.
Lemma ready_rejected run c : c_answered c = false -> outputReady run (c <| c_held := false |> <| c_rejected := true |>).
Proof. intros Ha. split; [done|]. intros h Ag. by rewrite <- (ag_rejected _ _ _ Ag). Qed.

Lemma answerCall_accounts cx o c from s : kept s.1 -> wr_calls s.1 !! OutCallID o = Some c ->
  c_answered c = false -> c_rejected c = false -> c_ended c = false -> (c_dispatched c = true -> wr_run s.1 = "" \/ c_dispatchRun c <> wr_run s.1) ->
  c_dispatched c || c_unknown c = true ->
  let '(r, s') := answerCall cx o c from s in accounted (OutCallID o) s r s'.
Proof.
  intros Hk Hid Ha Hr He Hd Hm. unfold answerCall. unfold bind at 1, get. cbv zeta. unfold bind at 1.
  set (m := when _ _). assert (plain m) as Hpl by (unfold m, when; plain). destruct (Hpl s) as (es & Happ & Hes).
  pose proof (kept_appended seed _ _ _ Hk Happ Hes) as Hk1. destruct Happ as [(E1 & E2 & E3 & E4) _].
  destruct (m s) as [[u|err] s1]; [|by split]. cbn [fst snd] in *. set (dec := decision _ _ _ _ _).
  pose proof (decided (OutCallID o) (EDecision dec) (fun c => c <| c_held := false |> <| c_ended := true |>) s1 c) as Hdec.
  rewrite E1, E2 in Hdec. specialize (Hdec Hk1 Hid eq_refl (ready_ended _ _ Ha)). unfold bind in Hdec |- *.
  destruct (append _ s1) as [[x|err] s2]; [|apply Hdec; intros h Ag; by apply answer_allowed].
  destruct (takeUp _ s2) as [[u'|err] s3]; [|apply Hdec; intros h Ag; by apply answer_allowed].
  destruct Hdec as [H1 H2]; [intros h Ag; by apply answer_allowed|]. cbn in H2. rewrite E2, E3 in H2. split; [done|exact H2].
Qed.
Lemma rejectCall_accounts cx o c s : kept s.1 -> wr_calls s.1 !! OutCallID o = Some c ->
  c_answered c = false -> c_rejected c = false -> c_ended c = false -> c_dispatched c || c_unknown c = false ->
  let '(r, s') := rejectCall cx o c s in accounted (OutCallID o) s r s'.
Proof.
  intros Hk Hid Ha Hr He Hm. unfold rejectCall. unfold bind at 1 2, get. cbv zeta. set (dec := decision _ _ _ _ _).
  apply (decided (OutCallID o) (EDecision dec) (fun c => c <| c_held := false |> <| c_rejected := true |>) s c); [done..| |].
  - by apply ready_rejected.
  - intros h Ag. by apply reject_allowed.
Qed.

Lemma accounted_ret {A B} id (m : act A) (f : A -> B) s : (let '(r, s') := m s in accounted id s r s') ->
  let '(r, s') := (x ← m; ret (f x)) s in accounted id s r s'.
Proof. unfold bind. by destruct (m s) as [[x|err] s1]. Qed.

(** [accountFor] leaves the call ready for its output, or fails. *)
Lemma accountFor_accounts cx i o from s : kept s.1 ->
  let '(r, s') := accountFor cx i o from s in accounted (OutCallID o) s r s'.
Proof.
  intros Hk. unfold accountFor. unfold bind at 1 2, call, get. cbn [fst snd].
  destruct (wr_calls s.1 !! OutCallID o) as [c|] eqn:Hid; [|split; [done|]; split_and!; [done..|]; by rewrite Hid].
  assert (forall x : bool * option copySource, outputReady (wr_run s.1) c -> accounted (OutCallID o) s (inl x : _ + error) s) as Hnow
    by (intros x Hx; split; [done|]; split_and!; [done..|]; rewrite Hid; by intros c' [= <-]).
  destruct (c_answered c) eqn:Ha; [by split|].
  destruct (c_ended c) eqn:He; [apply Hnow; split; [done|]; intros h Ag; by rewrite <- (ag_answer _ _ _ Ag), He, orb_true_r|].
  destruct (c_rejected c) eqn:Hr; [apply Hnow; split; [done|]; intros h Ag; by rewrite <- (ag_rejected _ _ _ Ag), Hr|].
  destruct (returned c i) eqn:Hret.
  { apply Hnow. split; [done|]. intros h Ag. rewrite <- (ag_result _ _ _ Ag). unfold returned in Hret.
    destruct (c_result c); [|done]. by rewrite bool_decide_true, !orb_true_r by eauto. }
  destruct (_ && _) eqn:Hd.
  { apply andb_true_iff in Hd as [Hd _]. apply andb_true_iff in Hd as [Hd _]. apply Hnow. split; [done|]. intros h Ag.
    by rewrite <- (ag_dispatched _ _ _ Ag), Hd, !orb_true_r. }
  destruct (c_dispatched c || c_unknown c) eqn:Hm.
  - apply (accounted_ret _ _ (fun x => (_, x))), answerCall_accounts; [done..| |done].
    intros Hdd. rewrite Hdd in Hd. destruct (decide (wr_run s.1 = "")); [by left|]. right. intros Hrun.
    rewrite Hrun, (bool_decide_true (wr_run s.1 = wr_run s.1)), bool_decide_false in Hd by done. done.
  - apply (accounted_ret _ _ (fun _ => (_, _))). by apply rejectCall_accounts.
Qed.

(** ** An item's entry *)

Lemma callPart_about i r e : callPart r = callPart i -> it_Item e = r ->
  about (EItem e) = match callPart i with
                    | Some (true, id) => if bool_decide (it_CopiedFrom e = None) then Some id else None
                    | Some (false, id) => Some id
                    | None => None
                    end.
Proof. intros Hc Hi. cbn. rewrite Hi, <- Hc. by destruct r. Qed.

Lemma recordProvenance_keeps e prov : it_Item (recordProvenance e prov) = it_Item e /\
  (it_CopiedFrom (recordProvenance e prov) = it_CopiedFrom e).
Proof.
  destruct prov as [p|]; [|done]. cbn. set (e1 := if _ && _ then _ else e).
  assert (it_Item e1 = it_Item e /\ it_CopiedFrom e1 = it_CopiedFrom e) as [H1 H2]
    by (unfold e1; destruct (_ && _); [|done]; by destruct (map layerRef _) as [|l [|]]).
  rewrite <- H1, <- H2. clearbody e1. destruct (Trust p) as [reads|]; [|done].
  destruct (it_CopiedFrom e1) eqn:E; [destruct (forallb _ _)|]; done.
Qed.

Lemma itemEntry_keeps i recorded resp mc failed hidden from prov :
  it_Item (itemEntry i recorded resp mc failed hidden from prov) = recorded /\
  (it_CopiedFrom (itemEntry i recorded resp mc failed hidden from prov) = None <-> from = None).
Proof.
  unfold itemEntry. cbv zeta. match goal with |- context [recordProvenance ?x prov] => set (e1 := x) end.
  assert (it_Item e1 = recorded /\ (it_CopiedFrom e1 = None <-> from = None)) as [H1 H2].
  { unfold e1. destruct from as [f|]; [|done]. by destruct (entryFor f recorded). }
  destruct (recordProvenance_keeps e1 prov) as [P1 P2]. generalize dependent (recordProvenance e1 prov). intros e2 P1 P2.
  assert (it_Item e2 = recorded /\ (it_CopiedFrom e2 = None <-> from = None)) as [Q1 Q2] by (by rewrite P1, P2).
  clear -Q1 Q2. destruct hidden, (bool_decide (mc = "")); done.
Qed.

Lemma inputEntry_about w inp source e : about (inputEntry w inp source e) = about e.
Proof. destruct e as [ie| | | | | | | | | |]; try done. destruct inp as [inp|]; cbn; [by destruct (negb _)|by destruct source]. Qed.

(** ** The item's append *)

(** The ID of a call that is appended: of the writer's own, none of a copied call, and of a
    copied one, none the ledger holds. *)
Definition freshCall (w : writer) (i : item) (from : option copySource) : Prop :=
  match i with
  | ICall _ c => if from then wr_calls w !! CallID c = None else CallID c ∉ wr_copied w
  | _ => True
  end.
Definition readyItem (w : writer) (i : item) : Prop :=
  match i with
  | IOutput _ o => forall c, wr_calls w !! OutCallID o = Some c -> outputReady (wr_run w) c
  | _ => True
  end.

Lemma kept_insert w w' id c e : kept w -> wr_calls w' = <[id := c]> (wr_calls w) -> wr_run w' = wr_run w ->
  wr_copied w' = wr_copied w -> wr_replay w' = wr_replay w -> path w' = path w ++ [e] -> about e = Some id ->
  id ∉ wr_copied w -> (forall x, x <> Bad -> step id x e = Live made) -> agrees (wr_run w) c made -> kept w'.
Proof.
  intros (Hr & Ha & Hc) E1 E2 E3 E4 Ep He Hid Hs Hag. unfold Grammar.kept. rewrite E1, E2, E3, E4, Ep. split_and!; [done| |].
  - intros id'. rewrite statusOf_app. cbn. specialize (Ha id'). destruct (decide (id = id')) as [<-|Hne].
    + rewrite lookup_insert_eq, Hs; [done|]. intros E. rewrite E in Ha. by destruct (wr_calls w !! id).
    + rewrite lookup_insert_ne by done. by rewrite step_other by congruence.
  - intros id' Hi. rewrite lookup_insert_ne by (by intros <-). by apply Hc.
Qed.

Lemma kept_absent w w' id e : kept w -> (forall i, wr_calls w' !! i = wr_calls w !! i) -> wr_run w' = wr_run w ->
  wr_copied w' = wr_copied w -> wr_replay w' = wr_replay w -> path w' = path w ++ [e] -> about e = Some id ->
  wr_calls w !! id = None -> step id NoCall e = NoCall -> kept w'.
Proof.
  intros (Hr & Ha & Hc) E1 E2 E3 E4 Ep He Hid Hs. unfold Grammar.kept. rewrite E2, E3, E4, Ep. split_and!; [done| |].
  - intros id'. rewrite statusOf_app, E1. cbn. specialize (Ha id'). destruct (decide (id = id')) as [<-|Hne].
    + rewrite Hid in Ha |- *. cbn in Ha. destruct (statusOf seed id (path w)); try done. by rewrite Hs.
    + by rewrite step_other by congruence.
  - intros id' Hi. rewrite E1. by apply Hc.
Qed.

Lemma kept_copied w w' id : kept w -> wr_calls w' = wr_calls w -> wr_run w' = wr_run w -> wr_copied w' = {[id]} ∪ wr_copied w ->
  wr_replay w' = wr_replay w -> path w' = path w -> wr_calls w !! id = None -> kept w'.
Proof.
  intros (Hr & Ha & Hc) E1 E2 E3 E4 Ep Hid. unfold Grammar.kept. rewrite E1, E2, E3, E4, Ep. split_and!; [done..|].
  intros id' [->%elem_of_singleton|]%elem_of_union; [done|by apply Hc].
Qed.

Lemma agrees_new run id args : agrees run (newCallRecord id args) made.
Proof. constructor; done. Qed.

(** The entry of an item of this form. *)
Definition entryOf (i : item) (from : option copySource) (appOnly : bool) (e : entry) : Prop :=
  if appOnly then about e = None
  else exists ie, e = EItem ie /\ callPart (it_Item ie) = callPart i /\ (it_CopiedFrom ie = None <-> from = None).

(** What the writer keeps of an item is none of the ledger. *)
Lemma noted_fields w f1 f2 f3 f4 f5 :
  appended [] w (w <| wr_items ::= f1 |> <| wr_values ::= f2 |> <| wr_custom ::= f3 |> <| wr_meta ::= f4 |> <| wr_models ::= f5 |>).
Proof. apply appended_nil; destruct w; repeat split. Qed.

(** A ledger rewritten, and the order of its open calls. *)
Lemma reordered_fields w f g : wr_calls (w <| wr_calls ::= f |> <| wr_open ::= g |>) = f (wr_calls w) /\
  wr_run (w <| wr_calls ::= f |> <| wr_open ::= g |>) = wr_run w /\
  wr_copied (w <| wr_calls ::= f |> <| wr_open ::= g |>) = wr_copied w /\
  wr_replay (w <| wr_calls ::= f |> <| wr_open ::= g |>) = wr_replay w /\
  path (w <| wr_calls ::= f |> <| wr_open ::= g |>) = path w.
Proof. destruct w. repeat split. Qed.

Lemma noteEntry_appends i recorded resp id appOnly (s : st) :
  exists s' : st, noteEntry i recorded resp id appOnly s = (inl tt, s') /\ appended [] s.1 s'.1.
Proof. eexists. split; [reflexivity|]. apply noted_fields. Qed.

Lemma kept_noteCall i eid e (from : option copySource) appOnly (s : st) w1 (h1 : W) : kept s.1 -> freshCall s.1 i from -> readyItem s.1 i ->
  entryOf i from appOnly e -> appended [e] s.1 w1 ->
  kept (noteCall i eid appOnly (negb (bool_decide (from = None))) (w1, h1)).2.1.
Proof.
  intros Hk Hfresh Hready He [(E1 & E2 & E3 & E4) Ep]. unfold noteCall.
  assert (about e = None -> kept w1) as Hplain
    by (intros Hn; apply (kept_appended seed s.1 w1 [e]); [done|by split|by repeat constructor]).
  destruct i as [|n m|n v|n o|n r|n t x]; cbn [callPart] in *;
    try (apply Hplain; unfold entryOf in He; destruct appOnly; [done|];
         destruct He as (ie & -> & Hcp & _); cbn; by destruct (it_Item ie)).
  - destruct appOnly; [|destruct from as [f|]]; cbn in Hfresh.
    + rewrite andb_false_r. apply (kept_appended seed w1 _ []); [by apply Hplain| |done]. apply appended_nil; done.
    + destruct He as (ie & -> & Hcp & Hfrom). rewrite bool_decide_false by done.
      eapply (kept_copied w1); [apply Hplain| | | | | |].
      * rewrite (callPart_about _ _ _ Hcp eq_refl). cbn. rewrite bool_decide_false; [done|]. by intros ?%Hfrom.
      * done.
      * done.
      * done.
      * done.
      * done.
      * by rewrite E1.
    + destruct He as (ie & -> & Hcp & Hfrom). rewrite bool_decide_true by done.
      unfold modify. cbn. match goal with |- context [set wr_open ?g (set wr_calls ?f w1)] =>
        destruct (reordered_fields w1 f g) as (F1 & F2 & F3 & F4 & F5); set (w2 := set wr_open g (set wr_calls f w1)) in * end.
      clearbody w2. rewrite E1 in F1. rewrite E2 in F2. rewrite E3 in F3. rewrite E4 in F4. rewrite Ep in F5.
      eapply (kept_insert s.1 _ (CallID v) (newCallRecord eid (Arguments v)) (EItem ie)); [done| | | | | | |done| |apply agrees_new].
      * exact F1.
      * exact F2.
      * exact F3.
      * exact F4.
      * exact F5.
      * rewrite (callPart_about _ _ _ Hcp eq_refl). cbn. by rewrite bool_decide_true by by apply Hfrom.
      * intros x Hx. unfold step. rewrite (callPart_about _ _ _ Hcp eq_refl). cbn.
        rewrite (bool_decide_true (it_CopiedFrom ie = None)) by (by apply Hfrom). rewrite bool_decide_true by done.
        destruct (it_Item ie); try done. by destruct x.
  - cbn in Hready. unfold close, setCall, bind, modify. cbn.
    match goal with |- context [set wr_open ?g (set wr_calls ?f w1)] =>
      destruct (reordered_fields w1 f g) as (F1 & F2 & F3 & F4 & F5); set (w2 := set wr_open g (set wr_calls f w1)) in * end.
    clearbody w2. destruct appOnly.
    + eapply (kept_set seed w1 _ (OutCallID o) (fun c => c <| c_answered := true |>)); [by apply Hplain| |].
      * unfold becomes. by rewrite F1, F2, F3, F4, F5, app_nil_r.
      * intros c h _. apply closed_agrees.
    + destruct He as (ie & -> & Hcp & _). pose proof (callPart_about _ _ _ Hcp eq_refl) as Hab. cbn in Hcp, Hab.
      destruct (wr_calls s.1 !! OutCallID o) as [c|] eqn:Hid.
      * eapply (kept_becomes seed s.1 _ (OutCallID o) (fun c => c <| c_answered := true |>) (EItem ie) c); [done| |done|done|].
        { unfold becomes. by rewrite F1, F2, F3, F4, F5, E1, E2, E3, E4, Ep. }
        intros h Ag. exists (h <| h_output := true |>). split; [|by apply answered_agrees].
        destruct (Hready c eq_refl) as [Hans Hready']. specialize (Hready' h Ag). unfold after.
        assert (h_output h = false) as -> by (destruct (h_output h) eqn:E; [|done]; by rewrite (ag_output _ _ _ Ag E) in Hans).
        destruct (it_Item ie); try done. cbn. by rewrite Hready'.
      * eapply (kept_absent s.1 _ (OutCallID o) (EItem ie)); [done| |congruence..|done|done|].
        { intros id. rewrite F1, E1. destruct (decide (OutCallID o = id)) as [<-|]; [|by rewrite lookup_alter_ne].
          by rewrite lookup_alter_eq, Hid. }
        unfold step. rewrite bool_decide_true by done. by destruct (it_Item ie).
Qed.

Lemma kept_appendItem i recorded resp e (from : option copySource) appOnly s : kept s.1 -> freshCall s.1 i from -> readyItem s.1 i ->
  entryOf i from appOnly e ->
  kept ((id ← append e; noteEntry i recorded resp id appOnly ;; noteCall i id appOnly (negb (bool_decide (from = None)))) s).2.1.
Proof.
  intros Hk Hfresh Hready He. unfold bind at 1. pose proof (append_spec e s) as Ha.
  destruct (append e s) as [[eid|err] s1]; [|by apply (kept_appended seed s.1 _ [])].
  unfold bind. destruct (noteEntry_appends i recorded resp eid appOnly s1) as ([w1 h1] & -> & Hn).
  apply (kept_noteCall i eid e from appOnly s w1 h1); [done..|]. change [e] with ([e] ++ []). by eapply appended_trans.
Qed.

Lemma filterAppOnly_entry i recorded resp mc failed hidden from prov session h h' : sidecar session i h = (inl recorded, h') ->
  entryOf i from false (EItem (itemEntry i recorded resp mc failed hidden from prov)).
Proof.
  intros Hs. eexists. split; [reflexivity|]. destruct (itemEntry_keeps i recorded resp mc failed hidden from prov) as [-> H].
  split; [|exact H]. by eapply sidecar_callPart.
Qed.

Lemma inputEntry_entryOf w inp source i from appOnly e : entryOf i from appOnly e -> entryOf i from appOnly (inputEntry w inp source e).
Proof.
  unfold entryOf. destruct appOnly; [by rewrite inputEntry_about|]. intros (ie & -> & Hc & Hf).
  eexists. split; [reflexivity|]. by destruct inp as [inp|]; cbn; [destruct (negb _)|destruct source].
Qed.

(** A plain action first. *)
Lemma plain_then {A B} (m : act A) (f : A -> act B) (s : st) : kept s.1 -> plain m ->
  (forall x s1, m s = (inl x, s1) -> kept s1.1 -> sameLedger s.1 s1.1 -> kept (f x s1).2.1) -> kept (bind m f s).2.1.
Proof.
  intros Hk Hm Hf. unfold bind. destruct (Hm s) as (es & Happ & Hes). pose proof (kept_appended seed _ _ _ Hk Happ Hes) as Hk1.
  destruct Happ as [Hl _]. destruct (m s) as [[x|err] s1] eqn:E; [|done]. by apply (Hf x s1).
Qed.

Lemma fresh_same w w' i from : sameLedger w w' -> freshCall w i from -> freshCall w' i from.
Proof. intros (E1 & _ & E3 & _). unfold freshCall. by rewrite E1, E3. Qed.
Lemma ready_same w w' i : sameLedger w w' -> readyItem w i -> readyItem w' i.
Proof. intros (E1 & E2 & _ & _). unfold readyItem. by rewrite E1, E2. Qed.

(** An output's account, unless the call is a copied one. *)
Lemma account_ready cx i from (s : st) : kept s.1 -> freshCall s.1 i from ->
  let '(r, s') := (w ← get id;
     match i with
     | IOutput _ o =>
         if negb (wr_replay w) && negb (bool_decide (OutCallID o ∈ wr_copied w)) then accountFor cx i o from else ret (false, from)
     | _ => ret (false, from)
     end) s in
  kept s'.1 /\ match r with inl x => readyItem s'.1 i /\ freshCall s'.1 i x.2 | inr _ => True end.
Proof.
  intros Hk Hfresh. unfold bind, get. cbn [fst snd id]. destruct i as [|n m|n v|n o|n r|n t x]; try done.
  destruct Hk as (Hr & Ha & Hc). rewrite Hr. cbn [negb andb]. case_bool_decide as Hin; cbn [negb].
  - split; [done|]. split; [|done]. cbn. by rewrite (Hc _ Hin).
  - pose proof (accountFor_accounts cx (IOutput n o) o from s (conj Hr (conj Ha Hc))) as Hacc.
    destruct (accountFor _ _ _ _ s) as [[x|err] s1]; [|by destruct Hacc]. destruct Hacc as (Hk1 & E1 & _ & H). split; [done|].
    split; [|done]. cbn. by rewrite E1.
Qed.

(** [itemFrom] keeps the invariant: of an output it accounts first. *)
Lemma kept_itemFrom cx i resp hidden source mc from prov (s : st) : kept s.1 -> freshCall s.1 i from ->
  kept (itemFrom cx i resp hidden source mc from prov s).2.1.
Proof.
  intros Hk Hfresh. unfold itemFrom. destruct (isNil i); [done|]. apply plain_then; [done| |].
  { plain. }
  intros from' s1 Hfrom Hk1 Hl1. assert (freshCall s1.1 i from') as Hfresh1.
  { apply (fresh_same _ _ _ _ Hl1). destruct i as [|n m|n v|n o|n r|n t x]; cbn in *; try done. by injection Hfrom as -> _. }
  clear Hfrom Hfresh Hk Hl1 s. unfold bind at 1. pose proof (account_ready cx i from' s1 Hk1 Hfresh1) as Hacc.
  destruct (bind _ _ s1) as [[[failed from2]|err] s2]; [|by destruct Hacc]. destruct Hacc as (Hk2 & Hready & Hfresh2).
  cbn [snd] in Hfresh2. clear Hk1 Hfresh1 s1 from'. unfold bind at 1, get at 1. apply plain_then; [done|by apply plain_world|].
  intros recorded s3 Hside Hk3 Hl3. cbv zeta. apply plain_then; [done| |].
  { destruct (negb _); [destruct (marshalText _)|]; plain. }
  intros e s4 He Hk4 Hl4. assert (entryOf i from2 (negb (filterKeeps i)) e) as He0.
  { unfold world in Hside. destruct (sidecar _ _ _) as [r h'] eqn:Es. destruct (filterKeeps i); cbn in *.
    - injection He as <- _. injection Hside as -> _. by eapply filterAppOnly_entry.
    - destruct (marshalText recorded); [|done]. by injection He as <- _. }
  apply plain_then; [done| |].
  { plain. }
  intros e' s5 He' Hk5 Hl5. apply kept_appendItem; [done| | |].
  - by apply (fresh_same _ _ _ _ Hl5), (fresh_same _ _ _ _ Hl4), (fresh_same _ _ _ _ Hl3).
  - by apply (ready_same _ _ _ Hl5), (ready_same _ _ _ Hl4), (ready_same _ _ _ Hl3).
  - destruct (bool_decide (resp = "")); [|by injection He' as <- _]. unfold bind in He'.
    destruct (drained i s4) as [[inp|err] s6]; [|done]. injection He' as <- _. by apply inputEntry_entryOf.
Qed.
End Order.
