(* ===== verification/Frame.v ===== *)
(** * Frame: a run on the record ([session/session.go])

    What the writer does with the loop's events: the run's start and its end, the settings
    held for the call in flight, the model's responses, the retries and the refusals before
    them, the items a stream completed before it named its response, and the notes that
    wait; and [writer.handle], which every event of a run goes through.

    What a request's settings come to as a config entry, which omit setting a path rebuilds
    a request's input under, and the environment a host reports are arguments here:
    [omit.go] and the config deltas are not modelled. *)

From S2P Require Export Ledger.

(** [unnamedItem]. *)
Record unnamedItem := { un_item : item; un_modelCallID : string }.

(** [Unhashed] and [UnhashedItem]: why a request has no hash on the record. *)
Record UnhashedItem := { ui_Type : string; ui_ID : string; ui_CallID : string }.
#[export] Instance UnhashedItem_eq_dec : EqDecision UnhashedItem.
Proof. solve_decision. Defined.
Record Unhashed := { uh_Reason : string; uh_Index : nat; uh_Sent : option UnhashedItem; uh_Recorded : option UnhashedItem }.
Definition unnamedReason : string := "the response named no ID, so the items it produced read as its input".

(** The data of the recorder's own custom entries: [ModelRetry], [ModelBlocked] and
    [HeldNote]. *)
Record RetryData := { rd_Attempt : Z; rd_Error : string; rd_DelayMS : Z; rd_Model : string; rd_Revised : bool }.
Record BlockedData := { bd_Error : string; bd_RequestHash : string; bd_Model : string; bd_Usage : option Usage }.
Record HeldNote := { hn_Item : string; hn_Mode : InputMode; hn_Trigger : option sTrigger; hn_CallID : string }.
Definition UnhashedNS : string := "agentturn:unhashed".
Definition ModelRetryNS : string := "agentturn:model_retry".
Definition ModelBlockedNS : string := "agentturn:model_blocked".
Definition HeldNotesNS : string := "agentturn:held_notes".

(** The settings in force on the path, what a request's input leaves out of it, and the
    agent's configuration, by what the frame asks of them. *)
Class Setting (W : Type) := {
  Settings : Type;
  Omit : Type;
  configuration : Type;
  (** [Config.BaseRequest], and the configuration asked of no tool provider. *)
  BaseRequest : configuration -> W -> Request * W;
  withoutProvider : configuration -> configuration;
  (** A request's members that say how it is sent, among those the model keeps as one. *)
  noBackground : string -> string;
  (** [writer.hash]: the request's hash, the omit setting it is under, and why it has none;
      [writer.quarantineOver]; [writer.omitFor]. *)
  hashOf : writer -> Settings -> Request -> (string * Omit * option Unhashed) + error;
  quarantineOver : writer -> Settings -> Omit -> Items -> string -> Omit;
  omitFor : writer -> Settings -> bool -> string -> Omit;
  (** The config entry [writer.settle] and [recordQuarantine] write, if any, as text, and
      the settings with it in force, and their model. *)
  configEntry : Settings -> bool -> Request -> Omit -> W -> option string + error;
  quarantineEntry : writer -> Settings -> Items -> option string;
  Apply : Settings -> string -> Settings;
  ModelOf : Settings -> string;
  (** [writer.differs], and the env entry [writeEnv] or [inheritEnv] writes, if any. *)
  differs : writer -> Settings -> configuration -> Request -> W -> bool;
  environment : string -> W -> (option string + error) * W;
  (** [json.Marshal]. *)
  marshalUnhashed : Unhashed -> option string;
  marshalRetry : RetryData -> option string;
  marshalBlocked : BlockedData -> option string;
  marshalHeld : list HeldNote -> option string;
  marshalSettings : Request -> option string;
  (** [rec.now], in milliseconds. *)
  now : W -> Z;
}.

(** The call in flight: its response as its stream named it, its request's hash or why it
    has none, when it was sent and how often it was tried again. *)
Record flight := { fl_in : bool; fl_ID : string; fl_hash : string; fl_unhashed : option Unhashed; fl_started : option Z; fl_retries : Z }.
#[export] Instance eta_flight : Eta flight := fun r =>
  Build_flight (fl_in r) (fl_ID r) (fl_hash r) (fl_unhashed r) (fl_started r) (fl_retries r).
Definition landed : flight := {| fl_in := false; fl_ID := ""; fl_hash := ""; fl_unhashed := None; fl_started := None; fl_retries := 0 |}.

(** The request of the last attempt. *)
Record attempted := { at_settings : option string; at_input : Items; at_model : string }.

(** A writer's frame: what it keeps of the run beyond the ledger of its calls. *)
Record frame `{Setting W} := {
  fr_cfg : option configuration; fr_base : string; fr_wroteConfig : bool; fr_settings : Settings;
  fr_settleReq : option (Request * Omit); fr_attempt : attempted; fr_flight : flight; fr_unnamed : list unnamedItem;
  fr_responses : nat; fr_lastCalls : bool; fr_noted : option Unhashed; fr_heldNotes : option string; fr_seededNotes : list Note;
}.
#[export] Instance eta_frame `{Setting W} : Eta frame := fun r =>
  Build_frame W _ (fr_cfg r) (fr_base r) (fr_wroteConfig r) (fr_settings r) (fr_settleReq r) (fr_attempt r) (fr_flight r) (fr_unnamed r)
    (fr_responses r) (fr_lastCalls r) (fr_noted r) (fr_heldNotes r) (fr_seededNotes r).

Section Frame.
Context {W : Type} `{Enc : !Encoding} `{Rec : !Recording W} `{Tools : !Tooling W} `{Set_ : !Setting W}.
Abbreviation ledger := (writer * W)%type.
Abbreviation st := (ledger * frame)%type.
Abbreviation act := (act st).

(** The ledger's actions, and the frame's own reads and changes. *)
Definition lift {A} (m : Writer.act ledger A) : act A := fun s => let '(r, l) := m s.1 in (r, (l, s.2)).
Definition view_ {A} (f : frame -> A) : act A := fun s => (inl (f s.2), s).
Definition adjust (f : frame -> frame) : act unit := fun s => (inl tt, (s.1, f s.2)).
Definition writerNow : act writer := lift (get id).
Definition time : act Z := lift (worldGet now).
Definition append (e : entry) : act string := lift (Writer.append e).
Definition custom (ns data : string) : entry := ECustom {| cu_NS := ns; cu_Data := data; cu_CallID := ""; cu_ResponseID := None |}.

(** [Canonical]. *)
Definition Canonical (req : Request) : Request :=
  req <| rq_Stream := false |> <| rq_StreamOptions := None |> <| rq_Rest ::= noBackground |> <| rq_PreviousResponseID := "" |>
      <| rq_Store := Some false |>.

(** [Config.BaseRequest], canonical. *)
Definition baseOf (cfg : configuration) : act Request := req ← lift (world (fun h => let '(r, h) := BaseRequest cfg h in (inl r, h))); ret (Canonical req).

(** ** Settings *)

(** A config entry appended and in force; the items of a response are under its model. *)
Definition configure (text : string) : act unit :=
  append (EOther text) ;;
  adjust (fun f => f <| fr_settings ::= (fun s => Apply s text) |>) ;;
  have ← view_ fr_settings;
  lift (modify (fun w => w <| wr_model := ModelOf have |>)).

(** [writer.settle]. *)
Definition settle (req : Request) (want : Omit) : act unit :=
  wrote ← view_ fr_wroteConfig;
  have ← view_ fr_settings;
  e ← lift (h ← worldGet id; fallible (configEntry have wrote req want h));
  match e with
  | Some text => configure text
  | None => ret tt
  end ;;
  adjust (fun f => f <| fr_wroteConfig := true |>).

(** [writer.flush]. *)
Definition flush : act unit :=
  held ← view_ fr_settleReq;
  match held with
  | None => ret tt
  | Some (req, omit) => adjust (fun f => f <| fr_settleReq := None |>) ;; settle req omit
  end.

(** [writer.recordQuarantine]. *)
Definition recordQuarantine (quarantined : Items) : act unit :=
  wrote ← view_ fr_wroteConfig;
  if bool_decide (quarantined = []) || negb wrote then ret tt
  else
    have ← view_ fr_settings;
    w ← writerNow;
    match quarantineEntry w have quarantined with
    | None => ret tt
    | Some text => configure text
    end.

(** [writer.noteUnhashed]; the items two reasons name are compared by their members, as
    their canonical JSON is. *)
Definition noteUnhashed (why : option Unhashed) : act unit :=
  match why with
  | None => adjust (fun f => f <| fr_noted := None |>)
  | Some why =>
      noted ← view_ fr_noted;
      if match noted with
         | Some n => bool_decide (uh_Reason n = uh_Reason why) && bool_decide (uh_Recorded n = uh_Recorded why)
         | None => false
         end
      then ret tt
      else
        match marshalUnhashed why with
        | None => throw (Errorf "session: encode unhashed")
        | Some data => append (custom UnhashedNS data) ;; adjust (fun f => f <| fr_noted := Some why |>)
        end
  end.

(** ** Items *)

(** [writer.item] of an item held, and [writer.name]; the ones after a failed append are
    let go. *)
Definition item_ (cx : AnswerContext) (i : item) (responseID modelCallID : string) : act unit :=
  lift (itemFrom cx i responseID false None modelCallID None None).
Fixpoint nameAll (cx : AnswerContext) (held : list unnamedItem) (responseID : string) : act unit :=
  match held with
  | [] => ret tt
  | h :: held => item_ cx (un_item h) responseID (un_modelCallID h) ;; nameAll cx held responseID
  end.
Definition name (cx : AnswerContext) (responseID : string) : act bool :=
  held ← view_ fr_unnamed;
  adjust (fun f => f <| fr_unnamed := [] |>) ;;
  nameAll cx held responseID ;;
  ret (negb (bool_decide (held = []))).

(** [streamedResponseID]. *)
Definition streamedResponseID (ev : event) : string :=
  match ev with
  | EvItemStart e => is_ResponseID e
  | EvItemUpdate e => iu_ResponseID e
  | EvItemEnd e => ie_ResponseID e
  | _ => ""
  end.

(** The item_end of [writer.handle]. *)
Definition held (e : ItemEnd) (inFlight : bool) (source : option sTrigger) : bool :=
  inFlight && bool_decide (ie_ResponseID e = "") && negb (ie_Hidden e) && negb (ie_Copied e) &&
  bool_decide (ie_Provenance e = None) && bool_decide (source = None).
Definition itemSource (e : ItemEnd) : option sTrigger + error :=
  let trigger := match ie_Provenance e with
                 | Some p => if TriggerIsZero (PSource p) then ie_Trigger e else PSource p
                 | None => ie_Trigger e
                 end in
  match sessionTrigger trigger with
  | inl t => inl (inputTrigger t (ie_Provenance e) (ie_Copied e) (ie_Hidden e))
  | inr err => inr err
  end.
Definition itemEnd (cx : AnswerContext) (e : ItemEnd) : act unit :=
  source ← fallible (itemSource e);
  inFlight ← view_ (fun f => fl_in (fr_flight f));
  if held e inFlight source
  then adjust (fun f => f <| fr_unnamed ::= (fun l => l ++ [{| un_item := ie_Item e; un_modelCallID := ie_ModelCallID e |}]) |>)
  else
    from ← (if ie_Copied e && bool_decide (ie_ResponseID e = "") then lift (heldCopy (ie_Item e)) else ret None);
    from ← (if ie_Copied e && bool_decide (from = None) then lift (copiedFrom (ie_Item e)) else ret from);
    lift (itemFrom cx (ie_Item e) (ie_ResponseID e) (ie_Hidden e) source (ie_ModelCallID e) from (ie_Provenance e)).

(** ** The model's calls *)

(** [writer.turnStart] and [writer.retry] put a call in flight with its request's hash. *)
Definition inFlightWith (hash : string) (why : option Unhashed) (started : Z) (retries : Z) : flight :=
  {| fl_in := true; fl_ID := ""; fl_hash := hash; fl_unhashed := why; fl_started := Some started; fl_retries := retries |}.
Definition hashed (req : Request) (quarantined : Items) : act (string * Omit * option Unhashed) :=
  have ← view_ fr_settings;
  w ← writerNow;
  '(hash, omit, unhashed) ← fallible (hashOf w have req);
  ret (hash, if bool_decide (is_Some unhashed) then quarantineOver w have omit quarantined (rq_Model req) else omit, unhashed).
Definition settingsOf (req : Request) : act string :=
  match marshalSettings (req <| rq_Input := [] |>) with None => throw (Errorf "session: encode request") | Some data => ret data end.
Definition turnStart (e : TurnStart) : act unit :=
  flush ;;
  let req := Canonical (ts_Request e) in
  '(hash, omit, unhashed) ← hashed req (ts_Quarantined e);
  adjust (fun f => f <| fr_settleReq := Some (req, omit) |>) ;;
  data ← settingsOf req;
  t ← time;
  adjust (fun f => f <| fr_attempt := {| at_settings := Some data; at_input := rq_Input req; at_model := rq_Model req |} |>
                     <| fr_flight := inFlightWith hash unhashed t 0 |>).

(** [sameItems]. *)
Definition sameItems (a b : Items) : bool :=
  bool_decide (length a = length b) && forallb (fun '(x, y) => same x y || equalJSON x y) (zip a b).

Definition retry (cx : AnswerContext) (e : ModelRetry) : act unit :=
  let req := Canonical (mr_Request e) in
  '(hash, omit, unhashed) ← hashed req (mr_Quarantined e);
  next ← settingsOf req;
  last ← view_ fr_attempt;
  let revised := match at_settings last with
                 | Some have => negb (bool_decide (have = next)) || negb (sameItems (at_input last) (rq_Input req))
                 | None => false
                 end in
  data ← match marshalRetry {| rd_Attempt := mr_Attempt e; rd_Error := errorText (mr_Err e); rd_DelayMS := Z.quot (mr_Delay e) 1000000;
                 rd_Model := at_model last; rd_Revised := revised |} with
         | None => throw (Errorf "session: encode model retry") | Some data => ret data end;
  id ← view_ (fun f => fl_ID (fr_flight f));
  name cx id ;;
  append (custom ModelRetryNS data) ;;
  t ← time;
  adjust (fun f => f <| fr_attempt := {| at_settings := Some next; at_input := rq_Input req; at_model := rq_Model req |} |>
                     <| fr_settleReq := Some (req, omit) |>
                     <| fr_flight := inFlightWith hash unhashed t (mr_Attempt e) |>).

(** [writer.latency] and [writer.attempts]. *)
Definition latency (fl : flight) (t : Z) : Z :=
  match fl_started fl with Some started => if bool_decide (0 < t - started)%Z then (t - started)%Z else 0%Z | None => 0%Z end.
Definition attempts (fl : flight) : Z := if bool_decide (fl_retries fl = 0%Z) then 0%Z else (fl_retries fl + 1)%Z.

Definition responded (calls : bool) : act unit := adjust (fun f => f <| fr_responses ::= S |> <| fr_lastCalls := calls |>).
Definition land : act unit := adjust (fun f => f <| fr_flight := landed |>).
Definition withhold (withheld : bool) : act unit := lift (modify (fun w => w <| wr_withheld := withheld |>)).

(** [writer.blocked]. *)
Definition blocked (e : ModelBlocked) : act unit :=
  let req := Canonical (mb_Request e) in
  have ← view_ fr_settings;
  w ← writerNow;
  '(hash, omit, unhashed) ← fallible (hashOf w have req);
  settle req omit ;;
  noteUnhashed unhashed ;;
  land ;;
  (if errIs (mb_Err e) ErrGuard
   then
     data ← match marshalBlocked {| bd_Error := errorText (mb_Err e); bd_RequestHash := hash; bd_Model := rq_Model req; bd_Usage := mb_Usage e |} with
            | None => throw (Errorf "session: encode model blocked") | Some data => ret data end;
     append (custom ModelBlockedNS data)
   else
     responded false ;;
     append (EResponse {| ro_ID := ""; ro_Status := StatusFailed; ro_Usage := None; ro_Incomplete := ""; ro_Error := Some (mb_Err e);
                          ro_Hash := hash; ro_LatencyMS := 0; ro_Attempts := 0 |})) ;;
  recordQuarantine (mb_Quarantined e).

(** The hash a response is written with, and why it has none: its items under no response
    read as its input. *)
Definition hashFor (fl : flight) (unnamed : bool) (responseID : string) : string * option Unhashed :=
  if unnamed && bool_decide (responseID = "")
  then ("", Some {| uh_Reason := unnamedReason; uh_Index := 0; uh_Sent := None; uh_Recorded := None |})
  else (fl_hash fl, fl_unhashed fl).

(** [writer.response]. *)
Definition response `{Externals} (cx : AnswerContext) (e : ResponseEnd) : act unit :=
  let resp := re_Response e in
  unnamed ← name cx (rp_ID resp);
  fl ← view_ fr_flight;
  t ← time;
  let '(hash, why) := hashFor fl unnamed (rp_ID resp) in
  noteUnhashed why ;;
  land ;;
  responded (negb (bool_decide (FunctionCalls resp = [])) && negb (re_Withheld e)) ;;
  withhold (re_Withheld e) ;;
  append (EResponse {| ro_ID := rp_ID resp; ro_Status := rp_Status resp; ro_Usage := rp_Usage resp; ro_Incomplete := rp_Incomplete resp;
                       ro_Error := rp_Error resp; ro_Hash := hash; ro_LatencyMS := latency fl t; ro_Attempts := attempts fl |}) ;;
  ret tt.

(** [writer.endInFlight]: the call is in flight no longer, whatever becomes of its items. *)
Definition endInFlight (cx : AnswerContext) (cause : option error) : act unit :=
  fl ← view_ fr_flight;
  t ← time;
  unnamed ← (fun s => let '(r, s) := name cx (fl_ID fl) s in (r, (s.1, s.2 <| fr_flight := landed |>)));
  if negb (fl_in fl) then ret tt
  else
    let '(hash, why) := hashFor fl unnamed (fl_ID fl) in
    noteUnhashed why ;;
    responded false ;;
    append (EResponse {| ro_ID := fl_ID fl; ro_Status := StatusFailed; ro_Usage := None; ro_Incomplete := ""; ro_Error := cause;
                         ro_Hash := hash; ro_LatencyMS := latency fl t; ro_Attempts := attempts fl |}) ;;
    ret tt.

(** ** Notes held *)

(** [heldNotesData]. *)
Fixpoint heldNotes (notes : list Note) : list HeldNote + error :=
  match notes with
  | [] => inl []
  | n :: notes =>
      if isNil (n_Item n) then heldNotes notes
      else
        match marshalText (n_Item n), sessionTrigger (n_Trigger n), heldNotes notes with
        | None, _, _ => inr (Errorf "session: held note")
        | _, inr e, _ => inr e
        | _, _, inr e => inr e
        | Some it, inl t, inl rest => inl ({| hn_Item := it; hn_Mode := n_Mode n; hn_Trigger := t; hn_CallID := n_CallID n |} :: rest)
        end
  end.
Definition heldNotesData (notes : list Note) : string + error :=
  match heldNotes notes with
  | inr e => inr e
  | inl l => match marshalHeld l with None => inr (Errorf "json: held notes") | Some data => inl data end
  end.

(** [writer.holdNotes]. *)
Definition holdNotes (notes : list Note) : act unit :=
  data ← fallible (heldNotesData notes);
  have ← view_ fr_heldNotes;
  have ← match have with
         | Some h => ret h
         | None =>
             seeded ← view_ fr_seededNotes;
             h ← fallible (heldNotesData seeded);
             adjust (fun f => f <| fr_heldNotes := Some h |>) ;;
             ret h
         end;
  if bool_decide (data = have) then ret tt
  else
    w ← writerNow;
    let id := match last notes with Some n => heldCall w (n_CallID n) | None => "" end in
    append (ECustom {| cu_NS := HeldNotesNS; cu_Data := data; cu_CallID := id; cu_ResponseID := None |}) ;;
    adjust (fun f => f <| fr_heldNotes := Some data |>).

(** ** The run *)

Definition StopCauseString (c : StopCause) : string :=
  match c with
  | NoCause => "" | StopMaxTurns => "max_turns" | StopHook => "hook" | StopGuard => "guard"
  | StopTerminate => "terminate" | StopPartialTerminate => "partial_terminate" | StopRefused => "refused"
  end.

(** [writer.endReason]. *)
Definition endReason (w : writer) (f : frame) (e : RunEnd) : EndReason * string :=
  let text := from_option errorText "" (re_Err e) in
  match re_Reason e with
  | ReasonDone => (EndDone, "")
  | ReasonInputRequired => (EndInputRequired, "")
  | ReasonError => (EndError, text)
  | ReasonAborted => (EndInterrupted, text)
  | ReasonStopped =>
      let cause := StopCauseString (re_Cause e) in
      let cause := match re_Err e with
                   | Some err => if bool_decide (re_Cause e = StopGuard) then cause +:+ ": " +:+ errorText err else cause
                   | None => cause
                   end in
      if wr_withheld w then (EndAborted, cause)
      else if bool_decide (fr_responses f = 0%nat)
      then (if wr_answeredCall w && negb (pendingOnPath w) then EndStopped else EndAborted, cause)
      else (if fr_lastCalls f then EndStopped else EndDone, cause)
  end.

(** The hash of the run's configuration, asked of no tool provider. *)
Definition configBase (cfg : configuration) : act (string * Request) :=
  probe ← baseOf (withoutProvider cfg);
  match RequestHash probe with None => throw (Errorf "session: base request") | Some base => ret (base, probe) end.

(** Whether a run's start settles its configuration: nothing is written yet, or it is
    another than the last run's. *)
Definition settles (wrote : bool) (prev base : string) (moved : bool) : bool :=
  negb wrote || (negb (bool_decide (prev = "")) && negb (bool_decide (prev = base))) || (bool_decide (prev = "") && moved).

(** What [writer.runStart] writes once it has taken the run in, and [writer.runStart]. *)
Definition settleStart (cfg : configuration) (base : string) (req : Request) : act unit :=
  prev ← view_ fr_base;
  adjust (fun f => f <| fr_base := base |>) ;;
  wrote ← view_ fr_wroteConfig;
  have ← view_ fr_settings;
  w ← writerNow;
  moved ← lift (worldGet (differs w have cfg req));
  if settles wrote prev base moved
  then
    req ← baseOf cfg;
    have ← view_ fr_settings;
    w ← writerNow;
    settle req (omitFor w have wrote (rq_Model req))
  else ret tt.
Definition openRun (e : RunStart) (trigger : option sTrigger) : act unit :=
  adjust (fun f => f <| fr_responses := 0%nat |> <| fr_lastCalls := false |>) ;;
  cfg ← view_ fr_cfg;
  probe ← match cfg with Some cfg => '(base, req) ← configBase cfg; ret (Some (base, req)) | None => ret None end;
  append (ERunStart {| rs_ID := rs_RunID e; rs_From := rs_Source e; rs_Text := TriggerString (rs_Trigger e); rs_By := trigger;
                       rs_ConfigBase := fst <$> probe |}) ;;
  session ← lift (get wr_id);
  env ← lift (world (environment session));
  match env with Some text => append (EOther text) ;; ret tt | None => ret tt end ;;
  match cfg, probe with
  | Some cfg, Some (base, req) => settleStart cfg base req
  | _, _ => ret tt
  end.
Definition runStart (e : RunStart) : act unit :=
  trigger ← fallible (sessionTrigger (rs_Trigger e));
  lift (modify (fun w => w <| wr_run := rs_RunID e |> <| wr_unsettled := ∅ |> <| wr_open := [] |> <| wr_answeredCall := false |>
                           <| wr_withheld := false |>)) ;;
  openRun e trigger.

(** [writer.runEnd]. *)
Definition runEnd (cx : AnswerContext) (e : RunEnd) : act unit :=
  endInFlight cx (re_Err e) ;;
  run ← lift (get wr_run);
  if bool_decide (run = "") then ret tt
  else
    recordQuarantine (re_Quarantined e) ;;
    holdNotes (concat (map p_Notes (re_Pending e)) ++ re_Notes e) ;;
    w ← writerNow;
    f ← view_ id;
    let '(reason, ref) := endReason w f e in
    lift (modify (fun w => w <| wr_run := "" |> <| wr_open := [] |>)) ;;
    append (ERunEnd {| rn_ID := run; rn_Reason := reason; rn_Ref := ref; rn_Open := wr_open w |}) ;;
    lift endInbox.

(** ** An event *)

Definition flushes (ev : event) : bool :=
  match ev with
  | EvRunStart _ | EvModelBlocked _ | EvItemEnd _ | EvResponseEnd _ | EvToolStart _ | EvToolDispatch _ | EvToolEnd _ | EvRunEnd _ => true
  | _ => false
  end.

(** The stream of a call in flight names its response, and the items it held. *)
Definition nameStream (cx : AnswerContext) (ev : event) : act unit :=
  inFlight ← view_ (fun f => fl_in (fr_flight f));
  let id := streamedResponseID ev in
  if inFlight && negb (bool_decide (id = ""))
  then adjust (fun f => f <| fr_flight ::= (fun fl => fl <| fl_ID := id |>) |>) ;; name cx id ;; ret tt
  else ret tt.

(** [writer.handle]. *)
Definition handleEvent `{Externals} (cx : AnswerContext) (ev : event) : act unit :=
  match ev with
  | EvRunStart e => runStart e
  | EvTurnStart e => turnStart e
  | EvModelRetry e => retry cx e
  | EvModelBlocked e => blocked e
  | EvItemEnd e => itemEnd cx e
  | EvResponseEnd e => response cx e
  | EvToolStart e => lift (toolStart e)
  | EvToolDispatch e => lift (toolDispatch e)
  | EvToolEnd e => lift (toolEnd e)
  | EvRunEnd e => runEnd cx e
  | EvQueued e => lift (queued e)
  | EvNotesHeld e => holdNotes (nh_Notes e)
  | EvQuarantineAdded e => recordQuarantine (qa_Quarantined e)
  | EvItemStart _ | EvItemUpdate _ | EvToolUpdate _ | EvTurnEnd _ => ret tt
  end.
Definition handle `{Externals} (cx : AnswerContext) (ev : event) : act unit :=
  (if flushes ev then flush else ret tt) ;;
  nameStream cx ev ;;
  handleEvent cx ev.
End Frame.
