(* ===== verification/Recorded.v ===== *)
(** * Recorded: what each event leaves of a record ([session/session.go])

    The steps of [writer.handle] keep the writer in agreement with its path, as long as an
    event is one its ledger [expects]; and a hand-off is on the path before its tool runs.
    [Reported] has what is expected from the events alone. *)

From S2P Require Export Order Frame.

(** ** Actions that leave the copied calls *)

Section Copies.
Context {W : Type} `{Enc : !Encoding} `{Rec : !Recording W} `{Tools : !Tooling W}.
Abbreviation st := (writer * W)%type.
Abbreviation act := (Writer.act st).

Definition leavesCopied {A} (m : act A) : Prop := forall s, wr_copied (m s).2.1 = wr_copied s.1.

Lemma copied_plain {A} (m : act A) : plain m -> leavesCopied m.
Proof. intros Hm s. by destruct (Hm s) as (es & [(_ & _ & E & _) _] & _). Qed.
Lemma copied_bind {A B} (m : act A) (f : A -> act B) : leavesCopied m -> (forall x, leavesCopied (f x)) -> leavesCopied (bind m f).
Proof.
  intros Hm Hf s. specialize (Hm s). unfold bind. destruct (m s) as [[x|e] s1]; [|done]. cbn in Hm. by rewrite (Hf x s1).
Qed.
Lemma copied_value {A B} (m : act A) x (f : A -> act B) : (forall s, m s = (inl x, s)) -> leavesCopied (f x) -> leavesCopied (bind m f).
Proof. intros Hm Hf s. unfold bind. rewrite Hm. apply Hf. Qed.
Lemma copied_append e : leavesCopied (Writer.append e).
Proof. intros s. pose proof (append_spec e s) as H. by destruct (Writer.append e s) as [[x|err] s1], H as [(_ & _ & E & _) _]. Qed.
Lemma copied_setCall id f : leavesCopied (setCall id f).
Proof. done. Qed.
Lemma copied_modify f : (forall w, wr_copied (f w) = wr_copied w) -> leavesCopied (modify f).
Proof. intros H s. apply H. Qed.
Lemma plain_queued e : plain (W := W) (queued e).
Proof.
  unfold queued. destruct (isNil _); [plain|]. apply plain_bind; [plain|]. intros inbox. destruct (list_find _ _) as [[i inp]|].
  - unfold setInbox. plain.
  - apply plain_bind; [plain|]. intros t. apply plain_bind; [unfold resolveCopy; destruct (_ || _); plain|]. intros inp. plain.
Qed.
Lemma plain_endInbox : plain (W := W) endInbox.
Proof. unfold endInbox. plain. Qed.
Lemma plain_heldCopy i : plain (W := W) (heldCopy i).
Proof. unfold heldCopy. plain. Qed.
End Copies.
#[export] Hint Resolve plain_queued plain_endInbox plain_heldCopy : ledger.

Ltac copied_leaf :=
  first [ simple apply copied_append | simple apply copied_setCall | apply copied_modify; intros ?; reflexivity
        | simple apply copied_plain; first [ simple apply plain_ret | simple apply plain_get | simple apply plain_throw | simple apply plain_call
            | simple apply plain_world | simple apply plain_takeUp | simple apply plain_nested | simple apply plain_details
            | simple apply plain_fallible | simple apply plain_worldGet ] ].
Ltac copied :=
  repeat first
  [ simple apply copied_bind; [|intros ?] | copied_leaf
  | match goal with |- leavesCopied (match ?x with _ => _ end) => destruct x | |- leavesCopied (let _ := _ in _) => cbv zeta end ].

Section Calls.
Context {W : Type} `{Enc : !Encoding} `{Rec : !Recording W} `{Laws : !RecordingLaws W} `{Tools : !Tooling W}.
Abbreviation st := (writer * W)%type.
Abbreviation act := (Writer.act st).

Lemma copied_toolStart e : leavesCopied (W := W) (toolStart e).
Proof. unfold toolStart, proceedCall, holdCall, blockCall, when. copied. Qed.
Lemma copied_toolDispatch e : leavesCopied (W := W) (toolDispatch e).
Proof. unfold toolDispatch. copied. Qed.
Lemma copied_toolEnd e : leavesCopied (W := W) (toolEnd e).
Proof. unfold toolEnd, Ledger.settle, noteRefusal, noteWithdrawal, noteResult, when. copied. Qed.
End Calls.

(** An item of the writer's own leaves the copied calls. *)
Section OwnItems.
Context {W : Type} `{Enc : !Encoding} `{Rec : !Recording W} `{Laws : !RecordingLaws W} `{Tools : !Tooling W}.

Lemma copied_close id : leavesCopied (W := W) (close id).
Proof. unfold close. copied. Qed.
Lemma copied_noteCall i id appOnly copies : (copies = false \/ forall p c, i <> ICall p c) -> leavesCopied (W := W) (noteCall i id appOnly copies).
Proof.
  intros H. destruct i as [|n m|n v|n o|n r|n t x]; cbn [noteCall]; try solve [copied].
  destruct H as [->|H]; [|by destruct (H n v)]. cbn. copied.
Qed.
Lemma copied_accountFor cx i o from : leavesCopied (W := W) (accountFor cx i o from).
Proof. unfold accountFor, answerCall, rejectCall, when. copied. all: apply copied_plain; plain. Qed.

Lemma copied_entry i recorded resp hidden source mc failed from prov (copies : bool) :
  (copies = false \/ forall p c, i <> ICall p c) ->
  leavesCopied (W := W) (
    e ← (if negb (filterKeeps i)
         then match marshalText recorded with
              | None => throw (Errorf "session: encode item")
              | Some data => ret (ECustom {| cu_NS := ItemType i; cu_Data := data; cu_CallID := ""; cu_ResponseID := Some resp |})
              end
         else ret (EItem (itemEntry i recorded resp mc failed hidden from prov)));
    e ← (if bool_decide (resp = "") then inp ← drained i; w ← get id; ret (inputEntry w inp source e) else ret e);
    id ← Writer.append e;
    noteEntry i recorded resp id (negb (filterKeeps i)) ;;
    noteCall i id (negb (filterKeeps i)) copies).
Proof.
  intros H. apply copied_bind; [copied|]. intros e. apply copied_bind; [apply copied_plain; plain|]. intros e'.
  apply copied_bind; [copied|]. intros id. apply copied_bind; [|intros _; by apply copied_noteCall].
  apply copied_plain, plain_quiet. intros s. by destruct (noteEntry_appends i recorded resp id (negb (filterKeeps i)) s) as (s' & -> & Ha).
Qed.

Lemma copied_other cx i resp hidden source mc from prov : (forall p c, i <> ICall p c) ->
  leavesCopied (W := W) (itemFrom cx i resp hidden source mc from prov).
Proof.
  intros Hi. unfold itemFrom. destruct (isNil i); [copied|]. apply copied_bind; [apply copied_plain; plain|]. intros from'.
  apply copied_bind.
  { apply copied_bind; [copied|]. intros w. destruct i; try solve [copied]. destruct (_ && _); [apply copied_accountFor|copied]. }
  intros [failed from2]. apply copied_bind; [copied|]. intros session. apply copied_bind; [copied|]. intros recorded. cbv zeta.
  apply copied_entry. by right.
Qed.

Lemma copied_itemFrom cx i resp hidden source mc prov : leavesCopied (W := W) (itemFrom cx i resp hidden source mc None prov).
Proof.
  assert ((exists p c, i = ICall p c) \/ forall p c, i <> ICall p c) as [(p & c & ->)|Hi] by (destruct i; eauto; by right).
  - unfold itemFrom. cbn [isNil]. apply (copied_value _ None); [done|]. apply (copied_value _ (false, None)); [done|].
    apply copied_bind; [copied|]. intros session. apply copied_bind; [copied|]. intros recorded. cbv zeta.
    apply copied_entry. by left.
  - by apply copied_other.
Qed.

(** A copied call adds itself. *)
Definition addsCopied {A} (X : gset string) (m : Writer.act (writer * W) A) : Prop := forall s, wr_copied (m s).2.1 ⊆ X ∪ wr_copied s.1.
Lemma adds_leaves {A} X (m : Writer.act (writer * W) A) : leavesCopied m -> addsCopied X m.
Proof. intros H s. rewrite H. set_solver. Qed.
Lemma adds_bind {A B} X (m : Writer.act (writer * W) A) (f : A -> Writer.act (writer * W) B) :
  leavesCopied m -> (forall x, addsCopied X (f x)) -> addsCopied X (bind m f).
Proof.
  intros Hm Hf s. specialize (Hm s). unfold bind. destruct (m s) as [[x|e] s1]; cbn in Hm.
  - rewrite <- Hm. apply Hf.
  - cbn. rewrite Hm. set_solver.
Qed.
Lemma adds_value {A B} X (m : Writer.act (writer * W) A) x (f : A -> Writer.act (writer * W) B) :
  (forall s, m s = (inl x, s)) -> addsCopied X (f x) -> addsCopied X (bind m f).
Proof. intros Hm Hf s. unfold bind. rewrite Hm. apply Hf. Qed.

Lemma adds_call cx p c resp hidden source mc from prov :
  addsCopied {[CallID c]} (itemFrom cx (ICall p c) resp hidden source mc from prov).
Proof.
  unfold itemFrom. cbn [isNil]. apply (adds_value _ _ from); [done|]. apply (adds_value _ _ (false, from)); [done|].
  apply adds_bind; [copied|]. intros session. apply adds_bind; [copied|]. intros recorded. cbv zeta.
  apply adds_bind; [copied|]. intros e. apply adds_bind; [apply copied_plain; plain|]. intros e'.
  apply adds_bind; [copied|]. intros id. apply adds_bind.
  - apply copied_plain, plain_quiet. intros s. by destruct (noteEntry_appends (ICall p c) recorded resp id (negb (filterKeeps (ICall p c))) s) as (s' & -> & Ha).
  - intros _. cbn [noteCall]. destruct (_ && _); [|apply adds_leaves; copied]. intros s. cbn. done.
Qed.
End OwnItems.

(** ** The steps of a writer *)

Section Steps.
Context {W : Type} `{Enc : !Encoding} `{Rec : !Recording W} `{Laws : !RecordingLaws W} `{Tools : !Tooling W} `{Set_ : !Setting W} `{Ext : !Externals}.
Variable seed : string -> status.
Abbreviation st := ((writer * W) * frame)%type.
Abbreviation act := (Writer.act st).
Abbreviation kept := (kept seed).

(** A call of the writer's own. *)
Definition own (copied : gset string) (i : item) : Prop := match i with ICall _ c => CallID c ∉ copied | _ => True end.

(** The writer agrees with its path, and holds no copied call for its stream to name. *)
Definition inv (s : st) : Prop := kept s.1.1 /\ Forall (fun h => own (wr_copied s.1.1) (un_item h)) (fr_unnamed s.2).
Definition steady {A} (m : act A) : Prop := forall s, inv s -> inv (m s).2.

Lemma steady_bind {A B} (m : act A) (f : A -> act B) : steady m -> (forall x, steady (f x)) -> steady (bind m f).
Proof. intros Hm Hf s Hs. specialize (Hm s Hs). unfold bind. destruct (m s) as [[x|e] s1]; [|done]. by apply Hf. Qed.
Lemma steady_ret {A} (x : A) : steady (ret x).
Proof. by intros s. Qed.
Lemma steady_throw {A} e : steady (throw (A := A) e).
Proof. by intros s. Qed.
Lemma steady_fallible {A} (r : A + error) : steady (fallible r).
Proof. by intros s. Qed.
Lemma steady_view {A} (f : frame -> A) : steady (view_ f).
Proof. by intros s. Qed.
Lemma steady_adjust f : (forall x, fr_unnamed (f x) = fr_unnamed x) -> steady (adjust f).
Proof. intros H s [Hk Hf]. split; [done|]. cbn. by rewrite H. Qed.
Lemma steady_lift {A} (m : Writer.act (writer * W) A) : (forall s, kept s.1 -> kept (m s).2.1) -> leavesCopied m -> steady (lift m).
Proof.
  intros Hm Hc s [Hk Hf]. specialize (Hm s.1 Hk). specialize (Hc s.1). unfold lift. destruct (m s.1) as [r l]. cbn [fst snd] in *.
  split; [done|]. cbn [fst snd]. by rewrite Hc.
Qed.
Lemma steady_plain {A} (m : Writer.act (writer * W) A) : plain m -> steady (lift m).
Proof. intros Hm. apply steady_lift; [intros s; by apply kept_plain|by apply copied_plain]. Qed.
Lemma steady_append e : about e = None -> steady (append e).
Proof. intros H. by apply steady_plain, plain_append. Qed.
Lemma steady_writerNow : steady writerNow.
Proof. apply steady_plain. plain. Qed.
Lemma steady_time : steady time.
Proof. apply steady_plain. plain. Qed.
Lemma steady_land : steady land.
Proof. by apply steady_adjust. Qed.
Lemma steady_responded b : steady (responded b).
Proof. by apply steady_adjust. Qed.
Lemma steady_withhold b : steady (withhold b).
Proof. apply steady_plain. plain. Qed.
Lemma steady_base cfg : steady (baseOf cfg).
Proof. apply steady_bind; [|intros req; apply steady_ret]. apply steady_plain. plain. Qed.
End Steps.

Ltac steady :=
  repeat first
  [ simple apply steady_bind; [|intros ?]
  | simple apply steady_ret | simple apply steady_throw | simple apply steady_fallible | simple apply steady_view
  | apply steady_adjust; intros ?; reflexivity | simple apply steady_append; reflexivity
  | simple apply steady_writerNow | simple apply steady_time | simple apply steady_land | simple apply steady_responded
  | simple apply steady_withhold | simple apply steady_base
  | match goal with |- steady _ (match ?x with _ => _ end) => destruct x | |- steady _ (let _ := _ in _) => cbv zeta end
  | progress eauto with steady ].
Create HintDb steady.

Section Handlers.
Context {W : Type} `{Enc : !Encoding} `{Rec : !Recording W} `{Laws : !RecordingLaws W} `{Tools : !Tooling W} `{Set_ : !Setting W} `{Ext : !Externals}.
Variable seed : string -> status.
Abbreviation st := ((writer * W) * frame)%type.
Abbreviation inv := (inv seed).
Abbreviation steady := (steady seed).

Lemma steady_configure text : steady (configure text).
Proof. unfold configure. steady. apply steady_plain. plain. Qed.
#[local] Hint Resolve steady_configure : steady.
Lemma steady_settle req want : steady (settle req want).
Proof. unfold settle. steady. apply steady_plain. plain. Qed.
#[local] Hint Resolve steady_settle : steady.
Lemma steady_flush : steady flush.
Proof. unfold flush. steady. Qed.
Lemma steady_recordQuarantine q : steady (recordQuarantine q).
Proof. unfold recordQuarantine. steady. Qed.
Lemma steady_noteUnhashed why : steady (noteUnhashed why).
Proof. unfold noteUnhashed. steady. Qed.
Lemma steady_holdNotes notes : steady (holdNotes notes).
Proof. unfold holdNotes. steady. Qed.
#[local] Hint Resolve steady_flush steady_recordQuarantine steady_noteUnhashed steady_holdNotes : steady.

Lemma steady_nameAll cx held resp s : inv s -> Forall (fun h => own (wr_copied s.1.1) (un_item h)) held ->
  fr_unnamed s.2 = [] -> inv (nameAll cx held resp s).2 /\ wr_copied (nameAll cx held resp s).2.1.1 = wr_copied s.1.1.
Proof.
  revert s. induction held as [|h held IH]; intros s Hi Hf Hu; [done|]. cbn [nameAll]. inversion_clear Hf as [|? ? Hh Hrest].
  unfold bind, item_, lift. destruct Hi as [Hk _].
  pose proof (kept_itemFrom seed cx (un_item h) resp false None (un_modelCallID h) None None s.1 Hk) as Hk1.
  pose proof (copied_itemFrom cx (un_item h) resp false None (un_modelCallID h) None s.1) as Hc.
  destruct (itemFrom _ _ _ _ _ _ _ _ s.1) as [r l]. cbn [fst snd] in *.
  assert (inv (l, s.2)) as Hi1 by (split; cbn [fst snd]; [apply Hk1; by destruct (un_item h)|by rewrite Hu]).
  destruct r as [[]|e]; [|done]. rewrite <- Hc. apply (IH (l, s.2)); [done| |done]. cbn [fst snd]. by rewrite Hc.
Qed.

Lemma name_spec cx resp s : inv s -> inv (name cx resp s).2 /\ wr_copied (name cx resp s).2.1.1 = wr_copied s.1.1.
Proof.
  intros [Hk Hf]. pose (s1 := (s.1, s.2 <| fr_unnamed := [] |>)).
  pose proof (steady_nameAll cx (fr_unnamed s.2) resp s1) as H. destruct H as [H Hc]; [split; [done|constructor]|done|done|].
  assert ((name cx resp s).2 = (nameAll cx (fr_unnamed s.2) resp s1).2) as ->; [|done].
  unfold name, bind, view_, adjust. cbn [fst snd]. fold s1. by destruct (nameAll _ _ _ s1) as [[[]|e] s2].
Qed.
Lemma steady_name cx resp : steady (name cx resp).
Proof. intros s Hs. by apply name_spec. Qed.
#[local] Hint Resolve steady_name : steady.

Lemma steady_nameStream cx ev : steady (nameStream cx ev).
Proof. unfold nameStream. steady. Qed.
Lemma steady_hashed req q : steady (hashed req q).
Proof. unfold hashed. steady. Qed.
Lemma steady_settingsOf req : steady (settingsOf req).
Proof. unfold settingsOf. steady. Qed.
#[local] Hint Resolve steady_hashed steady_settingsOf : steady.
Lemma steady_turnStart e : steady (turnStart e).
Proof. unfold turnStart. steady. Qed.
Lemma steady_retry cx e : steady (retry cx e).
Proof. unfold retry. steady. Qed.
Lemma steady_blocked e : steady (blocked e).
Proof. unfold blocked. steady. Qed.
Lemma steady_response cx e : steady (response cx e).
Proof. unfold response. steady. Qed.
Lemma steady_endInFlight cx cause : steady (endInFlight cx cause).
Proof.
  unfold endInFlight. steady. intros s Hs. pose proof (steady_name cx (fl_ID x) s Hs) as [Hk Hf].
  destruct (name _ _ s) as [r s1]. split; [done|]. exact Hf.
Qed.

(** The stream's naming leaves the copied calls, and does nothing for an event that names
    no response. *)
Lemma nameStream_copied cx ev s : inv s -> wr_copied (nameStream cx ev s).2.1.1 = wr_copied s.1.1.
Proof.
  intros Hs. unfold nameStream, bind at 1, view_. cbn [fst snd]. destruct (_ && _); [|done]. unfold bind at 1, adjust. cbn [fst snd].
  unfold bind. match goal with |- context [name cx ?id ?x] => pose proof (name_spec cx id x Hs) as [_ H]; by destruct (name cx id x) as [[b|e] s1] end.
Qed.
Lemma nameStream_unnamed cx ev s : streamedResponseID ev = "" -> nameStream cx ev s = (inl tt, s).
Proof. intros H. unfold nameStream, bind, view_. cbn [fst snd]. by rewrite H, (bool_decide_true (_ = _)), andb_false_r. Qed.

(** A run's record agrees as its own once no call was handed over in it. *)
Lemma kept_run w w' : kept seed w -> wr_calls w' = wr_calls w -> wr_copied w' = wr_copied w -> wr_replay w' = wr_replay w ->
  path w' = path w ->
  (forall id c, wr_calls w !! id = Some c -> c_dispatched c = true -> c_dispatchRun c = wr_run w' -> wr_run w' <> "" -> c_ended c = false) ->
  kept seed w'.
Proof.
  intros (Hr & Ha & Hc) E1 E2 E3 Ep Hrun. unfold kept. rewrite E1, E2, E3, Ep. split_and!; [done| |done]. intros id. specialize (Ha id).
  specialize (Hrun id). destruct (wr_calls w !! id) as [c|]; [|done]. destruct (statusOf seed id (path w)) as [|h|]; [done| |done].
  destruct Ha. constructor; try done. intros. by apply (Hrun c).
Qed.
Lemma steady_rerun f : (forall w, wr_calls (f w) = wr_calls w /\ wr_copied (f w) = wr_copied w /\ wr_replay (f w) = wr_replay w /\
  path (f w) = path w /\ wr_run (f w) = "") -> steady (lift (modify f)).
Proof.
  intros Hf. apply steady_lift; [|intros s; by destruct (Hf s.1) as (_ & E & _)]. intros s Hk. destruct (Hf s.1) as (E1 & E2 & E3 & Ep & Er).
  apply (kept_run s.1); [done..|]. intros id c _ _ _ Hne. by destruct (Hne Er).
Qed.

Lemma steady_runEnd cx e : steady (runEnd cx e).
Proof.
  unfold runEnd. apply steady_bind; [apply steady_endInFlight|]. intros _. apply steady_bind; [apply steady_plain; plain|]. intros run.
  steady. 2: { apply steady_plain. plain. }
  apply steady_rerun. intros w. by split_and!.
Qed.

Lemma steady_openRun e t : steady (openRun e t).
Proof. unfold openRun, settleStart, configBase. steady. all: apply steady_plain; plain. Qed.
Lemma steady_runStart e (s : st) : inv s ->
  (forall id c, wr_calls s.1.1 !! id = Some c -> c_dispatched c = true -> c_dispatchRun c <> rs_RunID e) -> inv (runStart e s).2.
Proof.
  intros [Hk Hf] Hnew. unfold runStart. unfold bind at 1. destruct (sessionTrigger _) as [t|err]; [|done]. cbn [fallible].
  unfold bind at 1, lift at 1, modify. cbn [fst snd]. match goal with |- context [(?w, s.1.2, s.2)] => set (w1 := w) end.
  assert (inv ((w1, s.1.2), s.2)) as Hi.
  { assert (kept seed w1 /\ wr_copied w1 = wr_copied s.1.1) as [Hk1 Hc].
    - unfold w1. split; [|by destruct (s.1.1)]. apply (kept_run s.1.1); [done|by destruct (s.1.1)..|].
      intros id c Hid Hd Hr. destruct (Hnew id c Hid Hd). rewrite Hr. by destruct (s.1.1).
    - split; [done|]. cbn [fst snd]. by rewrite Hc. }
  by apply steady_openRun.
Qed.

(** ** What the loop reports, and an event's record *)

(** What a run's reports keep to: a run's ID of its own and call IDs of their own; a call
    is started before it is handed over in its run, handed over unless its answer is on the
    path, or the store takes no hand-off of it then, and settled once, before its output. *)
Definition expectsNow (s : st) (ev : event) : Prop :=
  match ev with
  | EvRunStart e => forall id c, wr_calls s.1.1 !! id = Some c -> c_dispatched c = true -> c_dispatchRun c <> rs_RunID e
  | EvItemEnd e =>
      match ie_Item e with
      | ICall _ c =>
          CallID c ∉ wr_copied s.1.1 /\
          (ie_Copied e = true -> ie_ResponseID e = "" /\ wr_calls s.1.1 !! CallID c = None /\
            Forall (fun h => own {[CallID c]} (un_item h)) (fr_unnamed s.2))
      | _ => True
      end
  | EvToolStart e => tst_Parent e = "" -> notYetHandedOver s.1.1 (tst_CallID e)
  | EvToolDispatch e => tdi_Parent e = "" -> handedOnce s.1 (tdi_CallID e)
  | EvToolEnd e => te_Parent e = "" -> settledOnce s.1.1 (te_CallID e)
  | _ => True
  end.

(** The store is asked once what the settings owe has been written. *)
Definition expects (s : st) (ev : event) : Prop :=
  match ev with EvToolDispatch _ => expectsNow (flush s).2 ev | _ => expectsNow s ev end.

Lemma own_union c copied h : own {[c]} h -> own copied h -> own ({[c]} ∪ copied) h.
Proof. destruct h; cbn; set_solver. Qed.

Lemma keeps_item cx i resp hidden source mc from prov (s : st) : inv s -> freshCall s.1.1 i from ->
  (forall p c, i = ICall p c -> from <> None -> Forall (fun h => own {[CallID c]} (un_item h)) (fr_unnamed s.2)) ->
  inv (lift (itemFrom cx i resp hidden source mc from prov) s).2.
Proof.
  intros [Hk Hf] Hfresh Hheld. pose proof (kept_itemFrom seed cx i resp hidden source mc from prov s.1 Hk Hfresh) as Hk1.
  assert (Forall (fun h => own (wr_copied (itemFrom cx i resp hidden source mc from prov s.1).2.1) (un_item h)) (fr_unnamed s.2)) as Hf1.
  { destruct (decide (from = None)) as [->|Hne]; [by rewrite copied_itemFrom|].
    destruct i as [|n m|n v|n o|n r|n t x]; try (rewrite copied_other; [done|]; intros; discriminate).
    pose proof (adds_call cx n v resp hidden source mc from prov s.1) as Hadd. specialize (Hheld n v eq_refl Hne).
    eapply Forall_impl; [apply Forall_and; split; [exact Hheld|exact Hf]|]. intros h [H1 H2]. pose proof (own_union _ _ _ H1 H2) as H.
    destruct (un_item h); cbn in *; set_solver. }
  unfold lift. by destruct (itemFrom _ _ _ _ _ _ _ _ s.1) as [r l].
Qed.

Lemma lift_then {A B} (m : Writer.act (writer * W) A) (f : A -> Writer.act st B) (s : st) : inv s -> plain m ->
  (forall x (s1 : st), sameLedger s.1.1 s1.1.1 -> s1.2 = s.2 -> inv s1 -> inv (f x s1).2) -> inv (bind (lift m) f s).2.
Proof.
  intros Hi Hm Hf. pose proof (steady_plain seed m Hm s Hi) as Hi1. destruct (Hm s.1) as (es & [Hl _] & _).
  unfold bind. unfold lift in *. destruct (m s.1) as [[x|e] l]; [|done]. by apply Hf.
Qed.

Lemma lift_keeps {A} (m : Writer.act (writer * W) A) (s : st) : inv s -> kept seed (m s.1).2.1 -> leavesCopied m -> inv (lift m s).2.
Proof.
  intros [Hk Hf] Hm Hc. specialize (Hc s.1). unfold lift. destruct (m s.1) as [r l]. cbn [fst snd] in *.
  split; [done|]. cbn [fst snd]. by rewrite Hc.
Qed.

Lemma keeps_itemEnd cx e (s : st) : inv s -> expectsNow s (EvItemEnd e) -> inv (itemEnd cx e s).2.
Proof.
  intros Hi He. unfold itemEnd. unfold bind at 1. destruct (itemSource e) as [source|err]; [|done]. cbn [fallible].
  unfold bind at 1, view_ at 1. cbn [fst snd]. destruct (held e _ source) eqn:Eh.
  - destruct Hi as [Hk Hf]. split; [done|]. cbn. upd. apply Forall_app. split; [done|]. apply Forall_singleton. cbn.
    cbn in He. destruct (ie_Item e); try done. by destruct He.
  - clear Eh. cbn in He. destruct (ie_Copied e) eqn:Ec; cbn [andb].
    + assert (forall from (s1 : st), sameLedger s.1.1 s1.1.1 -> s1.2 = s.2 -> inv s1 ->
        inv (lift (itemFrom cx (ie_Item e) (ie_ResponseID e) (ie_Hidden e) source (ie_ModelCallID e) from (ie_Provenance e)) s1).2) as Hlast.
      { intros from s1 Hl Hu Hi1. apply keeps_item; [done| |].
        - apply (fresh_same _ _ _ _ Hl). destruct (ie_Item e); try done. destruct He as [Hn He]. destruct from; [|done]. by apply He.
        - intros p c Hc _. rewrite Hu. rewrite Hc in He. by apply He. }
      assert (forall from (s1 : st), sameLedger s.1.1 s1.1.1 -> s1.2 = s.2 -> inv s1 ->
        inv ((from ← (if bool_decide (from = None) then lift (copiedFrom (ie_Item e)) else ret from);
              lift (itemFrom cx (ie_Item e) (ie_ResponseID e) (ie_Hidden e) source (ie_ModelCallID e) from (ie_Provenance e))) s1).2) as Hnext.
      { intros from s1 Hl Hu Hi1. destruct (bool_decide _); [|by apply Hlast]. apply lift_then; [done|plain|]. intros from2 s2 Hl2 Hu2 Hi2.
        apply Hlast; [by etrans|congruence|done]. }
      destruct (bool_decide _); [|by apply Hnext]. apply lift_then; [done|plain|]. intros from s1 Hl Hu Hi1. by apply Hnext.
    + unfold bind, ret. apply keeps_item; [done| |done]. destruct (ie_Item e); try done. by destruct He.
Qed.

(** ** The flush before an event *)

Definition untouched {A} (m : Writer.act st A) : Prop :=
  forall s, sameLedger s.1.1 (m s).2.1.1 /\ fr_unnamed (m s).2.2 = fr_unnamed s.2.
Lemma untouched_bind {A B} (m : Writer.act st A) (f : A -> Writer.act st B) :
  untouched m -> (forall x, untouched (f x)) -> untouched (bind m f).
Proof.
  intros Hm Hf s. destruct (Hm s) as [Hl Hu]. unfold bind. destruct (m s) as [[x|e] s1]; [|done].
  destruct (Hf x s1) as [Hl1 Hu1]. split; [by etrans|by rewrite Hu1].
Qed.
Lemma untouched_lift {A} (m : Writer.act (writer * W) A) : plain m -> untouched (lift m).
Proof. intros Hm s. destruct (Hm s.1) as (es & [Hl _] & _). unfold lift. by destruct (m s.1). Qed.
Lemma untouched_adjust f : (forall x, fr_unnamed (f x) = fr_unnamed x) -> untouched (adjust f).
Proof. intros H s. split; [done|]. apply H. Qed.

Lemma flush_untouched : untouched flush.
Proof.
  assert (forall req want, untouched (settle req want)) as Hs.
  { intros req want. unfold settle. do 2 (apply untouched_bind; [by intros s|intros ?]). apply untouched_bind; [apply untouched_lift; plain|].
    intros [text|]; (apply untouched_bind; [|intros _; by apply untouched_adjust]); [|by intros s].
    unfold configure. apply untouched_bind; [apply untouched_lift; plain|]. intros _. apply untouched_bind; [by apply untouched_adjust|].
    intros _. apply untouched_bind; [by intros s|]. intros have. apply untouched_lift. plain. }
  unfold flush. apply untouched_bind; [by intros s|]. intros [[req omit]|]; [|by intros s].
  apply untouched_bind; [by apply untouched_adjust|]. intros _. apply Hs.
Qed.

Lemma expects_untouched (s s1 : st) ev : sameLedger s.1.1 s1.1.1 -> fr_unnamed s1.2 = fr_unnamed s.2 ->
  (forall e, ev <> EvToolDispatch e) -> expects s ev -> expectsNow s1 ev.
Proof.
  intros (E1 & E2 & E3 & _) Hu Hd. destruct ev as [e|e|e|e|e|e|e|e|e|e|e|e|e|e|e|e|e]; cbn; rewrite ?E1, ?Hu; try done.
  - by rewrite E3.
  - unfold notYetHandedOver. by rewrite E1, E2.
  - by destruct (Hd e).
  - unfold settledOnce. by rewrite E1, E2.
Qed.

Lemma expects_flushed (s : st) ev : expects s ev -> expectsNow (if flushes ev then (flush s).2 else s) ev.
Proof.
  intros He. destruct ev as [e|e|e|e|e|e|e|e|e|e|e|e|e|e|e|e|e]; try exact He; cbn [flushes];
    (eapply expects_untouched; [apply flush_untouched..|done|exact He]).
Qed.

(** An event's record. *)
Lemma keeps_handle cx ev (s : st) : inv s -> expects s ev -> inv (handle cx ev s).2.
Proof.
  intros Hi He. unfold handle. unfold bind at 1.
  assert (exists r s1, (if flushes ev then flush else ret tt) s = (r, s1) /\ inv s1 /\ expectsNow s1 ev) as (r & s1 & -> & Hi1 & He1).
  { apply expects_flushed in He. destruct (flushes ev); [|by eexists _, s].
    pose proof (steady_flush s Hi) as Hf. destruct (flush s) as [r s1]. by exists r, s1. }
  destruct r as [[]|e]; [|done]. clear Hi He s. unfold bind.
  pose proof (steady_nameStream cx ev s1 Hi1) as Hi2. pose proof (nameStream_copied cx ev s1 Hi1) as Hc.
  assert (streamedResponseID ev = "" -> nameStream cx ev s1 = (inl tt, s1)) as Hn by apply nameStream_unnamed.
  destruct ev as [e|e|e|e|e|e|e|e|e|e|e|e|e|e|e|e|e]; cbn [handleEvent streamedResponseID] in *; try rewrite Hn by done.
  - by apply steady_runStart.
  - by apply steady_turnStart.
  - by apply steady_retry.
  - by apply steady_blocked.
  - by destruct (nameStream _ _ _) as [[[]|err] s2].
  - by destruct (nameStream _ _ _) as [[[]|err] s2].
  - destruct (nameStream _ _ _) as [[[]|err] s2] eqn:E; [|done]. apply keeps_itemEnd; [done|]. cbn in He1 |- *.
    destruct (ie_Item e); try done. destruct He1 as [H1 H2]. cbn [snd] in Hc. rewrite Hc. split; [done|]. intros Hcp.
    destruct (H2 Hcp) as (Hr & H3). assert (s2 = s1) as -> by (specialize (Hn Hr); congruence). done.
  - by apply steady_response.
  - apply lift_keeps; [done| |apply copied_toolStart]. by apply kept_toolStart; [destruct Hi1|].
  - apply lift_keeps; [done| |apply copied_toolDispatch]. by apply kept_toolDispatch; [destruct Hi1|].
  - done.
  - apply lift_keeps; [done| |apply copied_toolEnd]. by apply kept_toolEnd; [destruct Hi1|].
  - done.
  - by apply steady_runEnd.
  - by apply steady_holdNotes.
  - apply steady_plain; [plain|done].
  - by apply steady_recordQuarantine.
Qed.

(** ** The writer's life *)

(** The states of a writer from [s0]: it handles an event as the loop reports it, whether
    the store takes its entries or not, and the program around it does anything between. *)
Inductive reached (s0 : st) : st -> Prop :=
| reached_start : reached s0 s0
| reached_event cx ev s : reached s0 s -> expects s ev -> reached s0 (handle cx ev s).2
| reached_world s h : reached s0 s -> reached s0 ((s.1.1, h), s.2).

Lemma reached_inv s0 s : inv s0 -> reached s0 s -> inv s.
Proof. intros H0. induction 1 as [|cx ev s _ IH He|s h _ IH]; [done|by apply keeps_handle|exact IH]. Qed.

(** A hand-off that is told of without an error is on the path. *)
Lemma toolDispatch_marks e (s : writer * W) c : tdi_Parent e = "" -> wr_calls s.1 !! tdi_CallID e = Some c ->
  match toolDispatch e s with
  | (inl _, s') => exists c', wr_calls s'.1 !! tdi_CallID e = Some c' /\ (c_rejected c' = true \/ c_dispatched c' = true)
  | (inr _, _) => True
  end.
Proof.
  intros Hp Hid. unfold toolDispatch. rewrite Hp, (bool_decide_true ("" = "")) by done. unfold bind at 1 2 3, call, get. cbn [negb]. rewrite Hid.
  destruct (c_rejected c) eqn:Hr; [by exists c; auto|]. cbn [orb].
  destruct (c_dispatched c && _) eqn:Hd; [exists c; apply andb_true_iff in Hd as [Hd _]; auto|].
  destruct (c_answered c); [done|]. destruct (bool_decide (is_Some _)); [done|].
  set (m := match c_again c with Some _ => _ | None => _ end).
  assert (match m s with (inl _, s1) => exists c1, wr_calls s1.1 !! tdi_CallID e = Some c1 | (inr _, _) => True end) as Hm.
  { unfold m. destruct (c_again c) as [by_|]; [|by exists c]. set (dec := EDecision _).
    pose proof (writes_spec dec (tdi_CallID e) s) as Hw. unfold bind in *.
    destruct (Writer.append dec s) as [[x|err] s1]; [|done]. destruct (takeUp _ s1) as [[u|err] s2]; [|done].
    destruct Hw as [(E1 & _) _]. cbn. upd. rewrite E1, lookup_alter_eq, Hid. by eexists. }
  unfold bind. destruct (m s) as [[u|err] s1]; [|done]. destruct Hm as [c1 Hid1]. set (d := EDispatch _).
  pose proof (writes_spec d (tdi_CallID e) s1) as Hw. unfold bind in Hw.
  destruct (Writer.append d s1) as [[x|err] s2]; [|done]. destruct (takeUp _ s2) as [[u'|err] s3]; [|done].
  destruct Hw as [(E1 & _) _]. eexists.
  split; [|right; by destruct (dispatched_fields (tdi_CallID e) x (wr_run s.1) c1) as (_ & _ & _ & _ & H & _)].
  unfold setCall, modify. cbn [fst snd]. upd. by rewrite E1, lookup_alter_eq, Hid1.
Qed.

(** C4: when the writer takes the loop's report that a call is handed over, the tool then
    runs with the hand-off on the path: a call of the record, unless a reject of it is,
    has a hand-off there that nothing withdraws. *)
Theorem handOff_recorded s0 s cx e : inv s0 -> reached s0 s -> expects s (EvToolDispatch e) -> tdi_Parent e = "" ->
  is_Some (wr_calls s.1.1 !! tdi_CallID e) -> (handle cx (EvToolDispatch e) s).1 = inl tt ->
  exists h, statusOf seed (tdi_CallID e) (path (handle cx (EvToolDispatch e) s).2.1.1) = Live h /\
    (h_rejected h = true \/ h_handOffs h <> 0%nat).
Proof.
  intros H0 Hr He Hp Hc Hok. pose proof (reached_inv s0 s H0 Hr) as Hi. pose proof (keeps_handle cx _ s Hi He) as [(_ & Ha & _) _].
  assert (exists c', wr_calls (handle cx (EvToolDispatch e) s).2.1.1 !! tdi_CallID e = Some c' /\ (c_rejected c' = true \/ c_dispatched c' = true))
    as (c' & Hid & Hd).
  { destruct Hc as [c Hc]. clear Ha. revert Hok. unfold handle, flushes. unfold bind at 1 3.
    destruct (flush_untouched s) as [(E1 & _) _].
    destruct (flush s) as [[u|err] s1]; [|done]. cbn [fst snd] in E1. rewrite <- E1 in Hc.
    unfold bind. rewrite (nameStream_unnamed cx (EvToolDispatch e) s1 eq_refl). cbn [handleEvent].
    unfold lift. pose proof (toolDispatch_marks e s1.1 c Hp Hc) as Hm. destruct (toolDispatch e s1.1) as [r l]. cbn [fst snd].
    by intros ->. }
  specialize (Ha (tdi_CallID e)). rewrite Hid in Ha. cbn in Ha. destruct (statusOf _ _ _) as [|h|]; [done| |done].
  exists h. split; [done|]. destruct Hd as [Hd|Hd]; [left; by rewrite <- (ag_rejected _ _ _ Ha)|right].
  rewrite (ag_dispatched _ _ _ Ha) in Hd. by destruct (bool_decide_reflect (h_handOffs h = 0%nat)).
Qed.

(** A writer of a session with nothing on it agrees with it. *)
Lemma new_inv (s : st) : (forall id, seed id = NoCall) -> wr_replay s.1.1 = false -> wr_calls s.1.1 = ∅ -> wr_copied s.1.1 = ∅ ->
  wr_written s.1.1 = [] -> fr_unnamed s.2 = [] -> inv s.
Proof.
  intros Hs Hr Hc Hcp Hw Hu. split; [|by rewrite Hu]. unfold kept, path. rewrite Hc, Hcp, Hw. split_and!; [done| |by intros].
  intros id. rewrite lookup_empty. unfold statusOf. cbn. by rewrite Hs.
Qed.
End Handlers.
