(* ===== verification/Reported.v ===== *)
(** * Reported: what a run has reported so far, and the order its record is then in
    ([session/session.go])

    What [Recorded] asks of an event is about the writer's own ledger. Here it is asked of
    the events: a run's ID and a copied call's are new, a call is started before its tool is
    given it, and ended once and before its output. An account of the events so far says
    whether the next one keeps to that, and the ledger is shown to agree with it, wherever an
    append failed. *)

From S2P Require Export Recorded.

(** What has been reported: the runs, and whether one is going on; of the run going on, the
    calls handed over and those ended; the outputs, the calls and the copied calls. *)
Record told := { tl_runs : gset string; tl_running : bool; tl_handed : gset string; tl_ended : gset string;
  tl_outputs : gset string; tl_calls : gset string; tl_copies : gset string }.
#[export] Instance eta_told : Eta told := fun t =>
  Build_told (tl_runs t) (tl_running t) (tl_handed t) (tl_ended t) (tl_outputs t) (tl_calls t) (tl_copies t).

(** The event [ev] told of, [ok] that its record was taken. *)
Definition noteEvent (ok : bool) (ev : event) (t : told) : told :=
  match ev with
  | EvRunStart e =>
      let t := t <| tl_runs ::= (fun s => {[ rs_RunID e ]} ∪ s) |> <| tl_running := ok |> in
      if ok then t <| tl_handed := ∅ |> <| tl_ended := ∅ |> else t
  | EvItemEnd e =>
      match ie_Item e with
      | ICall _ c =>
          let t := t <| tl_calls ::= (fun s => {[ CallID c ]} ∪ s) |> in
          if ie_Copied e then t <| tl_copies ::= (fun s => {[ CallID c ]} ∪ s) |> else t
      | IOutput _ o => t <| tl_outputs ::= (fun s => {[ OutCallID o ]} ∪ s) |>
      | _ => t
      end
  | EvToolDispatch e => if bool_decide (tdi_Parent e = "") then t <| tl_handed ::= (fun s => {[ tdi_CallID e ]} ∪ s) |> else t
  | EvToolEnd e => if bool_decide (te_Parent e = "") then t <| tl_ended ::= (fun s => {[ te_CallID e ]} ∪ s) |> else t
  | EvRunEnd _ => t <| tl_running := false |>
  | _ => t
  end.

(** The order the loop reports in. *)
Definition inLoopOrder (t : told) (ev : event) : bool :=
  match ev with
  | EvRunStart e => negb (bool_decide (rs_RunID e = "")) && negb (bool_decide (rs_RunID e ∈ tl_runs t))
  | EvItemEnd e =>
      match ie_Item e with
      | ICall _ c =>
          negb (bool_decide (CallID c ∈ tl_copies t)) &&
          (negb (ie_Copied e) || (bool_decide (ie_ResponseID e = "") && negb (bool_decide (CallID c ∈ tl_calls t))))
      | _ => true
      end
  | EvToolStart e => negb (bool_decide (tst_Parent e = "")) || negb (bool_decide (tst_CallID e ∈ tl_handed t))
  | EvToolEnd e =>
      negb (bool_decide (te_Parent e = "")) ||
      (tl_running t && negb (bool_decide (te_CallID e ∈ tl_ended t)) && negb (bool_decide (te_CallID e ∈ tl_outputs t)))
  | _ => true
  end.

Section Ledger.
Context {W : Type} `{Enc : !Encoding} `{Rec : !Recording W} `{Laws : !RecordingLaws W} `{Tools : !Tooling W}.
Implicit Types (t : told) (w : writer) (c : callRecord).

(** ** The ledger, and what was told *)

Definition runOf t (run : string) : Prop := run = "" \/ run ∈ tl_runs t.

(** A call's record, in the run [run]. *)
Record recordOk t (run id : string) c : Prop := {
  rk_run : runOf t (c_dispatchRun c);
  rk_before : forall b, c_before c = Some b -> runOf t (ds_run b);
  rk_handed : run <> "" -> c_dispatched c = true -> c_dispatchRun c = run ->
    id ∈ tl_handed t /\ (c_answered c = true -> id ∈ tl_outputs t) /\ (is_Some (c_result c) -> id ∈ tl_ended t);
  rk_earlier : run <> "" -> forall b, c_before c = Some b -> ds_dispatched b = true -> ds_run b <> run;
}.
Record ledgerOk t w : Prop := {
  lk_running : tl_running t = true -> wr_run w <> "";
  lk_run : runOf t (wr_run w);
  lk_calls : map_Forall (recordOk t (wr_run w)) (wr_calls w);
  lk_known : dom (wr_calls w) ⊆ tl_calls t;
  lk_copied : wr_copied w ⊆ tl_copies t;
}.

(** Told of no less. *)
Record less t t' : Prop := {
  ls_runs : tl_runs t ⊆ tl_runs t'; ls_running : tl_running t' = true -> tl_running t = true;
  ls_handed : tl_handed t ⊆ tl_handed t'; ls_ended : tl_ended t ⊆ tl_ended t'; ls_outputs : tl_outputs t ⊆ tl_outputs t';
  ls_calls : tl_calls t ⊆ tl_calls t'; ls_copies : tl_copies t ⊆ tl_copies t' }.

Lemma ledgerOk_less t t' w : less t t' -> ledgerOk t w -> ledgerOk t' w.
Proof.
  intros [] [Hr Hw Hc Hk Hp]. assert (forall run, runOf t run -> runOf t' run) as Hrun by (intros run [?|?]; [by left|right; set_solver]).
  split; [auto|auto| |set_solver|set_solver]. intros id c Hid. destruct (Hc id c Hid) as [R1 R2 R3 R4]. split; [auto|eauto| |done].
  intros Hne Hd Hrn. destruct (R3 Hne Hd Hrn) as (? & ? & ?). split_and!; [set_solver|intros; set_solver|intros; set_solver].
Qed.

Lemma ledgerOk_same t w w' : sameLedger w w' -> ledgerOk t w -> ledgerOk t w'.
Proof. intros (E1 & E2 & E3 & _) []. split; rewrite ?E1, ?E2, ?E3; done. Qed.

(** Actions after which the ledger still agrees. *)
Abbreviation act := (Writer.act (writer * W)).
Definition agreeing {A} t (m : act A) : Prop := forall s, ledgerOk t s.1 -> ledgerOk t (m s).2.1.

Lemma agreeing_bind {A B} t (m : act A) (f : A -> act B) : agreeing t m -> (forall x, agreeing t (f x)) -> agreeing t (bind m f).
Proof. intros Hm Hf s Hs. specialize (Hm s Hs). unfold bind. destruct (m s) as [[x|e] s1]; [by apply Hf|done]. Qed.
Lemma agreeing_value {A B} t (m : act A) x (f : A -> act B) : (forall s, m s = (inl x, s)) -> agreeing t (f x) -> agreeing t (bind m f).
Proof. intros Hm Hf s. unfold bind. rewrite Hm. apply Hf. Qed.
Lemma agreeing_plain {A} t (m : act A) : plain m -> agreeing t m.
Proof. intros Hm s Hs. destruct (Hm s) as (es & [Hl _] & _). by eapply ledgerOk_same. Qed.
Lemma agreeing_append t e : agreeing t (Writer.append e).
Proof. intros s Hs. pose proof (append_spec e s) as H. destruct (Writer.append e s) as [[x|err] s1]; by eapply ledgerOk_same; [apply H|]. Qed.

(** A call's record changed. *)
Lemma agreeing_setCall t id f : (forall run c, recordOk t run id c -> recordOk t run id (f c)) -> agreeing t (setCall id f).
Proof.
  intros Hf s [Hr Hw Hc Hk Hp]. unfold setCall, modify. cbn [fst snd]. split; upd; try done.
  - intros i c. destruct (decide (i = id)) as [->|Hne].
    + rewrite lookup_alter_eq. intros (c0 & Hc0 & ->)%fmap_Some. by apply Hf, Hc.
    + rewrite lookup_alter_ne by done. apply Hc.
  - by rewrite dom_alter_L.
Qed.

Lemma recordOk_like t run id c c' : c_dispatchRun c' = c_dispatchRun c -> c_before c' = c_before c -> c_dispatched c' = c_dispatched c ->
  c_answered c' = c_answered c -> c_result c' = c_result c -> recordOk t run id c -> recordOk t run id c'.
Proof. intros E1 E2 E3 E4 E5 []. split; rewrite ?E1, ?E2, ?E3, ?E4, ?E5; done. Qed.

Lemma recordOk_answered t run id c : id ∈ tl_outputs t -> recordOk t run id c -> recordOk t run id (c <| c_answered := true |>).
Proof. intros Hid [R1 R2 R3 R4]. split; upd; try done. intros Hne Hd Hr. destruct (R3 Hne Hd Hr) as (? & ? & ?). by split_and!. Qed.

Lemma recordOk_result t run id r c : id ∈ tl_ended t -> recordOk t run id c -> recordOk t run id (c <| c_result := Some r |>).
Proof. intros Hid [R1 R2 R3 R4]. split; upd; try done. intros Hne Hd Hr. destruct (R3 Hne Hd Hr) as (? & ? & ?). by split_and!. Qed.

Lemma withdraw_run c b : c_before c = Some b -> c_dispatchRun (withdraw c) = ds_run b.
Proof. intros H. destruct c. cbn in H. by subst. Qed.

Lemma withdraw_none c : c_before c = None -> withdraw c = c <| c_lastWithdrawn := true |>.
Proof. intros H. unfold withdraw. by rewrite H. Qed.

Lemma recordOk_withdraw t run id c : recordOk t run id c -> recordOk t run id (withdraw c).
Proof.
  intros Hk. destruct (c_before c) as [b|] eqn:Eb; [|rewrite withdraw_none by done; by apply (recordOk_like _ _ _ c)].
  pose proof Hk as [R1 R2 R3 R4]. pose proof (withdraw_run c b Eb) as E1. destruct (withdraw_fields c b Eb) as (_ & _ & _ & _ & E2 & _ & E3 & _).
  split; rewrite ?E1, ?E2, ?E3; try done; [by apply R2|]. intros Hne Hd Hr. by destruct (R4 Hne b Eb Hd).
Qed.

Lemma recordOk_new t run id entry args : recordOk t run id (newCallRecord entry args).
Proof. split; cbn; try done. by left. Qed.

Lemma recordOk_dispatched t run id entry c : id ∈ tl_handed t -> runOf t run -> c_answered c = false -> c_result c = None ->
  (c_dispatched c = true -> c_dispatchRun c <> run) -> recordOk t run id c -> recordOk t run id (dispatched id entry run c).
Proof.
  intros Hid Hrun Ha Hres Hd [R1 R2 R3 R4]. unfold dispatched. split; upd.
  - done.
  - by intros b [= <-].
  - intros _ _ _. rewrite Ha, Hres. split_and!; [done|done|by intros [? ?]].
  - intros _ b [= <-]. apply Hd.
Qed.

End Ledger.

(** A call's record changed but for what is told of it. *)
Lemma agreeing_like {W : Type} t id f :
  (forall c, c_dispatchRun (f c) = c_dispatchRun c /\ c_before (f c) = c_before c /\ c_dispatched (f c) = c_dispatched c /\
    c_answered (f c) = c_answered c /\ c_result (f c) = c_result c) -> agreeing (W := W) t (setCall id f).
Proof. intros Hf. apply agreeing_setCall. intros run c Hk. destruct (Hf c) as (? & ? & ? & ? & ?). by apply (recordOk_like _ _ _ c). Qed.
Ltac alike := apply agreeing_like; intros ?; split_and!; reflexivity.
Ltac agreeing :=
  repeat first
  [ simple apply agreeing_bind; [|intros ?] | simple apply agreeing_append
  | simple apply agreeing_plain; first [ simple apply plain_ret | simple apply plain_get | simple apply plain_throw | simple apply plain_call
      | simple apply plain_world | simple apply plain_takeUp | simple apply plain_nested | simple apply plain_details
      | simple apply plain_fallible | simple apply plain_worldGet | simple apply plain_modify; intros ?; by split ]
  | alike
  | match goal with |- agreeing _ (match ?x with _ => _ end) => destruct x | |- agreeing _ (let _ := _ in _) => cbv zeta end ].

Section Calls.
Context {W : Type} `{Enc : !Encoding} `{Rec : !Recording W} `{Laws : !RecordingLaws W} `{Tools : !Tooling W}.
Implicit Types (t : told).
Abbreviation agreeing := (agreeing (W := W)).

Lemma agreeing_toolStart t e : agreeing t (toolStart e).
Proof. unfold toolStart, proceedCall, holdCall, blockCall, when. agreeing. Qed.

Lemma agreeing_toolEnd t e : (te_Parent e = "" -> te_CallID e ∈ tl_ended t) -> agreeing t (toolEnd e).
Proof.
  intros He. unfold toolEnd. destruct (bool_decide_reflect (te_Parent e = "")) as [Hp|_]; [|agreeing].
  specialize (He Hp). unfold Ledger.settle, noteRefusal, noteWithdrawal, noteResult, when. agreeing.
  - apply agreeing_setCall. intros run c0. apply recordOk_withdraw.
  - apply agreeing_setCall. intros run c0. by apply recordOk_result.
Qed.

(** A call handed over, by a report told of. *)
Lemma agreeing_toolDispatch t e : (tdi_Parent e = "" -> tdi_CallID e ∈ tl_handed t) -> agreeing t (toolDispatch e).
Proof.
  intros He. unfold toolDispatch. destruct (bool_decide_reflect (tdi_Parent e = "")) as [Hp|_]; cbn [negb].
  2: { agreeing. }
  specialize (He Hp). set (id := tdi_CallID e) in *. intros s Hs. unfold bind at 1 2 3, call, get.
  destruct (wr_calls s.1 !! id) as [c|] eqn:Hid; [|by destruct (bool_decide _)].
  destruct (_ || _) eqn:Hrd; [done|]. apply orb_false_iff in Hrd as [_ Hd].
  destruct (c_answered c) eqn:Ha; [done|]. destruct (bool_decide (is_Some (c_result c))) eqn:Hres; [done|].
  apply bool_decide_eq_false in Hres. rewrite <- eq_None_not_Some in Hres.
  set (m := match c_again c with Some _ => _ | None => _ end).
  assert (agreeing t m) as Hm by (unfold m; agreeing).
  assert (match m s with (inl _, s1) => wr_run s1.1 = wr_run s.1 /\ exists c1, wr_calls s1.1 !! id = Some c1 /\
    c_answered c1 = false /\ c_result c1 = None /\ c_dispatched c1 = c_dispatched c /\ c_dispatchRun c1 = c_dispatchRun c
    | (inr _, _) => True end) as Hm1.
  { unfold m. destruct (c_again c) as [by_|]; [|split; [done|]; by exists c].
    set (dec := decision _ _ _ _ _). pose proof (writes_spec (EDecision dec) id s) as Hw. unfold bind in *.
    destruct (Writer.append (EDecision dec) s) as [[x|err] s1]; [|done]. destruct (takeUp id s1) as [[u|err] s2]; [|done].
    destruct Hw as [(E1 & E2 & _) _]. cbn. split; [done|]. exists (c <| c_again := None |>). upd. by rewrite E1, lookup_alter_eq, Hid. }
  specialize (Hm s Hs). unfold bind at 1. destruct (m s) as [[u|err] s1]; [|done]. destruct Hm1 as (Er & c1 & Hid1 & Ha1 & Hres1 & Hd1 & Hr1).
  cbn [fst snd] in Hm. set (d := EDispatch _). pose proof (writes_spec d id s1) as Hw. unfold bind in *.
  destruct (Writer.append d s1) as [[x|err] s2]; [|by eapply ledgerOk_same; [apply Hw|]].
  destruct (takeUp id s2) as [[u'|err] s3]; [|by eapply ledgerOk_same; [apply Hw|]].
  destruct Hw as [Hl _]. pose proof (ledgerOk_same t _ _ Hl Hm) as [L1 L2 L3 L4 L5]. destruct Hl as (E1 & E2 & _).
  unfold setCall, modify. cbn [fst snd]. split; upd; try done; [|by rewrite dom_alter_L].
  intros i c2. destruct (decide (i = id)) as [->|Hne]; [|rewrite lookup_alter_ne by done; apply L3].
  rewrite lookup_alter_eq, E1, Hid1. intros [= <-]. rewrite E2, Er. rewrite E2, Er in L2. apply recordOk_dispatched; try done.
  - rewrite Hd1, Hr1. intros Hdd Hrr. rewrite Hdd, Hrr in Hd. by rewrite bool_decide_eq_true_2 in Hd.
  - rewrite <- Er, <- E2. apply L3. by rewrite E1.
Qed.
End Calls.

Section Items.
Context {W : Type} `{Enc : !Encoding} `{Rec : !Recording W} `{Laws : !RecordingLaws W} `{Tools : !Tooling W}.
Implicit Types (t : told).
Abbreviation agreeing := (agreeing (W := W)).

(** An item that was told of. *)
Definition knownTo t (i : item) : Prop :=
  match i with ICall _ c => CallID c ∈ tl_calls t | IOutput _ o => OutCallID o ∈ tl_outputs t | _ => True end.

Lemma agreeing_noteCall t i id appOnly copies : knownTo t i ->
  (copies = true -> forall p c, i = ICall p c -> CallID c ∈ tl_copies t) -> agreeing t (noteCall i id appOnly copies).
Proof.
  intros Hk Hc. destruct i as [|n m|n v|n o|n r|n t' x]; cbn [noteCall]; try solve [agreeing].
  - destruct copies; [destruct appOnly|destruct appOnly]; cbn [andb negb]; try solve [agreeing].
    + intros s [L1 L2 L3 L4 L5]. split; try done. cbn. upd. specialize (Hc eq_refl n v eq_refl). set_solver.
    + intros s [L1 L2 L3 L4 L5]. unfold modify. cbn [fst snd]. split; upd; try done.
      * apply map_Forall_insert_2; [apply recordOk_new|done].
      * rewrite dom_insert_L. cbn in Hk. set_solver.
  - unfold close. agreeing. apply agreeing_setCall. intros run c. by apply recordOk_answered.
Qed.

Lemma agreeing_accountFor t cx i o from : agreeing t (accountFor cx i o from).
Proof. unfold accountFor, answerCall, rejectCall, when. agreeing. all: apply agreeing_plain; plain. Qed.

Lemma agreeing_entry t i recorded resp hidden source mc failed from prov copies : knownTo t i ->
  (copies = true -> forall p c, i = ICall p c -> CallID c ∈ tl_copies t) ->
  agreeing t (
    e ← (if negb (filterKeeps i)
         then match marshalText recorded with
              | None => throw (Errorf "session: encode item")
              | Some data => ret (ECustom {| cu_NS := ItemType i; cu_Data := data; cu_CallID := ""; cu_ResponseID := Some resp |})
              end
         else ret (EItem (itemEntry i recorded resp mc failed hidden from prov)));
    e ← (if bool_decide (resp = "") then inp ← drained i; w ← get id; ret (inputEntry w inp source e) else ret e);
    id ← Writer.append e;
    noteEntry i recorded resp id (negb (filterKeeps i)) ;;
    noteCall i id (negb (filterKeeps i)) copies).
Proof.
  intros Hk Hc. apply agreeing_bind; [agreeing|]. intros e. apply agreeing_bind; [apply agreeing_plain; plain|]. intros e'.
  apply agreeing_bind; [agreeing|]. intros id. apply agreeing_bind; [|intros _; by apply agreeing_noteCall].
  apply agreeing_plain, plain_quiet. intros s. by destruct (noteEntry_appends i recorded resp id (negb (filterKeeps i)) s) as (s' & -> & Ha).
Qed.

Lemma agreeing_itemFrom t cx i resp hidden source mc from prov : knownTo t i ->
  (from <> None -> forall p c, i = ICall p c -> CallID c ∈ tl_copies t) -> agreeing t (itemFrom cx i resp hidden source mc from prov).
Proof.
  intros Hk Hc. unfold itemFrom. destruct (isNil i); [agreeing|].
  assert ((exists p c, i = ICall p c) \/ forall p c, i <> ICall p c) as [(p & c & ->)|Hi] by (destruct i; eauto; by right).
  - apply (agreeing_value _ _ from); [done|]. apply (agreeing_value _ _ (false, from)); [done|].
    apply agreeing_bind; [agreeing|]. intros session. apply agreeing_bind; [agreeing|]. intros recorded. cbv zeta.
    apply agreeing_entry; [done|]. intros Hf. apply Hc. by destruct from.
  - apply agreeing_bind; [apply agreeing_plain; plain|]. intros from'. apply agreeing_bind.
    { apply agreeing_bind; [agreeing|]. intros w. destruct i; try solve [agreeing]. destruct (_ && _); [apply agreeing_accountFor|agreeing]. }
    intros [failed from2]. apply agreeing_bind; [agreeing|]. intros session. apply agreeing_bind; [agreeing|]. intros recorded. cbv zeta.
    apply agreeing_entry; [done|]. intros _ p c ->. by destruct (Hi p c).
Qed.
End Items.

(** ** A writer's steps *)

Section Steps.
Context {W : Type} `{Enc : !Encoding} `{Rec : !Recording W} `{Laws : !RecordingLaws W} `{Tools : !Tooling W} `{Set_ : !Setting W} `{Ext : !Externals}.
Implicit Types (t : told).
Abbreviation st := ((writer * W) * frame)%type.
Abbreviation act := (Writer.act st).

(** The ledger agrees with what was told, and so do the items its stream has yet to name. *)
Definition agrees_ t (s : st) : Prop := ledgerOk t s.1.1 /\ Forall (fun h => knownTo t (un_item h)) (fr_unnamed s.2).
Definition follows {A} t (m : act A) : Prop := forall s, agrees_ t s -> agrees_ t (m s).2.

Lemma follows_bind {A B} t (m : act A) (f : A -> act B) : follows t m -> (forall x, follows t (f x)) -> follows t (bind m f).
Proof. intros Hm Hf s Hs. specialize (Hm s Hs). unfold bind. destruct (m s) as [[x|e] s1]; [by apply Hf|done]. Qed.
Lemma follows_ret {A} t (x : A) : follows t (ret x).
Proof. by intros s. Qed.
Lemma follows_throw {A} t e : follows t (throw (A := A) e).
Proof. by intros s. Qed.
Lemma follows_fallible {A} t (r : A + error) : follows t (fallible r).
Proof. by intros s. Qed.
Lemma follows_view {A} t (f : frame -> A) : follows t (view_ f).
Proof. by intros s. Qed.
Lemma follows_adjust t f : (forall x, fr_unnamed (f x) = fr_unnamed x) -> follows t (adjust f).
Proof. intros H s [Hk Hf]. split; [done|]. cbn. by rewrite H. Qed.
Lemma follows_lift {A} t (m : Writer.act (writer * W) A) : agreeing t m -> follows t (lift m).
Proof.
  intros Hm s [Hk Hf]. specialize (Hm s.1 Hk). unfold lift. destruct (m s.1) as [r l]. by split.
Qed.
Lemma follows_plain {A} t (m : Writer.act (writer * W) A) : plain m -> follows t (lift m).
Proof. intros Hm. by apply follows_lift, agreeing_plain. Qed.
Lemma follows_append t e : follows t (append e).
Proof. apply follows_lift, agreeing_append. Qed.
Lemma follows_writerNow t : follows t writerNow.
Proof. apply follows_plain. plain. Qed.
Lemma follows_time t : follows t time.
Proof. apply follows_plain. plain. Qed.
Lemma follows_land t : follows t land.
Proof. by apply follows_adjust. Qed.
Lemma follows_responded t b : follows t (responded b).
Proof. by apply follows_adjust. Qed.
Lemma follows_withhold t b : follows t (withhold b).
Proof. apply follows_plain. plain. Qed.
Lemma follows_base t cfg : follows t (baseOf cfg).
Proof. apply follows_bind; [|intros req; apply follows_ret]. apply follows_plain. plain. Qed.
End Steps.

Create HintDb follows.
Ltac follows :=
  repeat first
  [ simple apply follows_bind; [|intros ?]
  | simple apply follows_ret | simple apply follows_throw | simple apply follows_fallible | simple apply follows_view
  | apply follows_adjust; intros ?; reflexivity | simple apply follows_append
  | simple apply follows_writerNow | simple apply follows_time | simple apply follows_land | simple apply follows_responded
  | simple apply follows_withhold | simple apply follows_base
  | match goal with |- follows _ (match ?x with _ => _ end) => destruct x | |- follows _ (let _ := _ in _) => cbv zeta end
  | progress eauto with follows ].

Section Handlers.
Context {W : Type} `{Enc : !Encoding} `{Rec : !Recording W} `{Laws : !RecordingLaws W} `{Tools : !Tooling W} `{Set_ : !Setting W} `{Ext : !Externals}.
Implicit Types (t : told).
Abbreviation st := ((writer * W) * frame)%type.
Abbreviation follows := (follows (W := W)).

Lemma follows_configure t text : follows t (configure text).
Proof. unfold configure. follows. apply follows_plain. plain. Qed.
#[local] Hint Resolve follows_configure : follows.
Lemma follows_settle t req want : follows t (settle req want).
Proof. unfold settle. follows. apply follows_plain. plain. Qed.
#[local] Hint Resolve follows_settle : follows.
Lemma follows_flush t : follows t flush.
Proof. unfold flush. follows. Qed.
Lemma follows_recordQuarantine t q : follows t (recordQuarantine q).
Proof. unfold recordQuarantine. follows. Qed.
Lemma follows_noteUnhashed t why : follows t (noteUnhashed why).
Proof. unfold noteUnhashed. follows. Qed.
Lemma follows_holdNotes t notes : follows t (holdNotes notes).
Proof. unfold holdNotes. follows. Qed.
#[local] Hint Resolve follows_flush follows_recordQuarantine follows_noteUnhashed follows_holdNotes : follows.

Lemma follows_nameAll t cx held resp : Forall (fun h => knownTo t (un_item h)) held -> follows t (nameAll cx held resp).
Proof.
  induction 1 as [|h held Hh _ IH]; cbn [nameAll]; [follows|]. apply follows_bind; [|done].
  apply follows_lift, agreeing_itemFrom; done.
Qed.
Lemma follows_name t cx resp : follows t (name cx resp).
Proof.
  intros s [Hk Hf]. unfold name. pose (s1 := (s.1, s.2 <| fr_unnamed := [] |>)).
  assert (agrees_ t (nameAll cx (fr_unnamed s.2) resp s1).2) as H by (apply follows_nameAll; [done|split; [done|constructor]]).
  unfold bind, view_, adjust. cbn [fst snd]. fold s1. by destruct (nameAll _ _ _ s1) as [[[]|e] s2].
Qed.
#[local] Hint Resolve follows_name : follows.

Lemma follows_nameStream t cx ev : follows t (nameStream cx ev).
Proof. unfold nameStream. follows. Qed.
Lemma follows_hashed t req q : follows t (hashed req q).
Proof. unfold hashed. follows. Qed.
Lemma follows_settingsOf t req : follows t (settingsOf req).
Proof. unfold settingsOf. follows. Qed.
#[local] Hint Resolve follows_hashed follows_settingsOf : follows.
Lemma follows_turnStart t e : follows t (turnStart e).
Proof. unfold turnStart. follows. Qed.
Lemma follows_retry t cx e : follows t (retry cx e).
Proof. unfold retry. follows. Qed.
Lemma follows_blocked t e : follows t (blocked e).
Proof. unfold blocked. follows. Qed.
Lemma follows_response t cx e : follows t (response cx e).
Proof. unfold response. follows. Qed.
Lemma follows_endInFlight t cx cause : follows t (endInFlight cx cause).
Proof.
  unfold endInFlight. follows. intros s Hs. pose proof (follows_name t cx (fl_ID x) s Hs) as [Hk Hf].
  destruct (name _ _ s) as [r s1]. split; [done|]. exact Hf.
Qed.
Lemma follows_openRun t e source : follows t (openRun e source).
Proof. unfold openRun, settleStart, configBase. follows. all: apply follows_plain; plain. Qed.

Lemma follows_runEnd t cx e : tl_running t = false -> follows t (runEnd cx e).
Proof.
  intros Ht. unfold runEnd. apply follows_bind; [apply follows_endInFlight|]. intros _. apply follows_bind; [apply follows_plain; plain|].
  intros run. follows; [|apply follows_plain; plain].
  apply follows_lift. intros s0 [L1 L2 L3 L4 L5]. unfold modify. cbn [fst snd]. split; upd; try done; [congruence|by left|].
  intros id c Hid. destruct (L3 id c Hid). by split.
Qed.
Lemma follows_itemEnd t cx e : knownTo t (ie_Item e) ->
  (ie_Copied e = true -> forall p c, ie_Item e = ICall p c -> CallID c ∈ tl_copies t) -> follows t (itemEnd cx e).
Proof.
  intros Hk Hc. unfold itemEnd. apply follows_bind; [follows|]. intros source. apply follows_bind; [follows|]. intros inFlight.
  destruct (held e inFlight source).
  - intros s [Hl Hf]. split; [done|]. cbn. upd. apply Forall_app. by rewrite Forall_singleton.
  - destruct (ie_Copied e) eqn:Ec; cbn [andb].
    + apply follows_bind; [destruct (bool_decide _); [apply follows_plain; plain|follows]|]. intros from.
      apply follows_bind; [destruct (bool_decide _); [apply follows_plain; plain|follows]|]. intros from'.
      apply follows_lift, agreeing_itemFrom; [done|]. intros _. by apply Hc.
    + intros s Hs. unfold bind, ret. revert s Hs. by apply follows_lift, agreeing_itemFrom.
Qed.

(** The account of an event but a run's start takes in what came before it. *)
Lemma tell_less ok ev t : (forall e, ev <> EvRunStart e) -> less t (noteEvent ok ev t).
Proof.
  intros He. destruct ev as [e|e|e|e|e|e|e|e|e|e|e|e|e|e|e|e|e]; cbn [noteEvent]; try done; try (by destruct (He e)).
  - destruct (ie_Item e); try done; [destruct (ie_Copied e)|]; split; upd; try done; set_solver.
  - destruct (bool_decide _); [|done]. split; upd; try done. set_solver.
  - destruct (bool_decide _); [|done]. split; upd; try done. set_solver.
Qed.

Lemma agrees_less t t' (s : st) : less t t' -> agrees_ t s -> agrees_ t' s.
Proof.
  intros Hl [Hk Hf]. split; [by eapply ledgerOk_less|]. eapply Forall_impl; [exact Hf|]. intros h. destruct Hl.
  unfold knownTo. destruct (un_item h); set_solver.
Qed.

(** A run's start makes the run the one that goes on, before anything is appended. *)
Lemma follows_runStart t e (s : st) : inLoopOrder t (EvRunStart e) = true -> agrees_ t s ->
  agrees_ (noteEvent (match (runStart e s).1 with inl _ => true | inr _ => false end) (EvRunStart e) t) (runStart e s).2.
Proof.
  cbn [inLoopOrder]. rewrite andb_true_iff, !negb_true_iff, !bool_decide_eq_false. intros [Hne Hnew] [[L1 L2 L3 L4 L5] Hf].
  set (t1 := noteEvent true (EvRunStart e) t). unfold runStart. unfold bind at 1 3. destruct (sessionTrigger _) as [source|err].
  2: { cbn. split; [|exact Hf]. eapply (ledgerOk_less t); [|done]. split; upd; try done. set_solver. }
  cbn [fallible]. unfold bind at 1 2, lift at 1 2, modify. cbn [fst snd]. match goal with |- context [(?w, s.1.2, s.2)] => set (w1 := w) end.
  assert (agrees_ t1 ((w1, s.1.2), s.2)) as Hi.
  { split; [|exact Hf]. cbn [fst snd]. unfold w1, t1. cbn [noteEvent]. split; upd; [done|right; set_solver| |done|done].
    assert (forall run, runOf t run -> run <> rs_RunID e) as Hother by (intros run [Hr|Hin] Heq; [congruence|by rewrite Heq in Hin]).
    intros id c Hid. destruct (L3 id c Hid) as [R1 R2 R3 R4]. split; upd.
    - destruct R1 as [?|?]; [by left|right; set_solver].
    - intros b Hb. destruct (R2 b Hb) as [?|?]; [by left|right; set_solver].
    - intros _ _ Hr. by destruct (Hother _ R1).
    - intros _ b Hb _. by apply Hother, R2. }
  pose proof (follows_openRun t1 e source _ Hi) as Ho. destruct (openRun e source (w1, s.1.2, s.2)) as [[u|err] s1]; [exact Ho|].
  eapply agrees_less; [|exact Ho]. unfold t1. cbn. split; upd; try done; set_solver.
Qed.

Definition taken (r : unit + error) : bool := match r with inl _ => true | inr _ => false end.

(** An event's record agrees with what was told with it. *)
Lemma follows_handle t cx ev (s : st) : inLoopOrder t ev = true -> agrees_ t s ->
  agrees_ (noteEvent (taken (handle cx ev s).1) ev t) (handle cx ev s).2.
Proof.
  intros Ho Hs. destruct (match ev with EvRunStart e => Some e | _ => None end) as [e|] eqn:Es.
  - destruct ev; try done. injection Es as ->. unfold handle. cbn [flushes]. unfold bind at 1 3.
    pose proof (follows_flush t s Hs) as Hf. destruct (flush s) as [[u|err] s1]; cbn [fst snd taken].
    2: { eapply agrees_less; [|exact Hf]. cbn. split; upd; try done. set_solver. }
    unfold bind. rewrite (nameStream_unnamed cx (EvRunStart e) s1 eq_refl). cbn [handleEvent]. by apply follows_runStart.
  - assert (forall e, ev <> EvRunStart e) as Hne by (by intros e ->).
    set (t' := noteEvent _ ev t). assert (agrees_ t' s) as Hs' by (eapply agrees_less; [by apply tell_less|done]).
    assert (follows t' (handleEvent cx ev)) as He.
    { assert (exists ok, t' = noteEvent ok ev t) as [ok Ht] by by eexists. clearbody t'. clear Hs'.
      destruct ev as [e|e|e|e|e|e|e|e|e|e|e|e|e|e|e|e|e]; cbn [handleEvent]; try (by destruct (Hne e)); try apply follows_ret.
      - apply follows_turnStart.
      - apply follows_retry.
      - apply follows_blocked.
      - apply follows_itemEnd; rewrite Ht; cbn [noteEvent].
        + destruct (ie_Item e); try done; [destruct (ie_Copied e)|]; cbn; upd; set_solver.
        + intros -> p c ->. cbn. upd. set_solver.
      - apply follows_response.
      - apply follows_lift, agreeing_toolStart.
      - apply follows_lift, agreeing_toolDispatch. intros Hp. rewrite Ht. cbn. rewrite bool_decide_eq_true_2 by done. upd. set_solver.
      - apply follows_lift, agreeing_toolEnd. intros Hp. rewrite Ht. cbn. rewrite bool_decide_eq_true_2 by done. upd. set_solver.
      - apply follows_runEnd. by rewrite Ht.
      - apply follows_holdNotes.
      - apply follows_plain. plain.
      - apply follows_recordQuarantine. }
    clearbody t'. unfold handle.
    assert (follows t' (((if flushes ev then flush else ret tt) ;; nameStream cx ev ;; handleEvent cx ev))) as Hh; [|by apply Hh].
    apply follows_bind; [destruct (flushes ev); [apply follows_flush|apply follows_ret]|]. intros _.
    apply follows_bind; [apply follows_nameStream|done].
Qed.

(** The store checks an entry against its session's path: it takes no hand-off of a call,
    and no decision on one, whose answer the path holds. *)
Definition storeRefuses (s : st) (ev : event) : Prop :=
  match ev with
  | EvToolDispatch e =>
      forall c, wr_calls s.1.1 !! tdi_CallID e = Some c -> c_ended c = true -> refused (tdi_CallID e) (flush s).2.1
  | _ => True
  end.

(** An event told of in order is what [Recorded] expects. *)
Lemma inOrder_expects t (s : st) ev : inLoopOrder t ev = true -> agrees_ t s -> storeRefuses s ev -> expects s ev.
Proof.
  intros Ho [[L1 L2 L3 L4 L5] Hf] Hst. destruct ev as [e|e|e|e|e|e|e|e|e|e|e|e|e|e|e|e|e]; cbn [inLoopOrder expects expectsNow] in *; try done.
  - rewrite andb_true_iff, !negb_true_iff, !bool_decide_eq_false in Ho. destruct Ho as [Hne Hnew].
    intros id c Hid _ Hr. destruct (rk_run _ _ _ _ (L3 id c Hid)) as [?|Hin]; [congruence|]. by rewrite Hr in Hin.
  - destruct (ie_Item e) as [|p m|p c|p o|p r|h x y]; try done. apply andb_true_iff in Ho as [Hcp Ho].
    rewrite negb_true_iff, bool_decide_eq_false in Hcp. split; [set_solver|]. intros Hc. rewrite Hc in Ho. cbn in Ho.
    rewrite andb_true_iff, negb_true_iff, bool_decide_eq_true, bool_decide_eq_false in Ho. destruct Ho as [Hr Hn]. split_and!; [done| |].
    + apply not_elem_of_dom. set_solver.
    + eapply Forall_impl; [exact Hf|]. intros h Hk. unfold own, knownTo in *. destruct (un_item h) as [|? ?|? v|? ?|? ?|? ? ?]; try done.
      intros Hin%elem_of_singleton. congruence.
  - intros Hp c Hid Hd. rewrite (bool_decide_eq_true_2 _ Hp) in Ho. cbn in Ho. rewrite negb_true_iff, bool_decide_eq_false in Ho.
    destruct (decide (wr_run s.1.1 = "")) as [|Hne]; [by left|right]. intros Hr.
    by destruct (rk_handed _ _ _ _ (L3 _ c Hid) Hne Hd Hr).
  - intros _. destruct (flush_untouched s) as [(E1 & _) _]. unfold handedOnce, notAnswered. rewrite E1. cbn in Hst.
    destruct (wr_calls s.1.1 !! tdi_CallID e) as [c|]; [|by left]. destruct (c_ended c) eqn:Ee; [right; by eapply Hst|left; by intros ? [= <-]].
  - intros Hp. rewrite (bool_decide_eq_true_2 _ Hp) in Ho. cbn in Ho.
    rewrite !andb_true_iff, !negb_true_iff, !bool_decide_eq_false in Ho. destruct Ho as [[Hr Hnd] Hno]. split; [auto|].
    intros c Hid Hd Hrun. destruct (rk_handed _ _ _ _ (L3 _ c Hid) (L1 Hr) Hd Hrun) as (_ & Ha & Hres). split.
    + destruct (c_answered c); [|done]. by destruct Hno; apply Ha.
    + destruct (c_result c) eqn:Er; [|done]. destruct Hnd. by apply Hres.
Qed.
End Handlers.

(** ** A writer's life *)

Section Life.
Context {W : Type} `{Enc : !Encoding} `{Rec : !Recording W} `{Laws : !RecordingLaws W} `{Tools : !Tooling W} `{Set_ : !Setting W} `{Ext : !Externals}.
Variable seed : string -> status.
Abbreviation st := ((writer * W) * frame)%type.

(** What a writer between two runs, read back from its session, was told of. *)
Definition runsOf (c : callRecord) : list string := c_dispatchRun c :: match c_before c with Some b => [ds_run b] | None => [] end.
Definition earlier (w : writer) : told := {|
  tl_runs := list_to_set (map_to_list (wr_calls w) ≫= fun '(_, c) => runsOf c); tl_running := false; tl_handed := ∅; tl_ended := ∅;
  tl_outputs := ∅; tl_calls := dom (wr_calls w); tl_copies := wr_copied w |}.

Lemma earlier_agrees (s : st) : wr_run s.1.1 = "" -> fr_unnamed s.2 = [] -> agrees_ (earlier s.1.1) s.
Proof.
  intros Hr Hu. split; [|by rewrite Hu]. rewrite (surjective_pairing s) in *. split; rewrite ?Hr; cbn; try done; [by left|].
  assert (forall id c run, wr_calls s.1.1 !! id = Some c -> run ∈ runsOf c -> runOf (earlier s.1.1) run) as Hin.
  { intros id c run Hid Hrun. right. cbn. apply elem_of_list_to_set, list_elem_of_bind. exists (id, c). split; [done|by apply elem_of_map_to_list]. }
  intros id c Hid. split; [apply (Hin id c); [done|by left]| |done|done].
  intros b Hb. apply (Hin id c); [done|]. unfold runsOf. rewrite Hb. right. by left.
Qed.

(** A writer from [s0] that handles events told in order, one after the other, whether the
    store takes its entries or not, while the program around it does anything between. *)
Inductive reported (s0 : st) : told -> st -> Prop :=
| reported_start : reported s0 (earlier s0.1.1) s0
| reported_event cx ev t s : reported s0 t s -> inLoopOrder t ev = true -> storeRefuses s ev ->
    reported s0 (noteEvent (taken (handle cx ev s).1) ev t) (handle cx ev s).2
| reported_world t s h : reported s0 t s -> reported s0 t ((s.1.1, h), s.2).

Lemma reported_reached s0 t s : wr_run s0.1.1 = "" -> fr_unnamed s0.2 = [] -> reported s0 t s -> agrees_ t s /\ reached s0 s.
Proof.
  intros Hr Hu. induction 1 as [|cx ev t s _ [IHa IHr] Ho Hs|t s h _ [IHa IHr]].
  - split; [by apply earlier_agrees|constructor].
  - split; [by apply follows_handle|]. constructor; [done|]. by eapply inOrder_expects.
  - split; [done|by constructor].
Qed.

(** C3: a writer between two runs, that agrees with its path, is told of what runs do. As
    long as the events come in the loop's order (a new ID for a run; no tool_start of a call
    after its tool_dispatch in the run; a call's tool_end in a run whose start was taken, once,
    and before its output; a copied call's ID new), and the store takes no hand-off of a call
    whose answer it holds, no entry about a call is written out of the format's order,
    wherever an append fails and whatever the program does between: no decision, hand-off or
    result after a reject, an answer or the output, no reject of a call that may have run, no
    withdrawal but of a standing hand-off, and no output but of a call rejected, answered,
    returned or handed over. *)
Theorem ledger_in_order s0 t s : inv seed s0 -> wr_run s0.1.1 = "" -> fr_unnamed s0.2 = [] -> reported s0 t s ->
  forall id, statusOf seed id (path s.1.1) <> Bad.
Proof.
  intros H0 Hr Hu Hs id. destruct (reported_reached s0 t s Hr Hu Hs) as [_ Hre].
  destruct (reached_inv seed s0 s H0 Hre) as [(_ & Ha & _) _]. specialize (Ha id). intros E. rewrite E in Ha.
  by destruct (wr_calls s.1.1 !! id).
Qed.

(** Events told one after the other; none if one is out of order, or hands over a call whose
    answer the ledger holds. *)
Definition handsAnswered (s : st) (ev : event) : bool :=
  match ev with
  | EvToolDispatch e => match wr_calls s.1.1 !! tdi_CallID e with Some c => c_ended c | None => false end
  | _ => false
  end.
Fixpoint tellAll (cx : AnswerContext) (evs : list event) (t : told) (s : st) : option (told * st) :=
  match evs with
  | [] => Some (t, s)
  | ev :: evs =>
      if inLoopOrder t ev && negb (handsAnswered s ev)
      then let r := handle cx ev s in tellAll cx evs (noteEvent (taken r.1) ev t) r.2
      else None
  end.

Lemma tellAll_reported cx evs s0 t s t' s' : reported s0 t s -> tellAll cx evs t s = Some (t', s') -> reported s0 t' s'.
Proof.
  revert t s. induction evs as [|ev evs IH]; intros t s Hr; cbn [tellAll]; [by intros [= <- <-]|].
  destruct (inLoopOrder t ev) eqn:Ho; [|done]. destruct (handsAnswered s ev) eqn:Ha; [done|]. cbn [andb negb].
  apply IH. constructor; [done..|]. destruct ev; try done. cbn in *. intros c Hc He. rewrite Hc in Ha. congruence.
Qed.
End Life.
