(* ===== verification/Logged.v ===== *)
(** * Logged: every item of a run is on the record once ([session/session.go])

    What [writer.handle] does with the items a run reports: each becomes one entry, in the
    order the writer keeps them, those a stream completed before it named its response
    among them, and an append that fails loses what it was to write and doubles nothing. *)

From S2P Require Export Recorded.

(** The entry of an item: an item's, or one of an item the filter keeps from the model. *)
Definition ofItem (e : entry) : bool :=
  match e with
  | EItem _ => true
  | ECustom c => bool_decide (is_Some (cu_ResponseID c))
  | _ => false
  end.

Section Silent.
Context {W : Type} `{Enc : !Encoding} `{Rec : !Recording W} `{Tools : !Tooling W}.
Abbreviation act := (Writer.act (writer * W)).

(** The items the writer keeps, and their entries. *)
Definition log (w : writer) : Items * list entry := (wr_values w, List.filter ofItem (path w)).

(** Actions that write no item. *)
Definition silent {A} (m : act A) : Prop := forall s, log (m s).2.1 = log s.1.

Lemma silent_bind {A B} (m : act A) (f : A -> act B) : silent m -> (forall x, silent (f x)) -> silent (bind m f).
Proof. intros Hm Hf s. specialize (Hm s). unfold bind. destruct (m s) as [[x|e] s1]; [|done]. by rewrite (Hf x s1). Qed.
Lemma silent_ret {A} (x : A) : silent (ret x).
Proof. done. Qed.
Lemma silent_throw {A} e : silent (throw (A := A) e).
Proof. done. Qed.
Lemma silent_fallible {A} (r : A + error) : silent (fallible r).
Proof. done. Qed.
Lemma silent_get {A} (f : writer -> A) : silent (get f).
Proof. done. Qed.
Lemma silent_worldGet {A} (f : W -> A) : silent (worldGet f).
Proof. done. Qed.
Lemma silent_world {A} (f : W -> (A + error) * W) : silent (world f).
Proof. intros s. unfold world. by destruct (f s.2). Qed.
Lemma silent_modify f : (forall w, log (f w) = log w) -> silent (modify f).
Proof. intros H s. apply H. Qed.
Lemma silent_setCall id f : silent (setCall id f).
Proof. done. Qed.

(** An append adds its entry to the path, and an item to nothing else. *)
Lemma reopen_values s : wr_values (reopen s).2.1 = wr_values s.1.
Proof. unfold reopen, bind, get, world. destruct (negb _); [done|]. by destruct (storeOpen _ _) as [[r|e] h]. Qed.
Lemma acknowledge_values again e id s : wr_values (acknowledge again e id s).2.1 = wr_values s.1.
Proof.
  unfold acknowledge. destruct again, (answers e); unfold bind, attempt, modify, ret; cbn [fst snd]; try done;
    match goal with |- context [reopen ?x] => exact (reopen_values x) end.
Qed.
Lemma append_values e s : wr_values (Writer.append e s).2.1 = wr_values s.1.
Proof.
  unfold Writer.append, bind at 1. pose proof (reopen_values s) as Ho. destruct (reopen s) as [[u|err] s1]; [|done].
  unfold bind, get, world. destruct (storeWrite _ _ _) as [[r|err] h]; [|done]. cbn [fst snd] in *. rewrite <- Ho.
  unfold modify. cbn [fst snd]. by rewrite acknowledge_values.
Qed.
Lemma append_log e s :
  match Writer.append e s with
  | (inl _, s') => log s'.1 = (wr_values s.1, List.filter ofItem (path s.1) ++ List.filter ofItem [e])
  | (inr _, s') => log s'.1 = log s.1
  end.
Proof.
  pose proof (append_spec e s) as Hs. pose proof (append_values e s) as Hv. destruct (Writer.append e s) as [[x|err] s'];
    destruct Hs as [_ Hp]; unfold log; cbn [fst snd] in *; rewrite Hv, Hp, ?List.filter_app, ?app_nil_r; done.
Qed.
Lemma silent_append e : ofItem e = false -> silent (Writer.append e).
Proof.
  intros He s. pose proof (append_log e s) as H. destruct (Writer.append e s) as [[x|err] s']; [|done].
  cbn [fst snd]. rewrite H. unfold log. cbn [List.filter]. by rewrite He, app_nil_r.
Qed.
End Silent.

Create HintDb silent.
Ltac silent :=
  repeat first
  [ simple apply silent_bind; [|intros ?]
  | simple apply silent_ret | simple apply silent_throw | simple apply silent_fallible | simple apply silent_get
  | simple apply silent_worldGet | simple apply silent_world | simple apply silent_setCall | simple apply silent_append; reflexivity
  | apply silent_modify; intros ?; reflexivity
  | progress eauto with silent
  | match goal with |- silent (match ?x with _ => _ end) => destruct x | |- silent (let _ := _ in _) => cbv zeta end ].

(** ** The ledger's actions *)

Section Ledger.
Context {W : Type} `{Enc : !Encoding} `{Rec : !Recording W} `{Tools : !Tooling W}.

Lemma silent_call id : silent (W := W) (call id).
Proof. apply silent_get. Qed.
Lemma silent_takeUp id : silent (W := W) (takeUp id).
Proof. apply silent_modify. intros w. destruct (wr_calls w !! id); [|done]. by destruct (_ || _). Qed.
Lemma silent_noteCallee l id : silent (W := W) (noteCallee l id).
Proof. apply silent_modify. intros w. by destruct (negb _). Qed.
Lemma silent_nested n parent : silent (W := W) (nested n parent).
Proof. unfold nested. silent. Qed.
Lemma silent_link child id : silent (W := W) (link child id).
Proof. unfold link. silent. Qed.
Lemma silent_parentPath fresh : silent (W := W) (parentPath fresh).
Proof. unfold parentPath. silent. Qed.
Lemma silent_tryAppend e : ofItem e = false -> silent (W := W) (tryAppend e).
Proof. intros He s. unfold tryAppend. pose proof (silent_append e He s) as H. by destruct (Writer.append e s) as [[id|err] s']. Qed.
#[local] Hint Resolve silent_call silent_takeUp silent_noteCallee silent_nested silent_link silent_parentPath : silent.
Lemma silent_copiedFrom i : silent (W := W) (copiedFrom i).
Proof. unfold copiedFrom. silent. Qed.
Lemma silent_requeue : silent (W := W) requeue.
Proof.
  unfold requeue. apply silent_bind; [silent|]. intros l. generalize 0%nat.
  induction l as [|inp l IH]; intros i; cbn [requeueFrom]; [silent|]. unfold setInbox. silent.
Qed.
Lemma silent_record ns data id own : silent (W := W) (record ns data id own).
Proof.
  unfold record. apply silent_bind; [silent|]. intros [l|]; cbv zeta; [|silent]. apply silent_bind; [by apply silent_tryAppend|].
  intros [x|e]; silent.
Qed.
Lemma silent_copyCallees id links used : silent (W := W) (copyCallees id links used).
Proof. revert used. induction links as [|c links IH]; intros used; cbn [copyCallees]; silent. Qed.
#[local] Hint Resolve silent_copiedFrom silent_requeue silent_record silent_copyCallees : silent.
Lemma silent_child id info : silent (W := W) (child id info).
Proof. unfold child. silent. Qed.
#[local] Hint Resolve silent_child : silent.

Lemma silent_toolStart e : silent (W := W) (toolStart e).
Proof. unfold toolStart, proceedCall, holdCall, blockCall, when. silent. Qed.
Lemma silent_toolDispatch e : silent (W := W) (toolDispatch e).
Proof. unfold toolDispatch. silent. Qed.
Lemma silent_toolEnd e : silent (W := W) (toolEnd e).
Proof. unfold toolEnd, Ledger.settle, noteRefusal, noteWithdrawal, noteResult, when, details. silent. Qed.
Lemma silent_accountFor cx i o from : silent (W := W) (accountFor cx i o from).
Proof. unfold accountFor, answerCall, rejectCall, copyLinks, when. silent. Qed.
Lemma silent_drained i : silent (W := W) (drained i).
Proof. unfold drained. silent. Qed.
Lemma silent_heldCopy i : silent (W := W) (heldCopy i).
Proof. unfold heldCopy. silent. Qed.
Lemma silent_queued e : silent (W := W) (queued e).
Proof. unfold queued, resolveCopy, setInbox. silent. Qed.
Lemma silent_endInbox : silent (W := W) endInbox.
Proof. unfold endInbox. silent. Qed.
Lemma silent_noteCall i id appOnly copies : silent (W := W) (noteCall i id appOnly copies).
Proof. unfold noteCall, close. silent. Qed.
End Ledger.
#[export] Hint Resolve silent_toolStart silent_toolDispatch silent_toolEnd silent_accountFor silent_drained silent_heldCopy silent_queued
  silent_endInbox silent_noteCall silent_copiedFrom : silent.

(** ** An item's entry *)

Section Items.
Context {W : Type} `{Enc : !Encoding} `{Rec : !Recording W} `{Tools : !Tooling W}.
Abbreviation act := (Writer.act (writer * W)).

(** The entry that holds an item: in its recorded form, in the context when the filter
    keeps it and outside it when not. *)
Definition holdsItem (e : entry) (i : item) : Prop :=
  exists session h recorded h', sidecar session i h = (inl recorded, h') /\
  match e with
  | EItem ie => filterKeeps i = true /\ it_Item ie = recorded
  | ECustom c => filterKeeps i = false /\ cu_NS c = ItemType i /\ is_Some (cu_ResponseID c) /\ marshalText recorded = Some (cu_Data c)
  | _ => False
  end.

(** An action that writes the items [l], or fails and writes none. *)
Definition logs {A} (l : Items) (m : act A) (s : writer * W) : Prop :=
  match m s with
  | (inl _, s') => exists es, Forall2 holdsItem es l /\ log s'.1 = ((log s.1).1 ++ l, (log s.1).2 ++ es)
  | (inr _, s') => log s'.1 = log s.1
  end.

Lemma logs_then {A B} l (m : act A) (f : A -> act B) s : silent m ->
  (forall x s1, m s = (inl x, s1) -> logs l (f x) s1) -> logs l (bind m f) s.
Proof.
  intros Hm Hf. unfold logs, bind in *. specialize (Hm s). destruct (m s) as [[x|e] s1]; [|done]. specialize (Hf x s1 eq_refl).
  cbn [fst snd] in Hm. rewrite <- Hm. exact Hf.
Qed.
Lemma logs_silent {A} (m : act A) s : silent m -> logs [] m s.
Proof.
  intros Hm. unfold logs. specialize (Hm s). destruct (m s) as [[x|e] s1]; [|done]. exists []. split; [done|]. cbn [fst snd] in Hm.
  rewrite !app_nil_r, Hm. by destruct (log s.1).
Qed.

Lemma inputEntry_holds w inp source e i : holdsItem e i -> holdsItem (inputEntry w inp source e) i.
Proof.
  intros (session & h & r & h' & Hs & He). exists session, h, r, h'. split; [done|]. destruct e as [ie| | | | | | | | | |]; try done.
  cbn. destruct He as [Hf Hi]. split; [done|]. rewrite <- Hi. destruct inp as [inp|]; [by destruct (negb _)|by destruct source].
Qed.

Lemma itemFrom_logs cx i resp hidden source mc from prov s : isNil i = false ->
  logs [i] (itemFrom cx i resp hidden source mc from prov) s.
Proof.
  intros Hn. unfold itemFrom. rewrite Hn. apply logs_then; [silent|]. intros from1 s1 _. apply logs_then; [silent|].
  intros [failed from2] s2 _. apply logs_then; [silent|]. intros session s3 _. apply logs_then; [silent|]. intros recorded s4 Hside. cbv zeta.
  apply logs_then; [silent|]. intros e s5 He.
  assert (holdsItem e i) as Hh.
  { unfold world in Hside. destruct (sidecar session i s3.2) as [r h'] eqn:Es. injection Hside as -> _.
    exists session, s3.2, recorded, h'. split; [done|]. destruct (filterKeeps i); cbn [negb] in He.
    - injection He as <- _. split; [done|]. apply itemEntry_keeps.
    - destruct (marshalText recorded) as [data|] eqn:Em; [|done]. injection He as <- _. by split_and!. }
  apply logs_then; [silent|]. intros e' s6 He'.
  assert (holdsItem e' i) as Hh'.
  { destruct (bool_decide (resp = "")); [|by injection He' as <- _]. unfold bind in He'.
    destruct (drained i s5) as [[inp|err] s7]; [|done]. injection He' as <- _. by apply inputEntry_holds. }
  clear - Hh'. unfold logs, bind at 1. pose proof (append_log e' s6) as Ha. destruct (Writer.append e' s6) as [[id|err] s7]; [|done].
  assert (ofItem e' = true) as Hof.
  { destruct Hh' as (? & ? & ? & ? & _ & H). destruct e'; try done. cbn. destruct H as (_ & _ & H & _). by apply bool_decide_eq_true. }
  cbn [List.filter] in Ha. rewrite Hof in Ha. unfold bind. set (n := noteEntry i recorded resp id (negb (filterKeeps i)) s7).
  assert (n.1 = inl tt /\ log n.2.1 = (wr_values s7.1 ++ [i], (log s7.1).2)) as [En Hln] by (split; [done|]; by destruct s7 as [[] ?]).
  destruct n as [r s8]. cbn [fst snd] in *. subst r.
  pose proof (silent_noteCall i id (negb (filterKeeps i)) (negb (bool_decide (from2 = None))) s8) as Hc.
  assert (exists u s9, noteCall i id (negb (filterKeeps i)) (negb (bool_decide (from2 = None))) s8 = (inl u, s9)) as (u & s9 & E).
  { destruct i; cbn [noteCall]; try destruct (_ && _); try destruct (negb _); eexists _, _; reflexivity. }
  rewrite E in Hc |- *. cbn [fst snd] in Hc. exists [e']. split; [by repeat constructor|]. rewrite Hc, Hln. unfold log in Ha |- *. cbn [fst snd] in *.
  injection Ha as -> ->. done.
Qed.
End Items.

(** ** The frame's actions *)

Section Frame.
Context {W : Type} `{Enc : !Encoding} `{Rec : !Recording W} `{Tools : !Tooling W} `{Set_ : !Setting W} `{Ext : !Externals}.
Abbreviation st := ((writer * W) * frame)%type.
Abbreviation act := (Writer.act st).

Definition someItem (i : item) : bool := negb (isNil i).
(** The items held for the stream to name. *)
Definition heldItems (s : st) : Items := List.filter someItem (map un_item (fr_unnamed s.2)).

(** The items the writer's log gained. *)
Definition gained (s s' : st) (items : Items) : Prop :=
  exists es, Forall2 holdsItem es items /\ log s'.1.1 = ((log s.1.1).1 ++ items, (log s.1.1).2 ++ es).

(** An action after which the items the log gained and the ones held are those held before
    it and the ones reported, each as often; and no more often, when it fails. *)
Definition keepsItems {A} (l : Items) (m : act A) (s : st) : Prop :=
  match m s with
  | (inl _, s') => exists items, gained s s' items /\ items ++ heldItems s' ≡ₚ heldItems s ++ l
  | (inr _, s') => exists items, gained s s' items /\ items ++ heldItems s' ⊆+ heldItems s ++ l
  end.
Definition tame {A} (m : act A) : Prop := forall s, keepsItems [] m s.

Lemma gained_nil s s' : log s'.1.1 = log s.1.1 -> gained s s' [].
Proof. intros E. exists []. split; [done|]. rewrite E, !app_nil_r. by destruct (log s.1.1). Qed.
Lemma gained_trans s s1 s2 l1 l2 : gained s s1 l1 -> gained s1 s2 l2 -> gained s s2 (l1 ++ l2).
Proof.
  intros (es1 & H1 & E1) (es2 & H2 & E2). exists (es1 ++ es2). split; [by apply Forall2_app|]. by rewrite E2, E1, !app_assoc.
Qed.

Lemma keepsItems_bind {A B} l (m : act A) (f : A -> act B) s : tame m -> (forall x s1, m s = (inl x, s1) -> keepsItems l (f x) s1) ->
  keepsItems l (bind m f) s.
Proof.
  intros Hm Hf. specialize (Hm s). unfold keepsItems, bind in *. destruct (m s) as [[x|e] s1].
  - specialize (Hf x s1 eq_refl). destruct Hm as (i1 & G1 & P1). rewrite app_nil_r in P1. destruct (f x s1) as [[y|e] s2].
    + destruct Hf as (i2 & G2 & P2). exists (i1 ++ i2). split; [by eapply gained_trans|]. by rewrite <- app_assoc, P2, app_assoc, P1.
    + destruct Hf as (i2 & G2 & P2). exists (i1 ++ i2). split; [by eapply gained_trans|].
      rewrite <- app_assoc, <- P1, <- (app_assoc i1). by apply submseteq_skips_l.
  - destruct Hm as (i1 & G1 & P1). exists i1. split; [done|]. rewrite app_nil_r in P1. etrans; [exact P1|]. by apply submseteq_inserts_r.
Qed.
Lemma tame_bind {A B} (m : act A) (f : A -> act B) : tame m -> (forall x, tame (f x)) -> tame (bind m f).
Proof. intros Hm Hf s. apply keepsItems_bind; [done|]. intros x s1 _. apply Hf. Qed.
Lemma tame_same {A} (m : act A) : (forall s, log (m s).2.1.1 = log s.1.1 /\ fr_unnamed (m s).2.2 = fr_unnamed s.2) -> tame m.
Proof.
  intros H s. destruct (H s) as [Hl Hu]. unfold keepsItems. destruct (m s) as [[x|e] s1]; cbn [fst snd] in *;
    exists []; (split; [by apply gained_nil|]); unfold heldItems; by rewrite Hu, app_nil_r.
Qed.
Lemma tame_ret {A} (x : A) : tame (ret x).
Proof. by apply tame_same. Qed.
Lemma tame_throw {A} e : tame (throw (A := A) e).
Proof. by apply tame_same. Qed.
Lemma tame_fallible {A} (r : A + error) : tame (fallible r).
Proof. by apply tame_same. Qed.
Lemma tame_view {A} (f : frame -> A) : tame (view_ f).
Proof. by apply tame_same. Qed.
Lemma tame_adjust f : (forall x, fr_unnamed (f x) = fr_unnamed x) -> tame (adjust f).
Proof. intros H. apply tame_same. intros s. split; [done|]. apply H. Qed.
Lemma tame_lift {A} (m : Writer.act (writer * W) A) : silent m -> tame (lift m).
Proof. intros H. apply tame_same. intros s. specialize (H s.1). unfold lift. by destruct (m s.1). Qed.

(** The items held, named: each is on the record, or those from the one whose append failed
    are let go. *)
Lemma nameAll_logs cx held resp (s : st) : fr_unnamed s.2 = [] ->
  match nameAll cx held resp s with
  | (inl _, s') => gained s s' (List.filter someItem (map un_item held)) /\ fr_unnamed s'.2 = []
  | (inr _, s') => (exists items, gained s s' items /\ items ⊆+ List.filter someItem (map un_item held)) /\ fr_unnamed s'.2 = []
  end.
Proof.
  revert s. induction held as [|h held IH]; intros s Hu; cbn [nameAll map List.filter]; [split; [by apply gained_nil|done]|].
  unfold bind, item_, lift. destruct (someItem (un_item h)) eqn:En; [apply negb_true_iff in En|apply negb_false_iff in En].
  - pose proof (itemFrom_logs cx (un_item h) resp false None (un_modelCallID h) None None s.1 En) as Hi. unfold logs in Hi.
    destruct (itemFrom _ _ _ _ _ _ _ _ s.1) as [[u|e] l].
    + assert (gained s (l, s.2) [un_item h]) as G by exact Hi. specialize (IH (l, s.2) Hu). destruct u.
      destruct (nameAll cx held resp (l, s.2)) as [[u|e] s2]; destruct IH as [IH ?]; (split; [|done]).
      * change (un_item h :: ?x) with ([un_item h] ++ x). by eapply gained_trans.
      * destruct IH as (items & G2 & P). exists ([un_item h] ++ items). split; [by eapply gained_trans|]. by apply submseteq_skip.
    + split; [|done]. exists []. split; [by apply gained_nil|]. apply submseteq_nil_l.
  - assert (itemFrom cx (un_item h) resp false None (un_modelCallID h) None None s.1 = (inl tt, s.1)) as ->
      by (unfold itemFrom; by rewrite En). destruct s as [l f]. exact (IH (l, f) Hu).
Qed.

Lemma tame_name cx resp : tame (name cx resp).
Proof.
  intros s. pose (s1 := (s.1, s.2 <| fr_unnamed := [] |>)).
  pose proof (nameAll_logs cx (fr_unnamed s.2) resp s1 eq_refl) as H.
  assert (name cx resp s = let '(r, s2) := nameAll cx (fr_unnamed s.2) resp s1 in
    (match r with inl _ => inl (negb (bool_decide (fr_unnamed s.2 = []))) | inr e => inr e end, s2)) as E.
  { unfold name, bind, view_, adjust. cbn [fst snd]. fold s1. by destruct (nameAll _ _ _ s1) as [[u|e] s2]. }
  unfold keepsItems. rewrite E. destruct (nameAll _ _ _ s1) as [[u|e] s2].
  - destruct H as [G Hu]. eexists. split; [exact G|]. unfold heldItems at 1. by rewrite Hu, !app_nil_r.
  - destruct H as [(items & G & P) Hu]. exists items. split; [exact G|]. unfold heldItems at 1. by rewrite Hu, !app_nil_r.
Qed.
End Frame.

Create HintDb tame.
Ltac tame :=
  repeat first
  [ simple apply tame_bind; [|intros ?]
  | simple apply tame_ret | simple apply tame_throw | simple apply tame_fallible | simple apply tame_view | simple apply tame_name
  | apply tame_adjust; intros ?; reflexivity
  | progress eauto with tame
  | match goal with |- tame (match ?x with _ => _ end) => destruct x | |- tame (let _ := _ in _) => cbv zeta end
  | apply tame_lift; solve [silent] ].

Section Handlers.
Context {W : Type} `{Enc : !Encoding} `{Rec : !Recording W} `{Tools : !Tooling W} `{Set_ : !Setting W} `{Ext : !Externals}.
Abbreviation st := ((writer * W) * frame)%type.

Lemma tame_settle req want : tame (settle req want).
Proof. unfold settle, configure, append. tame. Qed.
#[local] Hint Resolve tame_settle : tame.
Lemma tame_flush : tame flush.
Proof. unfold flush. tame. Qed.
Lemma tame_recordQuarantine q : tame (recordQuarantine q).
Proof. unfold recordQuarantine, configure, append, writerNow. tame. Qed.
Lemma tame_noteUnhashed why : tame (noteUnhashed why).
Proof. unfold noteUnhashed, append. tame. Qed.
Lemma tame_holdNotes notes : tame (holdNotes notes).
Proof. unfold holdNotes, append, writerNow. tame. Qed.
Lemma tame_base cfg : tame (baseOf cfg).
Proof. unfold baseOf. tame. Qed.
Lemma tame_hashed req q : tame (hashed req q).
Proof. unfold hashed, writerNow. tame. Qed.
#[local] Hint Resolve tame_flush tame_recordQuarantine tame_noteUnhashed tame_holdNotes tame_base tame_hashed : tame.
Lemma tame_endInFlight cx cause : tame (endInFlight cx cause).
Proof.
  unfold endInFlight, responded, append, time. do 2 (apply tame_bind; [tame|intros ?]). apply tame_bind.
  - intros s. pose proof (tame_name cx (fl_ID x) s) as H. unfold keepsItems in *. destruct (name _ _ s) as [[b|e] s1]; exact H.
  - intros b. tame.
Qed.
#[local] Hint Resolve tame_endInFlight : tame.

Lemma tame_nameStream cx ev : tame (nameStream cx ev).
Proof. unfold nameStream. tame. Qed.

(** What an event reports of the run's items. *)
Definition reported (ev : event) : Items := match ev with EvItemEnd e => List.filter someItem [ie_Item e] | _ => [] end.

Lemma itemEnd_keeps cx e (s : st) : keepsItems (reported (EvItemEnd e)) (itemEnd cx e) s.
Proof.
  unfold itemEnd. apply keepsItems_bind; [tame|]. intros source s1 _. apply keepsItems_bind; [tame|]. intros inFlight s2 _.
  destruct (held _ _ _).
  - exists []. split; [by apply gained_nil|]. unfold heldItems. cbn [app adjust snd]. upd. by rewrite map_app, List.filter_app.
  - apply keepsItems_bind; [tame|]. intros from s3 _. apply keepsItems_bind; [tame|]. intros from2 s4 _. cbn [reported List.filter].
    unfold someItem at 1. destruct (isNil (ie_Item e)) eqn:En; cbn [negb].
    + assert (lift (itemFrom cx (ie_Item e) (ie_ResponseID e) (ie_Hidden e) source (ie_ModelCallID e) from2 (ie_Provenance e)) s4 = (inl tt, s4))
        as E by (unfold lift, itemFrom; rewrite En; by destruct s4).
      unfold keepsItems. rewrite E. exists []. split; [by apply gained_nil|]. by rewrite app_nil_r.
    + pose proof (itemFrom_logs cx (ie_Item e) (ie_ResponseID e) (ie_Hidden e) source (ie_ModelCallID e) from2 (ie_Provenance e) s4.1 En) as Hl.
      unfold keepsItems, lift, logs in *. destruct (itemFrom _ _ _ _ _ _ _ _ s4.1) as [[u|err] l].
      * exists [ie_Item e]. split; [exact Hl|]. unfold heldItems. cbn [snd]. by rewrite Permutation_app_comm.
      * exists []. split; [by apply gained_nil|]. apply submseteq_inserts_r. done.
Qed.

Lemma handle_keepsItems cx ev (s : st) : keepsItems (reported ev) (handle cx ev) s.
Proof.
  unfold handle. apply keepsItems_bind; [destruct (flushes ev); tame|]. intros [] s1 _.
  apply keepsItems_bind; [apply tame_nameStream|]. intros [] s2 _.
  destruct ev; cbn [handleEvent reported]; try apply itemEnd_keeps; revert s2; match goal with |- forall s, keepsItems [] ?m s => change (tame m) end.
  - unfold runStart, openRun, settleStart, configBase, append, writerNow. tame.
  - unfold turnStart, settingsOf, time. tame.
  - unfold retry, settingsOf, time, append. tame.
  - unfold blocked, writerNow, land, responded, append. tame.
  - tame.
  - tame.
  - unfold response, time, land, responded, withhold, append. tame.
  - tame.
  - tame.
  - tame.
  - tame.
  - tame.
  - unfold runEnd, writerNow, append. tame.
  - tame.
  - tame.
  - tame.
Qed.

(** ** A run's items *)

(** The events of a run, each handled whatever became of the one before it, and whether the
    writer took them all. *)
Fixpoint handleAll (evs : list (AnswerContext * event)) (s : st) : bool * st :=
  match evs with
  | [] => (true, s)
  | (cx, ev) :: evs =>
      let '(r, s) := handle cx ev s in
      let '(ok, s) := handleAll evs s in
      (if r then ok else false, s)
  end.

(** C5: of the items a run reports, those the record gained and those held for a stream to
    name are all of them, each as often as it was reported, when no append failed; and
    wherever one failed none is on the record that was not reported, or more often. Each
    item gained has its entry, in the same order: in the context when the filter keeps it,
    beside it when not, in the session's form of its media. *)
Theorem items_once evs (s : st) :
  let '(ok, s') := handleAll evs s in
  exists items, gained s s' items /\
    items ++ heldItems s' ⊆+ heldItems s ++ concat (map (fun e => reported e.2) evs) /\
    (ok = true -> items ++ heldItems s' ≡ₚ heldItems s ++ concat (map (fun e => reported e.2) evs)).
Proof.
  revert s. induction evs as [|[cx ev] evs IH]; intros s; cbn [handleAll map concat].
  { exists []. split_and!; [by apply gained_nil| |]; cbn [app]; by rewrite app_nil_r. }
  pose proof (handle_keepsItems cx ev s) as Hev. unfold keepsItems in Hev. destruct (handle cx ev s) as [r s1].
  specialize (IH s1). destruct (handleAll evs s1) as [ok s2]. destruct IH as (i2 & G2 & S2 & P2). cbn [snd].
  assert (exists i1, gained s s1 i1 /\ i1 ++ heldItems s1 ⊆+ heldItems s ++ reported ev /\
    (forall u, r = inl u -> i1 ++ heldItems s1 ≡ₚ heldItems s ++ reported ev)) as (i1 & G1 & S1 & P1).
  { destruct r; destruct Hev as (i1 & G1 & P1); exists i1; split_and!; try done. by rewrite P1. }
  exists (i1 ++ i2). split; [by eapply gained_trans|]. rewrite app_assoc, <- (app_assoc i1). split.
  - etrans; [by apply submseteq_skips_l|]. rewrite app_assoc. by apply submseteq_skips_r.
  - destruct r as [u|]; [|done]. intros Hok. by rewrite (P2 Hok), app_assoc, (P1 u eq_refl).
Qed.

(** What leaves the items held as they are. *)
Definition leavesHeld {A} (m : Writer.act st A) : Prop := forall s, fr_unnamed (m s).2.2 = fr_unnamed s.2.
Lemma held_bind {A B} (m : Writer.act st A) (f : A -> Writer.act st B) : leavesHeld m -> (forall x, leavesHeld (f x)) -> leavesHeld (bind m f).
Proof. intros Hm Hf s. specialize (Hm s). unfold bind. destruct (m s) as [[x|e] s1]; [|done]. by rewrite (Hf x s1). Qed.
Lemma held_lift {A} (m : Writer.act (writer * W) A) : leavesHeld (lift m).
Proof. intros s. unfold lift. by destruct (m s.1). Qed.
End Handlers.

Ltac holding :=
  repeat first
  [ simple apply held_bind; [|intros ?] | simple apply held_lift | (intros ?; reflexivity)
  | match goal with |- leavesHeld (match ?x with _ => _ end) => destruct x | |- leavesHeld (let _ := _ in _) => cbv zeta end ].

Section Landing.
Context {W : Type} `{Enc : !Encoding} `{Rec : !Recording W} `{Tools : !Tooling W} `{Set_ : !Setting W} `{Ext : !Externals}.
Abbreviation st := ((writer * W) * frame)%type.

Lemma name_empties cx resp (s : st) : fr_unnamed (name cx resp s).2.2 = [].
Proof.
  pose (s1 := (s.1, s.2 <| fr_unnamed := [] |>)). pose proof (nameAll_logs cx (fr_unnamed s.2) resp s1 eq_refl) as H.
  unfold name, bind, view_, adjust. cbn [fst snd]. fold s1. destruct (nameAll _ _ _ s1) as [[u|e] s2]; apply H.
Qed.

(** What leaves none held, once it is done. *)
Definition empties {A} (m : Writer.act st A) : Prop := forall s, match m s with (inl _, s') => fr_unnamed s'.2 = [] | _ => True end.
Lemma empties_then {A B} (m : Writer.act st A) (f : A -> Writer.act st B) : empties m -> (forall x, leavesHeld (f x)) -> empties (bind m f).
Proof.
  intros Hm Hf s. specialize (Hm s). unfold bind. destruct (m s) as [[x|e] s1]; [|done]. specialize (Hf x s1).
  destruct (f x s1) as [[y|e] s2]; [|done]. cbn [snd] in Hf. by rewrite Hf.
Qed.
Lemma empties_after {A B} (m : Writer.act st A) (f : A -> Writer.act st B) : (forall x, empties (f x)) -> empties (bind m f).
Proof. intros Hf s. unfold bind. destruct (m s) as [[x|e] s1]; [|done]. apply Hf. Qed.
Lemma empties_name cx resp : empties (name cx resp).
Proof. intros s. pose proof (name_empties cx resp s) as H. by destruct (name cx resp s) as [[b|e] s1]. Qed.
Lemma held_noteUnhashed why : leavesHeld (noteUnhashed why).
Proof. unfold noteUnhashed, append. holding. Qed.
Lemma held_recordQuarantine q : leavesHeld (recordQuarantine q).
Proof. unfold recordQuarantine, configure, writerNow, append. holding. Qed.
Lemma held_holdNotes notes : leavesHeld (holdNotes notes).
Proof. unfold holdNotes, writerNow, append. holding. Qed.

Lemma empties_response cx e : empties (response cx e).
Proof.
  unfold response. cbv zeta. apply empties_then; [apply empties_name|]. intros unnamed. unfold time, append, land, responded, withhold. holding.
  apply held_noteUnhashed.
Qed.
Lemma empties_runEnd cx e : empties (runEnd cx e).
Proof.
  unfold runEnd. apply empties_then.
  - unfold endInFlight. do 2 (apply empties_after; intros ?). apply empties_then.
    + intros s. pose proof (empties_name cx (fl_ID x) s) as H. destruct (name _ _ s) as [[b|err] s1]; exact H.
    + intros b. unfold responded, append. holding. apply held_noteUnhashed.
  - intros _. unfold writerNow, append. holding; [apply held_recordQuarantine|apply held_holdNotes].
Qed.

(** Once the writer has taken the model's response, or the run's end, no item waits for
    a stream to name it: every item the run reported before it is on the record. *)
Theorem nothing_held cx ev (s : st) :
  match ev with EvResponseEnd _ => True | EvRunEnd _ => True | _ => False end -> (handle cx ev s).1 = inl tt ->
  heldItems (handle cx ev s).2 = [].
Proof.
  intros Hev Hok. assert (empties (handle cx ev)) as H.
  { unfold handle. do 2 (apply empties_after; intros ?). destruct ev; try done; [apply empties_response|apply empties_runEnd]. }
  specialize (H s). unfold heldItems. destruct (handle cx ev s) as [[u|e] s1]; [|done]. cbn [snd] in *. by rewrite H.
Qed.
End Landing.
