(* ===== verification/Owed.v ===== *)
(** * Owed: the notes a session owes ([session/session.go])

    The notes a run held are on the record as the last entry of their namespace. Read back,
    those whose items the path holds since, in order, were said, and the others are owed:
    [lastHeldNotes], [appendedSince] and [OwedNotes]. *)

From S2P Require Export Frame.

(** What reading notes back asks of the libraries and of the session's media. *)
Class Owing := {
  unmarshalHeld : string -> option (list HeldNote);
  UnmarshalItem : string -> option item;
  (** [sidecarForm]: the item with its media as a sidecar session's path names it, when it
      has any. *)
  sidecarForm : item -> option item;
  (** The resolver's form of an item of a session. *)
  resolve : string -> item -> item + error;
}.

Section Owed.
Context `{Enc : !Encoding} `{Ext : !Externals} `{Owe : !Owing}.

(** [sameNoteItem]. *)
Definition sameNoteItem (a b : item) : bool :=
  match a, b with
  | IMessage _ x, IMessage _ y => bool_decide (Role_ x = Role_ y) && bool_decide (MessageText x = MessageText y)
  | _, _ => equalJSON a b || match sidecarForm b with Some conv => equalJSON a conv | None => false end
  end.

(** [appendedSince]. *)
Definition says (e : entry) (n : Note) : bool := match e with EItem ie => sameNoteItem (it_Item ie) (n_Item n) | _ => false end.
Fixpoint appendedSince (after : list entry) (notes : list Note) : nat :=
  match after, notes with
  | e :: after, n :: rest => if says e n then S (appendedSince after rest) else appendedSince after notes
  | _, _ => 0
  end.

(** The last entry of the notes held, and the entries after it. *)
Fixpoint lastHeld (path : list entry) : option (string * list entry) :=
  match path with
  | [] => None
  | e :: path =>
      match lastHeld path with
      | Some x => Some x
      | None =>
          match e with
          | ECustom c => if bool_decide (cu_NS c = HeldNotesNS) then Some (cu_Data c, path) else None
          | _ => None
          end
      end
  end.

(** A note as its entry's data says it. *)
Definition noteOf (h : HeldNote) : option Note :=
  match UnmarshalItem (hn_Item h) with
  | Some i =>
      if isNil i then None
      else Some {| n_Item := i; n_Mode := hn_Mode h; n_Trigger := from_option agentTrigger noTrigger (hn_Trigger h); n_CallID := hn_CallID h |}
  | None => None
  end.

(** [lastHeldNotes]. *)
Definition lastHeldNotes (path : list entry) : list Note :=
  match lastHeld path with
  | Some (data, after) =>
      match unmarshalHeld data with
      | Some h => let out := omap noteOf h in drop (appendedSince after out) out
      | None => []
      end
  | None => []
  end.

(** [OwedNotes], of a session whose leaf has the path [path], with the calls pending there. *)
Definition answered (path : list entry) (id : string) : bool :=
  existsb (fun e => match e with EItem ie => match it_Item ie with IOutput _ o => bool_decide (OutCallID o = id) | _ => false end | _ => false end) path.
Fixpoint resolved (session : string) (notes : list Note) : list Note + error :=
  match notes with
  | [] => inl []
  | n :: notes =>
      match resolve session (n_Item n), resolved session notes with
      | inr e, _ => inr e
      | inl i, inl rest => inl (n <| n_Item := i |> :: rest)
      | inl _, inr e => inr e
      end
  end.
Definition OwedNotes (session leaf : string) (path : list entry) (pending : list string + error) : list Note + error :=
  if bool_decide (leaf = "") then inl []
  else match pending with
       | inr e => inr (Wrap "session: pending calls at leaf" e)
       | inl (_ :: _) => inl []
       | inl [] =>
           resolved session (List.filter (fun n => bool_decide (n_CallID n = "") || answered path (n_CallID n)) (lastHeldNotes path))
       end.

(** ** What was said *)

(** Entries of a path that say the notes, in their order. *)
Inductive said : list entry -> list Note -> Prop :=
| said_nil after : said after []
| said_here e after n notes : says e n = true -> said after notes -> said (e :: after) (n :: notes)
| said_later e after notes : said after notes -> said (e :: after) notes.
#[local] Hint Constructors said : core.

Lemma said_less after n notes : said after (n :: notes) -> said after notes.
Proof.
  remember (n :: notes) as l eqn:El. intros H. revert n notes El. induction H as [|e after n' notes' He H IH|e after notes' H IH];
    intros n notes El; [done| |].
  - injection El as -> ->. by apply said_later.
  - apply said_later. by apply (IH n).
Qed.

(** Of the notes a record holds, those said since are the most that can have been: the
    entries after theirs say the leading [appendedSince] of them, in order, and say no
    longer beginning of them, however the entries are matched. *)
Theorem appendedSince_most after notes :
  said after (take (appendedSince after notes) notes) /\
  forall k, (k <= length notes)%nat -> said after (take k notes) -> (k <= appendedSince after notes)%nat.
Proof.
  revert notes. induction after as [|e after IH]; intros notes.
  { split; [constructor|]. intros [|k] Hk Hs; [cbn; lia|]. destruct notes; [cbn in Hk; lia|]. inversion Hs. }
  destruct notes as [|n notes]; [split; [constructor|cbn; lia]|]. cbn [appendedSince]. destruct (says e n) eqn:He.
  - destruct (IH notes) as [IH1 IH2]. split; [by constructor|]. intros [|k] Hk Hs; [lia|]. cbn [length] in Hk. apply le_n_S, IH2; [lia|].
    cbn [take] in Hs. inversion Hs as [|? ? ? ? _ Hs'|? ? ? Hs']; subst; [done|by apply said_less in Hs'].
  - destruct (IH (n :: notes)) as [IH1 IH2]. split; [by constructor|]. intros k Hk Hs. apply IH2; [done|].
    destruct k as [|k]; [constructor|]. cbn [take] in Hs |- *. inversion Hs as [|? ? ? ? He' _|? ? ? Hs']; subst; [congruence|done].
Qed.
End Owed.

(** ** The record of notes *)

(** The laws of the encodings: what [json.Marshal] wrote is read back, an item as [reread]
    gives it. *)
Class OwingLaws W `{Rec : !Recording W} `{Set_ : !Setting W} `{Owe : !Owing} := {
  reread : item -> item;
  marshalHeld_back : forall l data, marshalHeld l = Some data -> unmarshalHeld data = Some l;
  marshalText_back : forall i text, isNil i = false -> marshalText i = Some text -> UnmarshalItem text = Some (reread i);
  reread_some : forall i, isNil i = false -> isNil (reread i) = false;
}.

Section Recorded.
Context {W : Type} `{Enc : !Encoding} `{Ext : !Externals} `{Rec : !Recording W} `{Set_ : !Setting W} `{Owe : !Owing} `{Laws : !OwingLaws W}.

Lemma heldNotes_back notes l : heldNotes notes = inl l ->
  omap noteOf l = map (fun n => n <| n_Item ::= reread |>) (List.filter (fun n => negb (isNil (n_Item n))) notes).
Proof.
  revert l. induction notes as [|n notes IH]; intros l; cbn [heldNotes List.filter map]; [by intros [= <-]|].
  destruct (isNil (n_Item n)) eqn:En; cbn [negb]; [apply IH|].
  destruct (marshalText (n_Item n)) as [text|] eqn:Em; [|done]. pose proof (sessionTrigger_back (n_Trigger n)) as Ht.
  destruct (sessionTrigger (n_Trigger n)) as [t|e]; [|done]. destruct (heldNotes notes) as [rest|e]; [|done]. intros [= <-].
  cbn [omap list_omap]. unfold noteOf at 1. cbn [hn_Item hn_Mode hn_Trigger hn_CallID].
  rewrite (marshalText_back _ _ En Em), (reread_some _ En). cbn [map]. f_equal; [|by apply IH].
  destruct n as [i m tr id]. cbn in *. destruct t as [t|]; [destruct Ht as [_ Ht]|]; cbn; by rewrite Ht.
Qed.

Lemma lastHeld_app p data after : Forall (fun e => match e with ECustom c => cu_NS c <> HeldNotesNS | _ => True end) after ->
  forall id resp, lastHeld (p ++ ECustom {| cu_NS := HeldNotesNS; cu_Data := data; cu_CallID := id; cu_ResponseID := resp |} :: after) = Some (data, after).
Proof.
  intros Hafter id resp. assert (lastHeld after = None) as Hn.
  { induction Hafter as [|e after He _ IH]; [done|]. cbn. rewrite IH. destruct e; try done. by rewrite bool_decide_false. }
  induction p as [|e p IH]; cbn [app lastHeld]; [by rewrite Hn|by rewrite IH].
Qed.

(** C38: the notes a run held are owed by the record exactly as they were held, its items as
    reading them gives them, less those the path says since: nothing a person said is lost
    between a run's report of it and its item, whatever ends the process, and nothing is
    said twice. *)
Theorem held_notes_owed p data after notes id : heldNotesData notes = inl data ->
  Forall (fun e => match e with ECustom c => cu_NS c <> HeldNotesNS | _ => True end) after ->
  let back := map (fun n => n <| n_Item ::= reread |>) (List.filter (fun n => negb (isNil (n_Item n))) notes) in
  lastHeldNotes (p ++ ECustom {| cu_NS := HeldNotesNS; cu_Data := data; cu_CallID := id; cu_ResponseID := None |} :: after) =
  drop (appendedSince after back) back.
Proof.
  intros Hd Hafter back. unfold lastHeldNotes. rewrite lastHeld_app by done. unfold heldNotesData in Hd.
  destruct (heldNotes notes) as [l|e] eqn:El; [|done]. destruct (marshalHeld l) as [d|] eqn:Em; [|done]. injection Hd as <-.
  rewrite (marshalHeld_back _ _ Em). cbv zeta. by rewrite (heldNotes_back _ _ El).
Qed.
End Recorded.
