(* ===== verification/RecordToy.v ===== *)
(** * RecordToy: concrete instances of the record's interfaces, for evaluating it.

    A store that numbers what it is given, JSON as small as the laws of its reading allow,
    and a run of one call: nothing in the development rests on it. *)

From stdpp Require Import pretty.
From S2P Require Export Logged Owed Toy.

Module RecordToy.
Import HashToy Toy.
#[local] Existing Instance externals.

(** The store's world counts the entries it was given, and refuses them from the [limit]th. *)
Record store := { taken : nat; limit : nat }.

#[export] Instance recording : Recording store := {|
  storeWrite _ e h := if bool_decide (taken h < limit h)%nat
                      then (inl (pretty (taken h), false), {| taken := S (taken h); limit := limit h |})
                      else (inr (Errorf "store"), h);
  storeOpen _ h := (inl tt, h);
  openParent _ h := (inl {| vw_Entry := fun _ => None; vw_PathTrust := None |}, h);
  parentWriter _ := None;
  sidecar _ i h := (inl i, h);
  recordForm i := i;
  filterKeeps _ := true;
  marshalText i := match i with IMessage _ m => Some (Content m) | _ => None end;
  marshalParts _ := Some "[]";
  unmarshalString := Some;
|}.
#[export] Instance recordingLaws : RecordingLaws store.
Proof. constructor. intros session i w r w' H. cbn in H. by injection H as <- _. Qed.

#[export] Instance tooling : Tooling store := {|
  errorText _ := "error"; RecordOf _ := inl None; childInfo _ := None; marshalNested _ := Some "{}";
  decodeCallee _ := None; decodeCancel _ := None; clearRedacted m := m; cancelSent l := l; children := false;
  runs _ _ := None; detach _ h := h; release _ h := h; holdsRun _ _ _ h := (EmptyString, h);
  copyChild _ _ _ h := (inr (Errorf "child"), h);
|}.

#[export] Instance setting : Setting store := {|
  Settings := string; Omit := unit; configuration := unit;
  BaseRequest _ h := (request, h); withoutProvider c := c; noBackground r := r;
  hashOf _ _ _ := inl ("hash", tt, None); quarantineOver _ _ o _ _ := o; omitFor _ _ _ _ := tt;
  configEntry have wrote req _ _ := inl (if bool_decide (have = rq_Model req) then None else Some (rq_Model req));
  quarantineEntry _ _ _ := None; Apply _ text := text; ModelOf s := s; differs _ _ _ _ _ := false; Frame.environment _ h := (inl None, h);
  marshalUnhashed _ := Some "{}"; marshalRetry _ := Some "{}"; marshalBlocked _ := Some "{}";
  marshalHeld l := match l with
                   | [] => Some ""
                   | [n] => if bool_decide (hn_Mode n = InputTool) && bool_decide (hn_Trigger n = None) && bool_decide (hn_CallID n = "c")
                            then Some ("n" +:+ hn_Item n) else None
                   | _ => None
                   end;
  marshalSettings r := Some (rq_Model r); now _ := 1%Z;
|}.

#[export] Instance owing : Owing := {|
  unmarshalHeld s := match s with
                     | EmptyString => Some []
                     | String _ text => Some [{| hn_Item := text; hn_Mode := InputTool; hn_Trigger := None; hn_CallID := "c" |}]
                     end;
  UnmarshalItem text := Some (IMessage 1 {| Role_ := RoleUser; Content := text |});
  sidecarForm _ := None;
  resolve _ i := inl i;
|}.
#[export] Instance owingLaws : OwingLaws store.
Proof.
  refine {| reread i := match i with IMessage _ m => IMessage 1 {| Role_ := RoleUser; Content := Content m |} | i => i end |}.
  - intros [|[it mode t id] [|y l]] data; cbn; try done; [by intros [= <-]|].
    destruct (_ && _) eqn:E; [|done]. rewrite !andb_true_iff, !bool_decide_eq_true in E. destruct E as [[-> ->] ->]. by intros [= <-].
  - intros [|p m|p c|p o|p r|h t x] text; cbn; try done. by intros _ [= <-].
  - by intros [].
Defined.

(** A writer of a new session, and its world. *)
Definition writer0 : writer := {|
  wr_id := "s"; wr_parentID := ""; wr_parentSession := None; wr_reopenOwed := false; wr_replay := false; wr_model := "model";
  wr_run := ""; wr_open := []; wr_answeredCall := false; wr_withheld := false; wr_unsettled := ∅; wr_calls := ∅; wr_parents := ∅;
  wr_appOnly := ∅; wr_copied := ∅; wr_linked := ∅; wr_callees := []; wr_cancelled := ∅; wr_items := []; wr_values := []; wr_custom := [];
  wr_meta := []; wr_models := []; wr_inbox := []; wr_written := [] |}.
Definition frame0 : frame := {|
  fr_cfg := None; fr_base := ""; fr_wroteConfig := false; fr_settings := ("" : Settings); fr_settleReq := None;
  fr_attempt := {| at_settings := None; at_input := []; at_model := "" |}; fr_flight := landed; fr_unnamed := []; fr_responses := 0;
  fr_lastCalls := false; fr_noted := None; fr_heldNotes := None; fr_seededNotes := [] |}.
Definition state := ((writer * store) * frame)%type.
Definition s0 : state := ((writer0, {| taken := 0; limit := 20 |}), frame0).
Definition cx0 : AnswerContext := {| ac_deciders := ∅; ac_reasons := ∅; ac_origins := ∅; ac_failures := ∅ |}.
Abbreviation does s ev := ((handle cx0 ev s).2).

(** A run of one call: started, and handed over; and its output. *)
Definition opened : event := EvRunStart {| rs_RunID := "r"; rs_Source := SourceInput; rs_Trigger := noTrigger |}.
Definition ended (i : item) (resp : string) : event := EvItemEnd {| ie_RunID := "r"; ie_Turn := 1; ie_Item := i; ie_ResponseID := resp;
  ie_Hidden := false; ie_Copied := false; ie_Provenance := None; ie_Trigger := noTrigger; ie_ModelCallID := "" |}.
Definition started : event := EvToolStart {| tst_RunID := "r"; tst_Turn := 1; tst_CallID := "c"; tst_Name := "tool"; tst_Args := Some "{}";
  tst_Decision := None; tst_Parent := ""; tst_Invoked := None; tst_Replayed := false |}.
Definition handedOver : ToolDispatch := {| tdi_RunID := "r"; tdi_Turn := 1; tdi_CallID := "c"; tdi_Name := "tool"; tdi_Parent := "";
  tdi_IdempotencyKey := "" |}.
Definition output : FunctionCallOutput := {| OutID := ""; OutCallID := "c"; Output := {| Text_ := "4"; Parts := [] |}; OutStatus := "" |}.
Definition s1 : state := does s0 opened.
Definition s2 : state := does s1 (ended (ICall 90 (call 90 "c")) "resp").
Definition s3 : state := does s2 started.
Definition s4 : state := does s3 (EvToolDispatch handedOver).

Definition seed0 : string -> status := fun _ => NoCall.
Lemma s0_inv : inv seed0 s0.
Proof. by apply new_inv. Qed.

Lemma reached1 : reached s0 s1.
Proof. unfold s1. apply reached_event; [constructor|]. intros id c H. cbn in H. by rewrite lookup_empty in H. Qed.
Lemma reached2 : reached s0 s2.
Proof. unfold s2. apply reached_event; [exact reached1|]. split; [|done]. vm_compute. intros H. by inversion H. Qed.
Lemma reached3 : reached s0 s3.
Proof. unfold s3. apply reached_event; [exact reached2|]. intros _ c H. vm_compute in H. injection H as <-. done. Qed.
Lemma expects4 : expects s3 (EvToolDispatch handedOver).
Proof. intros _. left. intros c H. vm_compute in H. injection H as <-. done. Qed.
Lemma reached4 : reached s0 s4.
Proof. unfold s4. apply reached_event; [exact reached3|exact expects4]. Qed.

Example handOff_recorded_witness :
  inv seed0 s0 /\ reached s0 s3 /\ expects s3 (EvToolDispatch handedOver) /\ is_Some (wr_calls s3.1.1 !! "c") /\
  (handle cx0 (EvToolDispatch handedOver) s3).1 = inl tt /\
  exists h, statusOf seed0 "c" (path s4.1.1) = Live h /\ (h_rejected h = true \/ h_handOffs h <> 0%nat).
Proof.
  assert (is_Some (wr_calls s3.1.1 !! "c")) as Hc by (vm_compute; by eexists).
  assert ((handle cx0 (EvToolDispatch handedOver) s3).1 = inl tt) as Hok by (vm_compute; reflexivity).
  split; [exact s0_inv|]. split; [exact reached3|]. split; [exact expects4|]. split; [exact Hc|]. split; [exact Hok|].
  exact (handOff_recorded seed0 s0 s3 cx0 handedOver s0_inv reached3 expects4 eq_refl Hc Hok).
Defined.

(** A stream that completes a message before it names its response. *)
Definition sent : event := EvTurnStart {| ts_RunID := "r"; ts_Turn := 1; ts_Request := request; ts_Inputs := []; ts_Arrived := [];
  ts_Quarantined := [] |}.
Definition named : event := EvResponseEnd {| re_RunID := "r"; re_Turn := 1; re_Response := Toy.response []; re_Withheld := false |}.
Definition t1 : state := does s1 sent.
Definition t2 : state := does t1 (ended (said "hello") "").

Example nothing_held_witness :
  Logged.heldItems t2 = [said "hello"] /\ (handle cx0 named t2).1 = inl tt /\ Logged.heldItems (handle cx0 named t2).2 = [].
Proof.
  assert ((handle cx0 named t2).1 = inl tt) as Hok by (vm_compute; reflexivity).
  split; [vm_compute; reflexivity|]. split; [exact Hok|]. exact (nothing_held cx0 named t2 I Hok).
Defined.

(** A note held, another message, and then its own. *)
Definition note : Note := {| n_Item := message "wait"; n_Mode := InputTool; n_Trigger := noTrigger; n_CallID := "c" |}.
Definition spoken (i : item) : entry := EItem (newItemEntry i).
Definition heldEntry (data : string) : entry := ECustom {| cu_NS := HeldNotesNS; cu_Data := data; cu_CallID := "c"; cu_ResponseID := None |}.

Example held_notes_owed_witness :
  heldNotesData [note] = inl "nwait" /\
  lastHeldNotes ([spoken (message "a")] ++ heldEntry "nwait" :: [spoken (said "hello")]) =
    [{| n_Item := IMessage 1 {| Role_ := RoleUser; Content := "wait" |}; n_Mode := InputTool; n_Trigger := noTrigger; n_CallID := "c" |}] /\
  lastHeldNotes ([spoken (message "a")] ++ heldEntry "nwait" :: [spoken (said "hello"); spoken (message "wait")]) = [].
Proof.
  assert (heldNotesData [note] = inl "nwait") as Hd by (vm_compute; reflexivity). split; [exact Hd|].
  split; (unfold heldEntry; rewrite (held_notes_owed [spoken (message "a")] "nwait" _ [note] "c" Hd);
    [vm_compute; reflexivity|repeat constructor]).
Defined.

(** Marks of a queued entry. *)
#[export] Instance format : Format := {|
  queuedLayers q := match qe_InstructionsPart q with Some l => Some [l] | None => qe_InstructionsLayers q end;
  unmarshalBool s := if bool_decide (s = "false") then Some false else None;
  unmarshalTrust s := Some [s]; unmarshalLayer _ := None; unmarshalLayers _ := None;
|}.
#[export] Instance formatLaws : FormatLaws.
Proof. by constructor. Qed.
Definition queued0 : QueuedEntry := {| qe_Item := message "a"; qe_Mode := QueueSteer; qe_Deliver := false; qe_Trigger := None;
  qe_Visible := None; qe_Trust := None; qe_InstructionsPart := None; qe_InstructionsLayers := None; qe_Unknown := ∅ |}.
Definition marks : Provenance := {| Layers := [{| LayerID := "p"; LayerSource := "host" |}]; PSource := noTrigger; Trust := Some ["web"] |}.

Example marks_roundtrip_witness :
  queuedMarks (setQueuedMarks queued0 true (Some marks)) = (true, Some marks) /\ recordable (message "a") (Some marks) = Some marks.
Proof.
  split; [|vm_compute; reflexivity].
  etrans; [apply (marks_roundtrip queued0 true (Some marks)); reflexivity|]. vm_compute. reflexivity.
Defined.

Definition interim : QueuedEntry := queued0 <| qe_Unknown := {[ VisibleMember := "false"; TrustMember := "web" ]} |>.
Example upgrade_keeps_marks_witness :
  queuedMarks interim = (true, Some {| Layers := []; PSource := noTrigger; Trust := Some ["web"] |}) /\
  qe_Visible (upgradeQueuedMarks interim) = Some false /\
  queuedMarks (upgradeQueuedMarks interim) = queuedMarks interim.
Proof.
  split; [vm_compute; reflexivity|]. split; [vm_compute; reflexivity|]. exact (proj1 (upgrade_keeps_marks interim)).
Defined.
End RecordToy.
