(* ===== verification/ReportToy.v ===== *)
(** * ReportToy: a run of the loop's, told to a writer

    The events the loop of [Loop] sends in a run of [Toy], handed to a writer of a new
    session: they come in the order [Reported] asks for. *)

From S2P Require Import Toy RecordToy Loop.
From S2P Require Import Reported.

Module ReportToy.
Import HashToy RecordToy.
#[local] Existing Instances Toy.externals Toy.tools Toy.accumulator.

Definition ranLog : list event :=
  log (run (env := Toy.environment 1%nat) 2 [Plain (Toy.message "hi")] [] false (Toy.state [])).2.
Definition recordedRun : option (told * state) := tellAll cx0 ranLog (earlier s0.1.1) s0.
Definition told1 : told := from_option fst (earlier s0.1.1) recordedRun.
Definition state1 : state := from_option snd s0 recordedRun.

Lemma run_reported : reported s0 told1 state1.
Proof. apply (tellAll_reported cx0 ranLog s0 (earlier s0.1.1) s0); [constructor|]. vm_compute. reflexivity. Qed.

(** The run's call: its item, its hand-off and its output, and its standing after them. *)
Example ledger_in_order_witness :
  omap (fun e => option_map (fun _ => e) (about e)) (path state1.1.1) = filter (fun e => about e = Some "c") (path state1.1.1) /\
  length (path state1.1.1) = 10%nat /\ tl_handed told1 = {["c"]} /\
  statusOf seed0 "c" (path state1.1.1) = Live {| h_handOffs := 1; h_unknown := false; h_rejected := false; h_answer := false;
    h_result := false; h_output := true |} /\
  forall id, statusOf seed0 id (path state1.1.1) <> Bad.
Proof.
  split; [vm_compute; reflexivity|]. split; [vm_compute; reflexivity|]. split; [vm_compute; reflexivity|]. split; [vm_compute; reflexivity|].
  exact (ledger_in_order seed0 s0 told1 state1 s0_inv eq_refl eq_refl run_reported).
Defined.

(** ** An answer whose output was not taken

    A call is handed over in a run that goes no further; in the next its output comes, the
    answer it needs is taken and the output is not. A run that then approves the call is
    refused its hand-off by the store, and the answer stays the last of the call's entries. *)
Definition opened2 (run : string) : event := EvRunStart {| rs_RunID := run; rs_Source := SourceInput; rs_Trigger := noTrigger |}.
Definition answeredRun : list event :=
  [opened; ended (ICall 90 (Toy.call 90 "c")) "resp"; started; EvToolDispatch handedOver; opened2 "r2"; ended (IOutput 91 output) "";
   opened2 "r3"; started].
Definition full : state := ((writer0, {| taken := 0; limit := 5 |}), frame0).
Definition answeredAll : option (told * state) := tellAll cx0 answeredRun (earlier full.1.1) full.
Definition told2 : told := from_option fst (earlier s0.1.1) answeredAll.
Definition state2 : state := from_option snd s0 answeredAll.
Definition state3 : state := (handle cx0 (EvToolDispatch handedOver) state2).2.

Lemma answered_reported : exists t, reported full t state3.
Proof.
  eexists. unfold state3. eapply (reported_event full cx0 (EvToolDispatch handedOver) told2 state2).
  - apply (tellAll_reported cx0 answeredRun full (earlier full.1.1) full); [constructor|vm_compute; reflexivity].
  - vm_compute. reflexivity.
  - intros c _ _ e x _ _. vm_compute. done.
Qed.

Example answered_kept :
  option_map (fun c => (c_ended c, c_answered c)) (wr_calls state2.1.1 !! "c") = Some (true, false) /\
  (handle cx0 (EvToolDispatch handedOver) state2).1 <> inl tt /\ path state3.1.1 = path state2.1.1 /\
  statusOf seed0 "c" (path state3.1.1) = Live {| h_handOffs := 1; h_unknown := false; h_rejected := false; h_answer := true;
    h_result := false; h_output := false |}.
Proof. split_and!; vm_compute; try reflexivity. done. Qed.
End ReportToy.
