(* ===== verification/Readers.v ===== *)
(** * Readers: what a session's path says of its calls ([session/session.go],
    [session/failedfold.go])

    The nested calls a tool made, the questions nobody answered, the dispatches withdrawn
    the old way, the calls kept from the model, a config base, the last fold that failed,
    and the tools a config entry adds and takes away. A path is its entries, with their
    IDs where a reader asks for them. *)

From S2P Require Export Ledger.

(** [Elicitation], the members a reader looks at, and [FailedFold]. *)
Record Elicitation := { eli_Phase : string; eli_Call : string; eli_Tool : string; eli_Parent : string; eli_Asked : string; eli_Message : string }.
Record FailedFold := { ff_Split : Z; ff_PrefixHash : string; ff_TokensBefore : Z }.

Definition ElicitationNS : string := "agentturn:elicitation".
Definition ElicitationAsk : string := "ask".
Definition ElicitationAnswer : string := "answer".
Definition WithdrawnNS : string := "agentturn:withdrawn".
Definition FailedFoldNS : string := "agentturn:compaction_failed".
Definition ItemTypeFunctionCall : string := "function_call".

(** What [json.Unmarshal] makes of an entry's data, and a result's details as a record
    holds them ([RecordedDetails]). *)
Class Reading := {
  decodeNested : string -> option NestedCall;
  decodeWithdrawn : string -> option string;
  decodeElicitation : string -> option Elicitation;
  decodeCallID : string -> option string;
  decodeFold : string -> option FailedFold;
  recordedDetails : string -> string -> any;
}.

Section Readers.
Context `{Read : !Reading}.

(** ** Nested calls *)

Record nestState := MkNest { ns_rec : NestedRecord; ns_ran : raw; ns_keys : list string }.
#[local] Instance eta_nestState : Eta nestState := fun s => MkNest (ns_rec s) (ns_ran s) (ns_keys s).

Definition named_ (n : NestedCall) : nestState :=
  MkNest {| nr_CallID := nc_CallID n; nr_Parent := nc_Parent n; nr_Name := nc_Name n; nr_Args := None; nr_Dispatched := false;
    nr_IdempotencyKey := ""; nr_DispatchArgs := None; nr_Ended := false; nr_Result := noResult; nr_Err := ""; nr_Blocked := false;
    nr_Reason := "" |} None [].

(** What an entry says of its call, by its phase. *)
Definition firstArgs (n : NestedCall) (args : raw) : raw :=
  match args with Some a => Some a | None => match nc_Invoked n with Some i => Some i | None => nc_Args n end end.
Definition endedBy (n : NestedCall) (r : NestedRecord) : NestedRecord :=
  r <| nr_Ended := true |>
    <| nr_Result := {| res_Output := nc_Output n; res_Terminate := nc_Terminate n;
         res_Details := match nc_Details n with Some d => recordedDetails (nd_NS d) (nd_Data d) | None => None end |} |>
    <| nr_Err := nc_Error n |> <| nr_Blocked := nc_Blocked n |> <| nr_Reason := nc_Reason n |>.
Definition readPhase (s : nestState) (n : NestedCall) : nestState :=
  if bool_decide (nc_Phase n = phaseStart) then MkNest ((ns_rec s) <| nr_Args ::= firstArgs n |>) (nc_Args n) (ns_keys s)
  else if bool_decide (nc_Phase n = nestedDispatch) then MkNest (ns_rec s) (ns_ran s) (ns_keys s ++ [nc_IdempotencyKey n])
  else if bool_decide (nc_Phase n = phaseEnd) then
    MkNest (if nc_Cut n || nc_Withdrawn n then ns_rec s else endedBy n (ns_rec s)) (ns_ran s)
      (if nc_Withdrawn n then removelast (ns_keys s) else ns_keys s)
  else s.

(** The entries' data, and the calls they name, in the order they are first named. *)
Definition nestedNote (e : entry) : option NestedCall :=
  match e with
  | ECustom c =>
      if bool_decide (cu_NS c = NestedCallNS) then
        decodeNested (cu_Data c) ≫= fun n => if bool_decide (nc_CallID n = "") then None else Some n
      else None
  | _ => None
  end.
Definition readNote (acc : gmap string nestState * list string) (n : NestedCall) : gmap string nestState * list string :=
  let id := nc_CallID n in
  match acc.1 !! id with
  | Some s => (<[id := readPhase s n]> acc.1, acc.2)
  | None => (<[id := readPhase (named_ n) n]> acc.1, acc.2 ++ [id])
  end.
Definition readNotes (l : list NestedCall) : gmap string nestState * list string := foldl readNote (∅, []) l.

(** A call's record, once its entries are read. *)
Definition settled (s : nestState) : NestedRecord :=
  match last (ns_keys s) with
  | None => ns_rec s
  | Some key =>
      let r := (ns_rec s) <| nr_Dispatched := true |> <| nr_IdempotencyKey := key |> in
      match ns_ran s with
      | Some ran => if Hash.sameJSON ran (bytesOf (nr_Args (ns_rec s))) then r else r <| nr_DispatchArgs := Some ran |>
      | None => r
      end
  end.

(** The call of the path a nested call was made under, whatever their depth. *)
Fixpoint climb (m : gmap string nestState) (fuel : nat) (root : string) : string :=
  match fuel with
  | O => root
  | S fuel => match m !! root with Some up => climb m fuel (nr_Parent (ns_rec up)) | None => root end
  end.

Definition underRoot (m : gmap string nestState) (order : list string) (id : string) : option (string * NestedRecord) :=
  m !! id ≫= fun s => Some (climb m (length order) (nr_Parent (ns_rec s)), settled s).
Definition putUnder (out : gmap string (list NestedRecord)) (x : string * NestedRecord) : gmap string (list NestedRecord) :=
  <[x.1 := default [] (out !! x.1) ++ [x.2]]> out.

(** [nestedRecords]. *)
Definition nestedRecords (path : list entry) : gmap string (list NestedRecord) :=
  let '(m, order) := readNotes (omap nestedNote path) in foldl putUnder ∅ (omap (underRoot m order) order).

(** ** Questions nobody answered *)

(** [openQuestions]: the questions asked under a call, with their entries' IDs, and those
    an answer names after them. *)
Definition elicitationOf (e : entry) : option (string * Elicitation) :=
  match e with
  | ECustom c =>
      if bool_decide (cu_NS c = ElicitationNS) && negb (bool_decide (cu_CallID c = ""))
      then decodeElicitation (cu_Data c) ≫= fun q => Some (cu_CallID c, q) else None
  | _ => None
  end.
Definition askStep (acc : gset string * list (string * string * Elicitation)) (ie : string * entry) :=
  match elicitationOf ie.2 with
  | None => acc
  | Some (call, q) =>
      if bool_decide (eli_Phase q = ElicitationAsk) then ({[ie.1]} ∪ acc.1, acc.2 ++ [(ie.1, call, q)])
      else if bool_decide (eli_Phase q = ElicitationAnswer) then (acc.1 ∖ {[eli_Asked q]}, acc.2)
      else acc
  end.
Definition openQuestion (id : string) (q : Elicitation) : OpenQuestion :=
  {| oq_ID := id; oq_Message := eli_Message q;
     oq_Call := if bool_decide (eli_Call q = "") then None
       else Some {| ac_Parent := eli_Parent q; ac_CallID := eli_Call q; ac_Name := eli_Tool q; ac_Args := None;
              ac_Decision := None; ac_Callee := "" |} |}.
Definition openQuestions (path : list (string * entry)) : gmap string OpenQuestion :=
  let '(open, asks) := foldl askStep (∅, []) path in
  foldl (fun out '(id, call, q) => if bool_decide (id ∈ open) then <[call := openQuestion id q]> out else out) ∅ asks.

(** ** Other readings *)

(** [withdrawnDispatches]. *)
Definition withdrawnBy (e : entry) : option string :=
  match e with
  | ECustom c =>
      if bool_decide (cu_NS c = WithdrawnNS) then decodeWithdrawn (cu_Data c) ≫= fun d => if bool_decide (d = "") then None else Some d else None
  | _ => None
  end.
Definition withdrawnDispatches (path : list entry) : gset string := list_to_set (omap withdrawnBy path).

(** [appOnlyCalls]. *)
Definition appOnlyCall (e : entry) : option string :=
  match e with
  | ECustom c => if bool_decide (cu_NS c = ItemTypeFunctionCall) then decodeCallID (cu_Data c) else None
  | _ => None
  end.
Definition appOnlyCalls (path : list entry) : gset string := list_to_set (omap appOnlyCall path).

(** [lastConfigBase]: of the last run start. *)
Definition lastConfigBase (path : list entry) : string :=
  default "" (last (omap (fun e => match e with ERunStart r => Some (default "" (rs_ConfigBase r)) | _ => None end) path)).

(** [LastFailedFold], of the path to a session's leaf: a fold whose data does not decode
    is an error. *)
Fixpoint failedFrom (rpath : list entry) : option FailedFold + error :=
  match rpath with
  | [] => inl None
  | ECustom c :: rpath =>
      if bool_decide (cu_NS c = FailedFoldNS) then
        match decodeFold (cu_Data c) with
        | None => inr (Errorf "session: failed fold")
        | Some f => if bool_decide (ff_PrefixHash f = "") then failedFrom rpath else inl (Some f)
        end
      else failedFrom rpath
  | _ :: rpath => failedFrom rpath
  end.
Definition LastFailedFold (path : list entry) : option FailedFold + error := failedFrom (rev path).

End Readers.

(** ** Config deltas *)

Section Tools.
(** A tool of a request, by its name; two are equal when their JSON is ([equalJSON]). *)
Context {T : Type} `{!EqDecision T} (nameOf : T -> string).

(** [toolDelta]: [at[name]] is the last position of the name. *)
Fixpoint lastAt (name : string) (prev : list T) : option nat :=
  match prev with
  | [] => None
  | t :: prev =>
      match lastAt name prev with
      | Some i => Some (S i)
      | None => if bool_decide (nameOf t = name) then Some 0%nat else None
      end
  end.
Fixpoint addedFrom (prev : list T) (from : nat) (next : list T) : list T :=
  match next with
  | [] => []
  | t :: rest =>
      match lastAt (nameOf t) prev with
      | Some i =>
          if (from <=? i)%nat && bool_decide (prev !! i = Some t) then addedFrom prev (S i) rest else next
      | None => next
      end
  end.
Definition toolDelta (prev next : list T) : list T * list string :=
  (addedFrom prev 0 next,
   omap (fun t => if bool_decide (nameOf t ∈ map nameOf next) then None else Some (nameOf t)) prev).

End Tools.
