(* ===== verification/Reread.v ===== *)
(** * Reread: what the readers make of what the writer wrote ([session/session.go])

    A nested call the writer recorded is read back as it was made; the tools a config
    entry adds and takes away rebuild the list it was computed for. *)

From S2P Require Export Nested Readers.

(** ** The tools of a config entry *)
Section Replay.
Context {T : Type} `{!EqDecision T} (nameOf : T -> string).

Lemma lastAt_lookup name prev i : lastAt nameOf name prev = Some i -> exists t, prev !! i = Some t /\ nameOf t = name.
Proof.
  revert i. induction prev as [|t prev IH]; intros i; cbn [lastAt]; [done|].
  destruct (lastAt nameOf name prev) as [j|]; [intros [= <-]; by apply IH|]. case_bool_decide; [|done]. intros [= <-]. by exists t.
Qed.

(** The tools kept are found in the old list in order. *)
Lemma addedFrom_kept prev from next :
  exists kept, next = kept ++ addedFrom nameOf prev from next /\ kept `sublist_of` drop from prev.
Proof.
  revert from. induction next as [|t next IH]; intros from; cbn [addedFrom]; [exists []; split; [done|apply sublist_nil_l]|].
  destruct (lastAt nameOf (nameOf t) prev) as [i|]; [|exists []; split; [done|apply sublist_nil_l]].
  destruct (Nat.leb_spec from i) as [Hi|]; [|exists []; split; [done|apply sublist_nil_l]].
  destruct (bool_decide_reflect (prev !! i = Some t)) as [Ht|]; cbn [andb]; [|exists []; split; [done|apply sublist_nil_l]].
  destruct (IH (S i)) as (kept & Hnext & Hs). exists (t :: kept). split; [cbn; f_equal; exact Hnext|].
  etrans; [apply sublist_skip, Hs|]. rewrite <-(drop_S _ _ _ Ht). replace i with (from + (i - from))%nat by lia.
  rewrite <-drop_drop. apply sublist_drop.
Qed.

Lemma filter_ext_in (P Q : T -> Prop) `{!forall x, Decision (P x), !forall x, Decision (Q x)} (l : list T) :
  (forall x, x ∈ l -> P x <-> Q x) -> filter P l = filter Q l.
Proof.
  induction l as [|x l IH]; [done|]. intros Hpq. rewrite !filter_cons.
  assert (P x <-> Q x) by (apply Hpq; left). rewrite IH; [|intros; apply Hpq; by right].
  by repeat case_decide; tauto.
Qed.

(** What a name is in tells the tools of a sublist apart. *)
Lemma sublist_names (kept prev : list T) : kept `sublist_of` prev -> NoDup (map nameOf prev) ->
  filter (fun t => nameOf t ∈ map nameOf kept) prev = kept.
Proof.
  induction 1 as [|t kept prev Hs IH|t kept prev Hs IH]; cbn [map]; intros Hn.
  - done.
  - apply NoDup_cons in Hn as [Hni Hn]. rewrite filter_cons_True; [|by left]. f_equal. etrans; [|exact (IH Hn)].
    apply filter_ext_in. intros x Hx. cbn. split; [|by right]. intros [He|]%elem_of_cons; [|done].
    destruct Hni. rewrite <-He. by apply list_elem_of_fmap_2.
  - apply NoDup_cons in Hn as [Hni Hn]. rewrite filter_cons_False; [by apply IH|]. intros Hin. destruct Hni.
    apply list_elem_of_fmap in Hin as (x & -> & Hx). apply list_elem_of_fmap_2. by eapply elem_of_sublist.
Qed.
Lemma addedFrom_length prev from next : (length (addedFrom nameOf prev from next) <= length next)%nat.
Proof. destruct (addedFrom_kept prev from next) as (kept & Hn & _). rewrite Hn at 2. rewrite length_app. lia. Qed.

(** Under distinct names [at] gives every tool its own place. *)
Lemma lastAt_own prev i t : NoDup (map nameOf prev) -> prev !! i = Some t -> lastAt nameOf (nameOf t) prev = Some i.
Proof.
  intros Hn Hi. destruct (lastAt nameOf (nameOf t) prev) as [j|] eqn:Hl.
  - destruct (lastAt_lookup _ _ _ Hl) as (u & Hj & Hu). f_equal.
    eapply (NoDup_lookup (map nameOf prev)); [done|by rewrite list_lookup_fmap, Hj; cbn; rewrite Hu|by rewrite list_lookup_fmap, Hi].
  - exfalso. clear Hn. revert i Hi Hl. induction prev as [|u prev IH]; intros [|i]; cbn; try done.
    + intros [= ->]. destruct (lastAt _ _ prev); [done|]. by case_bool_decide.
    + intros Hi. destruct (lastAt _ _ prev) eqn:Hl; [done|]. intros _. by eapply IH.
Qed.

(** No prefix of the new list stands in the old one, in order, beyond the tools kept. *)
Lemma addedFrom_least prev from k a : NoDup (map nameOf prev) -> k `sublist_of` drop from prev ->
  (length (addedFrom nameOf prev from (k ++ a)) <= length a)%nat.
Proof.
  intros Hn. revert from. induction k as [|t k IH]; intros from Hk; cbn [app]; [apply addedFrom_length|].
  apply sublist_cons_l in Hk as (l1 & l2 & Hd & Hk).
  assert (prev !! (from + length l1)%nat = Some t) as Ht.
  { rewrite <-lookup_drop, Hd, lookup_app_r by lia. by rewrite Nat.sub_diag. }
  cbn [addedFrom]. rewrite (lastAt_own _ _ _ Hn Ht). rewrite (bool_decide_true _ Ht).
  rewrite (proj2 (Nat.leb_le _ _)) by lia. cbn [andb]. apply IH.
  rewrite <-Nat.add_succ_r, <-drop_drop, Hd, drop_app_ge by lia. by replace (S (length l1) - length l1)%nat with 1%nat by lia.
Qed.

(** The names taken away are those of the old list the new one lacks. *)
Lemma elem_of_removed prev next name :
  name ∈ (toolDelta nameOf prev next).2 <-> exists t, t ∈ prev /\ name = nameOf t /\ nameOf t ∉ map nameOf next.
Proof.
  cbn. rewrite list_elem_of_omap. split.
  - intros (t & Ht & Hs). destruct (bool_decide_reflect (nameOf t ∈ map nameOf next)); [done|]. injection Hs as <-. eauto.
  - intros (t & Ht & -> & Hne). exists t. by rewrite (bool_decide_false _ Hne).
Qed.

(** What [agentsession] makes of a config entry's tools on replay: each added tool is taken
    away by name, as those removed are, and appended after the tools kept. *)
Definition replays_by_name (Replay : list T -> list T -> list string -> list T) : Prop :=
  forall prev added removed,
    Replay prev added removed = filter (fun t => nameOf t ∉ map nameOf added /\ nameOf t ∉ removed) prev ++ added.

(** C39: a config entry's delta rebuilds the list it was computed for: replayed on the old
    tools it gives the new ones, in their order, whether tools were added, removed,
    redefined or moved; and no other delta that does adds fewer tools. *)
Theorem toolDelta_replays Replay prev next :
  replays_by_name Replay -> NoDup (map nameOf prev) -> NoDup (map nameOf next) ->
  Replay prev (toolDelta nameOf prev next).1 (toolDelta nameOf prev next).2 = next /\
  forall added removed, Replay prev added removed = next ->
    (length (toolDelta nameOf prev next).1 <= length added)%nat.
Proof.
  intros Hr Hp Hn. split; [|intros added removed <-; rewrite Hr; apply addedFrom_least; [done|apply sublist_filter]].
  rewrite Hr. unfold toolDelta. cbn [fst snd].
  destruct (addedFrom_kept prev 0 next) as (kept & Hnext & Hk). rewrite drop_0 in Hk.
  etrans; [|symmetry; exact Hnext]. f_equal. etrans; [|exact (sublist_names _ _ Hk Hp)]. apply filter_ext_in. intros t Ht.
  pose proof Hn as Hn'. rewrite Hnext, map_app in Hn'. apply NoDup_app in Hn' as (_ & Hd & _).
  assert (nameOf t ∈ map nameOf next <-> nameOf t ∈ map nameOf kept \/ nameOf t ∈ map nameOf (addedFrom nameOf prev 0 next)) as Hin
    by (rewrite Hnext at 1; rewrite map_app, elem_of_app; done).
  pose proof (elem_of_removed prev next (nameOf t)) as Hrm. cbn [toolDelta snd] in Hrm. rewrite Hrm. split.
  - intros [Ha Hx]. destruct (decide (nameOf t ∈ map nameOf next)) as [Hi|Hi]; [tauto|]. destruct Hx. eauto.
  - intros Hkept. split; [by apply Hd|]. intros (x & _ & Hx & Hne). apply Hne. rewrite <-Hx. tauto.
Qed.

End Replay.

(** ** Arguments *)

(** The empty text standing for the empty object, and the canonical form a text has, or
    the text. *)
Definition textOf (s : string) : list ascii := if bool_decide (s = "") then str "{}" else str s.
Definition keyOf (s : string) : list ascii + list ascii :=
  match canonicalJSON (textOf s) with Some c => inl c | None => inr (textOf s) end.

Lemma sameJSON_key a b : Hash.sameJSON a b = true <-> keyOf a = keyOf b.
Proof.
  unfold Hash.sameJSON, keyOf. fold (textOf a) (textOf b).
  destruct (canonicalJSON (textOf a)) eqn:A, (canonicalJSON (textOf b)) eqn:B; rewrite bool_decide_eq_true; split; congruence.
Qed.
Lemma keyOf_orEmpty x own : keyOf (bytesOf (orEmpty x own)) = keyOf (bytesOf (match x with None => Some own | Some _ => x end)).
Proof. unfold orEmpty. cbv zeta. case_bool_decide as H; [|done]. unfold keyOf, textOf. by rewrite H. Qed.

(** ** A nested call's record *)

Section Agreement.
Context `{Ext : Externals} {W : Type} `{Tool_ : !Tooling W} `{Read : !Reading}.

(** The arguments a record says a call was handed to its tool with, as a replay and a run
    again take them. *)
Definition ranWith (n : NestedRecord) : string := bytesOf (orEmpty (nr_DispatchArgs n) (bytesOf (nr_Args n))).

(** A result as a record holds it. *)
Definition recorded (r : Result) : Result := {| res_Output := res_Output r; res_Terminate := res_Terminate r;
  res_Details := match RecordOf (res_Details r) with inl (Some (ns, data)) => recordedDetails ns data | _ => None end |}.

(** The record read back is the record the loop keeps: the same call, hand-off and end,
    its arguments of the same JSON. *)
Definition agrees (read kept : NestedRecord) : Prop :=
  nr_CallID read = nr_CallID kept /\ nr_Parent read = nr_Parent kept /\ nr_Name read = nr_Name kept /\
  Hash.sameJSON (bytesOf (nr_Args read)) (bytesOf (nr_Args kept)) = true /\
  nr_Dispatched read = nr_Dispatched kept /\ nr_IdempotencyKey read = nr_IdempotencyKey kept /\
  (nr_Dispatched kept = true -> Hash.sameJSON (ranWith read) (ranWith kept) = true) /\
  nr_Ended read = nr_Ended kept /\ nr_Err read = nr_Err kept /\ nr_Blocked read = nr_Blocked kept /\
  nr_Reason read = nr_Reason kept /\ (nr_Ended kept = true -> nr_Result read = recorded (nr_Result kept)).

(** The notes of one call of a path, and what they say of it. *)
Definition notesOf (id : string) (path : list entry) : list NestedCall :=
  filter (fun n => nc_CallID n = id) (omap nestedNote path).
Definition heldState (notes : list NestedCall) : option nestState :=
  foldl (fun s n => Some (readPhase (default (named_ n) s) n)) None notes.

Lemma readNotes_state l acc id : (foldl readNote acc l).1 !! id =
  foldl (fun s n => Some (readPhase (default (named_ n) s) n)) (acc.1 !! id) (filter (fun n => nc_CallID n = id) l).
Proof.
  revert acc. induction l as [|n l IH]; intros [m order]; [done|]. cbn [foldl]. rewrite IH.
  destruct (decide (nc_CallID n = id)) as [<-|Hne].
  - rewrite filter_cons_True by done. cbn [foldl]. f_equal. unfold readNote. cbn.
    destruct (m !! nc_CallID n) eqn:E; cbn; by rewrite lookup_insert_eq.
  - rewrite filter_cons_False by done. f_equal. unfold readNote. cbn.
    destruct (m !! nc_CallID n) eqn:E; cbn; by rewrite lookup_insert_ne.
Qed.

Lemma readNotes_held path id : (readNotes (omap nestedNote path)).1 !! id = heldState (notesOf id path).
Proof. unfold readNotes. by rewrite readNotes_state. Qed.

(** The record a path holds of a call. *)
Definition heldRecord (notes : list NestedCall) : option NestedRecord := settled <$> heldState notes.
Definition held (id : string) (path : list entry) : option NestedRecord := heldRecord (notesOf id path).

(** The loop's attempt at a call: the events it sent of [p], as the call ended, and the
    notes the writer makes of them. The writer was told of the hand-off a refusal
    withdrew. *)
Record attempt (args : raw) (p : callState) (st : ToolStart) (di : option ToolDispatch) (te : ToolEnd) : Prop := {
  at_start : tst_CallID st = callID (c_call p) /\ tst_Name st = Name (cr_call (c_call p)) /\ tst_Parent st = c_parent p /\
    tst_Args st = Batch.c_args p /\ tst_Invoked st = args;
  at_args : is_Some args /\ is_Some (Batch.c_args p);
  at_handed : forall d, di = Some d -> tdi_CallID d = callID (c_call p) /\ tdi_IdempotencyKey d = c_key p;
  at_dispatched : Batch.c_dispatched p = bool_decide (is_Some di) && negb (bool_decide (is_Some (c_dispatchErr p)));
  at_withdrawn : is_Some (c_dispatchErr p) -> is_Some di /\ c_cut p = true;
  at_reason : c_blocked p = false -> c_reason p = "";
  at_end : exists r, Batch.toolEnd p r = EvToolEnd te }.

Definition attemptNotes (st : ToolStart) (di : option ToolDispatch) (te : ToolEnd) : list NestedCall :=
  nestedStart st :: from_option (fun d => [nestedHandOff d]) [] di ++ [nestedEnd te].

(** The attempt repeats the call a record holds: one that has not ended, and, where its
    own tool is not run, with the arguments the record's hand-off was made with. *)
Definition repeats (o : NestedRecord) (args : raw) (p : callState) : Prop :=
  nr_CallID o = callID (c_call p) /\ nr_Parent o = c_parent p /\ nr_Name o = Name (cr_call (c_call p)) /\
  Hash.sameJSON (bytesOf (nr_Args o)) (bytesOf args) = true /\ nr_Ended o = false /\
  (nr_Dispatched o = true -> Batch.c_dispatched p = false -> Hash.sameJSON (ranWith o) (bytesOf (Batch.c_args p)) = true).

(** Until the entries are read a record says nothing of hand-offs, and nothing of an end
    unless one stood. *)
Definition plain (s : nestState) : Prop :=
  nr_Dispatched (ns_rec s) = false /\ nr_IdempotencyKey (ns_rec s) = "" /\ nr_DispatchArgs (ns_rec s) = None /\
  (nr_Ended (ns_rec s) = false -> nr_Err (ns_rec s) = "" /\ nr_Blocked (ns_rec s) = false /\ nr_Reason (ns_rec s) = "").

Lemma plain_read s n : plain s -> plain (readPhase s n).
Proof.
  unfold plain, readPhase. intros (Hd & Hk & Ha & He).
  repeat (case_match; cbn [ns_rec]); split_and!; try done; try exact He.
Qed.
Lemma heldState_plain notes s : heldState notes = Some s -> plain s.
Proof.
  unfold heldState. revert s. induction notes as [|n notes IH] using rev_ind; intros s; [done|].
  rewrite foldl_app. cbn. intros [= <-]. apply plain_read. destruct (foldl _ None notes) eqn:E; cbn; [by apply IH|done].
Qed.

Lemma settled_facts s : plain s ->
  let r := settled s in let r0 := ns_rec s in
  nr_CallID r = nr_CallID r0 /\ nr_Parent r = nr_Parent r0 /\ nr_Name r = nr_Name r0 /\ nr_Args r = nr_Args r0 /\
  nr_Dispatched r = bool_decide (ns_keys s <> []) /\ nr_IdempotencyKey r = default "" (last (ns_keys s)) /\
  nr_Ended r = nr_Ended r0 /\ nr_Result r = nr_Result r0 /\ nr_Err r = nr_Err r0 /\ nr_Blocked r = nr_Blocked r0 /\
  nr_Reason r = nr_Reason r0.
Proof.
  intros (Hd & Hk & Ha & _). cbv zeta. unfold settled. destruct (last (ns_keys s)) as [k|] eqn:E.
  - rewrite bool_decide_true by (intros H0; by rewrite H0 in E). destruct (ns_ran s); [case_match|]; by split_and!.
  - apply last_None in E. rewrite E. by split_and!.
Qed.

Lemma settled_ran s a : plain s -> ns_keys s <> [] -> ns_ran s = Some a -> keyOf (ranWith (settled s)) = keyOf a.
Proof.
  intros (Hd & Hk & Ha & _) Hne Hr. unfold settled. destruct (last (ns_keys s)) eqn:E; [|by apply last_None in E].
  rewrite Hr. destruct (Hash.sameJSON a (bytesOf (nr_Args (ns_rec s)))) eqn:Hs; unfold ranWith; rewrite keyOf_orEmpty; cbn; [|done].
  upd. rewrite Ha. cbn. symmetry. by apply sameJSON_key.
Qed.

(** What an attempt's notes make of a call's state. *)
Definition attempted (p : callState) (st : ToolStart) (te : ToolEnd) (s : nestState) : nestState :=
  let r := (ns_rec s) <| nr_Args ::= firstArgs (nestedStart st) |> in
  MkNest (if c_cut p then r else endedBy (nestedEnd te) r) (Batch.c_args p)
    (ns_keys s ++ if Batch.c_dispatched p then [c_key p] else []).

Lemma read_start s e : readPhase s (nestedStart e) =
  MkNest ((ns_rec s) <| nr_Args ::= firstArgs (nestedStart e) |>) (tst_Args e) (ns_keys s).
Proof. unfold readPhase. by rewrite (bool_decide_true (nc_Phase (nestedStart e) = phaseStart)). Qed.
Lemma read_handOff s d : readPhase s (nestedHandOff d) = MkNest (ns_rec s) (ns_ran s) (ns_keys s ++ [tdi_IdempotencyKey d]).
Proof.
  unfold readPhase. assert (nc_Phase (nestedHandOff d) = nestedDispatch) as -> by reflexivity.
  rewrite bool_decide_false by discriminate. by rewrite bool_decide_true.
Qed.
Lemma read_end s e : readPhase s (nestedEnd e) =
  MkNest (if te_Cut e || te_Withdrawn e then ns_rec s else endedBy (nestedEnd e) (ns_rec s)) (ns_ran s)
    (if te_Withdrawn e then removelast (ns_keys s) else ns_keys s).
Proof.
  unfold readPhase. assert (nc_Phase (nestedEnd e) = phaseEnd) as -> by reflexivity.
  rewrite 2!bool_decide_false by discriminate. by rewrite bool_decide_true.
Qed.

Lemma attempt_read args p st di te s : attempt args p st di te ->
  foldl readPhase s (attemptNotes st di te) = attempted p st te s.
Proof.
  intros [(_ & _ & _ & Ha & _) _ Hh Hd Hw _ [r Ht]]. unfold Batch.toolEnd in Ht. injection Ht as Ht.
  assert (te_Cut te = c_cut p) as Hcut by by subst te.
  assert (te_Withdrawn te = bool_decide (is_Some (c_dispatchErr p))) as Hwd by by subst te.
  clear Ht. unfold attemptNotes, attempted. destruct di as [d|]; cbn [from_option app foldl].
  - destruct (Hh d eq_refl) as [_ Hk]. rewrite read_start, read_handOff, read_end. cbn [ns_rec ns_ran ns_keys].
    rewrite Ha, Hk, Hd, Hcut, Hwd. destruct (c_dispatchErr p); cbn.
    + destruct Hw as [_ ->]; [done|]. cbn. by rewrite removelast_last, app_nil_r.
    + by rewrite orb_false_r.
  - rewrite read_start, read_end. cbn [ns_rec ns_ran ns_keys]. rewrite Ha, Hd, Hcut, Hwd.
    destruct (c_dispatchErr p); [by destruct Hw as [[? ?] _]|]. cbn. by rewrite orb_false_r, app_nil_r.
Qed.

Lemma heldState_app notes n rest : heldState (notes ++ n :: rest) = Some (foldl readPhase (default (named_ n) (heldState notes)) (n :: rest)).
Proof.
  unfold heldState. rewrite foldl_app. cbn [foldl]. generalize (readPhase (default (named_ n) (foldl (fun s m => Some (readPhase (default (named_ m) s) m)) None notes)) n) as s.
  induction rest as [|m rest IH]; intros s; [done|]. cbn [foldl]. exact (IH (readPhase s m)).
Qed.

Lemma heldState_attempt args p st di te notes : attempt args p st di te ->
  heldState (notes ++ attemptNotes st di te) = Some (attempted p st te (default (named_ (nestedStart st)) (heldState notes))).
Proof. intros Ha. rewrite <-(attempt_read args p st di te) by done. unfold attemptNotes. by rewrite heldState_app. Qed.

(** The record the loop makes of its own attempt. *)
Lemma kept_facts args p (canonical : forall a b, sameArgs a b = true -> Hash.sameJSON (bytesOf a) (bytesOf b) = true) :
  is_Some (Batch.c_args p) -> let n := nestedRecord errorText p args in
  nr_CallID n = callID (c_call p) /\ nr_Parent n = c_parent p /\ nr_Name n = Name (cr_call (c_call p)) /\ nr_Args n = args /\
  nr_Dispatched n = Batch.c_dispatched p /\ nr_Ended n = negb (c_cut p) /\
  (nr_Ended n = false -> nr_Err n = "" /\ nr_Blocked n = false /\ nr_Reason n = "") /\
  nr_IdempotencyKey n = (if Batch.c_dispatched p then c_key p else "") /\
  (Batch.c_dispatched p = true -> keyOf (ranWith n) = keyOf (bytesOf (Batch.c_args p))).
Proof.
  intros Hs. cbv zeta. unfold nestedRecord. cbv zeta. split_and!.
  1-8: by destruct (Batch.c_dispatched p), (c_cut p).
  intros Hd. rewrite Hd. unfold ranWith. rewrite keyOf_orEmpty.
  assert (forall m : NestedRecord, nr_Args m = args ->
    nr_DispatchArgs m = (if sameArgs (Batch.c_args p) (orEmpty args "") then None else Batch.c_args p) ->
    keyOf (bytesOf match nr_DispatchArgs m with Some _ => nr_DispatchArgs m | None => Some (bytesOf (nr_Args m)) end) =
    keyOf (bytesOf (Batch.c_args p))) as Hm.
  { intros m -> ->. destruct (sameArgs (Batch.c_args p) (orEmpty args "")) eqn:E.
    - apply canonical, sameJSON_key in E. rewrite keyOf_orEmpty in E. rewrite E. by destruct args.
    - by destruct Hs as [a ->]. }
  by destruct (c_cut p); apply Hm.
Qed.

Lemma attempted_plain p st te s : plain s -> plain (attempted p st te s).
Proof.
  intros (Hd & Hk & Ha & He). unfold attempted, plain. cbv zeta. cbn [ns_rec].
  destruct (c_cut p); split_and!; try done; exact He.
Qed.

Lemma firstArgs_key args p st di te x : attempt args p st di te -> (forall a, x = Some a -> keyOf a = keyOf (bytesOf args)) ->
  keyOf (bytesOf (firstArgs (nestedStart st) x)) = keyOf (bytesOf args).
Proof.
  intros [(_ & _ & _ & Ha & Hi) [[a ->] [b Hb]] _ _ _ _ _] Hx. destruct x as [x|]; [by apply Hx|]. unfold firstArgs.
  change (nc_Invoked (nestedStart st)) with (if bool_decide (is_Some (tst_Invoked st)) &&
    negb (Hash.sameJSON (bytesOf (tst_Invoked st)) (bytesOf (tst_Args st))) then tst_Invoked st else None).
  change (nc_Args (nestedStart st)) with (tst_Args st). rewrite Hi, Ha, Hb. cbn.
  destruct (Hash.sameJSON a b) eqn:E; cbn; [|done]. symmetry. by apply sameJSON_key.
Qed.

(** What is read of a call once an attempt at it is noted. *)
Lemma attempted_facts args p st di te s : attempt args p st di te -> plain s ->
  (forall a, nr_Args (ns_rec s) = Some a -> keyOf a = keyOf (bytesOf args)) ->
  let r := settled (attempted p st te s) in
  nr_CallID r = nr_CallID (ns_rec s) /\ nr_Parent r = nr_Parent (ns_rec s) /\ nr_Name r = nr_Name (ns_rec s) /\
  keyOf (bytesOf (nr_Args r)) = keyOf (bytesOf args) /\
  nr_Dispatched r = Batch.c_dispatched p || bool_decide (ns_keys s <> []) /\
  nr_IdempotencyKey r = (if Batch.c_dispatched p then c_key p else default "" (last (ns_keys s))) /\
  (nr_Dispatched r = true -> keyOf (ranWith r) = keyOf (bytesOf (Batch.c_args p))).
Proof.
  intros Ha Hs Hx. cbv zeta. pose proof (attempted_plain p st te s Hs) as Hp.
  destruct (settled_facts _ Hp) as (-> & -> & -> & -> & -> & -> & _). split_and!.
  1-3: unfold attempted; cbv zeta; cbn [ns_rec]; by destruct (c_cut p).
  - rewrite <-(firstArgs_key args p st di te _ Ha Hx). unfold attempted. cbv zeta. cbn [ns_rec]. by destruct (c_cut p).
  - unfold attempted. cbn [ns_keys]. destruct (Batch.c_dispatched p); [|by rewrite app_nil_r]. cbn.
    apply bool_decide_true. by destruct (ns_keys s).
  - unfold attempted. cbn [ns_keys]. destruct (Batch.c_dispatched p); [by rewrite last_snoc|by rewrite app_nil_r].
  - rewrite bool_decide_eq_true. intros Hk. destruct Ha as [_ [_ [b Hb]] _ _ _ _ _]. rewrite Hb. cbn. by apply settled_ran.
Qed.

Lemma ended_result e r : nr_Result (endedBy (nestedEnd e) r) = recorded (te_Result e).
Proof.
  change (nr_Result (endedBy (nestedEnd e) r)) with {| res_Output := res_Output (te_Result e); res_Terminate := res_Terminate (te_Result e);
    res_Details := match match RecordOf (res_Details (te_Result e)) with
      inl (Some (ns, data)) => Some {| nd_NS := ns; nd_Data := data |} | _ => None end with
      Some d => recordedDetails (nd_NS d) (nd_Data d) | None => None end |}.
  unfold recorded. f_equal. by destruct (RecordOf _) as [[[ns data]|]|].
Qed.
Lemma ended_reason e r : nr_Reason (endedBy (nestedEnd e) r) = if te_Blocked e then te_Reason e else "".
Proof. done. Qed.

(** How it ended: as the attempt did, or, when that was cut off, as it was. *)
Lemma attempted_end args p st di te s : attempt args p st di te -> plain s ->
  let r := settled (attempted p st te s) in let n := nestedRecord errorText p args in
  if c_cut p
  then nr_Ended r = nr_Ended (ns_rec s) /\ nr_Err r = nr_Err (ns_rec s) /\ nr_Blocked r = nr_Blocked (ns_rec s) /\
    nr_Reason r = nr_Reason (ns_rec s) /\ nr_Result r = nr_Result (ns_rec s)
  else nr_Ended r = true /\ nr_Err r = nr_Err n /\ nr_Blocked r = nr_Blocked n /\ nr_Reason r = nr_Reason n /\
    nr_Result r = recorded (nr_Result n).
Proof.
  intros Ha Hs. cbv zeta. pose proof (attempted_plain p st te s Hs) as Hp.
  destruct (settled_facts _ Hp) as (_ & _ & _ & _ & _ & _ & -> & -> & -> & -> & ->). unfold attempted. cbv zeta. cbn [ns_rec].
  destruct Ha as [_ _ _ _ _ Hr [r Ht]]. unfold Batch.toolEnd in Ht. injection Ht as <-.
  unfold nestedRecord. destruct (c_cut p); [done|]. cbv zeta. rewrite ended_result, ended_reason. cbn [te_Result te_Blocked te_Reason].
  split_and!; try by destruct (Batch.c_dispatched p), (c_err p).
  - destruct (c_blocked p); [|rewrite Hr by done]; by destruct (Batch.c_dispatched p).
Qed.

(** One record brought up to date by another of its call. *)
Definition updateOne (n o : NestedRecord) : NestedRecord :=
  if nr_Dispatched n || nr_Ended n
  then if nr_Dispatched n then n
    else n <| nr_Dispatched := nr_Dispatched o |> <| nr_IdempotencyKey := nr_IdempotencyKey o |> <| nr_DispatchArgs := nr_DispatchArgs o |>
  else o.
Lemma updateNested_one n o : nr_CallID o = nr_CallID n -> updateNested n [o] = [updateOne n o].
Proof. intros Hid. cbn [updateNested]. by rewrite (bool_decide_true (nr_CallID o = nr_CallID n) Hid). Qed.

Definition blankOpen (n : NestedRecord) : Prop :=
  nr_Ended n = false -> nr_Err n = "" /\ nr_Blocked n = false /\ nr_Reason n = "".
Lemma updateOne_facts n o : nr_CallID n = nr_CallID o -> nr_Parent n = nr_Parent o -> nr_Name n = nr_Name o ->
  keyOf (bytesOf (nr_Args n)) = keyOf (bytesOf (nr_Args o)) -> blankOpen n -> blankOpen o -> nr_Ended o = false ->
  let u := updateOne n o in
  nr_CallID u = nr_CallID o /\ nr_Parent u = nr_Parent o /\ nr_Name u = nr_Name o /\
  keyOf (bytesOf (nr_Args u)) = keyOf (bytesOf (nr_Args o)) /\
  nr_Dispatched u = nr_Dispatched n || nr_Dispatched o /\
  nr_IdempotencyKey u = (if nr_Dispatched n then nr_IdempotencyKey n else nr_IdempotencyKey o) /\
  keyOf (ranWith u) = keyOf (ranWith (if nr_Dispatched n then n else o)) /\
  nr_Ended u = nr_Ended n /\ nr_Err u = nr_Err n /\ nr_Blocked u = nr_Blocked n /\ nr_Reason u = nr_Reason n /\
  (nr_Ended n = true -> nr_Result u = nr_Result n).
Proof.
  intros Hid Hpar Hname Hargs Hn Ho Hopen. cbv zeta. unfold updateOne.
  destruct (nr_Dispatched n) eqn:Hd; cbn [orb]; [by rewrite Hd|]. destruct (nr_Ended n) eqn:He.
  - split_and!; try done. unfold ranWith. rewrite !keyOf_orEmpty. upd. by destruct (nr_DispatchArgs o).
  - destruct (Hn He) as (-> & -> & ->), (Ho Hopen) as (-> & -> & ->). by rewrite Hopen.
Qed.

Lemma nestedRecord_end args p : let n := nestedRecord errorText p args in
  if c_cut p then nr_Ended n = false /\ nr_Err n = "" /\ nr_Blocked n = false /\ nr_Reason n = "" else nr_Ended n = true.
Proof. cbv zeta. unfold nestedRecord. by destruct (c_cut p), (Batch.c_dispatched p). Qed.

Lemma attempted_agrees args p st di te s kept : attempt args p st di te -> plain s -> nr_Ended (ns_rec s) = false ->
  (forall a, nr_Args (ns_rec s) = Some a -> keyOf a = keyOf (bytesOf args)) ->
  nr_CallID kept = nr_CallID (ns_rec s) -> nr_Parent kept = nr_Parent (ns_rec s) -> nr_Name kept = nr_Name (ns_rec s) ->
  keyOf (bytesOf (nr_Args kept)) = keyOf (bytesOf args) ->
  nr_Dispatched kept = Batch.c_dispatched p || bool_decide (ns_keys s <> []) ->
  nr_IdempotencyKey kept = (if Batch.c_dispatched p then c_key p else default "" (last (ns_keys s))) ->
  (nr_Dispatched kept = true -> keyOf (ranWith kept) = keyOf (bytesOf (Batch.c_args p))) ->
  (let n := nestedRecord errorText p args in nr_Ended kept = nr_Ended n /\ nr_Err kept = nr_Err n /\
    nr_Blocked kept = nr_Blocked n /\ nr_Reason kept = nr_Reason n /\ (nr_Ended n = true -> nr_Result kept = nr_Result n)) ->
  agrees (settled (attempted p st te s)) kept.
Proof.
  intros Ha Hs Hopen Hx Hid Hpar Hname Hargs Hd Hk Hran (He & Herr & Hb & Hr & Hres).
  destruct (attempted_facts args p st di te s Ha Hs Hx) as (Rid & Rpar & Rname & Rargs & Rd & Rk & Rran).
  pose proof (attempted_end args p st di te s Ha Hs) as Rend. cbv zeta in Rend.
  unfold agrees. rewrite sameJSON_key, sameJSON_key, Rid, Rpar, Rname, Rargs, Rd, Rk, Hid, Hpar, Hname, Hargs, Hd, Hk.
  rewrite Rd in Rran. rewrite Hd in Hran. split_and!; try done.
  1: intros Hdd; by rewrite (Rran Hdd), (Hran Hdd).
  all: rewrite ?He, ?Herr, ?Hb, ?Hr; clear He Herr Hb Hr.
  all: pose proof (nestedRecord_end args p) as Hn; destruct Hs as (_ & _ & _ & Hblank), (Hblank Hopen) as (Eerr & Eb & Er).
  all: destruct (c_cut p); [destruct Rend as (R1 & R2 & R3 & R4 & _), Hn as (N1 & N2 & N3 & N4)|destruct Rend as (R1 & R2 & R3 & R4 & R5)].
  all: try congruence. intros _. by rewrite R5, Hres.
Qed.


(** ** Where the records stand *)

(** The calls a path names, in the order it first does. *)
Definition named (path : list entry) : list string := (readNotes (omap nestedNote path)).2.
Definition callsOf (path : list entry) : gmap string nestState := (readNotes (omap nestedNote path)).1.

Lemma named_spec path : NoDup (named path) /\ forall id, id ∈ named path <-> is_Some (callsOf path !! id).
Proof.
  unfold named, callsOf, readNotes. generalize (omap nestedNote path) as l. induction l as [|n l [IH1 IH2]] using rev_ind.
  - split; [apply NoDup_nil_2|]. intros id. cbn. rewrite lookup_empty. split; [by intros ?%not_elem_of_nil|by intros [? ?]].
  - rewrite foldl_app. cbn. destruct (foldl readNote (∅, []) l) as [m order]. cbn in *. unfold readNote. cbn.
    destruct (m !! nc_CallID n) eqn:E; cbn.
    + split; [done|]. intros id. rewrite IH2. rewrite lookup_insert_is_Some'. split; [by right|]. intros [<-|]; [by eexists|done].
    + split.
      * apply NoDup_app. split_and!; [done| |apply NoDup_singleton]. intros id Hid ->%list_elem_of_singleton.
        apply IH2 in Hid as [s Hs]. congruence.
      * intros id. rewrite elem_of_app, list_elem_of_singleton, IH2, lookup_insert_is_Some'. naive_solver.
Qed.

Lemma held_calls path id : held id path = settled <$> callsOf path !! id.
Proof. unfold held, heldRecord, callsOf. by rewrite readNotes_held. Qed.

(** The call of the path a nested call was made under. *)
Definition rootOf (path : list entry) (id : string) : string :=
  climb (callsOf path) (length (named path)) (from_option (fun s => nr_Parent (ns_rec s)) "" (callsOf path !! id)).

Lemma putUnder_all l out root : default [] (foldl putUnder out l !! root) =
  default [] (out !! root) ++ map snd (filter (fun x : string * NestedRecord => x.1 = root) l).
Proof.
  revert out. induction l as [|[r n] l IH]; intros out; cbn [foldl]; [by rewrite app_nil_r|]. rewrite IH. unfold putUnder. cbn [fst snd].
  destruct (decide (r = root)) as [->|Hne].
  - rewrite filter_cons_True by done. rewrite lookup_insert_eq. cbn. by rewrite <-app_assoc.
  - rewrite filter_cons_False by done. by rewrite lookup_insert_ne.
Qed.

Lemma settled_parent s : nr_Parent (settled s) = nr_Parent (ns_rec s).
Proof. unfold settled. by repeat case_match. Qed.

Lemma nestedRecords_under path root : default [] (nestedRecords path !! root) =
  omap (fun id => held id path) (filter (fun id => rootOf path id = root) (named path)).
Proof.
  destruct (named_spec path) as [_ Hin]. unfold nestedRecords, rootOf. unfold named, callsOf in *.
  destruct (readNotes (omap nestedNote path)) as [m order] eqn:E. cbn [fst snd] in *.
  rewrite putUnder_all, lookup_empty. cbn [default app].
  assert (forall ids, (forall id, id ∈ ids -> is_Some (m !! id)) ->
    map snd (filter (fun x : string * NestedRecord => x.1 = root) (omap (underRoot m order) ids)) =
    omap (fun id => held id path)
      (filter (fun id => climb m (length order) (from_option (fun s => nr_Parent (ns_rec s)) "" (m !! id)) = root) ids)) as Hids.
  { induction ids as [|id ids IH]; [done|]. intros Hs. destruct (Hs id) as [s E']; [left|].
    specialize (IH ltac:(intros; apply Hs; by right)). cbn [omap list_omap]. unfold underRoot at 1. rewrite E'. cbn [mbind option_bind].
    assert (held id path = Some (settled s)) as Hh by (rewrite held_calls; unfold callsOf; by rewrite E; cbn; rewrite E').
    destruct (decide (climb m (length order) (nr_Parent (ns_rec s)) = root)) as [Hr|Hr].
    all: rewrite !filter_cons; cbn [fst]; rewrite E'; cbn [from_option].
    - rewrite !decide_True by done. cbn [map omap list_omap]. rewrite Hh. f_equal. exact IH.
    - by rewrite !decide_False. }
  apply Hids. intros id Hid. by apply Hin.
Qed.

(** Climbing past a call takes another call. *)
Lemma climb_chain (m : gmap string nestState) (rank : string -> nat) fuel root :
  (forall id s, m !! id = Some s -> (rank (nr_Parent (ns_rec s)) < rank id)%nat) ->
  is_Some (m !! climb m fuel root) ->
  exists chain, length chain = S fuel /\ NoDup chain /\ forall id, id ∈ chain -> is_Some (m !! id) /\ (rank id <= rank root)%nat.
Proof.
  intros Hrank. revert root. induction fuel as [|fuel IH]; intros root; cbn [climb].
  - intros Hs. exists [root]. split_and!; [done|apply NoDup_singleton|]. by intros id ->%list_elem_of_singleton.
  - destruct (m !! root) as [up|] eqn:E; [|by rewrite E; intros [? ?]]. intros Hs.
    destruct (IH _ Hs) as (chain & Hl & Hn & Hc). exists (root :: chain). pose proof (Hrank _ _ E) as Hlt. split_and!; [cbn; lia| |].
    + apply NoDup_cons. split; [|done]. intros [_ Hin]%Hc. lia.
    + intros id [->|[? ?]%Hc]%elem_of_cons; [split; [by eexists|lia]|split; [done|lia]].
Qed.

(** C40: the readers give each nested call of a path once, with the others made under the
    same call of the path, in the order the path first names them; the call they stand
    under is not itself a nested call, however deep they were made, unless the path has a
    call made under itself. *)
Theorem nested_each_once path :
  NoDup (named path) /\ (forall id, id ∈ named path <-> is_Some (held id path)) /\
  (forall root, default [] (nestedRecords path !! root) =
    omap (fun id => held id path) (filter (fun id => rootOf path id = root) (named path))) /\
  forall rank : string -> nat,
    (forall id n, held id path = Some n -> (rank (nr_Parent n) < rank id)%nat) ->
    forall id, id ∈ named path -> held (rootOf path id) path = None.
Proof.
  destruct (named_spec path) as [Hn Hin].
  assert (forall id, is_Some (callsOf path !! id) <-> is_Some (held id path)) as Hsome.
  { intros id. rewrite held_calls. by rewrite fmap_is_Some. }
  split_and!; [done|intros id; by rewrite Hin| |].
  - exact (nestedRecords_under path).
  - intros rank Hrank id [s Hs]%Hin. destruct (held (rootOf path id) path) eqn:E; [|done]. exfalso.
    destruct (climb_chain (callsOf path) rank (length (named path)) (nr_Parent (ns_rec s))) as (chain & Hl & Hnd & Hc).
    + intros id' s' Hs'.
      rewrite <-settled_parent. apply (Hrank id'). by rewrite held_calls, Hs'.
    + apply Hsome. unfold rootOf in E. rewrite Hs in E. cbn in E. by rewrite E.
    + assert (chain ⊆+ named path) as Hsub%submseteq_length; [|lia].
      apply NoDup_submseteq; [done|]. intros x [Hx _]%Hc. by apply Hin.
Qed.

End Agreement.
