(* ===== verification/RereadToy.v ===== *)
(** * RereadToy: a nested call read back from concrete paths

    A call handed to its tool and cut off, run again under its key and ended; and what the
    readers make of three attempts the writer's notes do not say enough of. *)

From stdpp Require Import pretty.
From S2P Require Export RecordToy Reread.

Module RereadToy.
Import Toy RecordToy.
#[local] Existing Instance externals.

(** ** The attempts: of one call, by the arguments it ran with and the key it was handed
    over with; whether the writer was told of the hand-off, and whether it was refused. *)
Definition said_ (invoked ran : raw) : ToolStart := {| tst_RunID := "r"; tst_Turn := 1; tst_CallID := "n"; tst_Name := "tool";
  tst_Args := ran; tst_Decision := None; tst_Parent := "c"; tst_Invoked := invoked; tst_Replayed := false |}.
Definition handed_ : ToolDispatch := {| tdi_RunID := "r"; tdi_Turn := 1; tdi_CallID := "n"; tdi_Name := "tool"; tdi_Parent := "c";
  tdi_IdempotencyKey := "k" |}.
Definition result_ : Result := {| res_Output := {| Text_ := "4"; Parts := [] |}; res_Terminate := false; res_Details := None |}.
Definition call_ (ran : raw) (handed refused cut : bool) : callState := {|
  c_call := {| cr_ptr := 1; cr_call := {| ID := ""; CallID := "n"; Name := "tool"; Arguments := ""; CallStatus := "" |} |};
  c_tool := None; Batch.c_args := ran; Batch.c_result := if cut then noResult else result_; c_err := None; c_blocked := false;
  c_settled := true; c_deferred := false; c_cut := cut; Batch.c_ended := true; c_terminate := false;
  c_dispatchErr := if refused then Some (Errorf "refused") else None; c_parent := "c"; c_turn := 1; c_appended := false;
  c_notes := []; c_reason := ""; c_key := "k"; Batch.c_dispatched := handed; c_after := []; c_done := None |}.
Definition over (p : callState) : ToolEnd := {| te_RunID := "r"; te_Turn := 1; te_CallID := "n"; te_Name := "tool";
  te_Result := Batch.c_result p; te_Err := c_err p; te_Blocked := false; te_Deferred := false; te_Reason := ""; te_Parent := "c";
  te_Withdrawn := bool_decide (is_Some (c_dispatchErr p)); te_Cut := c_cut p; te_Replayed := false |}.

(** Handed over with other arguments than it was invoked with, and cut off. *)
Definition first_ : callState := call_ (Some "[1]") true false true.
Definition firstNotes : list NestedCall := attemptNotes (said_ (Some "{}") (Some "[1]")) (Some handed_) (over first_).
(** Run again and ended. *)
Definition again_ : callState := call_ (Some "[1]") true false false.
Definition againNotes : list NestedCall := attemptNotes (said_ (Some "{}") (Some "[1]")) (Some handed_) (over again_).
(** Run again with other arguments, and cut off before it was handed over. *)
Definition other_ : callState := call_ (Some "[2]") false false true.
Definition otherNotes : list NestedCall := attemptNotes (said_ (Some "{}") (Some "[2]")) None (over other_).
(** Run again, its hand-off refused before the writer was told of it. *)
Definition untold_ : callState := call_ (Some "[1]") false true true.
Definition untoldNotes : list NestedCall := attemptNotes (said_ (Some "{}") (Some "[1]")) None (over untold_).
(** Invoked with no arguments, and handed over with those a decision gave it. *)
Definition bareNotes : list NestedCall := attemptNotes (said_ None (Some "[1]")) (Some handed_) (over first_).

(** ** Paths of them *)
Definition book : list NestedCall := firstNotes ++ againNotes ++ otherNotes ++ untoldNotes ++ bareNotes.
#[export] Instance reading : Reading := {|
  decodeNested s := snd <$> (list_find (fun x : string * NestedCall => x.1 = s) (imap (fun i n => (pretty i, n)) book) ≫= fun r => Some r.2);
  decodeWithdrawn _ := None; decodeElicitation _ := None; decodeCallID _ := None; decodeFold _ := None; recordedDetails _ _ := None |}.
Definition noted_ (from n : nat) : list entry := map (fun i => ECustom {| cu_NS := NestedCallNS; cu_Data := pretty i; cu_CallID := "c";
  cu_ResponseID := None |}) (seq from n).
Definition path1 : list entry := noted_ 0 3.
Definition path2 : list entry := noted_ 0 6.

Lemma canonical_toy (a b : raw) : sameArgs a b = true -> Hash.sameJSON (bytesOf a) (bytesOf b) = true.
Proof. unfold sameArgs. cbn. rewrite bool_decide_eq_true. intros ->. by apply sameJSON_key. Qed.

(** A run that has done nothing. *)
Definition idle : runner := {|
  transcript := []; runID := "r"; notes := []; reported := []; roots := ∅; callNotes := ∅; noteKeys := []; batchCalls := ∅;
  Runner.recorded := ∅; nestedRan := ∅; turn := 1; added := []; mark := 0; arrived := []; deferred := ∅; callTools := ∅;
  undispatched := ∅; Runner.dispatched := ∅; approved := ∅; ctxReserved := ∅; reasoning := ∅; persons := ∅; heldItems := []; callAt := ∅;
  callItems := ∅; decided := ∅; Runner.opened := [] |}.
Lemma again_attempt : attempt (Some "{}") again_ (said_ (Some "{}") (Some "[1]")) (Some handed_) (over again_).
Proof. split; try done; [by intros d [= <-]|by intros [? ?]|by exists idle]. Qed.
Lemma again_repeats o : held "n" path1 = Some o -> repeats o (Some "{}") again_.
Proof. intros Ho. vm_compute in Ho. injection Ho as <-. by split_and!. Qed.

Lemma again_noted : notesOf "n" path2 = notesOf "n" path1 ++ againNotes.
Proof. by vm_compute. Qed.
Lemma again_ended : (nr_Ended <$> held "n" path2) = Some true.
Proof. by vm_compute. Qed.


(** Each call once, under the call of the path it was made under. *)
Definition depth (id : string) : nat := if bool_decide (id = "n") then 1 else 0.
Lemma path1_ranked id n : held id path1 = Some n -> (depth (nr_Parent n) < depth id)%nat.
Proof.
  intros Hh. assert (id ∈ Reread.named path1) as Hin.
  { destruct (named_spec path1) as [_ Hs]. apply Hs. rewrite held_calls in Hh. destruct (callsOf path1 !! id) as [s|]; [by exists s|done]. }
  assert (Reread.named path1 = ["n"]) as Hn by by vm_compute. rewrite Hn in Hin. apply list_elem_of_singleton in Hin as ->.
  assert (nr_Parent <$> held "n" path1 = Some "c") as Hp by by vm_compute. rewrite Hh in Hp. injection Hp as ->. vm_compute. lia.
Qed.
Example nested_each_once_witness :
  Reread.named path1 = ["n"] /\ length (default [] (nestedRecords path1 !! "c")) = 1%nat /\ held (rootOf path1 "n") path1 = None.
Proof.
  destruct (nested_each_once path1) as (_ & _ & _ & Hr). split_and!; [by vm_compute|by vm_compute|].
  apply (Hr depth path1_ranked). assert (Reread.named path1 = ["n"]) as -> by by vm_compute. by left.
Defined.

(** A tool taken away, one redefined and one moved to the end. *)
Definition tool_ : Type := (string * Z)%type.
Definition before_ : list tool_ := [("a", 1); ("b", 1); ("c", 1); ("d", 1)]%Z.
Definition after_ : list tool_ := [("b", 1); ("d", 2); ("a", 1)]%Z.
Definition replay_ (prev added : list tool_) (removed : list string) : list tool_ :=
  filter (fun t => t.1 ∉ map fst added /\ t.1 ∉ removed) prev ++ added.
Example toolDelta_replays_witness :
  toolDelta fst before_ after_ = ([("d", 2); ("a", 1)]%Z, ["c"]) /\
  replay_ before_ (toolDelta fst before_ after_).1 (toolDelta fst before_ after_).2 = after_.
Proof.
  split; [by vm_compute|]. apply (toolDelta_replays fst replay_ before_ after_); [by intros ? ? ?| |].
  all: vm_compute; repeat (apply NoDup_cons; split; [by set_solver|]); apply NoDup_nil_2.
Defined.

(** ** What the notes do not say *)

Definition readBack (notes : list NestedCall) : option NestedRecord := Reread.heldRecord notes.
Definition keeps (before : list NestedCall) (p : callState) (args : raw) : list NestedRecord :=
  updateNested (nestedRecord errorText p args) (option_list (readBack before)).

(** A hand-off refused before the recorder was told of it withdraws the hand-off before
    it: the call may have run, under the key the loop keeps, and reads as never handed
    over. *)
Example withdrawal_of_another :
  (nr_Dispatched <$> readBack firstNotes) = Some true /\
  (nr_Dispatched <$> readBack (firstNotes ++ untoldNotes)) = Some false /\
  map nr_Dispatched (keeps firstNotes untold_ (Some "{}")) = [true] /\
  map nr_IdempotencyKey (keeps firstNotes untold_ (Some "{}")) = ["k"].
Proof. by vm_compute. Qed.

(** An attempt cut off before it was handed over takes the place of the arguments the
    call was handed over with, under the key that stands. *)
Example arguments_of_another :
  (ranWith <$> readBack firstNotes) = Some "[1]" /\
  (ranWith <$> readBack (firstNotes ++ otherNotes)) = Some "[2]" /\
  (nr_IdempotencyKey <$> readBack (firstNotes ++ otherNotes)) = Some "k" /\
  map ranWith (keeps firstNotes other_ (Some "{}")) = ["[1]"].
Proof. by vm_compute. Qed.

(** A call invoked with no arguments, given some by a decision, is read back as one
    invoked with those: its invocation again is not matched with it. *)
Example invoked_with_none :
  (invokes "tool" None <$> readBack bareNotes) = Some false /\
  map (invokes "tool" None) (keeps [] first_ None) = [true].
Proof. by vm_compute. Qed.

End RereadToy.
